(** * PIQP: the proximal interior-point driver of [piqp/solver.hpp]

    A shallow embedding of [SolverBase] (setup of the compressed box
    bounds, [solve], [solve_impl], [update_nr_residuals],
    [unscale_results], [restore_box_dual]) and the properties of the
    driver that the specification states.

    The C++ class is a template over its scalar type [T], over the
    preconditioner and over the KKT back-end.  The embedding keeps the
    three of them abstract: scalars are a type class of operations,
    the preconditioner and the KKT operator are records of functions.
    Statements about the control flow hold for every instance.  Two
    scalar types are given: IEEE binary64, on which the program runs, and
    the rationals, its exact arithmetic.  A statement that needs
    arithmetic laws is proved for the rationals and says so; where
    rounding breaks it, a run at binary64 shows the difference. *)

From Stdlib Require Import ZArith QArith Qabs Lia Lqa Bool.
From Corelib Require PrimFloat FloatOps SpecFloat.
From stdpp Require Import base list.

Set Implicit Arguments.
Unset Strict Implicit.
Set Default Proof Using "Type".

(** ** Scalars *)

(** The operations the driver performs on values of type [T]. *)
Class Scalar (T : Type) : Type := {
  sc_of_Z : Z -> T;            (* T(k) for an integer k *)
  sc_add : T -> T -> T;
  sc_sub : T -> T -> T;
  sc_mul : T -> T -> T;
  sc_div : T -> T -> T;
  sc_opp : T -> T;
  sc_abs : T -> T;             (* std::abs *)
  sc_ltb : T -> T -> bool;     (* a < b *)
  sc_leb : T -> T -> bool;     (* a <= b *)
  sc_eqb : T -> T -> bool;     (* a == b *)
  sc_infinity : T              (* std::numeric_limits<T>::infinity() *)
}.

Declare Scope sc_scope.
Delimit Scope sc_scope with sc.
Infix "+" := sc_add : sc_scope.
Infix "-" := sc_sub : sc_scope.
Infix "*" := sc_mul : sc_scope.
Infix "/" := sc_div : sc_scope.
Notation "- a" := (sc_opp a) : sc_scope.
Infix "<?" := sc_ltb : sc_scope.
Infix "<=?" := sc_leb : sc_scope.
Infix "=?" := sc_eqb : sc_scope.

Section ScalarOps.
Context {T : Type} `{Scalar T}.

(** A decimal literal [a / b], e.g. [1e-4] is [sc_dec 1 10000]. *)
Definition sc_dec (a b : Z) : T := (sc_of_Z a / sc_of_Z b)%sc.

Definition sc_zero : T := sc_of_Z 0.
Definition sc_one : T := sc_of_Z 1.

(** [a > b] *)
Definition sc_gtb (a b : T) : bool := (b <? a)%sc.
(** [a != b] *)
Definition sc_neqb (a b : T) : bool := negb (a =? b)%sc.

(** [std::max(a, b)] is [(a < b) ? b : a]. *)
Definition sc_max (a b : T) : T := if (a <? b)%sc then b else a.
(** [std::min(a, b)] is [(b < a) ? b : a]. *)
Definition sc_min (a b : T) : T := if (b <? a)%sc then b else a.

(** [PIQP_INF], the sentinel of a disabled bound. *)
Definition PIQP_INF : T := sc_of_Z (10 ^ 30).
End ScalarOps.

(** ** Vectors and matrices

    An Eigen vector is a list; a matrix is the list of its rows. *)

Section Vectors.
Context {T : Type} `{Scalar T}.

(** [v.setConstant(c)] *)
Definition setConstant (c : T) (v : list T) : list T := replicate (length v) c.
(** [v.setZero()] *)
Definition setZero (v : list T) : list T := setConstant sc_zero v.

Definition vneg (v : list T) : list T := map sc_opp v.
Definition vadd (u v : list T) : list T := zip_with sc_add u v.
Definition vsub (u v : list T) : list T := zip_with sc_sub u v.
Definition vmul (u v : list T) : list T := zip_with sc_mul u v.   (* array product *)
Definition vscale (a : T) (v : list T) : list T := map (sc_mul a) v.
Definition vshift (v : list T) (a : T) : list T := map (fun x => (x + a)%sc) v. (* v.array() + a *)

(** [v.sum()]; zero on the empty vector. *)
Definition vsum (v : list T) : T :=
  match v with
  | [] => sc_zero
  | a :: r => fold_left sc_add r a
  end.

(** [u.dot(v)] *)
Definition dot (u v : list T) : T := vsum (vmul u v).

(** [v.lpNorm<Eigen::Infinity>()]; zero on the empty vector. *)
Definition lpNorm_inf (v : list T) : T :=
  match v with
  | [] => sc_zero
  | a :: r => fold_left (fun acc b => sc_max acc (sc_abs b)) r (sc_abs a)
  end.

(** [v.minCoeff()]; only called on non-empty vectors. *)
Definition minCoeff (v : list T) : T :=
  match v with
  | [] => sc_zero
  | a :: r => fold_left sc_min r a
  end.

(** [v.head(k)] read, and [v.head(k) = w] written. *)
Definition vhead (k : nat) (v : list T) : list T := take k v.
Definition set_head (k : nat) (w v : list T) : list T := take k w ++ drop k v.
(** [v.tail(k).setConstant(c)] *)
Definition fill_tail {A : Type} (k : nat) (c : A) (v : list A) : list A :=
  take (length v - k) v ++ replicate k c.

(** [M * v] *)
Definition mat_vec (M : list (list T)) (v : list T) : list T := map (fun row => dot row v) M.
(** [M.transpose()], for a matrix with [cols] columns. *)
Definition transpose (cols : nat) (M : list (list T)) : list (list T) :=
  map (fun j => map (fun row => default sc_zero (row !! j)) M) (seq 0 cols).
(** [M.triangularView<Eigen::StrictlyLower>()] *)
Definition strictly_lower (M : list (list T)) : list (list T) :=
  imap (fun i row => imap (fun j a => if (j <? i)%nat then a else sc_zero) row) M.
(** [M.triangularView<Eigen::Upper>()] *)
Definition upper (M : list (list T)) : list (list T) :=
  imap (fun i row => imap (fun j a => if (i <=? j)%nat then a else sc_zero) row) M.

(** [dx.setZero(); for i < k: dx(idx(i)) = w(i)], the loop in index order. *)
Fixpoint scatter_loop (idx : list nat) (w : list T) (i k : nat) (dx : list T) : list T :=
  match k with
  | O => dx
  | S k' =>
      match idx !! i, w !! i with
      | Some j, Some a => scatter_loop idx w (S i) k' (<[j := a]> dx)
      | _, _ => scatter_loop idx w (S i) k' dx
      end
  end.
Definition scatter (idx : list nat) (w : list T) (k : nat) (dx : list T) : list T :=
  scatter_loop idx w 0 k (setZero dx).
End Vectors.

(** ** The solver state *)

Inductive Status : Type :=
  | PIQP_SOLVED
  | PIQP_MAX_ITER_REACHED
  | PIQP_PRIMAL_INFEASIBLE
  | PIQP_DUAL_INFEASIBLE
  | PIQP_NUMERICS
  | PIQP_UNSOLVED
  | PIQP_INVALID_SETTINGS.

#[global] Instance Status_eq_dec : EqDecision Status.
Proof. solve_decision. Defined.

(** [Settings<T>] ([compute_timings] apart; the timer is not modelled). *)
Record Settings (T : Type) : Type := Build_Settings {
  rho_init : T;
  delta_init : T;
  feas_tol_abs : T;
  feas_tol_rel : T;
  dual_tol : T;
  reg_lower_limit : T;
  max_iter : Z;
  max_factor_retires : Z;
  preconditioner_iter : Z;
  tau : T;
  verbose : bool
}.

(** [Result<T>::info], without the timings. *)
Record Info (T : Type) : Type := Build_Info {
  status : Status;
  iter : Z;
  rho : T;
  delta : T;
  mu : T;
  sigma : T;
  primal_step : T;
  dual_step : T;
  primal_inf : T;
  dual_inf : T;
  reg_limit : T;
  factor_retires : Z;
  no_primal_update : Z;
  no_dual_update : Z
}.
(** [Result<T>]: the iterate, the proximal centres and the info block. *)
Record Result (T : Type) : Type := Build_Result {
  x : list T;
  y : list T;
  z : list T;
  z_lb : list T;
  z_ub : list T;
  s : list T;
  s_lb : list T;
  s_ub : list T;
  zeta : list T;
  lambda : list T;
  nu : list T;
  nu_lb : list T;
  nu_ub : list T;
  info : Info T
}.
(** [Data<T>]: the stored problem with its compressed box bounds. *)
Record Data (T : Type) : Type := Build_Data {
  n : nat;
  p : nat;
  m : nat;
  n_lb : nat;
  n_ub : nat;
  P_utri : list (list T);
  AT : list (list T);
  GT : list (list T);
  c : list T;
  b : list T;
  h : list T;
  x_lb_n : list T;
  x_ub : list T;
  x_lb_idx : list nat;
  x_ub_idx : list nat
}.
(** The members of [SolverBase] ([m_timer] apart). *)
Record Solver (T PC K : Type) : Type := Build_Solver {
  m_result : Result T;
  m_settings : Settings T;
  m_data : Data T;
  m_preconditioner : PC;
  m_kkt : K;
  m_kkt_init_state : bool;
  m_setup_done : bool;
  rx : list T;
  ry : list T;
  rz : list T;
  rz_lb : list T;
  rz_ub : list T;
  rs : list T;
  rs_lb : list T;
  rs_ub : list T;
  rx_nr : list T;
  ry_nr : list T;
  rz_nr : list T;
  rz_lb_nr : list T;
  rz_ub_nr : list T;
  dx : list T;
  dy : list T;
  dz : list T;
  dz_lb : list T;
  dz_ub : list T;
  ds : list T;
  ds_lb : list T;
  ds_ub : list T;
  primal_rel_inf : T;
  dual_rel_inf : T
}.
(** Field updates. *)

Definition set_status {T : Type} (v : Status) (i0 : Info T) : Info T :=
  Build_Info v (iter i0) (rho i0) (delta i0) (mu i0) (sigma i0) (primal_step i0) (dual_step i0) (primal_inf i0) (dual_inf i0) (reg_limit i0) (factor_retires i0) (no_primal_update i0) (no_dual_update i0).
Definition set_iter {T : Type} (v : Z) (i0 : Info T) : Info T :=
  Build_Info (status i0) v (rho i0) (delta i0) (mu i0) (sigma i0) (primal_step i0) (dual_step i0) (primal_inf i0) (dual_inf i0) (reg_limit i0) (factor_retires i0) (no_primal_update i0) (no_dual_update i0).
Definition set_rho {T : Type} (v : T) (i0 : Info T) : Info T :=
  Build_Info (status i0) (iter i0) v (delta i0) (mu i0) (sigma i0) (primal_step i0) (dual_step i0) (primal_inf i0) (dual_inf i0) (reg_limit i0) (factor_retires i0) (no_primal_update i0) (no_dual_update i0).
Definition set_delta {T : Type} (v : T) (i0 : Info T) : Info T :=
  Build_Info (status i0) (iter i0) (rho i0) v (mu i0) (sigma i0) (primal_step i0) (dual_step i0) (primal_inf i0) (dual_inf i0) (reg_limit i0) (factor_retires i0) (no_primal_update i0) (no_dual_update i0).
Definition set_mu {T : Type} (v : T) (i0 : Info T) : Info T :=
  Build_Info (status i0) (iter i0) (rho i0) (delta i0) v (sigma i0) (primal_step i0) (dual_step i0) (primal_inf i0) (dual_inf i0) (reg_limit i0) (factor_retires i0) (no_primal_update i0) (no_dual_update i0).
Definition set_sigma {T : Type} (v : T) (i0 : Info T) : Info T :=
  Build_Info (status i0) (iter i0) (rho i0) (delta i0) (mu i0) v (primal_step i0) (dual_step i0) (primal_inf i0) (dual_inf i0) (reg_limit i0) (factor_retires i0) (no_primal_update i0) (no_dual_update i0).
Definition set_primal_step {T : Type} (v : T) (i0 : Info T) : Info T :=
  Build_Info (status i0) (iter i0) (rho i0) (delta i0) (mu i0) (sigma i0) v (dual_step i0) (primal_inf i0) (dual_inf i0) (reg_limit i0) (factor_retires i0) (no_primal_update i0) (no_dual_update i0).
Definition set_dual_step {T : Type} (v : T) (i0 : Info T) : Info T :=
  Build_Info (status i0) (iter i0) (rho i0) (delta i0) (mu i0) (sigma i0) (primal_step i0) v (primal_inf i0) (dual_inf i0) (reg_limit i0) (factor_retires i0) (no_primal_update i0) (no_dual_update i0).
Definition set_primal_inf {T : Type} (v : T) (i0 : Info T) : Info T :=
  Build_Info (status i0) (iter i0) (rho i0) (delta i0) (mu i0) (sigma i0) (primal_step i0) (dual_step i0) v (dual_inf i0) (reg_limit i0) (factor_retires i0) (no_primal_update i0) (no_dual_update i0).
Definition set_dual_inf {T : Type} (v : T) (i0 : Info T) : Info T :=
  Build_Info (status i0) (iter i0) (rho i0) (delta i0) (mu i0) (sigma i0) (primal_step i0) (dual_step i0) (primal_inf i0) v (reg_limit i0) (factor_retires i0) (no_primal_update i0) (no_dual_update i0).
Definition set_reg_limit {T : Type} (v : T) (i0 : Info T) : Info T :=
  Build_Info (status i0) (iter i0) (rho i0) (delta i0) (mu i0) (sigma i0) (primal_step i0) (dual_step i0) (primal_inf i0) (dual_inf i0) v (factor_retires i0) (no_primal_update i0) (no_dual_update i0).
Definition set_factor_retires {T : Type} (v : Z) (i0 : Info T) : Info T :=
  Build_Info (status i0) (iter i0) (rho i0) (delta i0) (mu i0) (sigma i0) (primal_step i0) (dual_step i0) (primal_inf i0) (dual_inf i0) (reg_limit i0) v (no_primal_update i0) (no_dual_update i0).
Definition set_no_primal_update {T : Type} (v : Z) (i0 : Info T) : Info T :=
  Build_Info (status i0) (iter i0) (rho i0) (delta i0) (mu i0) (sigma i0) (primal_step i0) (dual_step i0) (primal_inf i0) (dual_inf i0) (reg_limit i0) (factor_retires i0) v (no_dual_update i0).
Definition set_no_dual_update {T : Type} (v : Z) (i0 : Info T) : Info T :=
  Build_Info (status i0) (iter i0) (rho i0) (delta i0) (mu i0) (sigma i0) (primal_step i0) (dual_step i0) (primal_inf i0) (dual_inf i0) (reg_limit i0) (factor_retires i0) (no_primal_update i0) v.

Definition set_x {T : Type} (v : list T) (r0 : Result T) : Result T :=
  Build_Result v (y r0) (z r0) (z_lb r0) (z_ub r0) (s r0) (s_lb r0) (s_ub r0) (zeta r0) (lambda r0) (nu r0) (nu_lb r0) (nu_ub r0) (info r0).
Definition set_y {T : Type} (v : list T) (r0 : Result T) : Result T :=
  Build_Result (x r0) v (z r0) (z_lb r0) (z_ub r0) (s r0) (s_lb r0) (s_ub r0) (zeta r0) (lambda r0) (nu r0) (nu_lb r0) (nu_ub r0) (info r0).
Definition set_z {T : Type} (v : list T) (r0 : Result T) : Result T :=
  Build_Result (x r0) (y r0) v (z_lb r0) (z_ub r0) (s r0) (s_lb r0) (s_ub r0) (zeta r0) (lambda r0) (nu r0) (nu_lb r0) (nu_ub r0) (info r0).
Definition set_z_lb {T : Type} (v : list T) (r0 : Result T) : Result T :=
  Build_Result (x r0) (y r0) (z r0) v (z_ub r0) (s r0) (s_lb r0) (s_ub r0) (zeta r0) (lambda r0) (nu r0) (nu_lb r0) (nu_ub r0) (info r0).
Definition set_z_ub {T : Type} (v : list T) (r0 : Result T) : Result T :=
  Build_Result (x r0) (y r0) (z r0) (z_lb r0) v (s r0) (s_lb r0) (s_ub r0) (zeta r0) (lambda r0) (nu r0) (nu_lb r0) (nu_ub r0) (info r0).
Definition set_s {T : Type} (v : list T) (r0 : Result T) : Result T :=
  Build_Result (x r0) (y r0) (z r0) (z_lb r0) (z_ub r0) v (s_lb r0) (s_ub r0) (zeta r0) (lambda r0) (nu r0) (nu_lb r0) (nu_ub r0) (info r0).
Definition set_s_lb {T : Type} (v : list T) (r0 : Result T) : Result T :=
  Build_Result (x r0) (y r0) (z r0) (z_lb r0) (z_ub r0) (s r0) v (s_ub r0) (zeta r0) (lambda r0) (nu r0) (nu_lb r0) (nu_ub r0) (info r0).
Definition set_s_ub {T : Type} (v : list T) (r0 : Result T) : Result T :=
  Build_Result (x r0) (y r0) (z r0) (z_lb r0) (z_ub r0) (s r0) (s_lb r0) v (zeta r0) (lambda r0) (nu r0) (nu_lb r0) (nu_ub r0) (info r0).
Definition set_zeta {T : Type} (v : list T) (r0 : Result T) : Result T :=
  Build_Result (x r0) (y r0) (z r0) (z_lb r0) (z_ub r0) (s r0) (s_lb r0) (s_ub r0) v (lambda r0) (nu r0) (nu_lb r0) (nu_ub r0) (info r0).
Definition set_lambda {T : Type} (v : list T) (r0 : Result T) : Result T :=
  Build_Result (x r0) (y r0) (z r0) (z_lb r0) (z_ub r0) (s r0) (s_lb r0) (s_ub r0) (zeta r0) v (nu r0) (nu_lb r0) (nu_ub r0) (info r0).
Definition set_nu {T : Type} (v : list T) (r0 : Result T) : Result T :=
  Build_Result (x r0) (y r0) (z r0) (z_lb r0) (z_ub r0) (s r0) (s_lb r0) (s_ub r0) (zeta r0) (lambda r0) v (nu_lb r0) (nu_ub r0) (info r0).
Definition set_nu_lb {T : Type} (v : list T) (r0 : Result T) : Result T :=
  Build_Result (x r0) (y r0) (z r0) (z_lb r0) (z_ub r0) (s r0) (s_lb r0) (s_ub r0) (zeta r0) (lambda r0) (nu r0) v (nu_ub r0) (info r0).
Definition set_nu_ub {T : Type} (v : list T) (r0 : Result T) : Result T :=
  Build_Result (x r0) (y r0) (z r0) (z_lb r0) (z_ub r0) (s r0) (s_lb r0) (s_ub r0) (zeta r0) (lambda r0) (nu r0) (nu_lb r0) v (info r0).
Definition set_info {T : Type} (v : Info T) (r0 : Result T) : Result T :=
  Build_Result (x r0) (y r0) (z r0) (z_lb r0) (z_ub r0) (s r0) (s_lb r0) (s_ub r0) (zeta r0) (lambda r0) (nu r0) (nu_lb r0) (nu_ub r0) v.

Definition set_n {T : Type} (v : nat) (d0 : Data T) : Data T :=
  Build_Data v (p d0) (m d0) (n_lb d0) (n_ub d0) (P_utri d0) (AT d0) (GT d0) (c d0) (b d0) (h d0) (x_lb_n d0) (x_ub d0) (x_lb_idx d0) (x_ub_idx d0).
Definition set_p {T : Type} (v : nat) (d0 : Data T) : Data T :=
  Build_Data (n d0) v (m d0) (n_lb d0) (n_ub d0) (P_utri d0) (AT d0) (GT d0) (c d0) (b d0) (h d0) (x_lb_n d0) (x_ub d0) (x_lb_idx d0) (x_ub_idx d0).
Definition set_m {T : Type} (v : nat) (d0 : Data T) : Data T :=
  Build_Data (n d0) (p d0) v (n_lb d0) (n_ub d0) (P_utri d0) (AT d0) (GT d0) (c d0) (b d0) (h d0) (x_lb_n d0) (x_ub d0) (x_lb_idx d0) (x_ub_idx d0).
Definition set_n_lb {T : Type} (v : nat) (d0 : Data T) : Data T :=
  Build_Data (n d0) (p d0) (m d0) v (n_ub d0) (P_utri d0) (AT d0) (GT d0) (c d0) (b d0) (h d0) (x_lb_n d0) (x_ub d0) (x_lb_idx d0) (x_ub_idx d0).
Definition set_n_ub {T : Type} (v : nat) (d0 : Data T) : Data T :=
  Build_Data (n d0) (p d0) (m d0) (n_lb d0) v (P_utri d0) (AT d0) (GT d0) (c d0) (b d0) (h d0) (x_lb_n d0) (x_ub d0) (x_lb_idx d0) (x_ub_idx d0).
Definition set_P_utri {T : Type} (v : list (list T)) (d0 : Data T) : Data T :=
  Build_Data (n d0) (p d0) (m d0) (n_lb d0) (n_ub d0) v (AT d0) (GT d0) (c d0) (b d0) (h d0) (x_lb_n d0) (x_ub d0) (x_lb_idx d0) (x_ub_idx d0).
Definition set_AT {T : Type} (v : list (list T)) (d0 : Data T) : Data T :=
  Build_Data (n d0) (p d0) (m d0) (n_lb d0) (n_ub d0) (P_utri d0) v (GT d0) (c d0) (b d0) (h d0) (x_lb_n d0) (x_ub d0) (x_lb_idx d0) (x_ub_idx d0).
Definition set_GT {T : Type} (v : list (list T)) (d0 : Data T) : Data T :=
  Build_Data (n d0) (p d0) (m d0) (n_lb d0) (n_ub d0) (P_utri d0) (AT d0) v (c d0) (b d0) (h d0) (x_lb_n d0) (x_ub d0) (x_lb_idx d0) (x_ub_idx d0).
Definition set_c {T : Type} (v : list T) (d0 : Data T) : Data T :=
  Build_Data (n d0) (p d0) (m d0) (n_lb d0) (n_ub d0) (P_utri d0) (AT d0) (GT d0) v (b d0) (h d0) (x_lb_n d0) (x_ub d0) (x_lb_idx d0) (x_ub_idx d0).
Definition set_b {T : Type} (v : list T) (d0 : Data T) : Data T :=
  Build_Data (n d0) (p d0) (m d0) (n_lb d0) (n_ub d0) (P_utri d0) (AT d0) (GT d0) (c d0) v (h d0) (x_lb_n d0) (x_ub d0) (x_lb_idx d0) (x_ub_idx d0).
Definition set_h {T : Type} (v : list T) (d0 : Data T) : Data T :=
  Build_Data (n d0) (p d0) (m d0) (n_lb d0) (n_ub d0) (P_utri d0) (AT d0) (GT d0) (c d0) (b d0) v (x_lb_n d0) (x_ub d0) (x_lb_idx d0) (x_ub_idx d0).
Definition set_x_lb_n {T : Type} (v : list T) (d0 : Data T) : Data T :=
  Build_Data (n d0) (p d0) (m d0) (n_lb d0) (n_ub d0) (P_utri d0) (AT d0) (GT d0) (c d0) (b d0) (h d0) v (x_ub d0) (x_lb_idx d0) (x_ub_idx d0).
Definition set_x_ub {T : Type} (v : list T) (d0 : Data T) : Data T :=
  Build_Data (n d0) (p d0) (m d0) (n_lb d0) (n_ub d0) (P_utri d0) (AT d0) (GT d0) (c d0) (b d0) (h d0) (x_lb_n d0) v (x_lb_idx d0) (x_ub_idx d0).
Definition set_x_lb_idx {T : Type} (v : list nat) (d0 : Data T) : Data T :=
  Build_Data (n d0) (p d0) (m d0) (n_lb d0) (n_ub d0) (P_utri d0) (AT d0) (GT d0) (c d0) (b d0) (h d0) (x_lb_n d0) (x_ub d0) v (x_ub_idx d0).
Definition set_x_ub_idx {T : Type} (v : list nat) (d0 : Data T) : Data T :=
  Build_Data (n d0) (p d0) (m d0) (n_lb d0) (n_ub d0) (P_utri d0) (AT d0) (GT d0) (c d0) (b d0) (h d0) (x_lb_n d0) (x_ub d0) (x_lb_idx d0) v.

Definition set_m_result {T PC K : Type} (v : Result T) (sv : Solver T PC K) : Solver T PC K :=
  Build_Solver v (m_settings sv) (m_data sv) (m_preconditioner sv) (m_kkt sv) (m_kkt_init_state sv) (m_setup_done sv) (rx sv) (ry sv) (rz sv) (rz_lb sv) (rz_ub sv) (rs sv) (rs_lb sv) (rs_ub sv) (rx_nr sv) (ry_nr sv) (rz_nr sv) (rz_lb_nr sv) (rz_ub_nr sv) (dx sv) (dy sv) (dz sv) (dz_lb sv) (dz_ub sv) (ds sv) (ds_lb sv) (ds_ub sv) (primal_rel_inf sv) (dual_rel_inf sv).
Definition set_m_data {T PC K : Type} (v : Data T) (sv : Solver T PC K) : Solver T PC K :=
  Build_Solver (m_result sv) (m_settings sv) v (m_preconditioner sv) (m_kkt sv) (m_kkt_init_state sv) (m_setup_done sv) (rx sv) (ry sv) (rz sv) (rz_lb sv) (rz_ub sv) (rs sv) (rs_lb sv) (rs_ub sv) (rx_nr sv) (ry_nr sv) (rz_nr sv) (rz_lb_nr sv) (rz_ub_nr sv) (dx sv) (dy sv) (dz sv) (dz_lb sv) (dz_ub sv) (ds sv) (ds_lb sv) (ds_ub sv) (primal_rel_inf sv) (dual_rel_inf sv).
Definition set_m_preconditioner {T PC K : Type} (v : PC) (sv : Solver T PC K) : Solver T PC K :=
  Build_Solver (m_result sv) (m_settings sv) (m_data sv) v (m_kkt sv) (m_kkt_init_state sv) (m_setup_done sv) (rx sv) (ry sv) (rz sv) (rz_lb sv) (rz_ub sv) (rs sv) (rs_lb sv) (rs_ub sv) (rx_nr sv) (ry_nr sv) (rz_nr sv) (rz_lb_nr sv) (rz_ub_nr sv) (dx sv) (dy sv) (dz sv) (dz_lb sv) (dz_ub sv) (ds sv) (ds_lb sv) (ds_ub sv) (primal_rel_inf sv) (dual_rel_inf sv).
Definition set_m_kkt {T PC K : Type} (v : K) (sv : Solver T PC K) : Solver T PC K :=
  Build_Solver (m_result sv) (m_settings sv) (m_data sv) (m_preconditioner sv) v (m_kkt_init_state sv) (m_setup_done sv) (rx sv) (ry sv) (rz sv) (rz_lb sv) (rz_ub sv) (rs sv) (rs_lb sv) (rs_ub sv) (rx_nr sv) (ry_nr sv) (rz_nr sv) (rz_lb_nr sv) (rz_ub_nr sv) (dx sv) (dy sv) (dz sv) (dz_lb sv) (dz_ub sv) (ds sv) (ds_lb sv) (ds_ub sv) (primal_rel_inf sv) (dual_rel_inf sv).
Definition set_m_kkt_init_state {T PC K : Type} (v : bool) (sv : Solver T PC K) : Solver T PC K :=
  Build_Solver (m_result sv) (m_settings sv) (m_data sv) (m_preconditioner sv) (m_kkt sv) v (m_setup_done sv) (rx sv) (ry sv) (rz sv) (rz_lb sv) (rz_ub sv) (rs sv) (rs_lb sv) (rs_ub sv) (rx_nr sv) (ry_nr sv) (rz_nr sv) (rz_lb_nr sv) (rz_ub_nr sv) (dx sv) (dy sv) (dz sv) (dz_lb sv) (dz_ub sv) (ds sv) (ds_lb sv) (ds_ub sv) (primal_rel_inf sv) (dual_rel_inf sv).
Definition set_m_setup_done {T PC K : Type} (v : bool) (sv : Solver T PC K) : Solver T PC K :=
  Build_Solver (m_result sv) (m_settings sv) (m_data sv) (m_preconditioner sv) (m_kkt sv) (m_kkt_init_state sv) v (rx sv) (ry sv) (rz sv) (rz_lb sv) (rz_ub sv) (rs sv) (rs_lb sv) (rs_ub sv) (rx_nr sv) (ry_nr sv) (rz_nr sv) (rz_lb_nr sv) (rz_ub_nr sv) (dx sv) (dy sv) (dz sv) (dz_lb sv) (dz_ub sv) (ds sv) (ds_lb sv) (ds_ub sv) (primal_rel_inf sv) (dual_rel_inf sv).
Definition set_rx {T PC K : Type} (v : list T) (sv : Solver T PC K) : Solver T PC K :=
  Build_Solver (m_result sv) (m_settings sv) (m_data sv) (m_preconditioner sv) (m_kkt sv) (m_kkt_init_state sv) (m_setup_done sv) v (ry sv) (rz sv) (rz_lb sv) (rz_ub sv) (rs sv) (rs_lb sv) (rs_ub sv) (rx_nr sv) (ry_nr sv) (rz_nr sv) (rz_lb_nr sv) (rz_ub_nr sv) (dx sv) (dy sv) (dz sv) (dz_lb sv) (dz_ub sv) (ds sv) (ds_lb sv) (ds_ub sv) (primal_rel_inf sv) (dual_rel_inf sv).
Definition set_ry {T PC K : Type} (v : list T) (sv : Solver T PC K) : Solver T PC K :=
  Build_Solver (m_result sv) (m_settings sv) (m_data sv) (m_preconditioner sv) (m_kkt sv) (m_kkt_init_state sv) (m_setup_done sv) (rx sv) v (rz sv) (rz_lb sv) (rz_ub sv) (rs sv) (rs_lb sv) (rs_ub sv) (rx_nr sv) (ry_nr sv) (rz_nr sv) (rz_lb_nr sv) (rz_ub_nr sv) (dx sv) (dy sv) (dz sv) (dz_lb sv) (dz_ub sv) (ds sv) (ds_lb sv) (ds_ub sv) (primal_rel_inf sv) (dual_rel_inf sv).
Definition set_rz {T PC K : Type} (v : list T) (sv : Solver T PC K) : Solver T PC K :=
  Build_Solver (m_result sv) (m_settings sv) (m_data sv) (m_preconditioner sv) (m_kkt sv) (m_kkt_init_state sv) (m_setup_done sv) (rx sv) (ry sv) v (rz_lb sv) (rz_ub sv) (rs sv) (rs_lb sv) (rs_ub sv) (rx_nr sv) (ry_nr sv) (rz_nr sv) (rz_lb_nr sv) (rz_ub_nr sv) (dx sv) (dy sv) (dz sv) (dz_lb sv) (dz_ub sv) (ds sv) (ds_lb sv) (ds_ub sv) (primal_rel_inf sv) (dual_rel_inf sv).
Definition set_rz_lb {T PC K : Type} (v : list T) (sv : Solver T PC K) : Solver T PC K :=
  Build_Solver (m_result sv) (m_settings sv) (m_data sv) (m_preconditioner sv) (m_kkt sv) (m_kkt_init_state sv) (m_setup_done sv) (rx sv) (ry sv) (rz sv) v (rz_ub sv) (rs sv) (rs_lb sv) (rs_ub sv) (rx_nr sv) (ry_nr sv) (rz_nr sv) (rz_lb_nr sv) (rz_ub_nr sv) (dx sv) (dy sv) (dz sv) (dz_lb sv) (dz_ub sv) (ds sv) (ds_lb sv) (ds_ub sv) (primal_rel_inf sv) (dual_rel_inf sv).
Definition set_rz_ub {T PC K : Type} (v : list T) (sv : Solver T PC K) : Solver T PC K :=
  Build_Solver (m_result sv) (m_settings sv) (m_data sv) (m_preconditioner sv) (m_kkt sv) (m_kkt_init_state sv) (m_setup_done sv) (rx sv) (ry sv) (rz sv) (rz_lb sv) v (rs sv) (rs_lb sv) (rs_ub sv) (rx_nr sv) (ry_nr sv) (rz_nr sv) (rz_lb_nr sv) (rz_ub_nr sv) (dx sv) (dy sv) (dz sv) (dz_lb sv) (dz_ub sv) (ds sv) (ds_lb sv) (ds_ub sv) (primal_rel_inf sv) (dual_rel_inf sv).
Definition set_rs {T PC K : Type} (v : list T) (sv : Solver T PC K) : Solver T PC K :=
  Build_Solver (m_result sv) (m_settings sv) (m_data sv) (m_preconditioner sv) (m_kkt sv) (m_kkt_init_state sv) (m_setup_done sv) (rx sv) (ry sv) (rz sv) (rz_lb sv) (rz_ub sv) v (rs_lb sv) (rs_ub sv) (rx_nr sv) (ry_nr sv) (rz_nr sv) (rz_lb_nr sv) (rz_ub_nr sv) (dx sv) (dy sv) (dz sv) (dz_lb sv) (dz_ub sv) (ds sv) (ds_lb sv) (ds_ub sv) (primal_rel_inf sv) (dual_rel_inf sv).
Definition set_rs_lb {T PC K : Type} (v : list T) (sv : Solver T PC K) : Solver T PC K :=
  Build_Solver (m_result sv) (m_settings sv) (m_data sv) (m_preconditioner sv) (m_kkt sv) (m_kkt_init_state sv) (m_setup_done sv) (rx sv) (ry sv) (rz sv) (rz_lb sv) (rz_ub sv) (rs sv) v (rs_ub sv) (rx_nr sv) (ry_nr sv) (rz_nr sv) (rz_lb_nr sv) (rz_ub_nr sv) (dx sv) (dy sv) (dz sv) (dz_lb sv) (dz_ub sv) (ds sv) (ds_lb sv) (ds_ub sv) (primal_rel_inf sv) (dual_rel_inf sv).
Definition set_rs_ub {T PC K : Type} (v : list T) (sv : Solver T PC K) : Solver T PC K :=
  Build_Solver (m_result sv) (m_settings sv) (m_data sv) (m_preconditioner sv) (m_kkt sv) (m_kkt_init_state sv) (m_setup_done sv) (rx sv) (ry sv) (rz sv) (rz_lb sv) (rz_ub sv) (rs sv) (rs_lb sv) v (rx_nr sv) (ry_nr sv) (rz_nr sv) (rz_lb_nr sv) (rz_ub_nr sv) (dx sv) (dy sv) (dz sv) (dz_lb sv) (dz_ub sv) (ds sv) (ds_lb sv) (ds_ub sv) (primal_rel_inf sv) (dual_rel_inf sv).
Definition set_rx_nr {T PC K : Type} (v : list T) (sv : Solver T PC K) : Solver T PC K :=
  Build_Solver (m_result sv) (m_settings sv) (m_data sv) (m_preconditioner sv) (m_kkt sv) (m_kkt_init_state sv) (m_setup_done sv) (rx sv) (ry sv) (rz sv) (rz_lb sv) (rz_ub sv) (rs sv) (rs_lb sv) (rs_ub sv) v (ry_nr sv) (rz_nr sv) (rz_lb_nr sv) (rz_ub_nr sv) (dx sv) (dy sv) (dz sv) (dz_lb sv) (dz_ub sv) (ds sv) (ds_lb sv) (ds_ub sv) (primal_rel_inf sv) (dual_rel_inf sv).
Definition set_ry_nr {T PC K : Type} (v : list T) (sv : Solver T PC K) : Solver T PC K :=
  Build_Solver (m_result sv) (m_settings sv) (m_data sv) (m_preconditioner sv) (m_kkt sv) (m_kkt_init_state sv) (m_setup_done sv) (rx sv) (ry sv) (rz sv) (rz_lb sv) (rz_ub sv) (rs sv) (rs_lb sv) (rs_ub sv) (rx_nr sv) v (rz_nr sv) (rz_lb_nr sv) (rz_ub_nr sv) (dx sv) (dy sv) (dz sv) (dz_lb sv) (dz_ub sv) (ds sv) (ds_lb sv) (ds_ub sv) (primal_rel_inf sv) (dual_rel_inf sv).
Definition set_rz_nr {T PC K : Type} (v : list T) (sv : Solver T PC K) : Solver T PC K :=
  Build_Solver (m_result sv) (m_settings sv) (m_data sv) (m_preconditioner sv) (m_kkt sv) (m_kkt_init_state sv) (m_setup_done sv) (rx sv) (ry sv) (rz sv) (rz_lb sv) (rz_ub sv) (rs sv) (rs_lb sv) (rs_ub sv) (rx_nr sv) (ry_nr sv) v (rz_lb_nr sv) (rz_ub_nr sv) (dx sv) (dy sv) (dz sv) (dz_lb sv) (dz_ub sv) (ds sv) (ds_lb sv) (ds_ub sv) (primal_rel_inf sv) (dual_rel_inf sv).
Definition set_rz_lb_nr {T PC K : Type} (v : list T) (sv : Solver T PC K) : Solver T PC K :=
  Build_Solver (m_result sv) (m_settings sv) (m_data sv) (m_preconditioner sv) (m_kkt sv) (m_kkt_init_state sv) (m_setup_done sv) (rx sv) (ry sv) (rz sv) (rz_lb sv) (rz_ub sv) (rs sv) (rs_lb sv) (rs_ub sv) (rx_nr sv) (ry_nr sv) (rz_nr sv) v (rz_ub_nr sv) (dx sv) (dy sv) (dz sv) (dz_lb sv) (dz_ub sv) (ds sv) (ds_lb sv) (ds_ub sv) (primal_rel_inf sv) (dual_rel_inf sv).
Definition set_rz_ub_nr {T PC K : Type} (v : list T) (sv : Solver T PC K) : Solver T PC K :=
  Build_Solver (m_result sv) (m_settings sv) (m_data sv) (m_preconditioner sv) (m_kkt sv) (m_kkt_init_state sv) (m_setup_done sv) (rx sv) (ry sv) (rz sv) (rz_lb sv) (rz_ub sv) (rs sv) (rs_lb sv) (rs_ub sv) (rx_nr sv) (ry_nr sv) (rz_nr sv) (rz_lb_nr sv) v (dx sv) (dy sv) (dz sv) (dz_lb sv) (dz_ub sv) (ds sv) (ds_lb sv) (ds_ub sv) (primal_rel_inf sv) (dual_rel_inf sv).
Definition set_dx {T PC K : Type} (v : list T) (sv : Solver T PC K) : Solver T PC K :=
  Build_Solver (m_result sv) (m_settings sv) (m_data sv) (m_preconditioner sv) (m_kkt sv) (m_kkt_init_state sv) (m_setup_done sv) (rx sv) (ry sv) (rz sv) (rz_lb sv) (rz_ub sv) (rs sv) (rs_lb sv) (rs_ub sv) (rx_nr sv) (ry_nr sv) (rz_nr sv) (rz_lb_nr sv) (rz_ub_nr sv) v (dy sv) (dz sv) (dz_lb sv) (dz_ub sv) (ds sv) (ds_lb sv) (ds_ub sv) (primal_rel_inf sv) (dual_rel_inf sv).
Definition set_dy {T PC K : Type} (v : list T) (sv : Solver T PC K) : Solver T PC K :=
  Build_Solver (m_result sv) (m_settings sv) (m_data sv) (m_preconditioner sv) (m_kkt sv) (m_kkt_init_state sv) (m_setup_done sv) (rx sv) (ry sv) (rz sv) (rz_lb sv) (rz_ub sv) (rs sv) (rs_lb sv) (rs_ub sv) (rx_nr sv) (ry_nr sv) (rz_nr sv) (rz_lb_nr sv) (rz_ub_nr sv) (dx sv) v (dz sv) (dz_lb sv) (dz_ub sv) (ds sv) (ds_lb sv) (ds_ub sv) (primal_rel_inf sv) (dual_rel_inf sv).
Definition set_dz {T PC K : Type} (v : list T) (sv : Solver T PC K) : Solver T PC K :=
  Build_Solver (m_result sv) (m_settings sv) (m_data sv) (m_preconditioner sv) (m_kkt sv) (m_kkt_init_state sv) (m_setup_done sv) (rx sv) (ry sv) (rz sv) (rz_lb sv) (rz_ub sv) (rs sv) (rs_lb sv) (rs_ub sv) (rx_nr sv) (ry_nr sv) (rz_nr sv) (rz_lb_nr sv) (rz_ub_nr sv) (dx sv) (dy sv) v (dz_lb sv) (dz_ub sv) (ds sv) (ds_lb sv) (ds_ub sv) (primal_rel_inf sv) (dual_rel_inf sv).
Definition set_dz_lb {T PC K : Type} (v : list T) (sv : Solver T PC K) : Solver T PC K :=
  Build_Solver (m_result sv) (m_settings sv) (m_data sv) (m_preconditioner sv) (m_kkt sv) (m_kkt_init_state sv) (m_setup_done sv) (rx sv) (ry sv) (rz sv) (rz_lb sv) (rz_ub sv) (rs sv) (rs_lb sv) (rs_ub sv) (rx_nr sv) (ry_nr sv) (rz_nr sv) (rz_lb_nr sv) (rz_ub_nr sv) (dx sv) (dy sv) (dz sv) v (dz_ub sv) (ds sv) (ds_lb sv) (ds_ub sv) (primal_rel_inf sv) (dual_rel_inf sv).
Definition set_dz_ub {T PC K : Type} (v : list T) (sv : Solver T PC K) : Solver T PC K :=
  Build_Solver (m_result sv) (m_settings sv) (m_data sv) (m_preconditioner sv) (m_kkt sv) (m_kkt_init_state sv) (m_setup_done sv) (rx sv) (ry sv) (rz sv) (rz_lb sv) (rz_ub sv) (rs sv) (rs_lb sv) (rs_ub sv) (rx_nr sv) (ry_nr sv) (rz_nr sv) (rz_lb_nr sv) (rz_ub_nr sv) (dx sv) (dy sv) (dz sv) (dz_lb sv) v (ds sv) (ds_lb sv) (ds_ub sv) (primal_rel_inf sv) (dual_rel_inf sv).
Definition set_ds {T PC K : Type} (v : list T) (sv : Solver T PC K) : Solver T PC K :=
  Build_Solver (m_result sv) (m_settings sv) (m_data sv) (m_preconditioner sv) (m_kkt sv) (m_kkt_init_state sv) (m_setup_done sv) (rx sv) (ry sv) (rz sv) (rz_lb sv) (rz_ub sv) (rs sv) (rs_lb sv) (rs_ub sv) (rx_nr sv) (ry_nr sv) (rz_nr sv) (rz_lb_nr sv) (rz_ub_nr sv) (dx sv) (dy sv) (dz sv) (dz_lb sv) (dz_ub sv) v (ds_lb sv) (ds_ub sv) (primal_rel_inf sv) (dual_rel_inf sv).
Definition set_ds_lb {T PC K : Type} (v : list T) (sv : Solver T PC K) : Solver T PC K :=
  Build_Solver (m_result sv) (m_settings sv) (m_data sv) (m_preconditioner sv) (m_kkt sv) (m_kkt_init_state sv) (m_setup_done sv) (rx sv) (ry sv) (rz sv) (rz_lb sv) (rz_ub sv) (rs sv) (rs_lb sv) (rs_ub sv) (rx_nr sv) (ry_nr sv) (rz_nr sv) (rz_lb_nr sv) (rz_ub_nr sv) (dx sv) (dy sv) (dz sv) (dz_lb sv) (dz_ub sv) (ds sv) v (ds_ub sv) (primal_rel_inf sv) (dual_rel_inf sv).
Definition set_ds_ub {T PC K : Type} (v : list T) (sv : Solver T PC K) : Solver T PC K :=
  Build_Solver (m_result sv) (m_settings sv) (m_data sv) (m_preconditioner sv) (m_kkt sv) (m_kkt_init_state sv) (m_setup_done sv) (rx sv) (ry sv) (rz sv) (rz_lb sv) (rz_ub sv) (rs sv) (rs_lb sv) (rs_ub sv) (rx_nr sv) (ry_nr sv) (rz_nr sv) (rz_lb_nr sv) (rz_ub_nr sv) (dx sv) (dy sv) (dz sv) (dz_lb sv) (dz_ub sv) (ds sv) (ds_lb sv) v (primal_rel_inf sv) (dual_rel_inf sv).
Definition set_primal_rel_inf {T PC K : Type} (v : T) (sv : Solver T PC K) : Solver T PC K :=
  Build_Solver (m_result sv) (m_settings sv) (m_data sv) (m_preconditioner sv) (m_kkt sv) (m_kkt_init_state sv) (m_setup_done sv) (rx sv) (ry sv) (rz sv) (rz_lb sv) (rz_ub sv) (rs sv) (rs_lb sv) (rs_ub sv) (rx_nr sv) (ry_nr sv) (rz_nr sv) (rz_lb_nr sv) (rz_ub_nr sv) (dx sv) (dy sv) (dz sv) (dz_lb sv) (dz_ub sv) (ds sv) (ds_lb sv) (ds_ub sv) v (dual_rel_inf sv).
Definition set_dual_rel_inf {T PC K : Type} (v : T) (sv : Solver T PC K) : Solver T PC K :=
  Build_Solver (m_result sv) (m_settings sv) (m_data sv) (m_preconditioner sv) (m_kkt sv) (m_kkt_init_state sv) (m_setup_done sv) (rx sv) (ry sv) (rz sv) (rz_lb sv) (rz_ub sv) (rs sv) (rs_lb sv) (rs_ub sv) (rx_nr sv) (ry_nr sv) (rz_nr sv) (rz_lb_nr sv) (rz_ub_nr sv) (dx sv) (dy sv) (dz sv) (dz_lb sv) (dz_ub sv) (ds sv) (ds_lb sv) (ds_ub sv) (primal_rel_inf sv) v.

(** The eight blocks of a right-hand side or of a solution of the KKT
    system, in the order of the arguments of [m_kkt.solve]. *)
Record Block8 (T : Type) : Type := Build_Block8 {
  b_x : list T;
  b_y : list T;
  b_z : list T;
  b_z_lb : list T;
  b_z_ub : list T;
  b_s : list T;
  b_s_lb : list T;
  b_s_ub : list T
}.

(** The preconditioner, a template parameter of the solver: its state
    [PC] and the operations the driver calls. *)
Record PreconditionerOps (T PC : Type) : Type := Build_PreconditionerOps {
  pc_init : PC -> Data T -> PC;
  pc_scale_data : PC -> Data T -> bool -> Z -> PC * Data T;
  unscale_primal : PC -> list T -> list T;
  unscale_dual_eq : PC -> list T -> list T;
  unscale_dual_ineq : PC -> list T -> list T;
  unscale_dual_lb : PC -> list T -> list T;
  unscale_dual_ub : PC -> list T -> list T;
  unscale_slack_ineq : PC -> list T -> list T;
  unscale_slack_lb : PC -> list T -> list T;
  unscale_slack_ub : PC -> list T -> list T;
  unscale_primal_res_eq : PC -> list T -> list T;
  unscale_primal_res_ineq : PC -> list T -> list T;
  unscale_primal_res_lb : PC -> list T -> list T;
  unscale_primal_res_ub : PC -> list T -> list T;
  unscale_dual_res : PC -> list T -> list T;
  unscale_cost : PC -> T -> T
}.

(** The KKT operator ([dense::KKT] or [sparse::KKT]): its state [K] and
    the operations the driver calls.  The operator holds a reference to
    [m_data], so every operation receives the stored problem.
    [kkt_update_scalings] takes rho, delta, s, s_lb, s_ub, z, z_lb, z_ub. *)
Record KKTOps (T K : Type) : Type := Build_KKTOps {
  kkt_init : Data T -> K -> T -> T -> K;
  kkt_update_scalings :
    Data T -> K -> T -> T ->
    list T -> list T -> list T -> list T -> list T -> list T -> K;
  kkt_factorize : Data T -> K -> bool * K;
  kkt_solve : Data T -> K -> Block8 T -> Block8 T
}.

(** What one pass through a loop body (or a guarded prefix of a function)
    does: it returns from [solve_impl] with a status, or goes on. *)
Inductive Outcome (S : Type) : Type :=
  | Return (st : Status) (sv : S)
  | Continue (sv : S).
Arguments Return {S} st sv.
Arguments Continue {S} sv.

(** ** The driver *)

Section Driver.
Context {T : Type} `{Scalar T} {PC K : Type}.
Context (pc_ops : PreconditionerOps T PC) (kkt_ops : KKTOps T K).
(** [Settings<T>::verify_settings] *)
Context (verify_settings : Settings T -> bool).

Local Abbreviation SolverT := (Solver T PC K).

(** [v(i)], read inside the bounds of [v]. *)
Definition coeff (v : list T) (i : nat) : T := default sc_zero (v !! i).
(** [idx(i)], read inside the bounds of [idx]. *)
Definition coeff_idx (idx : list nat) (i : nat) : nat := default O (idx !! i).
(** [T(k)] for a dimension [k]. *)
Definition sc_of_nat (k : nat) : T := sc_of_Z (Z.of_nat k).

(** An operation applied in place to the block [v.head(k)]. *)
Definition upd_head (k : nat) (f : list T -> list T) (v : list T) : list T :=
  set_head k (f (vhead k v)) v.

(** [v.resize(k)]: Eigen leaves the coefficients unspecified; the embedding
    keeps the old prefix and pads with zeros. *)
Definition resize (k : nat) (v : list T) : list T :=
  take k v ++ replicate (k - length v) sc_zero.
Definition resize_idx (k : nat) (v : list nat) : list nat :=
  take k v ++ replicate (k - length v) O.

Definition upd_result (f : Result T -> Result T) (sv : SolverT) : SolverT :=
  set_m_result (f (m_result sv)) sv.
Definition upd_info (f : Info T -> Info T) (sv : SolverT) : SolverT :=
  upd_result (fun r0 => set_info (f (info r0)) r0) sv.
Definition upd_data (f : Data T -> Data T) (sv : SolverT) : SolverT :=
  set_m_data (f (m_data sv)) sv.
Definition sv_info (sv : SolverT) : Info T := info (m_result sv).

(** *** Setup of the compressed box bounds *)

(** The loop of [setup_lb_data] from index [i], [k] indices to go. *)
Fixpoint setup_lb_loop (x_lb : list T) (i k n_lb' i_lb : nat) (d : Data T)
  : nat * Data T :=
  match k with
  | O => (n_lb', d)
  | S k' =>
      if sc_gtb (coeff x_lb i) (- PIQP_INF)%sc then
        let d := set_x_lb_n (<[i_lb := (- coeff x_lb i)%sc]> (x_lb_n d)) d in
        let d := set_x_lb_idx (<[i_lb := i]> (x_lb_idx d)) d in
        setup_lb_loop x_lb (S i) k' (n_lb' + 1)%nat (S i_lb) d
      else setup_lb_loop x_lb (S i) k' n_lb' i_lb d
  end.

Definition setup_lb_data (x_lb : option (list T)) (d : Data T) : Data T :=
  match x_lb with
  | Some v => let '(n_lb', d') := setup_lb_loop v 0 (n d) 0 0 d in set_n_lb n_lb' d'
  | None => set_n_lb O d
  end.

(** The loop of [setup_ub_data]. *)
Fixpoint setup_ub_loop (x_ub' : list T) (i k n_ub' i_ub : nat) (d : Data T)
  : nat * Data T :=
  match k with
  | O => (n_ub', d)
  | S k' =>
      if (coeff x_ub' i <? PIQP_INF)%sc then
        let d := set_x_ub (<[i_ub := coeff x_ub' i]> (x_ub d)) d in
        let d := set_x_ub_idx (<[i_ub := i]> (x_ub_idx d)) d in
        setup_ub_loop x_ub' (S i) k' (n_ub' + 1)%nat (S i_ub) d
      else setup_ub_loop x_ub' (S i) k' n_ub' i_ub d
  end.

Definition setup_ub_data (x_ub' : option (list T)) (d : Data T) : Data T :=
  match x_ub' with
  | Some v => let '(n_ub', d') := setup_ub_loop v 0 (n d) 0 0 d in set_n_ub n_ub' d'
  | None => set_n_ub O d
  end.

(** [init_workspace] *)
Definition init_workspace (sv : SolverT) : SolverT :=
  let d := m_data sv in
  let sv := upd_result (fun r0 => set_x (resize (n d) (x r0)) r0) sv in
  let sv := upd_result (fun r0 => set_y (resize (p d) (y r0)) r0) sv in
  let sv := upd_result (fun r0 => set_z (resize (m d) (z r0)) r0) sv in
  let sv := upd_result (fun r0 => set_z_lb (resize (n d) (z_lb r0)) r0) sv in
  let sv := upd_result (fun r0 => set_z_ub (resize (n d) (z_ub r0)) r0) sv in
  let sv := upd_result (fun r0 => set_s (resize (m d) (s r0)) r0) sv in
  let sv := upd_result (fun r0 => set_s_lb (resize (n d) (s_lb r0)) r0) sv in
  let sv := upd_result (fun r0 => set_s_ub (resize (n d) (s_ub r0)) r0) sv in
  let sv := upd_result (fun r0 => set_zeta (resize (n d) (zeta r0)) r0) sv in
  let sv := upd_result (fun r0 => set_lambda (resize (p d) (lambda r0)) r0) sv in
  let sv := upd_result (fun r0 => set_nu (resize (m d) (nu r0)) r0) sv in
  let sv := upd_result (fun r0 => set_nu_lb (resize (n d) (nu_lb r0)) r0) sv in
  let sv := upd_result (fun r0 => set_nu_ub (resize (n d) (nu_ub r0)) r0) sv in
  let sv := upd_info (set_rho (rho_init (m_settings sv))) sv in
  let sv := upd_info (set_delta (delta_init (m_settings sv))) sv in
  let sv := set_rx (resize (n d) (rx sv)) sv in
  let sv := set_ry (resize (p d) (ry sv)) sv in
  let sv := set_rz (resize (m d) (rz sv)) sv in
  let sv := set_rz_lb (resize (n d) (rz_lb sv)) sv in
  let sv := set_rz_ub (resize (n d) (rz_ub sv)) sv in
  let sv := set_rs (resize (m d) (rs sv)) sv in
  let sv := set_rs_lb (resize (n d) (rs_lb sv)) sv in
  let sv := set_rs_ub (resize (n d) (rs_ub sv)) sv in
  let sv := set_rx_nr (resize (n d) (rx_nr sv)) sv in
  let sv := set_ry_nr (resize (p d) (ry_nr sv)) sv in
  let sv := set_rz_nr (resize (m d) (rz_nr sv)) sv in
  let sv := set_rz_lb_nr (resize (n d) (rz_lb_nr sv)) sv in
  let sv := set_rz_ub_nr (resize (n d) (rz_ub_nr sv)) sv in
  let sv := set_dx (resize (n d) (dx sv)) sv in
  let sv := set_dy (resize (p d) (dy sv)) sv in
  let sv := set_dz (resize (m d) (dz sv)) sv in
  let sv := set_dz_lb (resize (n d) (dz_lb sv)) sv in
  let sv := set_dz_ub (resize (n d) (dz_ub sv)) sv in
  let sv := set_ds (resize (m d) (ds sv)) sv in
  let sv := set_ds_lb (resize (n d) (ds_lb sv)) sv in
  let sv := set_ds_ub (resize (n d) (ds_ub sv)) sv in
  sv.

(** The store as [setup_impl] builds it, before the preconditioner
    rescales it: dimensions, [P_utri], the transposes, the vectors and
    the compressed box bounds. *)
Definition setup_data (P A G : list (list T)) (c' b' h' : list T)
    (x_lb x_ub' : option (list T)) (d : Data T) : Data T :=
  let d := set_n (length P) d in
  let d := set_p (length A) d in
  let d := set_m (length G) d in
  let d := set_P_utri (upper P) d in
  let d := set_AT (transpose (n d) A) d in
  let d := set_GT (transpose (n d) G) d in
  let d := set_c c' d in
  let d := set_b b' d in
  let d := set_h h' d in
  let d := set_x_lb_n (resize (n d) (x_lb_n d)) d in
  let d := set_x_ub (resize (n d) (x_ub d)) d in
  let d := set_x_lb_idx (resize_idx (n d) (x_lb_idx d)) d in
  let d := set_x_ub_idx (resize_idx (n d) (x_ub_idx d)) d in
  let d := setup_lb_data x_lb d in
  let d := setup_ub_data x_ub' d in
  d.

(** [setup_impl] *)
Definition setup_impl (P A G : list (list T)) (c' b' h' : list T)
    (x_lb x_ub' : option (list T)) (sv : SolverT) : SolverT :=
  let sv := upd_data (setup_data P A G c' b' h' x_lb x_ub') sv in
  let sv := init_workspace sv in
  let sv := set_m_preconditioner
              (pc_init pc_ops (m_preconditioner sv) (m_data sv)) sv in
  let '(pc', d') := pc_scale_data pc_ops (m_preconditioner sv) (m_data sv)
                      false (preconditioner_iter (m_settings sv)) in
  let sv := set_m_data d' (set_m_preconditioner pc' sv) in
  let sv := set_m_kkt (kkt_init kkt_ops (m_data sv) (m_kkt sv)
                         (rho (sv_info sv)) (delta (sv_info sv))) sv in
  let sv := set_m_kkt_init_state true sv in
  let sv := set_m_setup_done true sv in
  sv.

(** *** Residuals without the regularisation terms *)

(** The loop [for i < k: rz_lb_nr(i) = x(x_lb_idx(i)) + x_lb_n(i) - s_lb(i)]. *)
Fixpoint rz_lb_nr_loop (d : Data T) (r0 : Result T) (i k : nat) (v : list T)
  : list T :=
  match k with
  | O => v
  | S k' =>
      rz_lb_nr_loop d r0 (S i) k'
        (<[i := (coeff (x r0) (coeff_idx (x_lb_idx d) i) + coeff (x_lb_n d) i
                 - coeff (s_lb r0) i)%sc]> v)
  end.

(** The loop [for i < k: rz_ub_nr(i) = -x(x_ub_idx(i)) + x_ub(i) - s_ub(i)]. *)
Fixpoint rz_ub_nr_loop (d : Data T) (r0 : Result T) (i k : nat) (v : list T)
  : list T :=
  match k with
  | O => v
  | S k' =>
      rz_ub_nr_loop d r0 (S i) k'
        (<[i := (- coeff (x r0) (coeff_idx (x_ub_idx d) i) + coeff (x_ub d) i
                 - coeff (s_ub r0) i)%sc]> v)
  end.

(** [update_nr_residuals]; [dx] is the scratch vector of the source. *)
Definition update_nr_residuals (sv : SolverT) : SolverT :=
  let d := m_data sv in
  let r0 := m_result sv in
  let pc := m_preconditioner sv in
  let sv := set_rx_nr (vneg (mat_vec (P_utri d) (x r0))) sv in
  let sv := set_rx_nr (vsub (rx_nr sv)
              (mat_vec (strictly_lower (transpose (n d) (P_utri d))) (x r0))) sv in
  let sv := set_dual_rel_inf (lpNorm_inf (unscale_dual_res pc_ops pc (rx_nr sv))) sv in
  let sv := set_rx_nr (vsub (rx_nr sv) (c d)) sv in
  let sv := set_dx (mat_vec (AT d) (y r0)) sv in
  let sv := set_dual_rel_inf (sc_max (dual_rel_inf sv)
              (lpNorm_inf (unscale_dual_res pc_ops pc (dx sv)))) sv in
  let sv := set_rx_nr (vsub (rx_nr sv) (dx sv)) sv in
  let sv := set_dx (mat_vec (GT d) (z r0)) sv in
  let sv := set_dual_rel_inf (sc_max (dual_rel_inf sv)
              (lpNorm_inf (unscale_dual_res pc_ops pc (dx sv)))) sv in
  let sv := set_rx_nr (vsub (rx_nr sv) (dx sv)) sv in
  let sv := set_dx (scatter (x_lb_idx d) (vneg (z_lb r0)) (n_lb d) (dx sv)) sv in
  let sv := set_dual_rel_inf (sc_max (dual_rel_inf sv)
              (lpNorm_inf (unscale_dual_res pc_ops pc (dx sv)))) sv in
  let sv := set_rx_nr (vsub (rx_nr sv) (dx sv)) sv in
  let sv := set_dx (scatter (x_ub_idx d) (z_ub r0) (n_ub d) (dx sv)) sv in
  let sv := set_dual_rel_inf (sc_max (dual_rel_inf sv)
              (lpNorm_inf (unscale_dual_res pc_ops pc (dx sv)))) sv in
  let sv := set_rx_nr (vsub (rx_nr sv) (dx sv)) sv in

  let sv := set_ry_nr (vneg (mat_vec (transpose (p d) (AT d)) (x r0))) sv in
  let sv := set_primal_rel_inf
              (lpNorm_inf (unscale_primal_res_eq pc_ops pc (ry_nr sv))) sv in
  let sv := set_ry_nr (vadd (ry_nr sv) (b d)) sv in
  let sv := set_primal_rel_inf (sc_max (primal_rel_inf sv)
              (lpNorm_inf (unscale_primal_res_eq pc_ops pc (b d)))) sv in

  let sv := set_rz_nr (vneg (mat_vec (transpose (m d) (GT d)) (x r0))) sv in
  let sv := set_primal_rel_inf (sc_max (primal_rel_inf sv)
              (lpNorm_inf (unscale_primal_res_ineq pc_ops pc (rz_nr sv)))) sv in
  let sv := set_rz_nr (vadd (rz_nr sv) (vsub (h d) (s r0))) sv in
  let sv := set_primal_rel_inf (sc_max (primal_rel_inf sv)
              (lpNorm_inf (unscale_primal_res_ineq pc_ops pc (h d)))) sv in

  let sv := set_rz_lb_nr (rz_lb_nr_loop d r0 0 (n_lb d) (rz_lb_nr sv)) sv in
  let sv := set_primal_rel_inf (sc_max (primal_rel_inf sv)
              (lpNorm_inf (unscale_primal_res_lb pc_ops pc
                             (vhead (n_lb d) (rz_lb_nr sv))))) sv in
  let sv := set_primal_rel_inf (sc_max (primal_rel_inf sv)
              (lpNorm_inf (unscale_primal_res_lb pc_ops pc
                             (vhead (n_lb d) (x_lb_n d))))) sv in
  let sv := set_rz_ub_nr (rz_ub_nr_loop d r0 0 (n_ub d) (rz_ub_nr sv)) sv in
  let sv := set_primal_rel_inf (sc_max (primal_rel_inf sv)
              (lpNorm_inf (unscale_primal_res_ub pc_ops pc
                             (vhead (n_ub d) (rz_ub_nr sv))))) sv in
  let sv := set_primal_rel_inf (sc_max (primal_rel_inf sv)
              (lpNorm_inf (unscale_primal_res_ub pc_ops pc
                             (vhead (n_ub d) (x_ub d))))) sv in
  sv.

(** *** Unscaling and the permutation of the box duals *)

(** [std::swap(v(i), v(j))] *)
Definition swap {A : Type} (i j : nat) (v : list A) : list A :=
  match v !! i, v !! j with
  | Some a, Some a' => <[j := a]> (<[i := a']> v)
  | _, _ => v
  end.

(** [for (i = k - 1; i >= 0; i--)]: the three swaps with [x_lb_idx(i)]. *)
Fixpoint restore_lb_loop (idx : list nat) (k : nat) (r0 : Result T) : Result T :=
  match k with
  | O => r0
  | S i =>
      let j := coeff_idx idx i in
      let r0 := set_z_lb (swap i j (z_lb r0)) r0 in
      let r0 := set_s_lb (swap i j (s_lb r0)) r0 in
      let r0 := set_nu_lb (swap i j (nu_lb r0)) r0 in
      restore_lb_loop idx i r0
  end.

(** The same loop with [x_ub_idx(i)]. *)
Fixpoint restore_ub_loop (idx : list nat) (k : nat) (r0 : Result T) : Result T :=
  match k with
  | O => r0
  | S i =>
      let j := coeff_idx idx i in
      let r0 := set_z_ub (swap i j (z_ub r0)) r0 in
      let r0 := set_s_ub (swap i j (s_ub r0)) r0 in
      let r0 := set_nu_ub (swap i j (nu_ub r0)) r0 in
      restore_ub_loop idx i r0
  end.

(** [restore_box_dual], on the result block. *)
Definition restore_box_dual_result (d : Data T) (r0 : Result T) : Result T :=
  let r0 := set_z_lb (fill_tail (n d - n_lb d) sc_zero (z_lb r0)) r0 in
  let r0 := set_z_ub (fill_tail (n d - n_ub d) sc_zero (z_ub r0)) r0 in
  let r0 := set_s_lb (fill_tail (n d - n_lb d) sc_infinity (s_lb r0)) r0 in
  let r0 := set_s_ub (fill_tail (n d - n_ub d) sc_infinity (s_ub r0)) r0 in
  let r0 := set_nu_lb (fill_tail (n d - n_lb d) sc_zero (nu_lb r0)) r0 in
  let r0 := set_nu_ub (fill_tail (n d - n_ub d) sc_zero (nu_ub r0)) r0 in
  let r0 := restore_lb_loop (x_lb_idx d) (n_lb d) r0 in
  let r0 := restore_ub_loop (x_ub_idx d) (n_ub d) r0 in
  r0.

Definition restore_box_dual (sv : SolverT) : SolverT :=
  upd_result (restore_box_dual_result (m_data sv)) sv.

(** [unscale_results], on the result block. *)
Definition unscale_results_result (pc : PC) (d : Data T) (r0 : Result T)
  : Result T :=
  let r0 := set_x (unscale_primal pc_ops pc (x r0)) r0 in
  let r0 := set_y (unscale_dual_eq pc_ops pc (y r0)) r0 in
  let r0 := set_z (unscale_dual_ineq pc_ops pc (z r0)) r0 in
  let r0 := set_z_lb (upd_head (n_lb d) (unscale_dual_lb pc_ops pc) (z_lb r0)) r0 in
  let r0 := set_z_ub (upd_head (n_ub d) (unscale_dual_ub pc_ops pc) (z_ub r0)) r0 in
  let r0 := set_s (unscale_slack_ineq pc_ops pc (s r0)) r0 in
  let r0 := set_s_lb (upd_head (n_lb d) (unscale_slack_lb pc_ops pc) (s_lb r0)) r0 in
  let r0 := set_s_ub (upd_head (n_ub d) (unscale_slack_ub pc_ops pc) (s_ub r0)) r0 in
  let r0 := set_zeta (unscale_primal pc_ops pc (zeta r0)) r0 in
  let r0 := set_lambda (unscale_dual_eq pc_ops pc (lambda r0)) r0 in
  let r0 := set_nu (unscale_dual_ineq pc_ops pc (nu r0)) r0 in
  let r0 := set_nu_lb (upd_head (n_lb d) (unscale_dual_lb pc_ops pc) (nu_lb r0)) r0 in
  let r0 := set_nu_ub (upd_head (n_ub d) (unscale_dual_ub pc_ops pc) (nu_ub r0)) r0 in
  r0.

Definition unscale_results (sv : SolverT) : SolverT :=
  upd_result (unscale_results_result (m_preconditioner sv) (m_data sv)) sv.

(** *** [solve_impl]: the initial iterate *)

Definition N_ineq (d : Data T) : nat := (m d + n_lb d + n_ub d)%nat.

(** The assignments at the entry of [solve_impl], once the two guards
    are passed. *)
Definition reset_info (sv : SolverT) : SolverT :=
  let sv := upd_info (set_status PIQP_UNSOLVED) sv in
  let sv := upd_info (set_iter 0%Z) sv in
  let sv := upd_info (set_reg_limit (reg_lower_limit (m_settings sv))) sv in
  let sv := upd_info (set_factor_retires 0%Z) sv in
  let sv := upd_info (set_no_primal_update 0%Z) sv in
  let sv := upd_info (set_no_dual_update 0%Z) sv in
  let sv := upd_info (set_mu sc_zero) sv in
  let sv := upd_info (set_primal_step sc_zero) sv in
  let sv := upd_info (set_dual_step sc_zero) sv in
  sv.

(** [m_kkt.update_scalings(rho, delta, s, s_lb, s_ub, z, z_lb, z_ub)] *)
Definition stage_scalings (sv : SolverT) : SolverT :=
  let r0 := m_result sv in
  set_m_kkt (kkt_update_scalings kkt_ops (m_data sv) (m_kkt sv)
               (rho (info r0)) (delta (info r0))
               (s r0) (s_lb r0) (s_ub r0) (z r0) (z_lb r0) (z_ub r0)) sv.

(** The block under [if (!m_kkt_init_state)]. *)
Definition reset_scalings (sv : SolverT) : SolverT :=
  let d := m_data sv in
  let sv := upd_info (set_rho (rho_init (m_settings sv))) sv in
  let sv := upd_info (set_delta (delta_init (m_settings sv))) sv in
  let sv := upd_result (fun r0 => set_s (setConstant sc_one (s r0)) r0) sv in
  let sv := upd_result (fun r0 =>
              set_s_lb (upd_head (n_lb d) (setConstant sc_one) (s_lb r0)) r0) sv in
  let sv := upd_result (fun r0 =>
              set_s_ub (upd_head (n_ub d) (setConstant sc_one) (s_ub r0)) r0) sv in
  let sv := upd_result (fun r0 => set_z (setConstant sc_one (z r0)) r0) sv in
  let sv := upd_result (fun r0 =>
              set_z_lb (upd_head (n_lb d) (setConstant sc_one) (z_lb r0)) r0) sv in
  let sv := upd_result (fun r0 =>
              set_z_ub (upd_head (n_ub d) (setConstant sc_one) (z_ub r0)) r0) sv in
  stage_scalings sv.

(** What the driver does after a failed factorisation that it retries:
    delta and rho times 100, one more retry counted, the floor raised. *)
Definition inflate_regularisation (sv : SolverT) : SolverT :=
  let sv := upd_info (fun i0 => set_delta (delta i0 * sc_of_Z 100)%sc i0) sv in
  let sv := upd_info (fun i0 => set_rho (rho i0 * sc_of_Z 100)%sc i0) sv in
  let sv := upd_info (fun i0 => set_factor_retires (factor_retires i0 + 1)%Z i0) sv in
  let sv := upd_info (fun i0 =>
              set_reg_limit (sc_min (sc_of_Z 10 * reg_limit i0)%sc
                                    (feas_tol_abs (m_settings sv))) i0) sv in
  sv.

(** [m_kkt.factorize()] *)
Definition factorize (sv : SolverT) : bool * SolverT :=
  let '(ok, k') := kkt_factorize kkt_ops (m_data sv) (m_kkt sv) in
  (ok, set_m_kkt k' sv).

(** The loop [while (!m_kkt.factorize())] before the initial solve. *)
Fixpoint initial_factorize (fuel : nat) (sv : SolverT) : option (Outcome SolverT) :=
  match fuel with
  | O => None
  | S fuel' =>
      let '(ok, sv) := factorize sv in
      if ok then Some (Continue sv)
      else if (factor_retires (sv_info sv) <? max_factor_retires (m_settings sv))%Z
      then initial_factorize fuel' (inflate_regularisation sv)
      else Some (Return PIQP_NUMERICS (upd_info (set_status PIQP_NUMERICS) sv))
  end.

(** Calls of [factorize] that the loop above can make at most. *)
Definition initial_fuel (sv : SolverT) : nat :=
  S (Z.to_nat (max_factor_retires (m_settings sv) - factor_retires (sv_info sv))).

(** The right-hand side and the call of the initial [m_kkt.solve]: the
    solution overwrites the iterate. *)
Definition initial_solve (sv : SolverT) : SolverT :=
  let d := m_data sv in
  let sv := set_rx (vneg (c d)) sv in
  let sv := set_rs (setZero (rs sv)) sv in
  let sv := set_rs_lb (setZero (rs_lb sv)) sv in
  let sv := set_rs_ub (setZero (rs_ub sv)) sv in
  let out := kkt_solve kkt_ops d (m_kkt sv)
               (Build_Block8 (rx sv) (b d) (h d) (x_lb_n d) (x_ub d)
                             (rs sv) (rs_lb sv) (rs_ub sv)) in
  upd_result (fun r0 =>
    set_s_ub (b_s_ub out) (set_s_lb (b_s_lb out) (set_s (b_s out)
    (set_z_ub (b_z_ub out) (set_z_lb (b_z_lb out) (set_z (b_z out)
    (set_y (b_y out) (set_x (b_x out) r0)))))))) sv.

(** [(s.dot(z) + s_lb.dot(z_lb) + s_ub.dot(z_ub)) / (m + n_lb + n_ub)] *)
Definition complementarity (sv : SolverT) : T :=
  let d := m_data sv in
  let r0 := m_result sv in
  ((dot (s r0) (z r0)
    + dot (vhead (n_lb d) (s_lb r0)) (vhead (n_lb d) (z_lb r0))
    + dot (vhead (n_ub d) (s_ub r0)) (vhead (n_ub d) (z_ub r0)))
   / sc_of_nat (N_ineq d))%sc.

(** The largest of the three slack norms, as the source accumulates it. *)
Definition slack_norm (sv : SolverT) : T :=
  let d := m_data sv in
  let r0 := m_result sv in
  let s_norm := sc_zero in
  let s_norm := sc_max s_norm (lpNorm_inf (s r0)) in
  let s_norm := sc_max s_norm (lpNorm_inf (vhead (n_lb d) (s_lb r0))) in
  let s_norm := sc_max s_norm (lpNorm_inf (vhead (n_ub d) (s_ub r0))) in
  s_norm.

(** The block under [if (s_norm <= 1e-4)]. *)
Definition reset_slacks (sv : SolverT) : SolverT :=
  let d := m_data sv in
  let c01 := sc_dec 1 10 in
  let sv := upd_result (fun r0 => set_s (setConstant c01 (s r0)) r0) sv in
  let sv := upd_result (fun r0 =>
              set_s_lb (upd_head (n_lb d) (setConstant c01) (s_lb r0)) r0) sv in
  let sv := upd_result (fun r0 =>
              set_s_ub (upd_head (n_ub d) (setConstant c01) (s_ub r0)) r0) sv in
  let sv := upd_result (fun r0 => set_z (setConstant c01 (z r0)) r0) sv in
  let sv := upd_result (fun r0 =>
              set_z_lb (upd_head (n_lb d) (setConstant c01) (z_lb r0)) r0) sv in
  let sv := upd_result (fun r0 =>
              set_z_ub (upd_head (n_ub d) (setConstant c01) (z_ub r0)) r0) sv in
  sv.

(** The shift of the slacks and duals after the initial solve. *)
Definition shift_slacks (sv : SolverT) : SolverT :=
  let d := m_data sv in
  let r0 := m_result sv in
  let hs := vhead (n_lb d) (s_lb r0) in
  let us := vhead (n_ub d) (s_ub r0) in
  let hz := vhead (n_lb d) (z_lb r0) in
  let uz := vhead (n_ub d) (z_ub r0) in
  let c15 := sc_dec 3 2 in
  let delta_s := sc_zero in
  let delta_s := if (0 <? m d)%nat
                 then sc_max delta_s (- c15 * minCoeff (s r0))%sc else delta_s in
  let delta_s := if (0 <? n_lb d)%nat
                 then sc_max delta_s (- c15 * minCoeff hs)%sc else delta_s in
  let delta_s := if (0 <? n_ub d)%nat
                 then sc_max delta_s (- c15 * minCoeff us)%sc else delta_s in
  let delta_z := sc_zero in
  let delta_z := if (0 <? m d)%nat
                 then sc_max delta_z (- c15 * minCoeff (z r0))%sc else delta_z in
  let delta_z := if (0 <? n_lb d)%nat
                 then sc_max delta_z (- c15 * minCoeff hz)%sc else delta_z in
  let delta_z := if (0 <? n_ub d)%nat
                 then sc_max delta_z (- c15 * minCoeff uz)%sc else delta_z in
  let tmp_prod := dot (vshift (s r0) delta_s) (vshift (z r0) delta_z) in
  let tmp_prod := (tmp_prod + dot (vshift hs delta_s) (vshift hz delta_z))%sc in
  let tmp_prod := (tmp_prod + dot (vshift us delta_s) (vshift uz delta_z))%sc in
  let delta_s_bar :=
    (delta_s + (sc_dec 1 2 * tmp_prod)
               / (vsum (z r0) + vsum hz + vsum uz + sc_of_nat (N_ineq d) * delta_z))%sc in
  let delta_z_bar :=
    (delta_z + (sc_dec 1 2 * tmp_prod)
               / (vsum (s r0) + vsum hs + vsum us + sc_of_nat (N_ineq d) * delta_s))%sc in
  let sv := upd_result (fun r0 => set_s (vshift (s r0) delta_s_bar) r0) sv in
  let sv := upd_result (fun r0 =>
              set_s_lb (upd_head (n_lb d) (fun v => vshift v delta_s_bar) (s_lb r0)) r0) sv in
  let sv := upd_result (fun r0 =>
              set_s_ub (upd_head (n_ub d) (fun v => vshift v delta_s_bar) (s_ub r0)) r0) sv in
  let sv := upd_result (fun r0 => set_z (vshift (z r0) delta_z_bar) r0) sv in
  let sv := upd_result (fun r0 =>
              set_z_lb (upd_head (n_lb d) (fun v => vshift v delta_z_bar) (z_lb r0)) r0) sv in
  let sv := upd_result (fun r0 =>
              set_z_ub (upd_head (n_ub d) (fun v => vshift v delta_z_bar) (z_ub r0)) r0) sv in
  upd_info (set_mu (complementarity sv)) sv.

(** The block under [if (m + n_lb + n_ub > 0)] after the initial solve. *)
Definition initial_slacks (sv : SolverT) : SolverT :=
  if (0 <? N_ineq (m_data sv))%nat then
    let sv := if (slack_norm sv <=? sc_dec 1 10000)%sc then reset_slacks sv else sv in
    shift_slacks sv
  else sv.

(** [zeta = x; lambda = y; nu = z; nu_lb = z_lb; nu_ub = z_ub] *)
Definition set_prox_centres (sv : SolverT) : SolverT :=
  let d := m_data sv in
  let sv := upd_result (fun r0 => set_zeta (x r0) r0) sv in
  let sv := upd_result (fun r0 => set_lambda (y r0) r0) sv in
  let sv := upd_result (fun r0 => set_nu (z r0) r0) sv in
  let sv := upd_result (fun r0 =>
              set_nu_lb (set_head (n_lb d) (vhead (n_lb d) (z_lb r0)) (nu_lb r0)) r0) sv in
  let sv := upd_result (fun r0 =>
              set_nu_ub (set_head (n_ub d) (vhead (n_ub d) (z_ub r0)) (nu_ub r0)) r0) sv in
  sv.

(** *** [solve_impl]: one pass through the outer loop *)

(** [info.primal_inf] and [info.dual_inf] at the top of a pass. *)
Definition update_infeasibilities (sv : SolverT) : SolverT :=
  let d := m_data sv in
  let pc := m_preconditioner sv in
  let sv := upd_info (set_primal_inf
              (lpNorm_inf (unscale_primal_res_eq pc_ops pc (ry_nr sv)))) sv in
  let sv := upd_info (fun i0 => set_primal_inf (sc_max (primal_inf i0)
              (lpNorm_inf (unscale_primal_res_ineq pc_ops pc (rz_nr sv)))) i0) sv in
  let sv := upd_info (fun i0 => set_primal_inf (sc_max (primal_inf i0)
              (lpNorm_inf (unscale_primal_res_lb pc_ops pc
                             (vhead (n_lb d) (rz_lb_nr sv))))) i0) sv in
  let sv := upd_info (fun i0 => set_primal_inf (sc_max (primal_inf i0)
              (lpNorm_inf (unscale_primal_res_ub pc_ops pc
                             (vhead (n_ub d) (rz_ub_nr sv))))) i0) sv in
  let sv := upd_info (set_dual_inf
              (lpNorm_inf (unscale_dual_res pc_ops pc (rx_nr sv)))) sv in
  sv.

(** The verbose branch prints a line; it also uses [rx] as a scratch
    vector for [P x]. *)
Definition log_iteration (sv : SolverT) : SolverT :=
  let d := m_data sv in
  let sv := set_rx (mat_vec (P_utri d) (x (m_result sv))) sv in
  let sv := set_rx (vadd (rx sv)
              (mat_vec (strictly_lower (transpose (n d) (P_utri d)))
                       (x (m_result sv)))) sv in
  sv.

(** The convergence test. *)
Definition converged (sv : SolverT) : bool :=
  let i0 := sv_info sv in
  let st := m_settings sv in
  (primal_inf i0 <? feas_tol_abs st + feas_tol_rel st * primal_rel_inf sv)%sc
  && (dual_inf i0 <? feas_tol_abs st + feas_tol_rel st * dual_rel_inf sv)%sc
  && (mu i0 <? dual_tol st)%sc.

(** The residuals with the proximal terms. *)
Definition update_residuals (sv : SolverT) : SolverT :=
  let d := m_data sv in
  let r0 := m_result sv in
  let i0 := info r0 in
  let sv := set_rx (vsub (rx_nr sv) (vscale (rho i0) (vsub (x r0) (zeta r0)))) sv in
  let sv := set_ry (vsub (ry_nr sv) (vscale (delta i0) (vsub (lambda r0) (y r0)))) sv in
  let sv := set_rz (vsub (rz_nr sv) (vscale (delta i0) (vsub (nu r0) (z r0)))) sv in
  let sv := set_rz_lb (set_head (n_lb d)
              (vsub (vhead (n_lb d) (rz_lb_nr sv))
                    (vscale (delta i0) (vsub (vhead (n_lb d) (nu_lb r0))
                                             (vhead (n_lb d) (z_lb r0)))))
              (rz_lb sv)) sv in
  let sv := set_rz_ub (set_head (n_ub d)
              (vsub (vhead (n_ub d) (rz_ub_nr sv))
                    (vscale (delta i0) (vsub (vhead (n_ub d) (nu_ub r0))
                                             (vhead (n_ub d) (z_ub r0)))))
              (rz_ub sv)) sv in
  sv.

(** [dual_prox_inf_norm] *)
Definition dual_prox_inf_norm (sv : SolverT) : T :=
  let d := m_data sv in
  let r0 := m_result sv in
  let pc := m_preconditioner sv in
  let v := lpNorm_inf (unscale_dual_eq pc_ops pc (vsub (lambda r0) (y r0))) in
  let v := sc_max v (lpNorm_inf (unscale_dual_ineq pc_ops pc (vsub (nu r0) (z r0)))) in
  let v := sc_max v (lpNorm_inf (unscale_dual_lb pc_ops pc
             (vsub (vhead (n_lb d) (nu_lb r0)) (vhead (n_lb d) (z_lb r0))))) in
  let v := sc_max v (lpNorm_inf (unscale_dual_ub pc_ops pc
             (vsub (vhead (n_ub d) (nu_ub r0)) (vhead (n_ub d) (z_ub r0))))) in
  v.

(** [dual_inf_norm]: the norm of the regularised primal residuals. *)
Definition dual_inf_norm (sv : SolverT) : T :=
  let d := m_data sv in
  let pc := m_preconditioner sv in
  let v := lpNorm_inf (unscale_primal_res_eq pc_ops pc (ry sv)) in
  let v := sc_max v (lpNorm_inf (unscale_primal_res_ineq pc_ops pc (rz sv))) in
  let v := sc_max v (lpNorm_inf (unscale_primal_res_lb pc_ops pc
             (vhead (n_lb d) (rz_lb sv)))) in
  let v := sc_max v (lpNorm_inf (unscale_primal_res_ub pc_ops pc
             (vhead (n_ub d) (rz_ub sv)))) in
  v.

(** The test that returns [PIQP_PRIMAL_INFEASIBLE]. *)
Definition primal_infeasible (sv : SolverT) : bool :=
  (5 <? no_dual_update (sv_info sv))%Z
  && sc_gtb (dual_prox_inf_norm sv) (sc_of_Z (10 ^ 10))
  && (dual_inf_norm sv <? feas_tol_abs (m_settings sv))%sc.

(** The test that returns [PIQP_DUAL_INFEASIBLE]. *)
Definition dual_infeasible (sv : SolverT) : bool :=
  let r0 := m_result sv in
  let pc := m_preconditioner sv in
  (5 <? no_primal_update (sv_info sv))%Z
  && sc_gtb (lpNorm_inf (unscale_primal pc_ops pc (vsub (x r0) (zeta r0))))
            (sc_of_Z (10 ^ 10))
  && (lpNorm_inf (unscale_dual_res pc_ops pc (rx sv))
      <? feas_tol_abs (m_settings sv))%sc.

(** The floor of the regularisation is lowered to [1e-13] when the
    proximal centres have stalled at the floor. *)
Definition relax_reg_limit (sv : SolverT) : SolverT :=
  let i0 := sv_info sv in
  let floor := sc_dec 1 (10 ^ 13) in
  if ((5 <? no_primal_update i0)%Z && (rho i0 =? reg_limit i0)%sc
        && sc_neqb (reg_limit i0) floor)
     || ((5 <? no_dual_update i0)%Z && (delta i0 =? reg_limit i0)%sc
           && sc_neqb (reg_limit i0) floor)
  then
    let sv := upd_info (set_reg_limit floor) sv in
    let sv := upd_info (set_no_primal_update 0%Z) sv in
    let sv := upd_info (set_no_dual_update 0%Z) sv in
    sv
  else sv.

(** The step to the boundary of the positive orthant: one of the three
    loops over the indices [i < k], on a slack block and a dual block. *)
Fixpoint alpha_loop (s' ds' z' dz' : list T) (i k : nat) (alpha : T * T) : T * T :=
  match k with
  | O => alpha
  | S k' =>
      let '(alpha_s, alpha_z) := alpha in
      let alpha_s := if (coeff ds' i <? sc_zero)%sc
                     then sc_min alpha_s (- coeff s' i / coeff ds' i)%sc
                     else alpha_s in
      let alpha_z := if (coeff dz' i <? sc_zero)%sc
                     then sc_min alpha_z (- coeff z' i / coeff dz' i)%sc
                     else alpha_z in
      alpha_loop s' ds' z' dz' (S i) k' (alpha_s, alpha_z)
  end.

(** The three loops, from [alpha_s = alpha_z = 1]. *)
Definition step_to_boundary (sv : SolverT) : T * T :=
  let d := m_data sv in
  let r0 := m_result sv in
  let alpha := (sc_one, sc_one) in
  let alpha := alpha_loop (s r0) (ds sv) (z r0) (dz sv) 0 (m d) alpha in
  let alpha := alpha_loop (s_lb r0) (ds_lb sv) (z_lb r0) (dz_lb sv) 0 (n_lb d) alpha in
  let alpha := alpha_loop (s_ub r0) (ds_ub sv) (z_ub r0) (dz_ub sv) 0 (n_ub d) alpha in
  alpha.

(** [m_kkt.solve(rx, ry, rz, rz_lb, rz_ub, rs, rs_lb, rs_ub, dx, ..., ds_ub)] *)
Definition solve_direction (sv : SolverT) : SolverT :=
  let out := kkt_solve kkt_ops (m_data sv) (m_kkt sv)
               (Build_Block8 (rx sv) (ry sv) (rz sv) (rz_lb sv) (rz_ub sv)
                             (rs sv) (rs_lb sv) (rs_ub sv)) in
  let sv := set_dx (b_x out) sv in
  let sv := set_dy (b_y out) sv in
  let sv := set_dz (b_z out) sv in
  let sv := set_dz_lb (b_z_lb out) sv in
  let sv := set_dz_ub (b_z_ub out) sv in
  let sv := set_ds (b_s out) sv in
  let sv := set_ds_lb (b_s_lb out) sv in
  let sv := set_ds_ub (b_s_ub out) sv in
  sv.

(** The predictor step: the affine direction and the centring parameter. *)
Definition predictor (sv : SolverT) : SolverT :=
  let d := m_data sv in
  let r0 := m_result sv in
  let sv := set_rs (vmul (vneg (s r0)) (z r0)) sv in
  let sv := set_rs_lb (set_head (n_lb d)
              (vmul (vneg (vhead (n_lb d) (s_lb r0))) (vhead (n_lb d) (z_lb r0)))
              (rs_lb sv)) sv in
  let sv := set_rs_ub (set_head (n_ub d)
              (vmul (vneg (vhead (n_ub d) (s_ub r0))) (vhead (n_ub d) (z_ub r0)))
              (rs_ub sv)) sv in
  let sv := solve_direction sv in
  let '(alpha_s, alpha_z) := step_to_boundary sv in
  let alpha_s := (alpha_s * tau (m_settings sv))%sc in
  let alpha_z := (alpha_z * tau (m_settings sv))%sc in
  let sg := dot (vadd (s r0) (vscale alpha_s (ds sv)))
                (vadd (z r0) (vscale alpha_z (dz sv))) in
  let sg := (sg + dot (vadd (vhead (n_lb d) (s_lb r0))
                            (vscale alpha_s (vhead (n_lb d) (ds_lb sv))))
                      (vadd (vhead (n_lb d) (z_lb r0))
                            (vscale alpha_z (vhead (n_lb d) (dz_lb sv)))))%sc in
  let sg := (sg + dot (vadd (vhead (n_ub d) (s_ub r0))
                            (vscale alpha_s (vhead (n_ub d) (ds_ub sv))))
                      (vadd (vhead (n_ub d) (z_ub r0))
                            (vscale alpha_z (vhead (n_ub d) (dz_ub sv)))))%sc in
  let sg := (sg / (mu (info r0) * sc_of_nat (N_ineq d)))%sc in
  let sg := (sg * sg * sg)%sc in
  upd_info (set_sigma sg) sv.

(** The corrector step: the centred direction and the two step lengths. *)
Definition corrector (sv : SolverT) : SolverT :=
  let d := m_data sv in
  let i0 := sv_info sv in
  let centre := (sigma i0 * mu i0)%sc in
  let sv := set_rs (vadd (rs sv)
              (vshift (vmul (vneg (ds sv)) (dz sv)) centre)) sv in
  let sv := set_rs_lb (upd_head (n_lb d) (fun v => vadd v
              (vshift (vmul (vneg (vhead (n_lb d) (ds_lb sv)))
                            (vhead (n_lb d) (dz_lb sv))) centre))
              (rs_lb sv)) sv in
  let sv := set_rs_ub (upd_head (n_ub d) (fun v => vadd v
              (vshift (vmul (vneg (vhead (n_ub d) (ds_ub sv)))
                            (vhead (n_ub d) (dz_ub sv))) centre))
              (rs_ub sv)) sv in
  let sv := solve_direction sv in
  let '(alpha_s, alpha_z) := step_to_boundary sv in
  let sv := upd_info (set_primal_step (alpha_s * tau (m_settings sv))%sc) sv in
  let sv := upd_info (set_dual_step (alpha_z * tau (m_settings sv))%sc) sv in
  sv.

(** The update of the iterate along the direction. *)
Definition update_iterate (sv : SolverT) : SolverT :=
  let d := m_data sv in
  let ps := primal_step (sv_info sv) in
  let dl := dual_step (sv_info sv) in
  let sv := upd_result (fun r0 => set_x (vadd (x r0) (vscale ps (dx sv))) r0) sv in
  let sv := upd_result (fun r0 => set_y (vadd (y r0) (vscale dl (dy sv))) r0) sv in
  let sv := upd_result (fun r0 => set_z (vadd (z r0) (vscale dl (dz sv))) r0) sv in
  let sv := upd_result (fun r0 => set_z_lb (upd_head (n_lb d)
              (fun v => vadd v (vscale dl (vhead (n_lb d) (dz_lb sv)))) (z_lb r0)) r0) sv in
  let sv := upd_result (fun r0 => set_z_ub (upd_head (n_ub d)
              (fun v => vadd v (vscale dl (vhead (n_ub d) (dz_ub sv)))) (z_ub r0)) r0) sv in
  let sv := upd_result (fun r0 => set_s (vadd (s r0) (vscale ps (ds sv))) r0) sv in
  let sv := upd_result (fun r0 => set_s_lb (upd_head (n_lb d)
              (fun v => vadd v (vscale ps (vhead (n_lb d) (ds_lb sv)))) (s_lb r0)) r0) sv in
  let sv := upd_result (fun r0 => set_s_ub (upd_head (n_ub d)
              (fun v => vadd v (vscale ps (vhead (n_ub d) (ds_ub sv)))) (s_ub r0)) r0) sv in
  sv.

(** The norm of the primal residuals without regularisation, after the step. *)
Definition dual_nr_inf_norm (sv : SolverT) : T :=
  let d := m_data sv in
  let pc := m_preconditioner sv in
  let v := lpNorm_inf (unscale_primal_res_eq pc_ops pc (ry_nr sv)) in
  let v := sc_max v (lpNorm_inf (unscale_primal_res_ineq pc_ops pc (rz_nr sv))) in
  let v := sc_max v (lpNorm_inf (unscale_primal_res_lb pc_ops pc
             (vhead (n_lb d) (rz_lb_nr sv)))) in
  let v := sc_max v (lpNorm_inf (unscale_primal_res_ub pc_ops pc
             (vhead (n_ub d) (rz_ub_nr sv)))) in
  v.

(** The update of rho and of the primal proximal centre: [good] is the
    factor applied on progress, [bad] the factor applied otherwise. *)
Definition update_rho (good bad : T) (sv : SolverT) : SolverT :=
  if (lpNorm_inf (unscale_dual_res pc_ops (m_preconditioner sv) (rx_nr sv))
      <? sc_dec 95 100 * dual_inf (sv_info sv))%sc
  then
    let sv := upd_result (fun r0 => set_zeta (x r0) r0) sv in
    upd_info (fun i0 => set_rho (sc_max (reg_limit i0) (good * rho i0)%sc) i0) sv
  else
    let sv := upd_info (fun i0 => set_no_primal_update (no_primal_update i0 + 1)%Z i0) sv in
    upd_info (fun i0 => set_rho (sc_max (reg_limit i0) (bad * rho i0)%sc) i0) sv.

(** The update of delta and of the dual proximal centres, with inequalities. *)
Definition update_delta (good bad : T) (sv : SolverT) : SolverT :=
  let d := m_data sv in
  if (dual_nr_inf_norm sv <? sc_dec 95 100 * primal_inf (sv_info sv))%sc
  then
    let sv := upd_result (fun r0 => set_lambda (y r0) r0) sv in
    let sv := upd_result (fun r0 => set_nu (z r0) r0) sv in
    let sv := upd_result (fun r0 =>
                set_nu_lb (set_head (n_lb d) (vhead (n_lb d) (z_lb r0)) (nu_lb r0)) r0) sv in
    let sv := upd_result (fun r0 =>
                set_nu_ub (set_head (n_ub d) (vhead (n_ub d) (z_ub r0)) (nu_ub r0)) r0) sv in
    upd_info (fun i0 => set_delta (sc_max (reg_limit i0) (good * delta i0)%sc) i0) sv
  else
    let sv := upd_info (fun i0 => set_no_dual_update (no_dual_update i0 + 1)%Z i0) sv in
    upd_info (fun i0 => set_delta (sc_max (reg_limit i0) (bad * delta i0)%sc) i0) sv.

(** The update of delta and of lambda, without inequalities. *)
Definition update_delta_eq (good bad : T) (sv : SolverT) : SolverT :=
  if (lpNorm_inf (unscale_primal_res_eq pc_ops (m_preconditioner sv) (ry_nr sv))
      <? sc_dec 95 100 * primal_inf (sv_info sv))%sc
  then
    let sv := upd_result (fun r0 => set_lambda (y r0) r0) sv in
    upd_info (fun i0 => set_delta (sc_max (reg_limit i0) (good * delta i0)%sc) i0) sv
  else
    let sv := upd_info (fun i0 => set_no_dual_update (no_dual_update i0 + 1)%Z i0) sv in
    upd_info (fun i0 => set_delta (sc_max (reg_limit i0) (bad * delta i0)%sc) i0) sv.

(** The branch [m + n_lb + n_ub > 0] of a pass, after the factorisation. *)
Definition predictor_corrector (sv : SolverT) : SolverT :=
  let sv := predictor sv in
  let sv := corrector sv in
  let sv := update_iterate sv in
  let mu_prev := mu (sv_info sv) in
  let sv := upd_info (set_mu (complementarity sv)) sv in
  let mu_rate := (sc_abs (mu_prev - mu (sv_info sv)) / mu_prev)%sc in
  let sv := update_nr_residuals sv in
  let sv := update_rho (sc_one - mu_rate)%sc (sc_one - sc_dec 666 1000 * mu_rate)%sc sv in
  let sv := update_delta (sc_one - mu_rate)%sc (sc_one - sc_dec 666 1000 * mu_rate)%sc sv in
  sv.

(** The branch without inequalities: one Newton solve and full steps. *)
Definition newton_step (sv : SolverT) : SolverT :=
  let sv := solve_direction sv in
  let sv := upd_info (set_primal_step sc_one) sv in
  let sv := upd_info (set_dual_step sc_one) sv in
  let sv := upd_result (fun r0 =>
              set_x (vadd (x r0) (vscale (primal_step (info r0)) (dx sv))) r0) sv in
  let sv := upd_result (fun r0 =>
              set_y (vadd (y r0) (vscale (dual_step (info r0)) (dy sv))) r0) sv in
  let sv := update_nr_residuals sv in
  let sv := update_rho (sc_dec 1 10) (sc_dec 1 2) sv in
  let sv := update_delta_eq (sc_dec 1 10) (sc_dec 1 2) sv in
  sv.

(** The top of a pass, up to the convergence test. *)
Definition begin_iteration (sv : SolverT) : SolverT :=
  let sv := if (iter (sv_info sv) =? 0)%Z then update_nr_residuals sv else sv in
  let sv := update_infeasibilities sv in
  let sv := if verbose (m_settings sv) then log_iteration sv else sv in
  sv.

(** From [iter++] to the factorisation of a pass. *)
Definition refactorize (sv : SolverT) : bool * SolverT :=
  let sv := upd_info (fun i0 => set_iter (iter i0 + 1)%Z i0) sv in
  let sv := relax_reg_limit sv in
  let sv := stage_scalings sv in
  let sv := set_m_kkt_init_state false sv in
  factorize sv.

(** The retry block of the outer loop. *)
Definition retry_iteration (sv : SolverT) : SolverT :=
  let sv := upd_info (fun i0 => set_delta (delta i0 * sc_of_Z 100)%sc i0) sv in
  let sv := upd_info (fun i0 => set_rho (rho i0 * sc_of_Z 100)%sc i0) sv in
  let sv := upd_info (fun i0 => set_iter (iter i0 - 1)%Z i0) sv in
  let sv := upd_info (fun i0 => set_factor_retires (factor_retires i0 + 1)%Z i0) sv in
  let sv := upd_info (fun i0 =>
              set_reg_limit (sc_min (sc_of_Z 10 * reg_limit i0)%sc
                                    (feas_tol_abs (m_settings sv))) i0) sv in
  sv.

(** [m_result.info.status = st; return m_result.info.status;] *)
Definition return_status (st : Status) (sv : SolverT) : Outcome SolverT :=
  Return st (upd_info (set_status st) sv).

(** One pass through the body of [while (iter < max_iter)]. *)
Definition outer_iteration (sv : SolverT) : Outcome SolverT :=
  let sv := begin_iteration sv in
  if converged sv then return_status PIQP_SOLVED sv
  else
    let sv := update_residuals sv in
    if primal_infeasible sv then return_status PIQP_PRIMAL_INFEASIBLE sv
    else if dual_infeasible sv then return_status PIQP_DUAL_INFEASIBLE sv
    else
      let '(kkt_success, sv) := refactorize sv in
      if negb kkt_success then
        if (factor_retires (sv_info sv) <? max_factor_retires (m_settings sv))%Z
        then Continue (retry_iteration sv)
        else return_status PIQP_NUMERICS sv
      else
        let sv := upd_info (set_factor_retires 0%Z) sv in
        if (0 <? N_ineq (m_data sv))%nat
        then Continue (predictor_corrector sv)
        else Continue (newton_step sv).

(** The loop [while (iter < max_iter)] and the return after it. *)
Fixpoint outer_loop (fuel : nat) (sv : SolverT) : option (Status * SolverT) :=
  match fuel with
  | O => None
  | S fuel' =>
      if (iter (sv_info sv) <? max_iter (m_settings sv))%Z then
        match outer_iteration sv with
        | Return st sv' => Some (st, sv')
        | Continue sv' => outer_loop fuel' sv'
        end
      else Some (PIQP_MAX_ITER_REACHED,
                 upd_info (set_status PIQP_MAX_ITER_REACHED) sv)
  end.

(** Passes that the outer loop can make at most from [sv]: every pass
    either counts one iteration or uses up one of the retries. *)
Definition outer_fuel (sv : SolverT) : nat :=
  let retries := Z.max 0 (max_factor_retires (m_settings sv)) in
  let left := Z.max 0 (max_factor_retires (m_settings sv)
                       - factor_retires (sv_info sv)) in
  S (Z.to_nat ((max_iter (m_settings sv) - iter (sv_info sv)) * (retries + 1) + left)).

(** The part of [solve_impl] before the outer loop: the guards, the
    initial factorisation and the initial iterate. *)
Definition solve_prologue (sv : SolverT) : option (Outcome SolverT) :=
  if negb (m_setup_done sv) then Some (return_status PIQP_UNSOLVED sv)
  else if negb (verify_settings (m_settings sv))
  then Some (return_status PIQP_INVALID_SETTINGS sv)
  else
    let sv := reset_info sv in
    let sv := if negb (m_kkt_init_state sv) then reset_scalings sv else sv in
    match initial_factorize (initial_fuel sv) sv with
    | None => None
    | Some (Return st sv') => Some (Return st sv')
    | Some (Continue sv) =>
        let sv := upd_info (set_factor_retires 0%Z) sv in
        let sv := initial_solve sv in
        let sv := initial_slacks sv in
        let sv := set_prox_centres sv in
        Some (Continue sv)
    end.

(** [solve_impl].  [None] stands for a loop that does not end; the
    theorems below show that this never happens. *)
Definition solve_impl (sv : SolverT) : option (Status * SolverT) :=
  match solve_prologue sv with
  | None => None
  | Some (Return st sv') => Some (st, sv')
  | Some (Continue sv') => outer_loop (outer_fuel sv') sv'
  end.

(** [solve]: [solve_impl], then the results are unscaled and the box duals
    are put back in the order of the variables. *)
Definition solve (sv : SolverT) : option (Status * SolverT) :=
  match solve_impl sv with
  | None => None
  | Some (status', sv') => Some (status', restore_box_dual (unscale_results sv'))
  end.

End Driver.

(** ** Instances: binary64 and exact rational scalars, and small back-ends *)

(** IEEE 754 binary64, the floating type of the scalars, on the
    primitive floats: every operation rounds to nearest, ties to
    even, with underflow, infinities and NaN; [T(k)] is the integer [k]
    rounded, so that [sc_dec a b] is the literal nearest to [a / b]. *)
Definition b64_of_Z (k : Z) : PrimFloat.float :=
  FloatOps.SF2Prim (SpecFloat.binary_normalize FloatOps.prec FloatOps.emax k 0 false).

#[global] Instance B64_Scalar : Scalar PrimFloat.float := {
  sc_of_Z := b64_of_Z;
  sc_add := PrimFloat.add;
  sc_sub := PrimFloat.sub;
  sc_mul := PrimFloat.mul;
  sc_div := PrimFloat.div;
  sc_opp := PrimFloat.opp;
  sc_abs := PrimFloat.abs;
  sc_ltb := PrimFloat.ltb;
  sc_leb := PrimFloat.leb;
  sc_eqb := PrimFloat.eqb;
  sc_infinity := PrimFloat.infinity
}.

(** [a < b] on rationals, decided on the cross products. *)
Definition Qltb (a b : Q) : bool := (Qnum a * QDen b <? Qnum b * QDen a)%Z.

(** The rationals as scalar type: the arithmetic of the program without
    rounding, overflow or underflow.  They have no infinity, and
    [std::numeric_limits<T>::infinity()] is [T()] for such a type.  What
    is proved for them is a statement about exact arithmetic. *)
#[global] Instance Q_Scalar : Scalar Q := {
  sc_of_Z := inject_Z;
  sc_add := Qplus;
  sc_sub := Qminus;
  sc_mul := Qmult;
  sc_div := Qdiv;
  sc_opp := Qopp;
  sc_abs := Qabs;
  sc_ltb := Qltb;
  sc_leb := Qle_bool;
  sc_eqb := Qeq_bool;
  sc_infinity := 0%Q
}.

(** The rationals with every result reduced to lowest terms: the same
    numbers, used to run the solver on concrete problems. *)
Definition Qr_Scalar : Scalar Q := {|
  sc_of_Z := inject_Z;
  sc_add := fun a b => Qred (a + b);
  sc_sub := fun a b => Qred (a - b);
  sc_mul := fun a b => Qred (a * b);
  sc_div := fun a b => Qred (a / b);
  sc_opp := Qopp;
  sc_abs := Qabs;
  sc_ltb := Qltb;
  sc_leb := Qle_bool;
  sc_eqb := Qeq_bool;
  sc_infinity := 0%Q
|}.

(** The identity preconditioner: nothing is scaled. *)
Definition identity_preconditioner (T : Type) : PreconditionerOps T unit := {|
  pc_init := fun pc _ => pc;
  pc_scale_data := fun pc d _ _ => (pc, d);
  unscale_primal := fun _ v => v;
  unscale_dual_eq := fun _ v => v;
  unscale_dual_ineq := fun _ v => v;
  unscale_dual_lb := fun _ v => v;
  unscale_dual_ub := fun _ v => v;
  unscale_slack_ineq := fun _ v => v;
  unscale_slack_lb := fun _ v => v;
  unscale_slack_ub := fun _ v => v;
  unscale_primal_res_eq := fun _ v => v;
  unscale_primal_res_ineq := fun _ v => v;
  unscale_primal_res_lb := fun _ v => v;
  unscale_primal_res_ub := fun _ v => v;
  unscale_dual_res := fun _ v => v;
  unscale_cost := fun _ a => a
|}.

(** A KKT operator for problems without constraints and with a diagonal
    [P]: the system is [(P + rho I) dx = r_x], solved coordinate by
    coordinate; the factorisation fails on a zero pivot. *)
Record DiagKKT (T : Type) : Type := Build_DiagKKT {
  k_rho : T;
  k_delta : T
}.

Definition diag_pivots {T : Type} `{Scalar T} (d : Data T) (k : DiagKKT T) : list T :=
  imap (fun i row => (coeff row i + k_rho k)%sc) (P_utri d).

Definition diag_kkt (T : Type) `{Scalar T} : KKTOps T (DiagKKT T) := {|
  kkt_init := fun _ _ rho' delta' => Build_DiagKKT rho' delta';
  kkt_update_scalings := fun _ _ rho' delta' _ _ _ _ _ _ => Build_DiagKKT rho' delta';
  kkt_factorize := fun d k =>
    (forallb (fun a => sc_neqb a sc_zero) (diag_pivots d k), k);
  kkt_solve := fun d k rhs =>
    Build_Block8 (zip_with sc_div (b_x rhs) (diag_pivots d k))
                 (b_y rhs) (b_z rhs) (b_z_lb rhs) (b_z_ub rhs)
                 (b_s rhs) (b_s_lb rhs) (b_s_ub rhs)
|}.

(** A scripted KKT operator: every call of [factorize] takes the next
    entry of the script, its verdict and the solution that [solve] returns
    until the next call; [update_scalings] records what it is given.  It
    stands for an arbitrary back-end. *)
Record ScriptKKT (T : Type) : Type := Build_ScriptKKT {
  k_current : Block8 T;
  k_script : list (bool * Block8 T);
  k_staged : list (list T)
}.

Definition script_kkt (T : Type) : KKTOps T (ScriptKKT T) := {|
  kkt_init := fun _ k _ _ => k;
  kkt_update_scalings := fun _ k rho' delta' s' s_lb' s_ub' z' z_lb' z_ub' =>
    Build_ScriptKKT (k_current k) (k_script k)
      [[rho']; [delta']; s'; s_lb'; s_ub'; z'; z_lb'; z_ub'];
  kkt_factorize := fun _ k =>
    match k_script k with
    | [] => (true, k)
    | (ok, sol) :: rest =>
        (ok, Build_ScriptKKT (if ok then sol else k_current k) rest (k_staged k))
    end;
  kkt_solve := fun _ k _ => k_current k
|}.

(** Settings with the default values of the solver. *)
Definition default_settings : Settings Q := {|
  rho_init := 1 # 1000000;
  delta_init := 1 # 10000;
  feas_tol_abs := 1 # 100000000;
  feas_tol_rel := 1 # 1000000000;
  dual_tol := 1 # 100000000;
  reg_lower_limit := 1 # 10000000000;
  max_iter := 200%Z;
  max_factor_retires := 10%Z;
  preconditioner_iter := 10%Z;
  tau := 99 # 100;
  verbose := false
|}.

(** The settings the solver accepts in the examples: the tolerances and
    the regularisation are positive, tau lies in (0, 1). *)
Definition positive_settings {T : Type} `{Scalar T} (st : Settings T) : bool :=
  (sc_zero <? rho_init st)%sc && (sc_zero <? delta_init st)%sc
  && (sc_zero <? feas_tol_abs st)%sc && (sc_zero <=? feas_tol_rel st)%sc
  && (sc_zero <? dual_tol st)%sc && (sc_zero <? reg_lower_limit st)%sc
  && (sc_zero <? tau st)%sc && (tau st <? sc_one)%sc.

(** A solver before [setup]: every vector empty, every number zero. *)
Definition empty_info : Info Q :=
  Build_Info PIQP_UNSOLVED 0%Z 0%Q 0%Q 0%Q 0%Q 0%Q 0%Q 0%Q 0%Q 0%Q 0%Z 0%Z 0%Z.
Definition empty_result : Result Q :=
  Build_Result [] [] [] [] [] [] [] [] [] [] [] [] [] empty_info.
Definition empty_data : Data Q :=
  Build_Data 0 0 0 0 0 [] [] [] [] [] [] [] [] [] [].
Definition new_solver {PC K : Type} (st : Settings Q) (pc : PC) (k : K)
  : Solver Q PC K :=
  Build_Solver empty_result st empty_data pc k false false
    [] [] [] [] [] [] [] [] [] [] [] [] [] [] [] [] [] [] [] [] [] 0%Q 0%Q.

(** ** Notions used to state the properties *)

Section BoxNotions.
Context {T : Type} `{Scalar T}.

(** The entries of [l] that pass [keep], each with its position, counted from [i]. *)
Fixpoint kept_entries (keep : T -> bool) (i : nat) (l : list T) : list (nat * T) :=
  match l with
  | [] => []
  | v :: r => if keep v then (i, v) :: kept_entries keep (S i) r
              else kept_entries keep (S i) r
  end.

Definition lb_finite (v : T) : bool := sc_gtb v (- PIQP_INF)%sc.
Definition ub_finite (v : T) : bool := (v <? PIQP_INF)%sc.

End BoxNotions.

(** [l] is strictly increasing, starts at [lo] or above and stays below [bound]. *)
Fixpoint increasing_from (lo bound : nat) (l : list nat) : bool :=
  match l with
  | [] => true
  | a :: r => (lo <=? a)%nat && (a <? bound)%nat && increasing_from (S a) bound r
  end.

(** The index map of [k] active bounds among [len] variables is well formed. *)
Definition box_index_ok (len k : nat) (idx : list nat) : bool :=
  (k <=? length idx)%nat && increasing_from 0 len (take k idx).

(** The swaps of [restore_box_dual] on one vector. *)
Fixpoint restore_vec {A : Type} (idx : list nat) (k : nat) (v : list A) : list A :=
  match k with
  | O => v
  | S i => restore_vec idx i (swap i (default O (idx !! i)) v)
  end.


Section RestoreNotions.
Context {A : Type}.
Implicit Types (v u : list A) (idx : list nat).

(** The state of the vector when the indices [i, k) have been
    processed: the head below [i] is untouched, the processed values sit
    at their dense positions, every other position from [i] on is filled. *)
Definition restore_inv idx (k : nat) (fill : A) (v0 : list A) (i : nat) u : Prop :=
  length u = length v0
  /\ (forall j, (j < i)%nat -> u !! j = v0 !! j)
  /\ (forall j a, (i <= j)%nat -> (j < k)%nat -> idx !! j = Some a -> u !! a = v0 !! j)
  /\ (forall q, (i <= q)%nat -> (q < length u)%nat ->
        (forall j, (i <= j)%nat -> (j < k)%nat -> idx !! j <> Some q) ->
        u !! q = Some fill).

End RestoreNotions.

Section NRdefs.
Context {T : Type} `{Scalar T} {PC : Type}.
Context (pc_ops : PreconditionerOps T PC).

(** [for i' in [i, i + k): v(i') = f(i')] *)
Fixpoint write_loop (f : nat -> T) (i k : nat) (v : list T) : list T :=
  match k with
  | O => v
  | S k' => write_loop f (S i) k' (<[i := f i]> v)
  end.

(** The vectors that [update_nr_residuals] computes, as functions of the
    stored problem and of the iterate. *)
Definition nr_rx (d : Data T) (r0 : Result T) : list T :=
  let dx1 := mat_vec (AT d) (y r0) in
  let dx2 := mat_vec (GT d) (z r0) in
  let dx3 := scatter (x_lb_idx d) (vneg (z_lb r0)) (n_lb d) dx2 in
  let dx4 := scatter (x_ub_idx d) (z_ub r0) (n_ub d) dx3 in
  vsub (vsub (vsub (vsub (vsub (vsub
    (vneg (mat_vec (P_utri d) (x r0)))
    (mat_vec (strictly_lower (transpose (n d) (P_utri d))) (x r0)))
    (c d)) dx1) dx2) dx3) dx4.

Definition nr_ry (d : Data T) (r0 : Result T) : list T :=
  vadd (vneg (mat_vec (transpose (p d) (AT d)) (x r0))) (b d).

Definition nr_rz (d : Data T) (r0 : Result T) : list T :=
  vadd (vneg (mat_vec (transpose (m d) (GT d)) (x r0))) (vsub (h d) (s r0)).

Definition nr_rz_lb (d : Data T) (r0 : Result T) (old : list T) : list T :=
  write_loop (fun i => (coeff (x r0) (coeff_idx (x_lb_idx d) i) + coeff (x_lb_n d) i
                        - coeff (s_lb r0) i)%sc) 0 (n_lb d) old.

Definition nr_rz_ub (d : Data T) (r0 : Result T) (old : list T) : list T :=
  write_loop (fun i => (- coeff (x r0) (coeff_idx (x_ub_idx d) i) + coeff (x_ub d) i
                        - coeff (s_ub r0) i)%sc) 0 (n_ub d) old.

Definition nr_dual_rel_inf (pc : PC) (d : Data T) (r0 : Result T) : T :=
  let dx1 := mat_vec (AT d) (y r0) in
  let dx2 := mat_vec (GT d) (z r0) in
  let dx3 := scatter (x_lb_idx d) (vneg (z_lb r0)) (n_lb d) dx2 in
  let dx4 := scatter (x_ub_idx d) (z_ub r0) (n_ub d) dx3 in
  sc_max (sc_max (sc_max (sc_max
    (lpNorm_inf (unscale_dual_res pc_ops pc
       (vsub (vneg (mat_vec (P_utri d) (x r0)))
             (mat_vec (strictly_lower (transpose (n d) (P_utri d))) (x r0)))))
    (lpNorm_inf (unscale_dual_res pc_ops pc dx1)))
    (lpNorm_inf (unscale_dual_res pc_ops pc dx2)))
    (lpNorm_inf (unscale_dual_res pc_ops pc dx3)))
    (lpNorm_inf (unscale_dual_res pc_ops pc dx4)).

Definition nr_primal_rel_inf (pc : PC) (d : Data T) (r0 : Result T)
    (lbv ubv : list T) : T :=
  sc_max (sc_max (sc_max (sc_max (sc_max (sc_max (sc_max
    (lpNorm_inf (unscale_primal_res_eq pc_ops pc
       (vneg (mat_vec (transpose (p d) (AT d)) (x r0)))))
    (lpNorm_inf (unscale_primal_res_eq pc_ops pc (b d))))
    (lpNorm_inf (unscale_primal_res_ineq pc_ops pc
       (vneg (mat_vec (transpose (m d) (GT d)) (x r0))))))
    (lpNorm_inf (unscale_primal_res_ineq pc_ops pc (h d))))
    (lpNorm_inf (unscale_primal_res_lb pc_ops pc (vhead (n_lb d) lbv))))
    (lpNorm_inf (unscale_primal_res_lb pc_ops pc (vhead (n_lb d) (x_lb_n d)))))
    (lpNorm_inf (unscale_primal_res_ub pc_ops pc (vhead (n_ub d) ubv))))
    (lpNorm_inf (unscale_primal_res_ub pc_ops pc (vhead (n_ub d) (x_ub d)))).
End NRdefs.


(** The dense vector [dense] of length [len] holds the [k] compressed
    values of [compressed] at the positions [idx] and [fill] elsewhere. *)
Definition dense_layout {A : Type} (len k : nat) (idx : list nat) (fill : A)
    (compressed dense : list A) : Prop :=
  length dense = len
  /\ (forall i a, (i < k)%nat -> idx !! i = Some a -> dense !! a = compressed !! i)
  /\ (forall q, (q < len)%nat -> (forall i, (i < k)%nat -> idx !! i <> Some q) ->
        dense !! q = Some fill).

Section LoopNotions.
Context {T : Type} `{Scalar T} {PC K : Type}.
Context (pc_ops : PreconditionerOps T PC) (kkt_ops : KKTOps T K).
Local Abbreviation SolverT := (Solver T PC K).

(** The members that [solve_impl] only reads. *)
Definition frame_of (a : SolverT) : Settings T * Data T * PC * bool :=
  (m_settings a, m_data a, m_preconditioner a, m_setup_done a).

(** The two counters that bound the outer loop. *)
Definition counters_of (a : SolverT) : Z * Z :=
  (iter (sv_info a), factor_retires (sv_info a)).

(** [visits sv sv']: the outer loop entered at [sv] reaches the top of a
    pass in state [sv']. *)
Inductive visits : SolverT -> SolverT -> Prop :=
  | visits_here sv : visits sv sv
  | visits_next sv sv1 sv2 :
      (iter (sv_info sv) < max_iter (m_settings sv))%Z ->
      outer_iteration pc_ops kkt_ops sv = Continue sv1 ->
      visits sv1 sv2 ->
      visits sv sv2.

(** The convergence test of a pass, written out on the state [sb] at the
    test: the two infeasibilities are recomputed from the residuals. *)
Definition convergence_test (sb : SolverT) : Prop :=
  let d := m_data sb in
  let pc := m_preconditioner sb in
  let st := m_settings sb in
  let primal_inf' :=
    sc_max (sc_max (sc_max
      (lpNorm_inf (unscale_primal_res_eq pc_ops pc (ry_nr sb)))
      (lpNorm_inf (unscale_primal_res_ineq pc_ops pc (rz_nr sb))))
      (lpNorm_inf (unscale_primal_res_lb pc_ops pc (vhead (n_lb d) (rz_lb_nr sb)))))
      (lpNorm_inf (unscale_primal_res_ub pc_ops pc (vhead (n_ub d) (rz_ub_nr sb)))) in
  let dual_inf' := lpNorm_inf (unscale_dual_res pc_ops pc (rx_nr sb)) in
  (primal_inf' <? feas_tol_abs st + feas_tol_rel st * primal_rel_inf sb)%sc = true
  /\ (dual_inf' <? feas_tol_abs st + feas_tol_rel st * dual_rel_inf sb)%sc = true
  /\ (mu (sv_info sb) <? dual_tol st)%sc = true.

(** What the convergence test reads, the settings apart. *)
Definition residual_view (a : SolverT) : list T * list T * list T * list T * list T * T * T * T :=
  (rx_nr a, ry_nr a, rz_nr a, rz_lb_nr a, rz_ub_nr a,
   primal_rel_inf a, dual_rel_inf a, mu (sv_info a)).

End LoopNotions.

Section RetryNotions.
Context {T : Type} `{Scalar T} {PC K : Type}.
Local Abbreviation SolverT := (Solver T PC K).

(** The vectors of a result block: the iterate and the proximal centres. *)
Definition iterate_of (r0 : Result T) :=
  (x r0, y r0, z r0, z_lb r0, z_ub r0, s r0, s_lb r0, s_ub r0,
   zeta r0, lambda r0, nu r0, nu_lb r0, nu_ub r0).

(** What [update_nr_residuals] reads. *)
Definition nr_inputs (a : SolverT) :=
  (m_data a, m_preconditioner a, iterate_of (m_result a),
   rz_lb_nr a, rz_ub_nr a, mu (sv_info a)).

(** The invariant of the outer loop on the retry counter: it is zero at
    the top of a pass, except right after a retry, and then the
    convergence test of the pass fails. *)
Definition retires_inv (pc_ops : PreconditionerOps T PC) (a : SolverT) : Prop :=
  factor_retires (sv_info a) = 0%Z
  \/ ((iter (sv_info a) < max_iter (m_settings a))%Z
      /\ converged (begin_iteration pc_ops a) = false).
End RetryNotions.

Section VectorNotions.
Context {T : Type} `{Scalar T}.

(** [dx.setZero(); for i < k: dx(idx(i)) = w(i)] on a vector of length [len]. *)
Definition scattered (len : nat) (idx : list nat) (w : list T) (k : nat) : list T :=
  scatter_loop idx w 0 k (replicate len sc_zero).

(** [P x], for the symmetric matrix [P] stored by its upper triangle. *)
Definition sym_mat_vec (d : Data T) (v : list T) : list T :=
  vadd (mat_vec (P_utri d) v) (mat_vec (strictly_lower (transpose (n d) (P_utri d))) v).

End VectorNotions.

Section PassNotions.
Context {T : Type} `{Scalar T} {PC K : Type}.
Local Abbreviation SolverT := (Solver T PC K).

(** The slacks and the duals of the inequalities in a result block. *)
Definition slack_view (r0 : Result T) :=
  (s r0, s_lb r0, s_ub r0, z r0, z_lb r0, z_ub r0).

(** The regularisation: rho, delta and their floor. *)
Definition reg_view (a : SolverT) : T * T * T :=
  (rho (sv_info a), delta (sv_info a), reg_limit (sv_info a)).
End PassNotions.

Section StepNotions.
Local Open Scope Q_scope.

(** [alpha] is the step to the boundary over the first [k] entries of a
    block [v] along [dv]: below every ratio [-v(i) / dv(i)] with
    [dv(i) < 0]. *)
Definition below_ratios (alpha : Q) (k : nat) (v dv : list Q) : Prop :=
  forall i, (i < k)%nat -> coeff dv i < 0 -> alpha <= - coeff v i / coeff dv i.

(** [alpha] is one of these ratios. *)
Definition is_ratio (alpha : Q) (k : nat) (v dv : list Q) : Prop :=
  exists i, (i < k)%nat /\ coeff dv i < 0 /\ alpha = - coeff v i / coeff dv i.

(** The first [k] entries of [v] are positive. *)
Definition positive_head (k : nat) (v : list Q) : Prop :=
  forall i, (i < k)%nat -> 0 < coeff v i.
End StepNotions.

(** The same as a test, on scalars of any type. *)
Definition positive_headb {T : Type} `{Scalar T} (k : nat) (v : list T) : bool :=
  forallb (fun i => (sc_zero <? coeff v i)%sc) (seq 0 k).

Section ClaimedResiduals.
Context {T : Type} `{Scalar T}.

(** The matrix of [k] box rows over [len] variables: row [i] holds [a] in
    the column [idx(i)] and zero elsewhere. *)
Definition box_rows (a : T) (len k : nat) (idx : list nat) : list (list T) :=
  map (fun j => <[j := a]> (replicate len sc_zero)) (take k idx).

(** [E_lb] and [E_ub] in the convention of the inequality rows
    [r_z = h - G x - s]: the rows of the box constraints read
    [r_z_lb = x_lb_n - E_lb x - s_lb] and [r_z_ub = x_ub - E_ub x - s_ub]. *)
Definition E_lb (d : Data T) : list (list T) :=
  box_rows (- sc_one)%sc (n d) (n_lb d) (x_lb_idx d).
Definition E_ub (d : Data T) : list (list T) :=
  box_rows sc_one (n d) (n_ub d) (x_ub_idx d).

(** A block of rows [bound - E v - slack]. *)
Definition box_residual (E : list (list T)) (bound slack v : list T) : list T :=
  vsub (vsub bound (mat_vec E v)) slack.

(** r_x_nr as the specification writes it:
    [-P x - c - A^T y - G^T z - E_lb^T z_lb + E_ub^T z_ub]. *)
Definition claimed_rx_nr (d : Data T) (r0 : Result T) : list T :=
  vadd (vsub (vsub (vsub (vsub (vneg (sym_mat_vec d (x r0))) (c d))
                         (mat_vec (AT d) (y r0)))
                   (mat_vec (GT d) (z r0)))
             (mat_vec (transpose (n d) (E_lb d)) (vhead (n_lb d) (z_lb r0))))
       (mat_vec (transpose (n d) (E_ub d)) (vhead (n_ub d) (z_ub r0))).

End ClaimedResiduals.

(** ** Concrete problems *)

Definition identity2 : list (list Q) := [[1; 0]; [0; 1]]%Q.
Definition diag_ops : KKTOps Q (DiagKKT Q) := diag_kkt.
Definition script_ops : KKTOps Q (ScriptKKT Q) := script_kkt Q.
Definition no_scaling : PreconditionerOps Q unit := identity_preconditioner Q.
(** The default settings with some of the values replaced. *)
Definition settings_with (rho0 delta0 floor : Q) (iters : Z) (tau0 : Q) : Settings Q := {|
  rho_init := rho0;
  delta_init := delta0;
  feas_tol_abs := feas_tol_abs default_settings;
  feas_tol_rel := feas_tol_rel default_settings;
  dual_tol := dual_tol default_settings;
  reg_lower_limit := floor;
  max_iter := iters;
  max_factor_retires := max_factor_retires default_settings;
  preconditioner_iter := preconditioner_iter default_settings;
  tau := tau0;
  verbose := false
|}.

Definition zero_block (n' p' m' : nat) : Block8 Q :=
  Build_Block8 (replicate n' 0%Q) (replicate p' 0%Q) (replicate m' 0%Q)
    (replicate n' 0%Q) (replicate n' 0%Q) (replicate m' 0%Q)
    (replicate n' 0%Q) (replicate n' 0%Q).

(** *** Two variables, no constraints: minimise x1^2/2 + x2^2/2 - x1 - 2 x2 *)

Definition plain_solver : Solver Q unit (DiagKKT Q) :=
  setup_impl no_scaling diag_ops identity2 [] [] [-1; -(2)]%Q [] [] None None
    (new_solver default_settings tt (Build_DiagKKT 0%Q 0%Q)).

(** The state at the entry of the outer loop. *)
Definition plain_entry : Solver Q unit (DiagKKT Q) :=
  Eval vm_compute in
    match solve_prologue diag_ops positive_settings plain_solver with
    | Some (Continue sv) => sv
    | _ => plain_solver
    end.

(** The state after the first pass. *)
Definition plain_pass : Solver Q unit (DiagKKT Q) :=
  Eval vm_compute in
    match outer_iteration no_scaling diag_ops plain_entry with
    | Continue sv => sv
    | Return _ sv => sv
    end.

(** The same problem with a floor of the regularisation above rho_init. *)
Definition high_floor_settings : Settings Q :=
  settings_with (1 # 1000000) (1 # 10000) (1 # 1000) 200 (99 # 100).

Definition high_floor_solver : Solver Q unit (DiagKKT Q) :=
  setup_impl no_scaling diag_ops identity2 [] [] [-1; -(2)]%Q [] [] None None
    (new_solver high_floor_settings tt (Build_DiagKKT 0%Q 0%Q)).

Definition high_floor_entry : Solver Q unit (DiagKKT Q) :=
  Eval vm_compute in
    match solve_prologue diag_ops positive_settings high_floor_solver with
    | Some (Continue sv) => sv
    | _ => high_floor_solver
    end.

Definition high_floor_pass : Solver Q unit (DiagKKT Q) :=
  Eval vm_compute in
    match outer_iteration no_scaling diag_ops high_floor_entry with
    | Continue sv => sv
    | Return _ sv => sv
    end.

(** *** Two variables with box constraints, and a scripted back-end *)

(** Only the second variable has a lower bound, only the second an upper
    bound. *)
Definition boxed_lb : list Q := [- (10 ^ 30); 0]%Q.
Definition boxed_ub : list Q := [10 ^ 30; 10]%Q.

(** The solution of the initial solve, then the direction of the first pass. *)
Definition boxed_script : list (bool * Block8 Q) :=
  [ (true, Build_Block8 [1; 1] [] [] [1; 0] [1; 0] [] [1; 0] [0; 0]);
    (true, Build_Block8 [1; 1] [] [] [-(2); 0] [1; 0] [] [-1; 0] [-1; 0]) ]%Q.

Definition boxed_settings : Settings Q :=
  settings_with (1 # 1000000) (1 # 10000) (1 # 10000000000) 2 (99 # 100).

Definition boxed_solver : Solver Q unit (ScriptKKT Q) :=
  setup_impl no_scaling script_ops identity2 [] [] [0; 1]%Q [] []
    (Some boxed_lb) (Some boxed_ub)
    (new_solver boxed_settings tt (Build_ScriptKKT (zero_block 2 0 0) boxed_script [])).

Definition boxed_entry : Solver Q unit (ScriptKKT Q) :=
  Eval vm_compute in
    match solve_prologue script_ops positive_settings boxed_solver with
    | Some (Continue sv) => sv
    | _ => boxed_solver
    end.

(** The state after the initial solve. *)
Definition boxed_initial : Solver Q unit (ScriptKKT Q) :=
  Eval vm_compute in
    match initial_factorize script_ops (initial_fuel (reset_info boxed_solver))
            (reset_info boxed_solver) with
    | Some (Continue sf) => initial_solve script_ops (upd_info (set_factor_retires 0%Z) sf)
    | _ => boxed_solver
    end.

(** The state of the first pass after its factorisation. *)
Definition boxed_factorized : Solver Q unit (ScriptKKT Q) :=
  Eval vm_compute in
    upd_info (set_factor_retires 0%Z)
      (refactorize script_ops (update_residuals (begin_iteration no_scaling boxed_entry))).2.

(** What [solve_impl] returns. *)
Definition boxed_impl : Status * Solver Q unit (ScriptKKT Q) :=
  Eval vm_compute in
    match solve_impl no_scaling script_ops positive_settings boxed_solver with
    | Some r => r
    | None => (PIQP_UNSOLVED, boxed_solver)
    end.




(** *** One variable, one equation that cannot hold: 0 x = b *)

Definition stalled_settings : Settings Q :=
  settings_with 1 1 (1 # 10000000000) 200 (99 # 100).

Definition solution1 (x' y' : Q) : Block8 Q :=
  Build_Block8 [x'] [y'] [] [0%Q] [0%Q] [] [0%Q] [0%Q].

(** The script of the back-end: the initial solve, one pass that moves
    [x] by [dx'] and [y] by [dy'], five passes that move nothing, and then
    the verdicts [last]. *)
Definition stalled_script (dx' dy' : Q) (last : list (bool * Block8 Q))
  : list (bool * Block8 Q) :=
  [ (true, solution1 0 0); (true, solution1 dx' dy') ]
  ++ replicate 5 (true, solution1 0 0) ++ last.

Definition stalled_solver (c0 b0 dx' dy' : Q) (last : list (bool * Block8 Q))
  : Solver Q unit (ScriptKKT Q) :=
  setup_impl no_scaling script_ops [[0%Q]] [[0%Q]] [] [c0] [b0] [] None None
    (new_solver stalled_settings tt
       (Build_ScriptKKT (solution1 0 0) (stalled_script dx' dy' last) [])).

(** The factorisation fails once in the seventh pass. *)
Definition retried_solver : Solver Q unit (ScriptKKT Q) :=
  stalled_solver 0 (10 ^ 12) 0 (- (64 * 10 ^ 10)) [(false, solution1 0 0)].

(** Both proximal gaps are large and both regularised residuals vanish. *)
Definition twofold_solver : Solver Q unit (ScriptKKT Q) :=
  stalled_solver (- (10 ^ 11)) (10 ^ 11) (64 * 10 ^ 11) (- (64 * 10 ^ 11)) [].

(** *** One variable with both bounds, and duals 1 and 2 *)

Definition signs_solver : Solver Q unit (ScriptKKT Q) :=
  upd_result (fun r0 => set_x [3%Q] (set_z_lb [1%Q] (set_z_ub [2%Q] r0)))
    (setup_impl no_scaling script_ops [[0%Q]] [] [] [0%Q] [] []
       (Some [0%Q]) (Some [10%Q])
       (new_solver default_settings tt (Build_ScriptKKT (zero_block 1 0 0) [] []))).



(** *** One inequality in binary64, with a slack at the least positive number *)

Definition b64_no_scaling : PreconditionerOps PrimFloat.float unit :=
  identity_preconditioner PrimFloat.float.
Definition b64_script : KKTOps PrimFloat.float (ScriptKKT PrimFloat.float) :=
  script_kkt PrimFloat.float.

(** [2^-1074], the least positive binary64 number. *)
Definition b64_tiny : PrimFloat.float := PrimFloat.next_up PrimFloat.zero.

(** The default settings: tau is 0.99. *)
Definition b64_settings : Settings PrimFloat.float := {|
  rho_init := sc_dec 1 1000000;
  delta_init := sc_dec 1 10000;
  feas_tol_abs := sc_dec 1 100000000;
  feas_tol_rel := sc_dec 1 1000000000;
  dual_tol := sc_dec 1 100000000;
  reg_lower_limit := sc_dec 1 10000000000;
  max_iter := 200%Z;
  max_factor_retires := 10%Z;
  preconditioner_iter := 10%Z;
  tau := sc_dec 99 100;
  verbose := false
|}.

(** The direction the back-end returns: [ds = -1], every other entry 0. *)
Definition b64_step : Block8 PrimFloat.float :=
  Build_Block8 [sc_zero] [] [sc_zero] [sc_zero] [sc_zero] [(- sc_one)%sc]
    [sc_zero] [sc_zero].

Definition b64_blank : Solver PrimFloat.float unit (ScriptKKT PrimFloat.float) :=
  let i0 := Build_Info PIQP_UNSOLVED 0%Z sc_zero sc_zero sc_zero sc_zero sc_zero
              sc_zero sc_zero sc_zero sc_zero 0%Z 0%Z 0%Z in
  Build_Solver (Build_Result [] [] [] [] [] [] [] [] [] [] [] [] [] i0) b64_settings
    (Build_Data 0 0 0 0 0 [] [] [] [] [] [] [] [] [] []) tt
    (Build_ScriptKKT b64_step [] [])
    false false [] [] [] [] [] [] [] [] [] [] [] [] [] [] [] [] [] [] [] [] []
    sc_zero sc_zero.

(** The problem [min x^2 / 2] subject to [x <= 1] after its setup, at the
    start of a pass with [s = 2^-1074], [z = 1] and [mu = s z]. *)
Definition b64_pass : Solver PrimFloat.float unit (ScriptKKT PrimFloat.float) :=
  Eval vm_compute in
    let sv := setup_impl b64_no_scaling b64_script
                [[sc_one]] [] [[sc_one]] [sc_zero] [] [sc_one] None None b64_blank in
    let sv := upd_result (fun r0 => set_s [b64_tiny] (set_z [sc_one] r0)) sv in
    upd_info (set_mu (complementarity sv)) sv.

(** ** [DenseSolver::update] *)

(** What [update] calls besides the operations of the two records above:
    [m_preconditioner.unscale_data(m_data)] and
    [m_kkt.update_data(update_options)], and the flags of
    [KKTUpdateOptions] that it joins with [|=]. *)
Record UpdateOps (T PC K : Type) : Type := Build_UpdateOps {
  pc_unscale_data : PC -> Data T -> PC * Data T;
  kkt_update_data : Data T -> K -> Z -> K;
  KKT_UPDATE_NONE : Z;
  KKT_UPDATE_P : Z;
  KKT_UPDATE_A : Z;
  KKT_UPDATE_G : Z
}.

Section DenseUpdate.
Context {T : Type} `{Scalar T} {PC K : Type}.
Context (pc_ops : PreconditionerOps T PC) (kkt_ops : KKTOps T K).
Context (upd_ops : UpdateOps T PC K).

Local Abbreviation SolverT := (Solver T PC K).

(** The assignments of [update] to the unscaled problem, between
    [unscale_data] and [scale_data], and the options it collects.  The
    dimensions are those of the setup; a part that is absent is left as
    it is. *)
Definition update_data (P A G : option (list (list T)))
    (c' b' h' x_lb x_ub' : option (list T)) (d : Data T) : Data T * Z :=
  let update_options := KKT_UPDATE_NONE upd_ops in
  let '(d, update_options) :=
    match P with
    | Some P' => (set_P_utri (upper P') d, Z.lor update_options (KKT_UPDATE_P upd_ops))
    | None => (d, update_options)
    end in
  let '(d, update_options) :=
    match A with
    | Some A' => (set_AT (transpose (n d) A') d,
                  Z.lor update_options (KKT_UPDATE_A upd_ops))
    | None => (d, update_options)
    end in
  let '(d, update_options) :=
    match G with
    | Some G' => (set_GT (transpose (n d) G') d,
                  Z.lor update_options (KKT_UPDATE_G upd_ops))
    | None => (d, update_options)
    end in
  let d := match c' with Some v => set_c v d | None => d end in
  let d := match b' with Some v => set_b v d | None => d end in
  let d := match h' with Some v => set_h v d | None => d end in
  let d := match x_lb with Some v => setup_lb_data (Some v) d | None => d end in
  let d := match x_ub' with Some v => setup_ub_data (Some v) d | None => d end in
  (d, update_options).

(** [DenseSolver::update] (the timer apart).  The assertions on the
    dimensions of the arguments are preconditions of the source. *)
Definition update (P A G : option (list (list T)))
    (c' b' h' x_lb x_ub' : option (list T)) (reuse_preconditioner : bool)
    (sv : SolverT) : SolverT :=
  if negb (m_setup_done sv) then sv
  else
    let '(pc', d') := pc_unscale_data upd_ops (m_preconditioner sv) (m_data sv) in
    let sv := set_m_data d' (set_m_preconditioner pc' sv) in
    let '(d', update_options) := update_data P A G c' b' h' x_lb x_ub' (m_data sv) in
    let sv := set_m_data d' sv in
    let '(pc', d') := pc_scale_data pc_ops (m_preconditioner sv) (m_data sv)
                        reuse_preconditioner (preconditioner_iter (m_settings sv)) in
    let sv := set_m_data d' (set_m_preconditioner pc' sv) in
    set_m_kkt (kkt_update_data upd_ops (m_data sv) (m_kkt sv) update_options) sv.

End DenseUpdate.

(** The dimensions, matrices and vectors of the stored problem, the box
    bounds apart. *)
Definition problem_of {T : Type} (d : Data T)
  : nat * nat * nat * list (list T) * list (list T) * list (list T)
    * list T * list T * list T :=
  (n d, p d, m d, P_utri d, AT d, GT d, c d, b d, h d).

(** The compressed lower bounds, and the compressed upper bounds. *)
Definition lb_of {T : Type} (d : Data T) : nat * list T * list nat :=
  (n_lb d, x_lb_n d, x_lb_idx d).
Definition ub_of {T : Type} (d : Data T) : nat * list T * list nat :=
  (n_ub d, x_ub d, x_ub_idx d).

Section ShiftNotions.
Context {T : Type} `{Scalar T}.

(** The shift that [solve_impl] computes after the initial solve for the
    slacks (and likewise for the duals): the largest of 0 and of -1.5
    times the smallest entry of each block that is present. *)
Definition shift_floor (d : Data T) (v hv uv : list T) : T :=
  let c15 := sc_dec 3 2 in
  let delta := sc_zero in
  let delta := if (0 <? m d)%nat
               then sc_max delta (- c15 * minCoeff v)%sc else delta in
  let delta := if (0 <? n_lb d)%nat
               then sc_max delta (- c15 * minCoeff hv)%sc else delta in
  let delta := if (0 <? n_ub d)%nat
               then sc_max delta (- c15 * minCoeff uv)%sc else delta in
  delta.

Definition shift_floor_s (d : Data T) (r0 : Result T) : T :=
  shift_floor d (s r0) (vhead (n_lb d) (s_lb r0)) (vhead (n_ub d) (s_ub r0)).
Definition shift_floor_z (d : Data T) (r0 : Result T) : T :=
  shift_floor d (z r0) (vhead (n_lb d) (z_lb r0)) (vhead (n_ub d) (z_ub r0)).

(** [tmp_prod]: the sum of the products of the shifted slacks and duals. *)
Definition shift_product (d : Data T) (r0 : Result T) : T :=
  let delta_s := shift_floor_s d r0 in
  let delta_z := shift_floor_z d r0 in
  (dot (vshift (s r0) delta_s) (vshift (z r0) delta_z)
   + dot (vshift (vhead (n_lb d) (s_lb r0)) delta_s)
         (vshift (vhead (n_lb d) (z_lb r0)) delta_z)
   + dot (vshift (vhead (n_ub d) (s_ub r0)) delta_s)
         (vshift (vhead (n_ub d) (z_ub r0)) delta_z))%sc.

(** [delta_s_bar] and [delta_z_bar]. *)
Definition shift_s (d : Data T) (r0 : Result T) : T :=
  (shift_floor_s d r0
   + (sc_dec 1 2 * shift_product d r0)
     / (vsum (z r0) + vsum (vhead (n_lb d) (z_lb r0)) + vsum (vhead (n_ub d) (z_ub r0))
        + sc_of_nat (m d + n_lb d + n_ub d) * shift_floor_z d r0))%sc.
Definition shift_z (d : Data T) (r0 : Result T) : T :=
  (shift_floor_z d r0
   + (sc_dec 1 2 * shift_product d r0)
     / (vsum (s r0) + vsum (vhead (n_lb d) (s_lb r0)) + vsum (vhead (n_ub d) (s_ub r0))
        + sc_of_nat (m d + n_lb d + n_ub d) * shift_floor_s d r0))%sc.

End ShiftNotions.

Section CentreNotions.
Context {T : Type}.

(** The proximal centres of a result block. *)
Definition centres_of (r0 : Result T) :=
  (zeta r0, lambda r0, nu r0, nu_lb r0, nu_ub r0).

(** The two counters of the passes that left a proximal centre in place. *)
Definition stalls_of (i0 : Info T) : Z * Z :=
  (no_primal_update i0, no_dual_update i0).

End CentreNotions.

(** What [restore_box_dual] does not look at: the result block without
    the six vectors of the box constraints. *)
Definition unboxed_of {T : Type} (r0 : Result T) :=
  (x r0, y r0, z r0, s r0, zeta r0, lambda r0, nu r0, info r0).

Section SizeNotions.
Context {T : Type} `{Scalar T}.

(** The lengths of the vectors of a result block. *)
Definition sizes_of (r0 : Result T) :=
  (length (x r0), length (y r0), length (z r0), length (z_lb r0), length (z_ub r0),
   length (s r0), length (s_lb r0), length (s_ub r0),
   length (zeta r0), length (lambda r0), length (nu r0),
   length (nu_lb r0), length (nu_ub r0)).

(** The vectors of a result block have the dimensions of the stored
    problem: n for x, zeta and the box vectors, p for y and lambda, m for
    z, s and nu; in the stored problem at most n bounds of each kind are
    active. *)
Definition result_sized (d : Data T) (r0 : Result T) : Prop :=
  (n_lb d <= n d)%nat /\ (n_ub d <= n d)%nat
  /\ sizes_of r0
     = (n d, p d, m d, n d, n d, m d, n d, n d, n d, p d, m d, n d, n d).

(** The eight vectors that [m_kkt.solve] writes have the dimensions of
    the stored problem.  In the source they are vectors of the workspace
    and of the result, sized by [init_workspace] and passed by reference. *)
Definition block_sized (d : Data T) (out : Block8 T) : Prop :=
  length (b_x out) = n d /\ length (b_y out) = p d /\ length (b_z out) = m d
  /\ length (b_z_lb out) = n d /\ length (b_z_ub out) = n d
  /\ length (b_s out) = m d /\ length (b_s_lb out) = n d /\ length (b_s_ub out) = n d.

Definition kkt_sized {K : Type} (kkt_ops : KKTOps T K) : Prop :=
  forall d k rhs, block_sized d (kkt_solve kkt_ops d k rhs).

(** The preconditioner unscales a vector entry by entry. *)
Definition pc_sized {PC : Type} (pc_ops : PreconditionerOps T PC) : Prop :=
  forall pc v,
    length (unscale_primal pc_ops pc v) = length v
    /\ length (unscale_dual_eq pc_ops pc v) = length v
    /\ length (unscale_dual_ineq pc_ops pc v) = length v
    /\ length (unscale_dual_lb pc_ops pc v) = length v
    /\ length (unscale_dual_ub pc_ops pc v) = length v
    /\ length (unscale_slack_ineq pc_ops pc v) = length v
    /\ length (unscale_slack_lb pc_ops pc v) = length v
    /\ length (unscale_slack_ub pc_ops pc v) = length v.

(** [scale_data] rescales the entries of the stored problem: it keeps
    the dimensions and the numbers of active bounds. *)
Definition scale_keeps_dims {PC : Type} (pc_ops : PreconditionerOps T PC) : Prop :=
  forall pc d reuse it,
    let d' := (pc_scale_data pc_ops pc d reuse it).2 in
    n d' = n d /\ p d' = p d /\ m d' = m d /\ n_lb d' = n_lb d /\ n_ub d' = n_ub d.

(** The eight vectors of the step have the dimensions of the problem. *)
Definition steps_sized {PC K : Type} (d : Data T) (a : Solver T PC K) : Prop :=
  length (dx a) = n d /\ length (dy a) = p d /\ length (dz a) = m d
  /\ length (dz_lb a) = n d /\ length (dz_ub a) = n d
  /\ length (ds a) = m d /\ length (ds_lb a) = n d /\ length (ds_ub a) = n d.

(** The stored problem and the vectors of the result. *)
Definition shape_of {PC K : Type} (a : Solver T PC K) := (m_data a, iterate_of (m_result a)).

End SizeNotions.

Section BoxLayoutNotions.
Context {T : Type} `{Scalar T}.

(** [scale_data] rescales values: it keeps the index maps of the box
    bounds and the lengths of the two arrays of bounds. *)
Definition scale_keeps_box_layout {PC : Type} (pc_ops : PreconditionerOps T PC) : Prop :=
  forall pc d reuse it,
    let d' := (pc_scale_data pc_ops pc d reuse it).2 in
    x_lb_idx d' = x_lb_idx d /\ x_ub_idx d' = x_ub_idx d
    /\ length (x_lb_n d') = length (x_lb_n d) /\ length (x_ub d') = length (x_ub d).

End BoxLayoutNotions.

(** The operations of [update] for the examples: the problem is stored
    unscaled, the KKT operator keeps no copy of it, and the flags are
    distinct bits. *)
Definition plain_update : UpdateOps Q unit (ScriptKKT Q) := {|
  pc_unscale_data := fun pc d => (pc, d);
  kkt_update_data := fun _ k _ => k;
  KKT_UPDATE_NONE := 0%Z;
  KKT_UPDATE_P := 1%Z;
  KKT_UPDATE_A := 2%Z;
  KKT_UPDATE_G := 4%Z
|}.

(** The scripted operator writing into vectors of the sizes of the
    problem, as the solver hands them to the back-end. *)
Definition fit_block (d : Data Q) (b : Block8 Q) : Block8 Q :=
  Build_Block8 (resize (n d) (b_x b)) (resize (p d) (b_y b)) (resize (m d) (b_z b))
               (resize (n d) (b_z_lb b)) (resize (n d) (b_z_ub b))
               (resize (m d) (b_s b)) (resize (n d) (b_s_lb b)) (resize (n d) (b_s_ub b)).

Definition fitted_ops : KKTOps Q (ScriptKKT Q) := {|
  kkt_init := kkt_init script_ops;
  kkt_update_scalings := kkt_update_scalings script_ops;
  kkt_factorize := kkt_factorize script_ops;
  kkt_solve := fun d k rhs => fit_block d (kkt_solve script_ops d k rhs)
|}.

(** The boxed problem before [setup]. *)
Definition boxed_blank : Solver Q unit (ScriptKKT Q) :=
  new_solver boxed_settings tt (Build_ScriptKKT (zero_block 2 0 0) boxed_script []).

(** Modelled from the spec: the preconditioner is a template parameter
    of the solver and its code is not among the sources; the spec has it
    compute diagonal scalings, store the scaled form of the data and
    offer the inverse transforms.  This instance scales the variables by
    a fixed factor, [x_hat = k x], and leaves the rows as they are: P is
    divided by [k^2], the columns of A and G and the vector c by [k], and
    the bounds on x are multiplied by [k]. *)
Definition uniform_scaling (k : Q) : PreconditionerOps Q unit := {|
  pc_init := fun pc _ => pc;
  pc_scale_data := fun pc d _ _ =>
    (pc, Build_Data (n d) (p d) (m d) (n_lb d) (n_ub d)
           (map (map (fun a => a / (k * k))) (P_utri d))
           (map (map (fun a => a / k)) (AT d))
           (map (map (fun a => a / k)) (GT d))
           (map (fun a => a / k) (c d)) (b d) (h d)
           (map (fun a => k * a) (x_lb_n d)) (map (fun a => k * a) (x_ub d))
           (x_lb_idx d) (x_ub_idx d));
  unscale_primal := fun _ v => map (fun a => a / k) v;
  unscale_dual_eq := fun _ v => v;
  unscale_dual_ineq := fun _ v => v;
  unscale_dual_lb := fun _ v => map (fun a => k * a) v;
  unscale_dual_ub := fun _ v => map (fun a => k * a) v;
  unscale_slack_ineq := fun _ v => v;
  unscale_slack_lb := fun _ v => map (fun a => a / k) v;
  unscale_slack_ub := fun _ v => map (fun a => a / k) v;
  unscale_primal_res_eq := fun _ v => v;
  unscale_primal_res_ineq := fun _ v => v;
  unscale_primal_res_lb := fun _ v => map (fun a => a / k) v;
  unscale_primal_res_ub := fun _ v => map (fun a => a / k) v;
  unscale_dual_res := fun _ v => map (fun a => k * a) v;
  unscale_cost := fun _ a => a
|}%Q.

(** Bounds with one finite entry each: [-4 <= x1] and [x2 <= 10]. *)
Definition scaled_lb : list Q := [- (4); - (10 ^ 30)]%Q.
Definition scaled_ub : list Q := [10 ^ 30; 10]%Q.

(** * Properties *)

(** Tactics for the proofs about the driver.  The states are long chains
    of field updates: the proofs never normalise them, they name the state
    after each block and use the equations of the blocks. *)

(** [forget e x]: the term [e] becomes the variable [x], in the goal and
    in the hypotheses; the proof term abstracts over it. *)
Ltac forget e x :=
  lazymatch goal with
  | H : context [e] |- _ => revert H; forget e x; intro H
  | _ => generalize e; intros x
  end.

Ltac break_if :=
  match goal with |- context [if ?c then _ else _] => destruct c end.

Ltac break_pair :=
  match goal with |- context [let '(_, _) := ?e in _] => destruct e end.

Ltac verdict_one :=
  split;
  [ intros [? ?]; simplify_eq; try done
  | intros ?; destruct_and?; simplify_eq; eauto ].


(** ** The compressed box bounds after setup *)

Section BoxSpec.
Context {T : Type} `{Scalar T}.

Lemma kept_entries_lookup (keep : T -> bool) (l : list T) : forall i j k v,
  kept_entries keep i l !! j = Some (k, v) ->
  (i <= k)%nat /\ l !! (k - i)%nat = Some v /\ keep v = true /\ (j <= k - i)%nat.
Proof.
  induction l as [|a r IH]; intros i j k v; simpl; [done|].
  destruct (keep a) eqn:Hk.
  - destruct j as [|j]; simpl.
    + intros [= <- <-]. replace (i - i)%nat with O by lia. repeat split; auto; lia.
    + intros Hj. apply IH in Hj as (Hle & Hl & Hv & Hjk).
      replace (k - i)%nat with (S (k - S i)) by lia. simpl. repeat split; auto; lia.
  - intros Hj. apply IH in Hj as (Hle & Hl & Hv & Hjk).
    replace (k - i)%nat with (S (k - S i)) by lia. simpl. repeat split; auto; lia.
Qed.

Lemma kept_entries_increasing (keep : T -> bool) (l : list T) : forall i j1 j2 e1 e2,
  (j1 < j2)%nat ->
  kept_entries keep i l !! j1 = Some e1 ->
  kept_entries keep i l !! j2 = Some e2 ->
  (e1.1 < e2.1)%nat.
Proof.
  induction l as [|a r IH]; intros i j1 j2 e1 e2 Hlt; simpl; [done|].
  destruct (keep a).
  - destruct j1 as [|j1], j2 as [|j2]; simpl; try lia.
    + intros [= <-] H2. destruct e2 as [k v]. apply kept_entries_lookup in H2. simpl. lia.
    + intros H1 H2. eapply IH; [|exact H1|exact H2]. lia.
  - intros H1 H2. eapply IH; [|exact H1|exact H2]. lia.
Qed.

Lemma kept_entries_length (keep : T -> bool) (l : list T) i :
  length (kept_entries keep i l) = length (List.filter keep l).
Proof.
  revert i. induction l as [|a r IH]; intros i; simpl; [done|].
  destruct (keep a); simpl; auto.
Qed.

Lemma kept_entries_values (keep : T -> bool) (l : list T) i :
  map snd (kept_entries keep i l) = List.filter keep l.
Proof.
  revert i. induction l as [|a r IH]; intros i; simpl; [done|].
  destruct (keep a); simpl; f_equal; auto.
Qed.

Lemma kept_entries_length_le (keep : T -> bool) (l : list T) i :
  (length (kept_entries keep i l) <= length l)%nat.
Proof.
  revert i. induction l as [|a r IH]; intros i; simpl; [lia|].
  destruct (keep a); simpl; specialize (IH (S i)); lia.
Qed.

Lemma setup_lb_loop_spec (lb : list T) : forall k i nl il (d : Data T),
  (i + k = length lb)%nat -> (il <= i)%nat ->
  length (x_lb_n d) = length lb -> length (x_lb_idx d) = length lb ->
  let E := kept_entries lb_finite i (drop i lb) in
  let res := setup_lb_loop lb i k nl il d in
  res.1 = (nl + length E)%nat
  /\ length (x_lb_n res.2) = length lb /\ length (x_lb_idx res.2) = length lb
  /\ (forall j e, E !! j = Some e ->
        x_lb_n res.2 !! (il + j)%nat = Some (- e.2)%sc
        /\ x_lb_idx res.2 !! (il + j)%nat = Some e.1)
  /\ (forall j, (j < il)%nat ->
        x_lb_n res.2 !! j = x_lb_n d !! j /\ x_lb_idx res.2 !! j = x_lb_idx d !! j)
  /\ n res.2 = n d /\ x_ub res.2 = x_ub d /\ x_ub_idx res.2 = x_ub_idx d.
Proof.
  induction k as [|k IH]; intros i nl il d Hik Hil Hn Hi; simpl.
  - rewrite drop_ge by lia. simpl. split_and!; auto; try lia. intros j e; done.
  - destruct (lookup_lt_is_Some_2 lb i) as [v Hv]; [lia|].
    rewrite (drop_S _ _ _ Hv). simpl.
    unfold coeff. rewrite !Hv. simpl.
    change (sc_gtb v (- PIQP_INF)%sc) with (lb_finite v).
    destruct (lb_finite v) eqn:Hf.
    + match goal with |- context [setup_lb_loop lb (S i) k ?a ?b ?dd] =>
        specialize (IH (S i) a b dd) end.
      destruct IH as (H1 & H2 & H3 & H4 & H5 & H6 & H7 & H8);
        [lia | lia | simpl; by rewrite length_insert | simpl; by rewrite length_insert |].
      simpl in *.
      split_and!; [lia | exact H2 | exact H3 | | | exact H6 | exact H7 | exact H8].
      * intros j; destruct j as [|j]; simpl.
        -- intros e [= <-]. simpl. replace (il + 0)%nat with il by lia.
           destruct (H5 il) as [-> ->]; [lia|].
           rewrite !list_lookup_insert_eq by lia. done.
        -- intros e He. replace (il + S j)%nat with (S (il + j))%nat by lia. by apply H4.
      * intros j Hj. destruct (H5 j) as [-> ->]; [lia|].
        by rewrite !list_lookup_insert_ne by lia.
    + destruct (IH (S i) nl il d) as (H1 & H2 & H3 & H4 & H5 & H6 & H7 & H8);
        [lia | lia | done | done |].
      simpl in *. split_and!; done.
Qed.

Lemma setup_ub_loop_spec (ub : list T) : forall k i nl il (d : Data T),
  (i + k = length ub)%nat -> (il <= i)%nat ->
  length (x_ub d) = length ub -> length (x_ub_idx d) = length ub ->
  let E := kept_entries ub_finite i (drop i ub) in
  let res := setup_ub_loop ub i k nl il d in
  res.1 = (nl + length E)%nat
  /\ length (x_ub res.2) = length ub /\ length (x_ub_idx res.2) = length ub
  /\ (forall j e, E !! j = Some e ->
        x_ub res.2 !! (il + j)%nat = Some e.2
        /\ x_ub_idx res.2 !! (il + j)%nat = Some e.1)
  /\ (forall j, (j < il)%nat ->
        x_ub res.2 !! j = x_ub d !! j /\ x_ub_idx res.2 !! j = x_ub_idx d !! j)
  /\ n res.2 = n d /\ x_lb_n res.2 = x_lb_n d /\ x_lb_idx res.2 = x_lb_idx d
  /\ n_lb res.2 = n_lb d.
Proof.
  induction k as [|k IH]; intros i nl il d Hik Hil Hn Hi; simpl.
  - rewrite drop_ge by lia. simpl. split_and!; auto; try lia. intros j e; done.
  - destruct (lookup_lt_is_Some_2 ub i) as [v Hv]; [lia|].
    rewrite (drop_S _ _ _ Hv). simpl.
    unfold coeff. rewrite !Hv. simpl.
    change (v <? PIQP_INF)%sc with (ub_finite v).
    destruct (ub_finite v) eqn:Hf.
    + match goal with |- context [setup_ub_loop ub (S i) k ?a ?b ?dd] =>
        specialize (IH (S i) a b dd) end.
      destruct IH as (H1 & H2 & H3 & H4 & H5 & H6 & H7 & H8 & H9);
        [lia | lia | simpl; by rewrite length_insert | simpl; by rewrite length_insert |].
      simpl in *.
      split_and!; [lia | exact H2 | exact H3 | | | exact H6 | exact H7 | exact H8 | exact H9].
      * intros j; destruct j as [|j]; simpl.
        -- intros e [= <-]. simpl. replace (il + 0)%nat with il by lia.
           destruct (H5 il) as [-> ->]; [lia|].
           rewrite !list_lookup_insert_eq by lia. done.
        -- intros e He. replace (il + S j)%nat with (S (il + j))%nat by lia. by apply H4.
      * intros j Hj. destruct (H5 j) as [-> ->]; [lia|].
        by rewrite !list_lookup_insert_ne by lia.
    + destruct (IH (S i) nl il d) as (H1 & H2 & H3 & H4 & H5 & H6 & H7 & H8 & H9);
        [lia | lia | done | done |].
      simpl in *. split_and!; done.
Qed.

Lemma resize_length (k : nat) (v : list T) : length (resize k v) = k.
Proof. unfold resize. rewrite length_app, length_take, length_replicate. lia. Qed.

Lemma resize_idx_length (k : nat) (v : list nat) : length (resize_idx k v) = k.
Proof. unfold resize_idx. rewrite length_app, length_take, length_replicate. lia. Qed.

(** What the compressed arrays hold after the loops: the [i]-th kept
    bound, transformed by [f], and its position. *)
Lemma kept_entry_at (keep : T -> bool) (l : list T) i :
  (i < length (List.filter keep l))%nat ->
  exists k v, kept_entries keep 0 l !! i = Some (k, v)
              /\ (k < length l)%nat /\ l !! k = Some v
              /\ List.filter keep l !! i = Some v.
Proof.
  intros Hi. rewrite <- (kept_entries_length keep l 0) in Hi.
  destruct (lookup_lt_is_Some_2 _ _ Hi) as [[k v] He].
  exists k, v. split; [done|].
  pose proof (kept_entries_lookup He) as (_ & Hl & _ & _).
  replace (k - 0)%nat with k in Hl by lia.
  split_and!; [by eapply lookup_lt_Some | done |].
  rewrite <- (kept_entries_values keep l 0), list_lookup_fmap, He. done.
Qed.

(** What [setup_lb_data] and [setup_ub_data] leave in the stored problem. *)
Lemma setup_data_bounds (P A G : list (list T)) (c' b' h' lb ub : list T)
    (d : Data T) :
  length lb = length P -> length ub = length P ->
  let d' := setup_data P A G c' b' h' (Some lb) (Some ub) d in
  let finite_lb := List.filter (fun v => sc_gtb v (- PIQP_INF)%sc) lb in
  let finite_ub := List.filter (fun v => (v <? PIQP_INF)%sc) ub in
  n d' = length P
  /\ n_lb d' = length finite_lb
  /\ (forall i, (i < n_lb d')%nat ->
        exists k v, x_lb_idx d' !! i = Some k /\ (k < n d')%nat
                    /\ lb !! k = Some v /\ finite_lb !! i = Some v
                    /\ x_lb_n d' !! i = Some (- v)%sc)
  /\ (forall i j ki kj, (i < j)%nat -> (j < n_lb d')%nat ->
        x_lb_idx d' !! i = Some ki -> x_lb_idx d' !! j = Some kj -> (ki < kj)%nat)
  /\ n_ub d' = length finite_ub
  /\ (forall i, (i < n_ub d')%nat ->
        exists k v, x_ub_idx d' !! i = Some k /\ (k < n d')%nat
                    /\ ub !! k = Some v /\ finite_ub !! i = Some v
                    /\ x_ub d' !! i = Some v)
  /\ (forall i j ki kj, (i < j)%nat -> (j < n_ub d')%nat ->
        x_ub_idx d' !! i = Some ki -> x_ub_idx d' !! j = Some kj -> (ki < kj)%nat).
Proof.
  intros Hlb Hub. unfold setup_data.
  match goal with |- context [setup_lb_data _ ?dd] => remember dd as d1 eqn:Ed1 end.
  assert (Hn1 : n d1 = length P) by (by rewrite Ed1).
  assert (Hl1 : length (x_lb_n d1) = length lb)
    by (rewrite Ed1; simpl; rewrite resize_length; done).
  assert (Hl2 : length (x_lb_idx d1) = length lb)
    by (rewrite Ed1; simpl; rewrite resize_idx_length; done).
  assert (Hu1 : length (x_ub d1) = length ub)
    by (rewrite Ed1; simpl; rewrite resize_length; done).
  assert (Hu2 : length (x_ub_idx d1) = length ub)
    by (rewrite Ed1; simpl; rewrite resize_idx_length; done).
  clear Ed1.
  unfold setup_lb_data. rewrite Hn1.
  pose proof (@setup_lb_loop_spec lb (length P) 0 0 0 d1) as HL.
  destruct (setup_lb_loop lb 0 (length P) 0 0 d1) as [nl d2] eqn:E2.
  simpl in HL. rewrite drop_0 in HL.
  destruct HL as (L1 & L2 & L3 & L4 & _ & L6 & L7 & L8); [lia | lia | done | done |].
  remember (set_n_lb nl d2) as d3 eqn:Ed3.
  assert (Hn3 : n d3 = n d2) by (by rewrite Ed3).
  assert (Hx3 : x_ub d3 = x_ub d2) by (by rewrite Ed3).
  assert (Hi3 : x_ub_idx d3 = x_ub_idx d2) by (by rewrite Ed3).
  assert (Ha3 : x_lb_n d3 = x_lb_n d2) by (by rewrite Ed3).
  assert (Hb3 : x_lb_idx d3 = x_lb_idx d2) by (by rewrite Ed3).
  assert (Hc3 : n_lb d3 = nl) by (by rewrite Ed3).
  clear Ed3.
  unfold setup_ub_data.
  replace (n d3) with (length P) by (simpl in *; congruence).
  pose proof (@setup_ub_loop_spec ub (length P) 0 0 0 d3) as HU.
  destruct (setup_ub_loop ub 0 (length P) 0 0 d3) as [nu d4] eqn:E4.
  simpl in HU. rewrite drop_0 in HU.
  destruct HU as (U1 & U2 & U3 & U4 & _ & U6 & U7 & U8 & U9);
    [lia | lia | simpl in *; congruence | simpl in *; congruence |].
  cbn zeta. simpl.
  change (fun v => sc_gtb v (- PIQP_INF)%sc) with lb_finite.
  change (fun v => (v <? PIQP_INF)%sc) with ub_finite.
  assert (Hnl : nl = length (List.filter lb_finite lb))
    by (rewrite L1, kept_entries_length; done).
  assert (Hnu : nu = length (List.filter ub_finite ub))
    by (rewrite U1, kept_entries_length; done).
  simpl in *.
  assert (Hn4 : n d4 = length P) by congruence.
  split_and!.
  - done.
  - congruence.
  - intros i Hi.
    destruct (@kept_entry_at lb_finite lb i) as (k & v & He & Hk & Hv & Hf); [lia|].
    exists k, v. destruct (L4 _ _ He) as [Ha Hb]. simpl in Ha, Hb.
    rewrite U7, U8, Ha3, Hb3, Hn4. split_and!; try done. lia.
  - intros i j ki kj Hij Hj. rewrite U8, Hb3.
    intros Hi' Hj'.
    destruct (lookup_lt_is_Some_2 (kept_entries lb_finite 0 lb) i) as [ei Hei];
      [rewrite kept_entries_length; lia|].
    destruct (lookup_lt_is_Some_2 (kept_entries lb_finite 0 lb) j) as [ej Hej];
      [rewrite kept_entries_length; lia|].
    pose proof (kept_entries_increasing Hij Hei Hej) as Hlt.
    destruct (L4 _ _ Hei) as [_ Hb1]. destruct (L4 _ _ Hej) as [_ Hb2].
    simpl in *. congruence.
  - done.
  - intros i Hi.
    destruct (@kept_entry_at ub_finite ub i) as (k & v & He & Hk & Hv & Hf); [lia|].
    exists k, v. destruct (U4 _ _ He) as [Ha Hb]. simpl in Ha, Hb.
    rewrite Hn4. split_and!; try done. lia.
  - intros i j ki kj Hij Hj Hi' Hj'.
    destruct (lookup_lt_is_Some_2 (kept_entries ub_finite 0 ub) i) as [ei Hei];
      [rewrite kept_entries_length; lia|].
    destruct (lookup_lt_is_Some_2 (kept_entries ub_finite 0 ub) j) as [ej Hej];
      [rewrite kept_entries_length; lia|].
    pose proof (kept_entries_increasing Hij Hei Hej) as Hlt.
    destruct (U4 _ _ Hei) as [_ Hb1]. destruct (U4 _ _ Hej) as [_ Hb2].
    simpl in *. congruence.
Qed.

End BoxSpec.

(** ** The permutation of the box duals *)

Lemma increasing_from_lookup bound l : forall lo,
  increasing_from lo bound l = true ->
  forall i a, l !! i = Some a ->
    (lo + i <= a)%nat /\ (a < bound)%nat
    /\ forall j a', (i < j)%nat -> l !! j = Some a' -> (a < a')%nat.
Proof.
  induction l as [|h r IH]; simpl; [done|].
  intros lo Hb. apply andb_true_iff in Hb as [Hb Hr]. apply andb_true_iff in Hb as [Hlo Hh].
  apply Nat.leb_le in Hlo. apply Nat.ltb_lt in Hh.
  intros i a. destruct i as [|i]; simpl.
  - intros [= <-]. split_and!; [lia | done |].
    intros j a' Hj. destruct j as [|j]; [lia|]. simpl. intros Ha'.
    destruct (IH _ Hr _ _ Ha') as (? & _). lia.
  - intros Ha. destruct (IH _ Hr _ _ Ha) as (H1 & H2 & H3).
    split_and!; [lia | done |].
    intros j a' Hj. destruct j as [|j]; [lia|]. simpl. apply H3. lia.
Qed.

Lemma box_index_ok_lookup len k idx :
  box_index_ok len k idx = true ->
  forall i, (i < k)%nat ->
    exists a, idx !! i = Some a /\ (i <= a)%nat /\ (a < len)%nat
      /\ forall j a', (i < j)%nat -> (j < k)%nat -> idx !! j = Some a' -> (a < a')%nat.
Proof.
  unfold box_index_ok. intros Hb i Hi.
  apply andb_true_iff in Hb as [Hk Hinc]. apply Nat.leb_le in Hk.
  destruct (lookup_lt_is_Some_2 idx i) as [a Ha]; [lia|].
  exists a. split; [done|].
  assert (Ht : take k idx !! i = Some a) by (by rewrite lookup_take_lt).
  destruct (increasing_from_lookup Hinc Ht) as (H1 & H2 & H3).
  split_and!; [lia | done |].
  intros j a' Hij Hj Ha'. apply (H3 j); [done|]. by rewrite lookup_take_lt.
Qed.

Section Restore.
Context {A : Type}.
Implicit Types (v u : list A) (idx : list nat).

Lemma swap_length i j v : length (swap i j v) = length v.
Proof.
  unfold swap. destruct (v !! i), (v !! j); auto. by rewrite !length_insert.
Qed.

Lemma swap_lookup i j v q :
  (i < length v)%nat -> (j < length v)%nat ->
  swap i j v !! q =
    if decide (q = j) then v !! i else if decide (q = i) then v !! j else v !! q.
Proof.
  intros Hi Hj. unfold swap.
  destruct (lookup_lt_is_Some_2 v i Hi) as [a Ha].
  destruct (lookup_lt_is_Some_2 v j Hj) as [a' Ha'].
  rewrite Ha, Ha'.
  destruct (decide (q = j)) as [->|Hqj].
  - rewrite list_lookup_insert_eq; [done|]. by rewrite length_insert.
  - rewrite list_lookup_insert_ne by done.
    destruct (decide (q = i)) as [->|Hqi].
    + by rewrite list_lookup_insert_eq.
    + by rewrite list_lookup_insert_ne.
Qed.

Lemma restore_vec_length idx k v : length (restore_vec idx k v) = length v.
Proof.
  revert v. induction k as [|i IH]; intros v; simpl; [done|].
  by rewrite IH, swap_length.
Qed.

Lemma restore_inv_step idx k fill v0 t u :
  box_index_ok (length v0) k idx = true -> (t < k)%nat ->
  restore_inv idx k fill v0 (S t) u ->
  restore_inv idx k fill v0 t (swap t (default O (idx !! t)) u).
Proof.
  intros Hok Ht (Hlen & Ha & Hb & Hc).
  destruct (box_index_ok_lookup Hok Ht) as (a & Hidx & Hta & Halen & Hinc).
  rewrite Hidx. simpl.
  assert (Htl : (t < length u)%nat) by lia.
  assert (Hal : (a < length u)%nat) by lia.
  unfold restore_inv. rewrite swap_length.
  split_and!; [done | | |].
  - intros j Hj. rewrite swap_lookup by done.
    repeat case_decide; try lia. apply Ha. lia.
  - intros j a' Hj Hjk Hj'. rewrite swap_lookup by done.
    destruct (decide (j = t)) as [->|Hne].
    + assert (a' = a) as -> by congruence.
      rewrite decide_True by done. apply Ha. lia.
    + assert (a < a')%nat by (apply (Hinc j); [lia | done | done]).
      assert (Hja : (j <= a')%nat).
      { destruct (box_index_ok_lookup Hok Hjk) as (a2 & H2 & ? & _). congruence. }
      repeat case_decide; try lia. apply Hb; [lia | done | done].
  - intros q Hq Hql Hnot. rewrite swap_lookup by done.
    destruct (decide (q = a)) as [->|Hqa].
    + exfalso. by apply (Hnot t).
    + destruct (decide (q = t)) as [->|Hqt].
      * destruct (decide (a = t)) as [->|Hat]; [done|].
        apply Hc; [lia | done |].
        intros j Hj Hjk Hja.
        assert (a < a)%nat; [|lia]. apply (Hinc j); [lia | done | done].
      * apply Hc; [lia | done |].
        intros j Hj Hjk. apply Hnot; lia.
Qed.

Lemma restore_inv_loop idx k fill v0 : 
  box_index_ok (length v0) k idx = true ->
  forall i u, (i <= k)%nat ->
  restore_inv idx k fill v0 i u ->
  restore_inv idx k fill v0 0 (restore_vec idx i u).
Proof.
  intros Hok. induction i as [|t IH]; intros u Hi Hinv; simpl; [done|].
  apply IH; [lia|]. apply restore_inv_step; [done | lia | done].
Qed.

(** The vector after [tail(len - k).setConstant(fill)] and the swaps. *)
Lemma restore_vec_dense idx k fill v0 :
  box_index_ok (length v0) k idx = true -> (k <= length v0)%nat ->
  let w := restore_vec idx k (fill_tail (length v0 - k) fill v0) in
  length w = length v0
  /\ (forall i a, (i < k)%nat -> idx !! i = Some a -> w !! a = v0 !! i)
  /\ (forall q, (q < length v0)%nat ->
        (forall i, (i < k)%nat -> idx !! i <> Some q) -> w !! q = Some fill).
Proof.
  intros Hok Hk. simpl.
  set (v1 := fill_tail (length v0 - k) fill v0).
  assert (Hl1 : length v1 = length v0).
  { unfold v1, fill_tail. rewrite length_app, length_take, length_replicate. lia. }
  assert (Hinv : restore_inv idx k fill v1 k v1).
  { unfold restore_inv. split_and!; [done | done | intros; lia |].
    intros q Hq Hql _. unfold v1, fill_tail.
    rewrite lookup_app_r by (rewrite length_take; lia).
    rewrite length_take. apply lookup_replicate_2. lia. }
  rewrite <- Hl1 in Hok.
  destruct (restore_inv_loop Hok (Nat.le_refl k) Hinv) as (H1 & _ & H3 & H4).
  assert (Hhead : forall i, (i < k)%nat -> v1 !! i = v0 !! i).
  { intros i Hi. unfold v1, fill_tail. rewrite lookup_app_l by (rewrite length_take; lia).
    apply lookup_take_lt. lia. }
  split_and!.
  - congruence.
  - intros i a Hi Hia. rewrite <- Hhead by done. apply H3; [lia | done | done].
  - intros q Hq Hnot. apply H4; [lia | lia |]. intros j _ Hj. by apply Hnot.
Qed.
End Restore.

Lemma box_index_ok_le len k idx :
  box_index_ok len k idx = true -> (k <= len)%nat.
Proof.
  intros Hok. destruct k as [|k]; [lia|].
  destruct (box_index_ok_lookup Hok (i := k)) as (a & _ & ? & ? & _); lia.
Qed.

Lemma restore_vec_layout {A : Type} len (idx : list nat) k (fill : A) (v0 : list A) :
  length v0 = len ->
  box_index_ok len k idx = true ->
  dense_layout len k idx fill v0 (restore_vec idx k (fill_tail (len - k) fill v0)).
Proof.
  intros <- Hok. pose proof (box_index_ok_le Hok) as Hk.
  destruct (restore_vec_dense fill Hok Hk) as (H1 & H2 & H3).
  split_and!; done.
Qed.

Section RestoreResult.
Context {T : Type} `{Scalar T} {PC K : Type}.
Context (pc_ops : PreconditionerOps T PC) (kkt_ops : KKTOps T K).
Context (verify_settings : Settings T -> bool).
Local Abbreviation SolverT := (Solver T PC K).

Lemma restore_lb_loop_fields (idx : list nat) k : forall r0 : Result T,
  let r' := restore_lb_loop idx k r0 in
  z_lb r' = restore_vec idx k (z_lb r0)
  /\ s_lb r' = restore_vec idx k (s_lb r0)
  /\ nu_lb r' = restore_vec idx k (nu_lb r0)
  /\ z_ub r' = z_ub r0 /\ s_ub r' = s_ub r0 /\ nu_ub r' = nu_ub r0.
Proof.
  induction k as [|k IH]; intros r0; [done|].
  cbn [restore_lb_loop restore_vec]. cbv zeta.
  destruct (IH (set_nu_lb (swap k (coeff_idx idx k) (nu_lb
     (set_s_lb (swap k (coeff_idx idx k) (s_lb (set_z_lb (swap k (coeff_idx idx k) (z_lb r0)) r0)))
        (set_z_lb (swap k (coeff_idx idx k) (z_lb r0)) r0))))
     (set_s_lb (swap k (coeff_idx idx k) (s_lb (set_z_lb (swap k (coeff_idx idx k) (z_lb r0)) r0)))
        (set_z_lb (swap k (coeff_idx idx k) (z_lb r0)) r0))))
    as (-> & -> & -> & -> & -> & ->).
  done.
Qed.

Lemma restore_ub_loop_fields (idx : list nat) k : forall r0 : Result T,
  let r' := restore_ub_loop idx k r0 in
  z_ub r' = restore_vec idx k (z_ub r0)
  /\ s_ub r' = restore_vec idx k (s_ub r0)
  /\ nu_ub r' = restore_vec idx k (nu_ub r0)
  /\ z_lb r' = z_lb r0 /\ s_lb r' = s_lb r0 /\ nu_lb r' = nu_lb r0.
Proof.
  induction k as [|k IH]; intros r0; [done|].
  cbn [restore_ub_loop restore_vec]. cbv zeta.
  destruct (IH (set_nu_ub (swap k (coeff_idx idx k) (nu_ub
     (set_s_ub (swap k (coeff_idx idx k) (s_ub (set_z_ub (swap k (coeff_idx idx k) (z_ub r0)) r0)))
        (set_z_ub (swap k (coeff_idx idx k) (z_ub r0)) r0))))
     (set_s_ub (swap k (coeff_idx idx k) (s_ub (set_z_ub (swap k (coeff_idx idx k) (z_ub r0)) r0)))
        (set_z_ub (swap k (coeff_idx idx k) (z_ub r0)) r0))))
    as (-> & -> & -> & -> & -> & ->).
  done.
Qed.

Lemma restore_box_dual_result_layout (d : Data T) (r0 : Result T) :
  box_index_ok (n d) (n_lb d) (x_lb_idx d) = true ->
  box_index_ok (n d) (n_ub d) (x_ub_idx d) = true ->
  length (z_lb r0) = n d -> length (s_lb r0) = n d -> length (nu_lb r0) = n d ->
  length (z_ub r0) = n d -> length (s_ub r0) = n d -> length (nu_ub r0) = n d ->
  let r' := restore_box_dual_result d r0 in
  dense_layout (n d) (n_lb d) (x_lb_idx d) sc_zero (z_lb r0) (z_lb r')
  /\ dense_layout (n d) (n_lb d) (x_lb_idx d) sc_infinity (s_lb r0) (s_lb r')
  /\ dense_layout (n d) (n_lb d) (x_lb_idx d) sc_zero (nu_lb r0) (nu_lb r')
  /\ dense_layout (n d) (n_ub d) (x_ub_idx d) sc_zero (z_ub r0) (z_ub r')
  /\ dense_layout (n d) (n_ub d) (x_ub_idx d) sc_infinity (s_ub r0) (s_ub r')
  /\ dense_layout (n d) (n_ub d) (x_ub_idx d) sc_zero (nu_ub r0) (nu_ub r').
Proof.
  intros Hlb Hub L1 L2 L3 L4 L5 L6. cbv zeta. unfold restore_box_dual_result. cbv zeta.
  match goal with |- context [restore_ub_loop _ _ ?r] =>
    destruct (restore_ub_loop_fields (x_ub_idx d) (n_ub d) r) as (-> & -> & -> & -> & -> & ->) end.
  match goal with |- context [restore_lb_loop _ _ ?r] =>
    destruct (restore_lb_loop_fields (x_lb_idx d) (n_lb d) r) as (-> & -> & -> & -> & -> & ->) end.
  cbn [z_lb s_lb nu_lb z_ub s_ub nu_ub set_z_lb set_s_lb set_nu_lb set_z_ub set_s_ub set_nu_ub].
  split_and!; apply restore_vec_layout; assumption.
Qed.
End RestoreResult.
(** ** The index maps after setup *)

Lemma increasing_from_intro bound (l : list nat) : forall lo,
  (forall i a, l !! i = Some a -> (lo <= a)%nat /\ (a < bound)%nat) ->
  (forall i j a a', (i < j)%nat -> l !! i = Some a -> l !! j = Some a' -> (a < a')%nat) ->
  increasing_from lo bound l = true.
Proof.
  induction l as [|h r IH]; intros lo Hb Hinc; [done|]. cbn [increasing_from].
  destruct (Hb 0%nat h eq_refl) as [H1 H2].
  apply andb_true_iff. split; [apply andb_true_iff; split|].
  - by apply Nat.leb_le.
  - by apply Nat.ltb_lt.
  - apply IH.
    + intros i a Ha. split; [|by apply (Hb (S i) a)].
      specialize (Hinc 0%nat (S i) h a). cbn in Hinc. specialize (Hinc ltac:(lia) eq_refl Ha). lia.
    + intros i j a a' Hij Ha Ha'. apply (Hinc (S i) (S j)); [lia|done|done].
Qed.

Lemma box_index_ok_intro len k (idx : list nat) :
  (forall i, (i < k)%nat -> exists a, idx !! i = Some a /\ (a < len)%nat) ->
  (forall i j a a', (i < j)%nat -> (j < k)%nat ->
     idx !! i = Some a -> idx !! j = Some a' -> (a < a')%nat) ->
  box_index_ok len k idx = true.
Proof.
  intros Hb Hinc. unfold box_index_ok.
  assert (Hk : (k <= length idx)%nat).
  { destruct k as [|k]; [lia|]. destruct (Hb k) as (a & Ha & _); [lia|].
    apply lookup_lt_Some in Ha. lia. }
  apply andb_true_iff. split; [by apply Nat.leb_le|].
  apply increasing_from_intro.
  - intros i a Ha.
    assert (Hi : (i < k)%nat)
      by (apply lookup_lt_Some in Ha; rewrite length_take in Ha; lia).
    rewrite lookup_take_lt in Ha by done.
    destruct (Hb i Hi) as (a' & Ha' & Hlt). split; [lia|congruence].
  - intros i j a a' Hij Ha Ha'.
    assert (Hj : (j < k)%nat)
      by (apply lookup_lt_Some in Ha'; rewrite length_take in Ha'; lia).
    rewrite lookup_take_lt in Ha, Ha' by lia.
    by apply (Hinc i j).
Qed.

Section SetupData.
Context {T : Type} `{Scalar T} {PC K : Type}.
Context (pc_ops : PreconditionerOps T PC) (kkt_ops : KKTOps T K).
Local Abbreviation SolverT := (Solver T PC K).

(** The index maps that setup builds are those that [restore_box_dual]
    needs. *)
Lemma setup_data_box_index_ok (P A G : list (list T)) (c' b' h' lb ub : list T)
    (d : Data T) :
  length lb = length P -> length ub = length P ->
  let d' := setup_data P A G c' b' h' (Some lb) (Some ub) d in
  box_index_ok (n d') (n_lb d') (x_lb_idx d') = true
  /\ box_index_ok (n d') (n_ub d') (x_ub_idx d') = true.
Proof.
  intros Hlb Hub. cbv zeta.
  destruct (@setup_data_bounds _ _ P A G c' b' h' lb ub d Hlb Hub)
    as (_ & _ & L1 & L2 & _ & U1 & U2).
  split; apply box_index_ok_intro.
  - intros i Hi. destruct (L1 i Hi) as (k & v & Hk & Hlt & _). eauto.
  - intros i j a a' Hij Hj. by apply L2.
  - intros i Hi. destruct (U1 i Hi) as (k & v & Hk & Hlt & _). eauto.
  - intros i j a a' Hij Hj. by apply U2.
Qed.

(** [setup_impl] stores the data of [setup_data], as the preconditioner
    scales them. *)
Lemma setup_impl_data P A G c' b' h' lb ub (sv : SolverT) :
  let d1 := setup_data P A G c' b' h' lb ub (m_data sv) in
  m_data (setup_impl pc_ops kkt_ops P A G c' b' h' lb ub sv)
  = (pc_scale_data pc_ops (pc_init pc_ops (m_preconditioner sv) d1) d1 false
       (preconditioner_iter (m_settings sv))).2.
Proof.
  cbv beta delta [setup_impl]. cbv zeta.
  match goal with |- context [let '(_, _) := ?e in _] =>
    change e with (pc_scale_data pc_ops
      (pc_init pc_ops (m_preconditioner sv)
         (setup_data P A G c' b' h' lb ub (m_data sv)))
      (setup_data P A G c' b' h' lb ub (m_data sv)) false
      (preconditioner_iter (m_settings sv))) end.
  break_pair. reflexivity.
Qed.

End SetupData.


(** ** The residuals without regularisation *)

Section NR.
Context {T : Type} `{Scalar T} {PC K : Type}.
Context (pc_ops : PreconditionerOps T PC) (kkt_ops : KKTOps T K).
Local Abbreviation SolverT := (Solver T PC K).

Lemma rz_lb_nr_loop_write (d : Data T) (r0 : Result T) k : forall i v,
  rz_lb_nr_loop d r0 i k v =
  write_loop (fun i => (coeff (x r0) (coeff_idx (x_lb_idx d) i) + coeff (x_lb_n d) i
                        - coeff (s_lb r0) i)%sc) i k v.
Proof. induction k as [|k IH]; intros i v; simpl; [done|]. apply IH. Qed.

Lemma rz_ub_nr_loop_write (d : Data T) (r0 : Result T) k : forall i v,
  rz_ub_nr_loop d r0 i k v =
  write_loop (fun i => (- coeff (x r0) (coeff_idx (x_ub_idx d) i) + coeff (x_ub d) i
                        - coeff (s_ub r0) i)%sc) i k v.
Proof. induction k as [|k IH]; intros i v; simpl; [done|]. apply IH. Qed.

Lemma write_loop_length (f : nat -> T) k : forall i v,
  length (write_loop f i k v) = length v.
Proof.
  induction k as [|k IH]; intros i v; simpl; [done|].
  by rewrite IH, length_insert.
Qed.

Lemma write_loop_lookup (f : nat -> T) k : forall i v q,
  write_loop f i k v !! q =
    if decide (i <= q < i + k /\ q < length v)%nat then Some (f q) else v !! q.
Proof.
  induction k as [|k IH]; intros i v q; simpl.
  - case_decide; [lia | done].
  - rewrite IH, length_insert.
    destruct (decide (q = i)) as [->|Hne].
    + destruct (decide (i < length v)%nat).
      * rewrite list_lookup_insert_eq by done. repeat case_decide; try done; lia.
      * rewrite list_insert_ge by lia.
        repeat case_decide; try done; lia.
    + rewrite list_lookup_insert_ne by done.
      repeat case_decide; try done; lia.
Qed.

Lemma write_loop_idempotent (f : nat -> T) i k v :
  write_loop f i k (write_loop f i k v) = write_loop f i k v.
Proof.
  apply list_eq. intros q. rewrite !write_loop_lookup, write_loop_length.
  case_decide; done.
Qed.

(** What [update_nr_residuals] leaves in the residuals and in the two
    reference norms. *)
Lemma update_nr_residuals_spec (sv : SolverT) :
  let d := m_data sv in
  let r0 := m_result sv in
  let sv' := update_nr_residuals pc_ops sv in
  rx_nr sv' = nr_rx d r0
  /\ ry_nr sv' = nr_ry d r0
  /\ rz_nr sv' = nr_rz d r0
  /\ rz_lb_nr sv' = nr_rz_lb d r0 (rz_lb_nr sv)
  /\ rz_ub_nr sv' = nr_rz_ub d r0 (rz_ub_nr sv)
  /\ primal_rel_inf sv' =
       nr_primal_rel_inf pc_ops (m_preconditioner sv) d r0
         (nr_rz_lb d r0 (rz_lb_nr sv)) (nr_rz_ub d r0 (rz_ub_nr sv))
  /\ dual_rel_inf sv' = nr_dual_rel_inf pc_ops (m_preconditioner sv) d r0
  /\ m_result sv' = m_result sv.
Proof.
  cbv zeta. unfold nr_rz_lb, nr_rz_ub.
  rewrite <- !rz_lb_nr_loop_write, <- !rz_ub_nr_loop_write.
  split_and!; reflexivity.
Qed.
End NR.

(** ** The outer loop *)

Section LoopTheory.
Context {T : Type} `{Scalar T} {PC K : Type}.
Context (pc_ops : PreconditionerOps T PC) (kkt_ops : KKTOps T K).
Context (verify_settings : Settings T -> bool).
Local Abbreviation SolverT := (Solver T PC K).



Lemma view_begin_iteration (sv : SolverT) :
  frame_of (begin_iteration pc_ops sv) = frame_of sv
  /\ counters_of (begin_iteration pc_ops sv) = counters_of sv.
Proof.
  cbv beta delta [begin_iteration]. cbv zeta. do 2 break_if; split; reflexivity.
Qed.

Lemma view_update_residuals (sv : SolverT) :
  frame_of (update_residuals sv) = frame_of sv
  /\ counters_of (update_residuals sv) = counters_of sv.
Proof. split; reflexivity. Qed.

Lemma view_refactorize (sv : SolverT) :
  frame_of (refactorize kkt_ops sv).2 = frame_of sv
  /\ iter (sv_info (refactorize kkt_ops sv).2) = (iter (sv_info sv) + 1)%Z
  /\ factor_retires (sv_info (refactorize kkt_ops sv).2) = factor_retires (sv_info sv).
Proof.
  cbv beta delta [refactorize relax_reg_limit factorize].
  cbv zeta. break_if; break_pair; split_and!; reflexivity.
Qed.

Lemma view_retry_iteration (sv : SolverT) :
  frame_of (retry_iteration sv) = frame_of sv
  /\ iter (sv_info (retry_iteration sv)) = (iter (sv_info sv) - 1)%Z
  /\ factor_retires (sv_info (retry_iteration sv)) = (factor_retires (sv_info sv) + 1)%Z.
Proof. split_and!; reflexivity. Qed.

Lemma view_update_rho g b (sv : SolverT) :
  frame_of (update_rho pc_ops g b sv) = frame_of sv
  /\ counters_of (update_rho pc_ops g b sv) = counters_of sv.
Proof. cbv beta delta [update_rho]. break_if; split; reflexivity. Qed.

Lemma view_update_delta g b (sv : SolverT) :
  frame_of (update_delta pc_ops g b sv) = frame_of sv
  /\ counters_of (update_delta pc_ops g b sv) = counters_of sv.
Proof. cbv beta delta [update_delta]. cbv zeta. break_if; split; reflexivity. Qed.

Lemma view_update_delta_eq g b (sv : SolverT) :
  frame_of (update_delta_eq pc_ops g b sv) = frame_of sv
  /\ counters_of (update_delta_eq pc_ops g b sv) = counters_of sv.
Proof. cbv beta delta [update_delta_eq]. break_if; split; reflexivity. Qed.

Lemma view_predictor (sv : SolverT) :
  frame_of (predictor kkt_ops sv) = frame_of sv
  /\ counters_of (predictor kkt_ops sv) = counters_of sv.
Proof. cbv beta delta [predictor]. cbv zeta. break_pair. split; reflexivity. Qed.

Lemma view_corrector (sv : SolverT) :
  frame_of (corrector kkt_ops sv) = frame_of sv
  /\ counters_of (corrector kkt_ops sv) = counters_of sv.
Proof. cbv beta delta [corrector]. cbv zeta. break_pair. split; reflexivity. Qed.

Lemma view_update_iterate (sv : SolverT) :
  frame_of (update_iterate sv) = frame_of sv
  /\ counters_of (update_iterate sv) = counters_of sv.
Proof. split; reflexivity. Qed.

Lemma view_update_nr_residuals (sv : SolverT) :
  frame_of (update_nr_residuals pc_ops sv) = frame_of sv
  /\ counters_of (update_nr_residuals pc_ops sv) = counters_of sv.
Proof. split; reflexivity. Qed.

Lemma view_set_mu v (sv : SolverT) :
  frame_of (upd_info (set_mu v) sv) = frame_of sv
  /\ counters_of (upd_info (set_mu v) sv) = counters_of sv.
Proof. split; reflexivity. Qed.

Lemma view_predictor_corrector (sv : SolverT) :
  frame_of (predictor_corrector pc_ops kkt_ops sv) = frame_of sv
  /\ counters_of (predictor_corrector pc_ops kkt_ops sv) = counters_of sv.
Proof.
  cbv beta delta [predictor_corrector]. cbv zeta.
  destruct (view_predictor sv) as [F1 C1].
  destruct (view_corrector (predictor kkt_ops sv)) as [F2 C2].
  split.
  - rewrite (proj1 (view_update_delta _ _ _)), (proj1 (view_update_rho _ _ _)).
    rewrite (proj1 (view_update_nr_residuals _)), (proj1 (view_set_mu _ _)).
    rewrite (proj1 (view_update_iterate _)). congruence.
  - rewrite (proj2 (view_update_delta _ _ _)), (proj2 (view_update_rho _ _ _)).
    rewrite (proj2 (view_update_nr_residuals _)), (proj2 (view_set_mu _ _)).
    rewrite (proj2 (view_update_iterate _)). congruence.
Qed.

Lemma view_newton_prefix (sv : SolverT) v1 v2 :
  let sv1 := upd_info (set_dual_step v2) (upd_info (set_primal_step v1) sv) in
  forall f g,
  frame_of (upd_result (fun r0 => set_y (g r0) r0) (upd_result (fun r0 => set_x (f r0) r0) sv1))
    = frame_of sv
  /\ counters_of (upd_result (fun r0 => set_y (g r0) r0) (upd_result (fun r0 => set_x (f r0) r0) sv1))
    = counters_of sv.
Proof. intros; split; reflexivity. Qed.

Lemma view_solve_direction (sv : SolverT) :
  frame_of (solve_direction kkt_ops sv) = frame_of sv
  /\ counters_of (solve_direction kkt_ops sv) = counters_of sv.
Proof. split; reflexivity. Qed.

Lemma view_newton_step (sv : SolverT) :
  frame_of (newton_step pc_ops kkt_ops sv) = frame_of sv
  /\ counters_of (newton_step pc_ops kkt_ops sv) = counters_of sv.
Proof.
  cbv beta delta [newton_step]. cbv zeta.
  split.
  - rewrite (proj1 (view_update_delta_eq _ _ _)), (proj1 (view_update_rho _ _ _)).
    rewrite (proj1 (view_update_nr_residuals _)).
    etransitivity; [apply view_newton_prefix | apply view_solve_direction].
  - rewrite (proj2 (view_update_delta_eq _ _ _)), (proj2 (view_update_rho _ _ _)).
    rewrite (proj2 (view_update_nr_residuals _)).
    etransitivity; [apply view_newton_prefix | apply view_solve_direction].
Qed.

Lemma view_reset_retires (sv : SolverT) :
  frame_of (upd_info (set_factor_retires 0%Z) sv) = frame_of sv
  /\ iter (sv_info (upd_info (set_factor_retires 0%Z) sv)) = iter (sv_info sv)
  /\ factor_retires (sv_info (upd_info (set_factor_retires 0%Z) sv)) = 0%Z.
Proof. split_and!; reflexivity. Qed.

Lemma counters_of_eq (a a' : SolverT) :
  counters_of a' = counters_of a ->
  iter (sv_info a') = iter (sv_info a)
  /\ factor_retires (sv_info a') = factor_retires (sv_info a).
Proof. unfold counters_of. intros [= -> ->]. done. Qed.

(** The three verdicts at the top of a pass, and what the pass does
    after them. *)
Lemma outer_iteration_unfold (sv : SolverT) :
  outer_iteration pc_ops kkt_ops sv =
    let sb := begin_iteration pc_ops sv in
    if converged sb then return_status PIQP_SOLVED sb
    else
      let su := update_residuals sb in
      if primal_infeasible pc_ops su then return_status PIQP_PRIMAL_INFEASIBLE su
      else if dual_infeasible pc_ops su then return_status PIQP_DUAL_INFEASIBLE su
      else
        let sf := (refactorize kkt_ops su).2 in
        if negb (refactorize kkt_ops su).1 then
          if (factor_retires (sv_info sf) <? max_factor_retires (m_settings sf))%Z
          then Continue (retry_iteration sf)
          else return_status PIQP_NUMERICS sf
        else
          let sf := upd_info (set_factor_retires 0%Z) sf in
          if (0 <? N_ineq (m_data sf))%nat
          then Continue (predictor_corrector pc_ops kkt_ops sf)
          else Continue (newton_step pc_ops kkt_ops sf).
Proof.
  cbv beta delta [outer_iteration]. cbv zeta.
  destruct (converged _); [reflexivity|].
  destruct (primal_infeasible _ _); [reflexivity|].
  destruct (dual_infeasible _ _); [reflexivity|].
  destruct (refactorize _ _) as [ok sf]. reflexivity.
Qed.

Lemma outer_iteration_continue (sv sv' : SolverT) :
  outer_iteration pc_ops kkt_ops sv = Continue sv' ->
  frame_of sv' = frame_of sv
  /\ converged (begin_iteration pc_ops sv) = false
  /\ ((iter (sv_info sv') = iter (sv_info sv) + 1
       /\ factor_retires (sv_info sv') = 0)%Z
      \/ ((iter (sv_info sv') = iter (sv_info sv)
           /\ factor_retires (sv_info sv') = factor_retires (sv_info sv) + 1
           /\ factor_retires (sv_info sv) < max_factor_retires (m_settings sv))%Z
          /\ sv' = retry_iteration
                     (refactorize kkt_ops
                        (update_residuals (begin_iteration pc_ops sv))).2)).
Proof.
  rewrite outer_iteration_unfold. cbv zeta.
  destruct (view_begin_iteration sv) as [Fb Cb]. apply counters_of_eq in Cb as [Ib Rb].
  forget (begin_iteration pc_ops sv) sb.
  destruct (converged sb); [discriminate|].
  destruct (view_update_residuals sb) as [Fu Cu]. apply counters_of_eq in Cu as [Iu Ru].
  forget (update_residuals sb) su.
  destruct (primal_infeasible pc_ops su); [discriminate|].
  destruct (dual_infeasible pc_ops su); [discriminate|].
  destruct (view_refactorize su) as (Ff & If & Rf).
  destruct (refactorize kkt_ops su) as [ok sf]. cbn [fst snd] in *.
  assert (Fs : frame_of sf = frame_of sv) by congruence.
  assert (Hset : m_settings sf = m_settings sv) by (unfold frame_of in Fs; congruence).
  destruct ok; cbn [negb].
  - destruct (view_reset_retires sf) as (F0 & I0 & R0).
    forget (upd_info (set_factor_retires 0%Z) sf) s0.
    intros Hc. split; [|split; [done|left]].
    + destruct (0 <? N_ineq (m_data s0))%nat; injection Hc as <-.
      * rewrite (proj1 (view_predictor_corrector s0)). congruence.
      * rewrite (proj1 (view_newton_step s0)). congruence.
    + destruct (0 <? N_ineq (m_data s0))%nat; injection Hc as <-.
      * destruct (counters_of_eq (proj2 (view_predictor_corrector s0))) as [-> ->]. lia.
      * destruct (counters_of_eq (proj2 (view_newton_step s0))) as [-> ->]. lia.
  - destruct (factor_retires (sv_info sf) <? max_factor_retires (m_settings sf))%Z eqn:Hlt;
      [|discriminate].
    intros [= <-]. apply Z.ltb_lt in Hlt.
    destruct (view_retry_iteration sf) as (Fr & Ir & Rr).
    split; [congruence|]. split; [done|right]. split; [|done].
    rewrite Ir, Rr. rewrite Hset in Hlt. lia.
Qed.

Lemma outer_iteration_return (sv : SolverT) st (sv' : SolverT) :
  outer_iteration pc_ops kkt_ops sv = Return st sv' ->
  (st = PIQP_SOLVED <-> converged (begin_iteration pc_ops sv) = true).
Proof.
  rewrite outer_iteration_unfold. cbv zeta. unfold return_status.
  destruct (converged _); [intros [= <- _]; done|].
  destruct (primal_infeasible _ _); [intros [= <- _]; done|].
  destruct (dual_infeasible _ _); [intros [= <- _]; done|].
  destruct (negb _); [|destruct (0 <? _)%nat; discriminate].
  destruct (_ <? _)%Z; [discriminate|]. intros [= <- _]; done.
Qed.

(** The bound on the passes goes down with every pass that goes on. *)
Lemma outer_fuel_decreases (sv sv' : SolverT) :
  (iter (sv_info sv) < max_iter (m_settings sv))%Z ->
  outer_iteration pc_ops kkt_ops sv = Continue sv' ->
  (outer_fuel sv' < outer_fuel sv)%nat.
Proof.
  intros Hlt Hc. apply outer_iteration_continue in Hc as (Hf & _ & Hcases).
  assert (Hset : m_settings sv' = m_settings sv) by (unfold frame_of in Hf; congruence).
  unfold outer_fuel. rewrite Hset.
  set (R := max_factor_retires (m_settings sv)) in *.
  set (I := max_iter (m_settings sv)) in *.
  destruct Hcases as [[-> ->]|[(-> & -> & Hr) _]]; nia.
Qed.

Lemma outer_loop_total fuel : forall sv : SolverT,
  (outer_fuel sv <= fuel)%nat -> exists r, outer_loop pc_ops kkt_ops fuel sv = Some r.
Proof.
  induction fuel as [|fuel IH]; intros sv Hf; [unfold outer_fuel in Hf; lia|].
  cbn [outer_loop].
  destruct (iter (sv_info sv) <? max_iter (m_settings sv))%Z eqn:Hlt; [|eauto].
  apply Z.ltb_lt in Hlt.
  destruct (outer_iteration pc_ops kkt_ops sv) as [st sv'|sv'] eqn:Ho; [eauto|].
  apply IH. pose proof (outer_fuel_decreases Hlt Ho). lia.
Qed.

Lemma convergence_test_ext (a a' : SolverT) :
  residual_view a' = residual_view a -> frame_of a' = frame_of a ->
  convergence_test pc_ops a' <-> convergence_test pc_ops a.
Proof.
  unfold residual_view, frame_of, convergence_test.
  intros [= -> -> -> -> -> -> -> ->] [= -> -> -> _]. done.
Qed.

Lemma converged_update_infeasibilities (sv : SolverT) :
  converged (update_infeasibilities pc_ops sv) = true <-> convergence_test pc_ops sv.
Proof.
  unfold convergence_test, converged. cbv zeta. rewrite !andb_true_iff.
  split; [intros [[H1 H2] H3] | intros (H1 & H2 & H3)]; split_and!; assumption.
Qed.

Lemma view_update_infeasibilities (sv : SolverT) :
  residual_view (update_infeasibilities pc_ops sv) = residual_view sv
  /\ frame_of (update_infeasibilities pc_ops sv) = frame_of sv.
Proof. split; reflexivity. Qed.

Lemma view_log_iteration (sv : SolverT) :
  let sv' := if verbose (m_settings sv) then log_iteration sv else sv in
  residual_view sv' = residual_view sv
  /\ frame_of sv' = frame_of sv
  /\ converged sv' = converged sv.
Proof. cbv zeta. destruct (verbose _); split_and!; reflexivity. Qed.

Lemma converged_begin_iteration (sv : SolverT) :
  converged (begin_iteration pc_ops sv) = true
  <-> convergence_test pc_ops (begin_iteration pc_ops sv).
Proof.
  cbv beta delta [begin_iteration]. cbv zeta.
  match goal with |- context [update_infeasibilities pc_ops ?e] => forget e s1 end.
  destruct (view_update_infeasibilities s1) as [V2 F2].
  pose proof (converged_update_infeasibilities s1) as C2.
  forget (update_infeasibilities pc_ops s1) s2.
  destruct (view_log_iteration s2) as (V3 & F3 & C3). cbv zeta in V3, F3, C3.
  match goal with |- context [converged ?e] => forget e s3 end.
  rewrite C3, C2. symmetry. apply convergence_test_ext; congruence.
Qed.

Lemma outer_loop_solved_iff fuel : forall (sv : SolverT) st sv',
  outer_loop pc_ops kkt_ops fuel sv = Some (st, sv') ->
  (st = PIQP_SOLVED <->
   exists svk, visits pc_ops kkt_ops sv svk
     /\ (iter (sv_info svk) < max_iter (m_settings svk))%Z
     /\ converged (begin_iteration pc_ops svk) = true).
Proof.
  induction fuel as [|fuel IH]; intros sv st sv'; [discriminate|].
  cbn [outer_loop].
  destruct (iter (sv_info sv) <? max_iter (m_settings sv))%Z eqn:Hlt.
  - apply Z.ltb_lt in Hlt.
    destruct (outer_iteration pc_ops kkt_ops sv) as [st0 sv0|sv1] eqn:Ho.
    + intros [= -> ->]. rewrite (outer_iteration_return Ho). split.
      * intros Hc. exists sv. split_and!; [constructor | done | done].
      * intros (svk & Hv & Hk & Hc). inversion Hv; subst; [done | congruence].
    + intros Hl. rewrite (IH _ _ _ Hl). split.
      * intros (svk & Hv & Hk & Hc). exists svk. split_and!; [|done|done].
        econstructor; eauto.
      * intros (svk & Hv & Hk & Hc). inversion Hv; subst.
        -- apply outer_iteration_continue in Ho as (_ & Hn & _). congruence.
        -- assert (sv1 = sv2) as -> by congruence. eauto.
  - apply Z.ltb_ge in Hlt. intros [= <- _]. split; [done|].
    intros (svk & Hv & Hk & Hc). inversion Hv; subst; lia.
Qed.

(** *** The prologue *)

Lemma view_factorize (sv : SolverT) :
  frame_of (factorize kkt_ops sv).2 = frame_of sv
  /\ sv_info (factorize kkt_ops sv).2 = sv_info sv.
Proof. cbv beta delta [factorize]. break_pair. split; reflexivity. Qed.

Lemma view_inflate_regularisation (sv : SolverT) :
  frame_of (inflate_regularisation sv) = frame_of sv
  /\ factor_retires (sv_info (inflate_regularisation sv))
     = (factor_retires (sv_info sv) + 1)%Z.
Proof. split; reflexivity. Qed.

Lemma initial_factorize_total fuel : forall sv : SolverT,
  (initial_fuel sv <= fuel)%nat ->
  exists o, initial_factorize kkt_ops fuel sv = Some o.
Proof.
  induction fuel as [|fuel IH]; intros sv Hf; [unfold initial_fuel in Hf; lia|].
  cbn [initial_factorize].
  destruct (view_factorize sv) as [Ff If].
  destruct (factorize kkt_ops sv) as [ok sf]. cbn [snd] in *.
  destruct ok; [eauto|].
  destruct (_ <? _)%Z eqn:Hlt; [|eauto].
  apply Z.ltb_lt in Hlt. apply IH.
  destruct (view_inflate_regularisation sf) as [Fi Ri].
  unfold initial_fuel in *. rewrite Ri.
  assert (m_settings (inflate_regularisation sf) = m_settings sv) as ->
    by (unfold frame_of in *; congruence).
  assert (m_settings sf = m_settings sv) as Hs by (unfold frame_of in *; congruence).
  rewrite Hs in Hlt. rewrite If in *. lia.
Qed.

Lemma solve_prologue_total (sv : SolverT) :
  exists o, solve_prologue kkt_ops verify_settings sv = Some o.
Proof.
  cbv beta delta [solve_prologue]. cbv zeta.
  destruct (negb (m_setup_done sv)); [eauto|].
  destruct (negb (verify_settings _)); [eauto|].
  match goal with |- context [initial_factorize (PC:=PC) kkt_ops (initial_fuel ?s) ?s] =>
    destruct (@initial_factorize_total (initial_fuel s) s (Nat.le_refl _)) as [o ->] end.
  destruct o; eauto.
Qed.

Theorem solve_impl_total (sv : SolverT) :
  exists r, solve_impl pc_ops kkt_ops verify_settings sv = Some r.
Proof.
  unfold solve_impl.
  destruct (solve_prologue_total sv) as [[st sv'|sv'] ->]; [eauto|].
  apply outer_loop_total. lia.
Qed.

Lemma solve_unfold (sv : SolverT) st (sv1 : SolverT) :
  solve_impl pc_ops kkt_ops verify_settings sv = Some (st, sv1) ->
  solve pc_ops kkt_ops verify_settings sv
  = Some (st, restore_box_dual (unscale_results pc_ops sv1)).
Proof. unfold solve. intros ->. reflexivity. Qed.

(** C1.  A call of [solve] that enters the outer loop returns, and its
    status is SOLVED exactly when the loop reaches, with [iter < max_iter],
    a pass at whose convergence test
    [primal_inf < feas_tol_abs + feas_tol_rel * primal_rel_inf],
    [dual_inf < feas_tol_abs + feas_tol_rel * dual_rel_inf] and
    [mu < dual_tol] hold, primal_inf being the largest of the unscaled
    infinity norms of ry_nr, rz_nr and the heads of rz_lb_nr and rz_ub_nr,
    and dual_inf the unscaled infinity norm of rx_nr. *)
Theorem solved_iff_convergence_test (sv sv0 : SolverT) :
  solve_prologue kkt_ops verify_settings sv = Some (Continue sv0) ->
  exists st sv',
    solve_impl pc_ops kkt_ops verify_settings sv = Some (st, sv')
    /\ solve pc_ops kkt_ops verify_settings sv
       = Some (st, restore_box_dual (unscale_results pc_ops sv'))
    /\ (st = PIQP_SOLVED <->
        exists svk, visits pc_ops kkt_ops sv0 svk
          /\ (iter (sv_info svk) < max_iter (m_settings svk))%Z
          /\ convergence_test pc_ops (begin_iteration pc_ops svk)).
Proof.
  intros Hp.
  assert (Hs : solve_impl pc_ops kkt_ops verify_settings sv
               = outer_loop pc_ops kkt_ops (outer_fuel sv0) sv0)
    by (unfold solve_impl; rewrite Hp; reflexivity).
  destruct (@outer_loop_total (outer_fuel sv0) sv0 (Nat.le_refl _)) as [[st sv'] Hl].
  rewrite Hl in Hs.
  exists st, sv'. split; [done|]. split; [by apply solve_unfold|].
  rewrite (outer_loop_solved_iff Hl).
  split; intros (svk & Hv & Hk & Hc); exists svk; split_and!; try done;
    by apply converged_begin_iteration.
Qed.

(** *** The infeasibility verdicts of a pass *)

(** C5 (amended).  A pass returns PRIMAL_INFEASIBLE exactly when its
    convergence test fails and the primal test holds, and DUAL_INFEASIBLE
    exactly when the convergence test and the primal test fail and the
    dual test holds.  The primal test is [no_dual_update > 5], the
    unscaled infinity norm of the dual proximal gaps above 1e10 and that
    of the regularised residuals ry, rz, rz_lb, rz_ub below feas_tol_abs;
    the dual test is [no_primal_update > 5], the unscaled infinity norm of
    [x - zeta] above 1e10 and that of rx below feas_tol_abs. *)
Theorem infeasibility_verdicts (sv : SolverT) :
  let sb := begin_iteration pc_ops sv in
  let su := update_residuals sb in
  ((exists sv', outer_iteration pc_ops kkt_ops sv = Return PIQP_PRIMAL_INFEASIBLE sv')
   <-> converged sb = false /\ primal_infeasible pc_ops su = true)
  /\ ((exists sv', outer_iteration pc_ops kkt_ops sv = Return PIQP_DUAL_INFEASIBLE sv')
      <-> converged sb = false /\ primal_infeasible pc_ops su = false
          /\ dual_infeasible pc_ops su = true)
  /\ primal_infeasible pc_ops su
     = ((5 <? no_dual_update (sv_info su))%Z
        && sc_gtb (dual_prox_inf_norm pc_ops su) (sc_of_Z (10 ^ 10))
        && (dual_inf_norm pc_ops su <? feas_tol_abs (m_settings su))%sc)
  /\ dual_infeasible pc_ops su
     = ((5 <? no_primal_update (sv_info su))%Z
        && sc_gtb (lpNorm_inf (unscale_primal pc_ops (m_preconditioner su)
                                 (vsub (x (m_result su)) (zeta (m_result su)))))
                  (sc_of_Z (10 ^ 10))
        && (lpNorm_inf (unscale_dual_res pc_ops (m_preconditioner su) (rx su))
            <? feas_tol_abs (m_settings su))%sc).
Proof.
  cbv zeta. rewrite outer_iteration_unfold. cbv zeta.
  forget (begin_iteration pc_ops sv) sb.
  forget (update_residuals sb) su.
  split; [|split; [|split; reflexivity]].
  all: unfold return_status.
  all: destruct (refactorize kkt_ops su) as [ok sf]; cbn [fst snd].
  all: generalize (upd_info (set_factor_retires 0%Z) sf); intros s0.
  all: generalize (predictor_corrector pc_ops kkt_ops s0) (newton_step pc_ops kkt_ops s0)
    (retry_iteration sf); intros s1 s2 s3.
  all: generalize (upd_info (set_status PIQP_SOLVED) sb)
    (upd_info (set_status PIQP_PRIMAL_INFEASIBLE) su)
    (upd_info (set_status PIQP_DUAL_INFEASIBLE) su)
    (upd_info (set_status PIQP_NUMERICS) sf); intros s4 s5 s6 s7.
  all: destruct (converged sb); [verdict_one|].
  all: destruct (primal_infeasible pc_ops su); [verdict_one|].
  all: destruct (dual_infeasible pc_ops su); [verdict_one|].
  all: destruct ok; cbn [negb];
    [ destruct (0 <? N_ineq (m_data s0))%nat; verdict_one
    | destruct (factor_retires (sv_info sf) <? max_factor_retires (m_settings sf))%Z;
      verdict_one ].
Qed.
End LoopTheory.
(** *** What a pass keeps, and the retry counter *)

Section RetryTheory.
Context {T : Type} `{Scalar T} {PC K : Type}.
Context (pc_ops : PreconditionerOps T PC) (kkt_ops : KKTOps T K).
Context (verify_settings : Settings T -> bool).
Local Abbreviation SolverT := (Solver T PC K).

Lemma nr_ext (pc : PC) (d : Data T) (r0 r1 : Result T) lbv ubv :
  iterate_of r1 = iterate_of r0 ->
  nr_rx d r1 = nr_rx d r0 /\ nr_ry d r1 = nr_ry d r0 /\ nr_rz d r1 = nr_rz d r0
  /\ nr_rz_lb d r1 lbv = nr_rz_lb d r0 lbv /\ nr_rz_ub d r1 ubv = nr_rz_ub d r0 ubv
  /\ (forall l u, nr_primal_rel_inf pc_ops pc d r1 l u = nr_primal_rel_inf pc_ops pc d r0 l u)
  /\ nr_dual_rel_inf pc_ops pc d r1 = nr_dual_rel_inf pc_ops pc d r0.
Proof.
  destruct r0, r1. unfold iterate_of. cbn.
  intros [= -> -> -> -> -> -> -> -> -> -> -> -> ->]. split_and!; reflexivity.
Qed.

Lemma residual_view_unr (a : SolverT) :
  residual_view (update_nr_residuals pc_ops a) =
  (nr_rx (m_data a) (m_result a), nr_ry (m_data a) (m_result a),
   nr_rz (m_data a) (m_result a),
   nr_rz_lb (m_data a) (m_result a) (rz_lb_nr a),
   nr_rz_ub (m_data a) (m_result a) (rz_ub_nr a),
   nr_primal_rel_inf pc_ops (m_preconditioner a) (m_data a) (m_result a)
     (nr_rz_lb (m_data a) (m_result a) (rz_lb_nr a))
     (nr_rz_ub (m_data a) (m_result a) (rz_ub_nr a)),
   nr_dual_rel_inf pc_ops (m_preconditioner a) (m_data a) (m_result a),
   mu (sv_info a)).
Proof.
  destruct (update_nr_residuals_spec pc_ops a) as (E1 & E2 & E3 & E4 & E5 & E6 & E7 & E8).
  unfold residual_view, sv_info. rewrite E1, E2, E3, E4, E5, E6, E7, E8. reflexivity.
Qed.

Lemma nr_inputs_eq {X1 X2 X3 X4 X5 X6 : Type}
    (a1 b1 : X1) (a2 b2 : X2) (a3 b3 : X3) (a4 b4 : X4) (a5 b5 : X5) (a6 b6 : X6) :
  (a1, a2, a3, a4, a5, a6) = (b1, b2, b3, b4, b5, b6) ->
  a1 = b1 /\ a2 = b2 /\ a3 = b3 /\ a4 = b4 /\ a5 = b5 /\ a6 = b6.
Proof. intros Heq. inversion Heq. done. Qed.

Lemma residual_view_unr_ext (a a' : SolverT) :
  nr_inputs a' = nr_inputs a ->
  residual_view (update_nr_residuals pc_ops a')
  = residual_view (update_nr_residuals pc_ops a).
Proof.
  unfold nr_inputs. intros (Hd & Hp & Hi & Hl & Hu & Hm)%nr_inputs_eq.
  rewrite !residual_view_unr, Hd, Hp, Hl, Hu, Hm.
  destruct (nr_ext (m_preconditioner a) (m_data a) (rz_lb_nr a) (rz_ub_nr a) Hi)
    as (-> & -> & -> & -> & -> & E6 & ->).
  rewrite E6. reflexivity.
Qed.

Lemma nr_inputs_unr (a : SolverT) :
  nr_inputs (update_nr_residuals pc_ops a) =
  (m_data a, m_preconditioner a, iterate_of (m_result a),
   nr_rz_lb (m_data a) (m_result a) (rz_lb_nr a),
   nr_rz_ub (m_data a) (m_result a) (rz_ub_nr a), mu (sv_info a)).
Proof.
  destruct (update_nr_residuals_spec pc_ops a) as (E1 & E2 & E3 & E4 & E5 & E6 & E7 & E8).
  unfold nr_inputs, sv_info. rewrite E4, E5, E8. reflexivity.
Qed.

(** Computing the residuals twice from the same iterate changes nothing. *)
Lemma residual_view_unr_again (a a' : SolverT) :
  nr_inputs a' = nr_inputs (update_nr_residuals pc_ops a) ->
  residual_view (update_nr_residuals pc_ops a')
  = residual_view (update_nr_residuals pc_ops a).
Proof.
  rewrite nr_inputs_unr. unfold nr_inputs. intros (Hd & Hp & Hi & Hl & Hu & Hm)%nr_inputs_eq.
  rewrite !residual_view_unr, Hd, Hp, Hl, Hu, Hm.
  destruct (nr_ext (m_preconditioner a) (m_data a) (rz_lb_nr a) (rz_ub_nr a) Hi)
    as (E1 & E2 & E3 & E4 & E5 & E6 & E7).
  rewrite E1, E2, E3, E6, E7.
  destruct (nr_ext (m_preconditioner a) (m_data a)
              (nr_rz_lb (m_data a) (m_result a) (rz_lb_nr a))
              (nr_rz_ub (m_data a) (m_result a) (rz_ub_nr a)) Hi)
    as (_ & _ & _ & E4' & E5' & _ & _).
  rewrite E4', E5'. unfold nr_rz_lb, nr_rz_ub. rewrite !write_loop_idempotent.
  reflexivity.
Qed.

Lemma keep_update_infeasibilities (sv : SolverT) :
  nr_inputs (update_infeasibilities pc_ops sv) = nr_inputs sv.
Proof. reflexivity. Qed.

Lemma keep_log_iteration (sv : SolverT) :
  nr_inputs (if verbose (m_settings sv) then log_iteration sv else sv) = nr_inputs sv.
Proof. destruct (verbose _); reflexivity. Qed.

Lemma keep_update_residuals (sv : SolverT) :
  nr_inputs (update_residuals sv) = nr_inputs sv
  /\ residual_view (update_residuals sv) = residual_view sv.
Proof. split; reflexivity. Qed.

Lemma keep_refactorize (sv : SolverT) :
  nr_inputs (refactorize kkt_ops sv).2 = nr_inputs sv
  /\ residual_view (refactorize kkt_ops sv).2 = residual_view sv
  /\ rho (sv_info (refactorize kkt_ops sv).2) = rho (sv_info sv)
  /\ delta (sv_info (refactorize kkt_ops sv).2) = delta (sv_info sv).
Proof.
  cbv beta delta [refactorize relax_reg_limit factorize]. cbv zeta.
  break_if; break_pair; split_and!; reflexivity.
Qed.

Lemma keep_retry_iteration (sv : SolverT) :
  nr_inputs (retry_iteration sv) = nr_inputs sv
  /\ residual_view (retry_iteration sv) = residual_view sv.
Proof. split; reflexivity. Qed.

(** The convergence test of a pass depends on the state at its entry
    only through what the recomputation of the residuals reads. *)
Lemma converged_begin_iteration_eq (sv : SolverT) :
  converged (begin_iteration pc_ops sv) =
  converged (update_infeasibilities pc_ops
               (if (iter (sv_info sv) =? 0)%Z then update_nr_residuals pc_ops sv else sv)).
Proof.
  cbv beta delta [begin_iteration]. cbv zeta.
  forget (if (iter (sv_info sv) =? 0)%Z then update_nr_residuals pc_ops sv else sv) s1.
  forget (update_infeasibilities pc_ops s1) s2.
  apply (view_log_iteration s2).
Qed.

Lemma converged_ext (a a' : SolverT) :
  residual_view a' = residual_view a -> frame_of a' = frame_of a ->
  converged (update_infeasibilities pc_ops a')
  = converged (update_infeasibilities pc_ops a).
Proof.
  intros Hv Hf. apply eq_true_iff_eq.
  rewrite !converged_update_infeasibilities. by apply convergence_test_ext.
Qed.

Lemma begin_iteration_views (sv : SolverT) :
  let s1 := if (iter (sv_info sv) =? 0)%Z then update_nr_residuals pc_ops sv else sv in
  nr_inputs (begin_iteration pc_ops sv) = nr_inputs s1
  /\ residual_view (begin_iteration pc_ops sv) = residual_view s1.
Proof.
  cbv beta delta [begin_iteration]. cbv zeta.
  forget (if (iter (sv_info sv) =? 0)%Z then update_nr_residuals pc_ops sv else sv) s1.
  destruct (view_update_infeasibilities pc_ops s1) as [V2 _].
  pose proof (keep_update_infeasibilities s1) as N2.
  forget (update_infeasibilities pc_ops s1) s2.
  destruct (view_log_iteration s2) as (V3 & _ & _). cbv zeta in V3.
  pose proof (keep_log_iteration s2) as N3.
  forget (if verbose (m_settings s2) then log_iteration s2 else s2) s3.
  split; congruence.
Qed.

(** A retried pass leaves the convergence test of the next pass as it was. *)
Lemma retry_keeps_test (sv : SolverT) :
  let su := update_residuals (begin_iteration pc_ops sv) in
  let sv' := retry_iteration (refactorize kkt_ops su).2 in
  converged (begin_iteration pc_ops sv') = converged (begin_iteration pc_ops sv).
Proof.
  cbv zeta. rewrite !converged_begin_iteration_eq.
  destruct (view_begin_iteration pc_ops sv) as [Fb Cb].
  apply counters_of_eq in Cb as [Ib _].
  destruct (begin_iteration_views sv) as [Nb Vb]. cbv zeta in Nb, Vb.
  forget (begin_iteration pc_ops sv) sb.
  destruct (view_update_residuals sb) as [Fu Cu]. apply counters_of_eq in Cu as [Iu _].
  destruct (keep_update_residuals sb) as [Nu Vu].
  forget (update_residuals sb) su.
  destruct (view_refactorize kkt_ops su) as (Ff & If & _).
  destruct (keep_refactorize su) as (Nf & Vf & _).
  forget ((refactorize kkt_ops su).2) sf.
  destruct (view_retry_iteration sf) as (Fr & Ir & _).
  destruct (keep_retry_iteration sf) as [Nr Vr].
  forget (retry_iteration sf) sr.
  assert (Hit : iter (sv_info sr) = iter (sv_info sv)) by lia.
  rewrite Hit.
  destruct (iter (sv_info sv) =? 0)%Z.
  - apply converged_ext.
    + apply residual_view_unr_again. congruence.
    + rewrite !(proj1 (view_update_nr_residuals pc_ops _)). congruence.
  - apply converged_ext; congruence.
Qed.

Lemma retires_inv_step (sv sv' : SolverT) :
  (iter (sv_info sv) < max_iter (m_settings sv))%Z ->
  outer_iteration pc_ops kkt_ops sv = Continue sv' ->
  retires_inv pc_ops sv'.
Proof.
  intros Hlt Ho.
  destruct (outer_iteration_continue Ho) as (Hf & Hc & [[_ Hz]|[(Hi & _ & _) ->]]);
    [by left|right].
  split.
  - assert (Hset : m_settings
      (retry_iteration (refactorize kkt_ops
         (update_residuals (begin_iteration pc_ops sv))).2) = m_settings sv)
      by (unfold frame_of in Hf; congruence).
    rewrite Hset. lia.
  - rewrite (retry_keeps_test sv). exact Hc.
Qed.

Lemma view_initial_slacks (sv : SolverT) :
  frame_of (initial_slacks sv) = frame_of sv
  /\ counters_of (initial_slacks sv) = counters_of sv.
Proof.
  cbv beta delta [initial_slacks]. cbv zeta.
  destruct (0 <? N_ineq (m_data sv))%nat; [|split; reflexivity].
  destruct (slack_norm sv <=? sc_dec 1 10000)%sc; split; reflexivity.
Qed.

Lemma solve_prologue_continue (sv sv0 : SolverT) :
  solve_prologue kkt_ops verify_settings sv = Some (Continue sv0) ->
  factor_retires (sv_info sv0) = 0%Z.
Proof.
  cbv beta delta [solve_prologue]. cbv zeta.
  destruct (negb (m_setup_done sv)); [discriminate|].
  destruct (negb (verify_settings _)); [discriminate|].
  destruct (initial_factorize _ _ _) as [[st s1|s1]|]; [discriminate| |discriminate].
  intros [= <-].
  assert (E2 : counters_of (initial_solve kkt_ops (upd_info (set_factor_retires 0%Z) s1))
               = (iter (sv_info s1), 0%Z)) by reflexivity.
  forget (initial_solve kkt_ops (upd_info (set_factor_retires 0%Z) s1)) s2.
  destruct (view_initial_slacks s2) as [_ C3].
  forget (initial_slacks s2) s3.
  assert (C4 : counters_of (set_prox_centres s3) = counters_of s3) by reflexivity.
  rewrite C3, E2 in C4. unfold counters_of in C4. congruence.
Qed.

Lemma outer_iteration_return_retires (sv : SolverT) st (sv' : SolverT) :
  outer_iteration pc_ops kkt_ops sv = Return st sv' ->
  st <> PIQP_MAX_ITER_REACHED
  /\ (st = PIQP_SOLVED -> factor_retires (sv_info sv') = factor_retires (sv_info sv)).
Proof.
  rewrite outer_iteration_unfold. cbv zeta. unfold return_status.
  destruct (view_begin_iteration pc_ops sv) as [_ Cb].
  apply counters_of_eq in Cb as [_ Rb].
  forget (begin_iteration pc_ops sv) sb.
  destruct (converged sb); [intros [= <- <-]; split; [done|]; intros _; rewrite <- Rb; reflexivity|].
  destruct (primal_infeasible _ _); [intros [= <- _]; done|].
  destruct (dual_infeasible _ _); [intros [= <- _]; done|].
  destruct (negb _).
  - break_if; [discriminate|]. intros [= <- _]; done.
  - break_if; discriminate.
Qed.

Lemma outer_loop_retires fuel : forall (sv : SolverT) st sv',
  retires_inv pc_ops sv ->
  outer_loop pc_ops kkt_ops fuel sv = Some (st, sv') ->
  st = PIQP_SOLVED \/ st = PIQP_MAX_ITER_REACHED ->
  factor_retires (sv_info sv') = 0%Z.
Proof.
  induction fuel as [|fuel IH]; intros sv st sv' Hinv; [discriminate|].
  cbn [outer_loop].
  destruct (iter (sv_info sv) <? max_iter (m_settings sv))%Z eqn:Hlt.
  - apply Z.ltb_lt in Hlt.
    destruct (outer_iteration pc_ops kkt_ops sv) as [st0 sv0|sv1] eqn:Ho.
    + intros [= -> ->] Hst.
      destruct (outer_iteration_return_retires Ho) as [Hne Hs].
      destruct Hst as [-> | ->]; [|done].
      rewrite Hs by done.
      destruct Hinv as [Hz|[_ Hc]]; [done|].
      apply outer_iteration_return in Ho. destruct Ho as [Ho _].
      rewrite Ho in Hc by done. discriminate.
    + intros Hl. eapply IH; [|exact Hl]. eapply retires_inv_step; eauto.
  - apply Z.ltb_ge in Hlt. intros [= <- <-] _.
    destruct Hinv as [Hz|[Hi _]]; [exact Hz | lia].
Qed.

(** *** The retries of the factorisation *)

Lemma info_begin_iteration (sv : SolverT) :
  rho (sv_info (begin_iteration pc_ops sv)) = rho (sv_info sv)
  /\ delta (sv_info (begin_iteration pc_ops sv)) = delta (sv_info sv).
Proof.
  cbv beta delta [begin_iteration]. cbv zeta. do 2 break_if; split; reflexivity.
Qed.

Lemma info_update_residuals (sv : SolverT) :
  rho (sv_info (update_residuals sv)) = rho (sv_info sv)
  /\ delta (sv_info (update_residuals sv)) = delta (sv_info sv).
Proof. split; reflexivity. Qed.

Lemma info_inflate_regularisation (sv : SolverT) :
  delta (sv_info (inflate_regularisation sv)) = (delta (sv_info sv) * sc_of_Z 100)%sc
  /\ rho (sv_info (inflate_regularisation sv)) = (rho (sv_info sv) * sc_of_Z 100)%sc
  /\ factor_retires (sv_info (inflate_regularisation sv))
     = (factor_retires (sv_info sv) + 1)%Z
  /\ iter (sv_info (inflate_regularisation sv)) = iter (sv_info sv)
  /\ reg_limit (sv_info (inflate_regularisation sv))
     = sc_min (sc_of_Z 10 * reg_limit (sv_info sv))%sc (feas_tol_abs (m_settings sv)).
Proof. split_and!; reflexivity. Qed.

Lemma info_retry_iteration (sv : SolverT) :
  delta (sv_info (retry_iteration sv)) = (delta (sv_info sv) * sc_of_Z 100)%sc
  /\ rho (sv_info (retry_iteration sv)) = (rho (sv_info sv) * sc_of_Z 100)%sc
  /\ factor_retires (sv_info (retry_iteration sv))
     = (factor_retires (sv_info sv) + 1)%Z
  /\ iter (sv_info (retry_iteration sv)) = (iter (sv_info sv) - 1)%Z
  /\ reg_limit (sv_info (retry_iteration sv))
     = sc_min (sc_of_Z 10 * reg_limit (sv_info sv))%sc (feas_tol_abs (m_settings sv)).
Proof. split_and!; reflexivity. Qed.

(** A failed factorisation in the loop before the initial solve. *)
Lemma initial_factorize_failure fuel (sv : SolverT) :
  (factorize kkt_ops sv).1 = false ->
  initial_factorize kkt_ops (S fuel) sv =
    if (factor_retires (sv_info sv) <? max_factor_retires (m_settings sv))%Z
    then initial_factorize kkt_ops fuel (inflate_regularisation (factorize kkt_ops sv).2)
    else Some (Return PIQP_NUMERICS
                 (upd_info (set_status PIQP_NUMERICS) (factorize kkt_ops sv).2)).
Proof.
  intros Hf. cbn [initial_factorize].
  destruct (view_factorize kkt_ops sv) as [Ff If].
  assert (Hsf : m_settings (factorize kkt_ops sv).2 = m_settings sv)
    by (unfold frame_of in Ff; congruence).
  destruct (factorize kkt_ops sv) as [ok sf]. cbn [fst snd] in *. subst ok.
  rewrite If, Hsf. reflexivity.
Qed.

Lemma inflate_after_factorize (sv : SolverT) :
  let si := inflate_regularisation (factorize kkt_ops sv).2 in
  delta (sv_info si) = (delta (sv_info sv) * sc_of_Z 100)%sc
  /\ rho (sv_info si) = (rho (sv_info sv) * sc_of_Z 100)%sc
  /\ factor_retires (sv_info si) = (factor_retires (sv_info sv) + 1)%Z
  /\ iter (sv_info si) = iter (sv_info sv)
  /\ reg_limit (sv_info si)
     = sc_min (sc_of_Z 10 * reg_limit (sv_info sv))%sc (feas_tol_abs (m_settings sv)).
Proof.
  cbv zeta.
  destruct (view_factorize kkt_ops sv) as [Ff If].
  assert (Hsf : m_settings (factorize kkt_ops sv).2 = m_settings sv)
    by (unfold frame_of in Ff; congruence).
  forget ((factorize kkt_ops sv).2) sf.
  destruct (info_inflate_regularisation sf) as (-> & -> & -> & -> & ->).
  rewrite If, Hsf. done.
Qed.

Lemma initial_factorize_return fuel : forall (sv : SolverT) st sv',
  initial_factorize kkt_ops fuel sv = Some (Return st sv') -> st = PIQP_NUMERICS.
Proof.
  induction fuel as [|fuel IH]; intros sv st sv'; [discriminate|].
  cbn [initial_factorize].
  destruct (factorize kkt_ops sv) as [[|] sf]; [discriminate|].
  break_if; [apply IH|]. intros [= <- _]. reflexivity.
Qed.

(** The state at the factorisation of a pass. *)
Lemma pass_to_refactorize (sv : SolverT) :
  let sf := (refactorize kkt_ops (update_residuals (begin_iteration pc_ops sv))).2 in
  m_settings sf = m_settings sv
  /\ delta (sv_info sf) = delta (sv_info sv)
  /\ rho (sv_info sf) = rho (sv_info sv)
  /\ iter (sv_info sf) = (iter (sv_info sv) + 1)%Z
  /\ factor_retires (sv_info sf) = factor_retires (sv_info sv).
Proof.
  cbv zeta.
  destruct (view_begin_iteration pc_ops sv) as [Fb Cb].
  apply counters_of_eq in Cb as [Ib Rb].
  destruct (info_begin_iteration sv) as [Eb1 Eb2].
  forget (begin_iteration pc_ops sv) sb.
  destruct (view_update_residuals sb) as [Fu Cu].
  apply counters_of_eq in Cu as [Iu Ru].
  destruct (info_update_residuals sb) as [Eu1 Eu2].
  forget (update_residuals sb) su.
  destruct (view_refactorize kkt_ops su) as (Fr & Ir & Rr).
  destruct (keep_refactorize su) as (_ & _ & Er & Ed).
  forget ((refactorize kkt_ops su).2) sf.
  assert (Hset : m_settings sf = m_settings sv)
    by (unfold frame_of in *; congruence).
  split_and!; congruence.
Qed.

(** A failed factorisation in the outer loop. *)
Lemma outer_iteration_failure (sv : SolverT) :
  let su := update_residuals (begin_iteration pc_ops sv) in
  let sf := (refactorize kkt_ops su).2 in
  converged (begin_iteration pc_ops sv) = false ->
  primal_infeasible pc_ops su = false -> dual_infeasible pc_ops su = false ->
  (refactorize kkt_ops su).1 = false ->
  outer_iteration pc_ops kkt_ops sv =
    if (factor_retires (sv_info sv) <? max_factor_retires (m_settings sv))%Z
    then Continue (retry_iteration sf)
    else Return PIQP_NUMERICS (upd_info (set_status PIQP_NUMERICS) sf).
Proof.
  cbv zeta. intros Hc Hp Hd Hf.
  destruct (pass_to_refactorize sv) as (Hs & _ & _ & _ & Hr). cbv zeta in Hs, Hr.
  rewrite outer_iteration_unfold. cbv zeta.
  rewrite Hc, Hp, Hd, Hf, Hs, Hr. reflexivity.
Qed.

Lemma retry_after_refactorize (sv : SolverT) :
  let sf := (refactorize kkt_ops (update_residuals (begin_iteration pc_ops sv))).2 in
  let sr := retry_iteration sf in
  delta (sv_info sr) = (delta (sv_info sv) * sc_of_Z 100)%sc
  /\ rho (sv_info sr) = (rho (sv_info sv) * sc_of_Z 100)%sc
  /\ factor_retires (sv_info sr) = (factor_retires (sv_info sv) + 1)%Z
  /\ iter (sv_info sr) = iter (sv_info sv)
  /\ reg_limit (sv_info sr)
     = sc_min (sc_of_Z 10 * reg_limit (sv_info sf))%sc (feas_tol_abs (m_settings sv)).
Proof.
  cbv zeta.
  destruct (pass_to_refactorize sv) as (Hs & Ed & Er & Hi & Hr).
  cbv zeta in Hs, Ed, Er, Hi, Hr.
  forget ((refactorize kkt_ops (update_residuals (begin_iteration pc_ops sv))).2) sf.
  destruct (info_retry_iteration sf) as (-> & -> & -> & -> & ->).
  rewrite Ed, Er, Hr, Hi, Hs. split_and!; try done. lia.
Qed.

(** A factorisation that succeeds in the outer loop. *)
Lemma outer_iteration_success (sv sv' : SolverT) :
  (refactorize kkt_ops (update_residuals (begin_iteration pc_ops sv))).1 = true ->
  outer_iteration pc_ops kkt_ops sv = Continue sv' ->
  factor_retires (sv_info sv') = 0%Z.
Proof.
  intros Hok. rewrite outer_iteration_unfold. cbv zeta. rewrite Hok. cbn [negb].
  forget (begin_iteration pc_ops sv) sb.
  destruct (converged sb); [discriminate|].
  forget (update_residuals sb) su.
  destruct (primal_infeasible pc_ops su); [discriminate|].
  destruct (dual_infeasible pc_ops su); [discriminate|].
  forget ((refactorize kkt_ops su).2) sf.
  destruct (view_reset_retires sf) as (_ & _ & R0).
  forget (upd_info (set_factor_retires 0%Z) sf) s0.
  break_if; intros [= <-].
  - destruct (counters_of_eq (proj2 (view_predictor_corrector pc_ops kkt_ops s0))) as [_ ->].
    exact R0.
  - destruct (counters_of_eq (proj2 (view_newton_step pc_ops kkt_ops s0))) as [_ ->].
    exact R0.
Qed.

Lemma solve_impl_retires (sv : SolverT) st (sv' : SolverT) :
  solve_impl pc_ops kkt_ops verify_settings sv = Some (st, sv') ->
  st = PIQP_SOLVED \/ st = PIQP_MAX_ITER_REACHED ->
  factor_retires (sv_info sv') = 0%Z.
Proof.
  unfold solve_impl.
  destruct (solve_prologue kkt_ops verify_settings sv) as [[st0 s0|s0]|] eqn:Hp;
    [|intros Hl; eapply outer_loop_retires; [|exact Hl]; left;
      by eapply solve_prologue_continue|discriminate].
  intros [= -> ->] Hst. revert Hp.
  cbv beta delta [solve_prologue return_status]. cbv zeta.
  destruct (negb (m_setup_done sv)); [intros [= <- _]; destruct Hst; discriminate|].
  destruct (negb (verify_settings _)); [intros [= <- _]; destruct Hst; discriminate|].
  destruct (initial_factorize _ _ _) as [[st1 s1|s1]|] eqn:Hi; [|discriminate..].
  apply initial_factorize_return in Hi. intros [= <- _]. subst st1.
  destruct Hst; discriminate.
Qed.

(** C2 (amended).  A factorisation that fails is retried while
    [factor_retires < max_factor_retires]: delta and rho are multiplied by
    100, [factor_retires] is incremented, [reg_limit] becomes
    [min (10 * reg_limit) feas_tol_abs], and in the outer loop [iter] is as
    it was at the top of the pass (the increment of the pass is taken back);
    otherwise the status is NUMERICS.  A factorisation that succeeds in the
    outer loop leaves [factor_retires = 0], the outer loop is entered with
    [factor_retires = 0], and a solve that returns SOLVED or
    MAX_ITER_REACHED reports [factor_retires = 0]. *)
Theorem factor_retry_semantics (sv : SolverT) :
  let R := max_factor_retires (m_settings sv) in
  let tol := feas_tol_abs (m_settings sv) in
  (* the loop before the initial solve *)
  (forall fuel, (factorize kkt_ops sv).1 = false ->
     let sf := (factorize kkt_ops sv).2 in
     initial_factorize kkt_ops (S fuel) sv =
       if (factor_retires (sv_info sv) <? R)%Z
       then initial_factorize kkt_ops fuel (inflate_regularisation sf)
       else Some (Return PIQP_NUMERICS (upd_info (set_status PIQP_NUMERICS) sf)))
  /\ (let si := inflate_regularisation (factorize kkt_ops sv).2 in
      delta (sv_info si) = (delta (sv_info sv) * sc_of_Z 100)%sc
      /\ rho (sv_info si) = (rho (sv_info sv) * sc_of_Z 100)%sc
      /\ factor_retires (sv_info si) = (factor_retires (sv_info sv) + 1)%Z
      /\ iter (sv_info si) = iter (sv_info sv)
      /\ reg_limit (sv_info si) = sc_min (sc_of_Z 10 * reg_limit (sv_info sv))%sc tol)
  (* the outer loop *)
  /\ (let su := update_residuals (begin_iteration pc_ops sv) in
      let sf := (refactorize kkt_ops su).2 in
      let sr := retry_iteration sf in
      (converged (begin_iteration pc_ops sv) = false ->
       primal_infeasible pc_ops su = false -> dual_infeasible pc_ops su = false ->
       (refactorize kkt_ops su).1 = false ->
       outer_iteration pc_ops kkt_ops sv =
         if (factor_retires (sv_info sv) <? R)%Z
         then Continue sr
         else Return PIQP_NUMERICS (upd_info (set_status PIQP_NUMERICS) sf))
      /\ (delta (sv_info sr) = (delta (sv_info sv) * sc_of_Z 100)%sc
          /\ rho (sv_info sr) = (rho (sv_info sv) * sc_of_Z 100)%sc
          /\ factor_retires (sv_info sr) = (factor_retires (sv_info sv) + 1)%Z
          /\ iter (sv_info sr) = iter (sv_info sv)
          /\ reg_limit (sv_info sr) = sc_min (sc_of_Z 10 * reg_limit (sv_info sf))%sc tol)
      /\ (forall sv', (refactorize kkt_ops su).1 = true ->
            outer_iteration pc_ops kkt_ops sv = Continue sv' ->
            factor_retires (sv_info sv') = 0%Z))
  (* the counter at the returns *)
  /\ (forall sv0, solve_prologue kkt_ops verify_settings sv = Some (Continue sv0) ->
        factor_retires (sv_info sv0) = 0%Z)
  /\ (forall st sv', solve_impl pc_ops kkt_ops verify_settings sv = Some (st, sv') ->
        st = PIQP_SOLVED \/ st = PIQP_MAX_ITER_REACHED ->
        factor_retires (sv_info sv') = 0%Z).
Proof.
  cbv zeta. split; [|split; [|split; [|split]]].
  - intros fuel. apply initial_factorize_failure.
  - apply inflate_after_factorize.
  - split; [|split].
    + apply outer_iteration_failure.
    + apply retry_after_refactorize.
    + intros sv'. apply outer_iteration_success.
  - apply solve_prologue_continue.
  - apply solve_impl_retires.
Qed.
End RetryTheory.

(** ** [solve]: the results are unscaled and the box duals restored *)

Section SolveTheory.
Context {T : Type} `{Scalar T} {PC K : Type}.
Context (pc_ops : PreconditionerOps T PC) (kkt_ops : KKTOps T K).
Context (verify_settings : Settings T -> bool).
Local Abbreviation SolverT := (Solver T PC K).

(** The six vectors of the box constraints after [restore_box_dual]: the
    tail is filled, then the swaps run from the last active bound down to
    the first. *)
Lemma restore_box_dual_result_fields (d : Data T) (r0 : Result T) :
  let r' := restore_box_dual_result d r0 in
  z_lb r' = restore_vec (x_lb_idx d) (n_lb d) (fill_tail (n d - n_lb d) sc_zero (z_lb r0))
  /\ s_lb r' = restore_vec (x_lb_idx d) (n_lb d)
                 (fill_tail (n d - n_lb d) sc_infinity (s_lb r0))
  /\ nu_lb r' = restore_vec (x_lb_idx d) (n_lb d)
                  (fill_tail (n d - n_lb d) sc_zero (nu_lb r0))
  /\ z_ub r' = restore_vec (x_ub_idx d) (n_ub d) (fill_tail (n d - n_ub d) sc_zero (z_ub r0))
  /\ s_ub r' = restore_vec (x_ub_idx d) (n_ub d)
                 (fill_tail (n d - n_ub d) sc_infinity (s_ub r0))
  /\ nu_ub r' = restore_vec (x_ub_idx d) (n_ub d)
                  (fill_tail (n d - n_ub d) sc_zero (nu_ub r0)).
Proof.
  cbv zeta. unfold restore_box_dual_result. cbv zeta.
  match goal with |- context [restore_ub_loop _ _ ?r] =>
    destruct (restore_ub_loop_fields (x_ub_idx d) (n_ub d) r) as (-> & -> & -> & -> & -> & ->) end.
  match goal with |- context [restore_lb_loop _ _ ?r] =>
    destruct (restore_lb_loop_fields (x_lb_idx d) (n_lb d) r) as (-> & -> & -> & -> & -> & ->) end.
  split_and!; reflexivity.
Qed.

Lemma restore_after_unscale (sv1 : SolverT) :
  m_result (restore_box_dual (unscale_results pc_ops sv1))
  = restore_box_dual_result (m_data sv1) (m_result (unscale_results pc_ops sv1)).
Proof. reflexivity. Qed.

(** C9.  When [solve] returns, each of the six box vectors of the result
    is the compressed vector that [unscale_results] left, with its tail
    filled (0 for z_lb, nu_lb, z_ub, nu_ub, infinity for s_lb, s_ub) and
    then swapped with the index map from the last active bound down to the
    first; the i-th compressed value sits at the dense position
    [x_lb_idx(i)] (resp. [x_ub_idx(i)]) and every other position holds the
    fill value. *)
Theorem solve_restores_box_duals (sv : SolverT) st (sv1 : SolverT) :
  solve_impl pc_ops kkt_ops verify_settings sv = Some (st, sv1) ->
  let d := m_data sv1 in
  let r1 := m_result (unscale_results pc_ops sv1) in
  box_index_ok (n d) (n_lb d) (x_lb_idx d) = true ->
  box_index_ok (n d) (n_ub d) (x_ub_idx d) = true ->
  length (z_lb r1) = n d -> length (s_lb r1) = n d -> length (nu_lb r1) = n d ->
  length (z_ub r1) = n d -> length (s_ub r1) = n d -> length (nu_ub r1) = n d ->
  exists sv' : SolverT,
    solve pc_ops kkt_ops verify_settings sv = Some (st, sv')
    /\ (let r' := m_result sv' in
        z_lb r' = restore_vec (x_lb_idx d) (n_lb d)
                    (fill_tail (n d - n_lb d) sc_zero (z_lb r1))
        /\ s_lb r' = restore_vec (x_lb_idx d) (n_lb d)
                       (fill_tail (n d - n_lb d) sc_infinity (s_lb r1))
        /\ nu_lb r' = restore_vec (x_lb_idx d) (n_lb d)
                        (fill_tail (n d - n_lb d) sc_zero (nu_lb r1))
        /\ z_ub r' = restore_vec (x_ub_idx d) (n_ub d)
                       (fill_tail (n d - n_ub d) sc_zero (z_ub r1))
        /\ s_ub r' = restore_vec (x_ub_idx d) (n_ub d)
                       (fill_tail (n d - n_ub d) sc_infinity (s_ub r1))
        /\ nu_ub r' = restore_vec (x_ub_idx d) (n_ub d)
                        (fill_tail (n d - n_ub d) sc_zero (nu_ub r1)))
    /\ (let r' := m_result sv' in
        dense_layout (n d) (n_lb d) (x_lb_idx d) sc_zero (z_lb r1) (z_lb r')
        /\ dense_layout (n d) (n_lb d) (x_lb_idx d) sc_infinity (s_lb r1) (s_lb r')
        /\ dense_layout (n d) (n_lb d) (x_lb_idx d) sc_zero (nu_lb r1) (nu_lb r')
        /\ dense_layout (n d) (n_ub d) (x_ub_idx d) sc_zero (z_ub r1) (z_ub r')
        /\ dense_layout (n d) (n_ub d) (x_ub_idx d) sc_infinity (s_ub r1) (s_ub r')
        /\ dense_layout (n d) (n_ub d) (x_ub_idx d) sc_zero (nu_ub r1) (nu_ub r')).
Proof.
  intros Hs. cbv zeta. intros Hlb Hub L1 L2 L3 L4 L5 L6.
  exists (restore_box_dual (unscale_results pc_ops sv1)).
  split; [exact (solve_unfold Hs)|].
  rewrite restore_after_unscale.
  forget (m_result (unscale_results pc_ops sv1)) r1.
  split.
  - apply restore_box_dual_result_fields.
  - apply restore_box_dual_result_layout; assumption.
Qed.

(** Every call of [solve] ends: with the result of [solve_impl], unscaled
    and with the box duals restored. *)
Lemma solve_total (sv : SolverT) :
  exists st (sv1 : SolverT),
    solve_impl pc_ops kkt_ops verify_settings sv = Some (st, sv1)
    /\ solve pc_ops kkt_ops verify_settings sv
       = Some (st, restore_box_dual (unscale_results pc_ops sv1)).
Proof.
  destruct (solve_impl_total pc_ops kkt_ops verify_settings sv) as [[st sv1] Hs].
  exists st, sv1. split; [exact Hs | exact (solve_unfold Hs)].
Qed.

Lemma solve_impl_not_setup (sv : SolverT) :
  m_setup_done sv = false ->
  solve_impl pc_ops kkt_ops verify_settings sv
  = Some (PIQP_UNSOLVED, upd_info (set_status PIQP_UNSOLVED) sv).
Proof.
  intros Hd. unfold solve_impl. cbv beta delta [solve_prologue]. cbv zeta.
  rewrite Hd. reflexivity.
Qed.

Lemma solve_impl_invalid_settings (sv : SolverT) :
  m_setup_done sv = true -> verify_settings (m_settings sv) = false ->
  solve_impl pc_ops kkt_ops verify_settings sv
  = Some (PIQP_INVALID_SETTINGS, upd_info (set_status PIQP_INVALID_SETTINGS) sv).
Proof.
  intros Hd Hv. unfold solve_impl. cbv beta delta [solve_prologue]. cbv zeta.
  rewrite Hd, Hv. reflexivity.
Qed.

End SolveTheory.

(** ** What the blocks of a pass keep *)

Section PassViews.
Context {T : Type} `{Scalar T} {PC K : Type}.
Context (pc_ops : PreconditionerOps T PC) (kkt_ops : KKTOps T K).
Local Abbreviation SolverT := (Solver T PC K).

Lemma slack_view_eq (r0 r1 : Result T) :
  slack_view r1 = slack_view r0 ->
  s r1 = s r0 /\ s_lb r1 = s_lb r0 /\ s_ub r1 = s_ub r0
  /\ z r1 = z r0 /\ z_lb r1 = z_lb r0 /\ z_ub r1 = z_ub r0.
Proof. unfold slack_view. intros [= -> -> -> -> -> ->]. done. Qed.

Lemma reg_view_eq (a a' : SolverT) :
  reg_view a' = reg_view a ->
  rho (sv_info a') = rho (sv_info a) /\ delta (sv_info a') = delta (sv_info a)
  /\ reg_limit (sv_info a') = reg_limit (sv_info a).
Proof. unfold reg_view. intros [= -> -> ->]. done. Qed.

Lemma keep_predictor (sv : SolverT) :
  reg_view (predictor kkt_ops sv) = reg_view sv
  /\ mu (sv_info (predictor kkt_ops sv)) = mu (sv_info sv)
  /\ slack_view (m_result (predictor kkt_ops sv)) = slack_view (m_result sv).
Proof. cbv beta delta [predictor]. cbv zeta. break_pair. split_and!; reflexivity. Qed.

Lemma keep_corrector (sv : SolverT) :
  reg_view (corrector kkt_ops sv) = reg_view sv
  /\ mu (sv_info (corrector kkt_ops sv)) = mu (sv_info sv)
  /\ slack_view (m_result (corrector kkt_ops sv)) = slack_view (m_result sv).
Proof. cbv beta delta [corrector]. cbv zeta. break_pair. split_and!; reflexivity. Qed.

(** The step lengths that the corrector leaves. *)
Lemma corrector_steps (sv : SolverT) :
  let sc := corrector kkt_ops sv in
  primal_step (sv_info sc) = ((step_to_boundary sc).1 * tau (m_settings sv))%sc
  /\ dual_step (sv_info sc) = ((step_to_boundary sc).2 * tau (m_settings sv))%sc.
Proof.
  cbv beta delta [corrector]. cbv zeta.
  match goal with |- context [step_to_boundary (solve_direction ?k ?a)] =>
    assert (E : m_settings (solve_direction k a) = m_settings sv) by reflexivity;
    forget (solve_direction k a) sd end.
  assert (E2 : forall a b : T,
    step_to_boundary (upd_info (set_dual_step b) (upd_info (set_primal_step a) sd))
    = step_to_boundary sd) by reflexivity.
  match goal with |- context [let '(_, _) := ?e in _] =>
    destruct e as [a_s a_z] eqn:E3 end.
  rewrite E2, <- E. split; reflexivity.
Qed.

Lemma update_iterate_fields (sv : SolverT) :
  let d := m_data sv in
  let r0 := m_result sv in
  let r1 := m_result (update_iterate sv) in
  let ps := primal_step (sv_info sv) in
  let dl := dual_step (sv_info sv) in
  s r1 = vadd (s r0) (vscale ps (ds sv))
  /\ s_lb r1 = upd_head (n_lb d) (fun v => vadd v (vscale ps (vhead (n_lb d) (ds_lb sv))))
                 (s_lb r0)
  /\ s_ub r1 = upd_head (n_ub d) (fun v => vadd v (vscale ps (vhead (n_ub d) (ds_ub sv))))
                 (s_ub r0)
  /\ z r1 = vadd (z r0) (vscale dl (dz sv))
  /\ z_lb r1 = upd_head (n_lb d) (fun v => vadd v (vscale dl (vhead (n_lb d) (dz_lb sv))))
                 (z_lb r0)
  /\ z_ub r1 = upd_head (n_ub d) (fun v => vadd v (vscale dl (vhead (n_ub d) (dz_ub sv))))
                 (z_ub r0)
  /\ reg_view (update_iterate sv) = reg_view sv
  /\ mu (sv_info (update_iterate sv)) = mu (sv_info sv).
Proof. split_and!; reflexivity. Qed.

Lemma keep_set_mu v (sv : SolverT) :
  reg_view (upd_info (set_mu v) sv) = reg_view sv
  /\ slack_view (m_result (upd_info (set_mu v) sv)) = slack_view (m_result sv).
Proof. split; reflexivity. Qed.

Lemma keep_update_nr_residuals (sv : SolverT) :
  reg_view (update_nr_residuals pc_ops sv) = reg_view sv
  /\ slack_view (m_result (update_nr_residuals pc_ops sv)) = slack_view (m_result sv).
Proof. split; reflexivity. Qed.

(** The update of rho: one of the two factors, floored. *)
Lemma update_rho_spec good bad (sv : SolverT) :
  let sv' := update_rho pc_ops good bad sv in
  (rho (sv_info sv') = sc_max (reg_limit (sv_info sv)) (good * rho (sv_info sv))%sc
   \/ rho (sv_info sv') = sc_max (reg_limit (sv_info sv)) (bad * rho (sv_info sv))%sc)
  /\ delta (sv_info sv') = delta (sv_info sv)
  /\ reg_limit (sv_info sv') = reg_limit (sv_info sv)
  /\ slack_view (m_result sv') = slack_view (m_result sv).
Proof.
  cbv beta delta [update_rho]. cbv zeta.
  break_if; (split_and!; [|reflexivity..]); [left|right]; reflexivity.
Qed.

Lemma update_delta_spec good bad (sv : SolverT) :
  let sv' := update_delta pc_ops good bad sv in
  (delta (sv_info sv') = sc_max (reg_limit (sv_info sv)) (good * delta (sv_info sv))%sc
   \/ delta (sv_info sv') = sc_max (reg_limit (sv_info sv)) (bad * delta (sv_info sv))%sc)
  /\ rho (sv_info sv') = rho (sv_info sv)
  /\ reg_limit (sv_info sv') = reg_limit (sv_info sv)
  /\ slack_view (m_result sv') = slack_view (m_result sv).
Proof.
  cbv beta delta [update_delta]. cbv zeta.
  break_if; (split_and!; [|reflexivity..]); [left|right]; reflexivity.
Qed.

Lemma update_delta_eq_spec good bad (sv : SolverT) :
  let sv' := update_delta_eq pc_ops good bad sv in
  (delta (sv_info sv') = sc_max (reg_limit (sv_info sv)) (good * delta (sv_info sv))%sc
   \/ delta (sv_info sv') = sc_max (reg_limit (sv_info sv)) (bad * delta (sv_info sv))%sc)
  /\ rho (sv_info sv') = rho (sv_info sv)
  /\ reg_limit (sv_info sv') = reg_limit (sv_info sv).
Proof.
  cbv beta delta [update_delta_eq]. cbv zeta.
  break_if; (split_and!; [|reflexivity..]); [left|right]; reflexivity.
Qed.

End PassViews.

(** ** The initial iterate *)

Section InitialIterate.
Context {T : Type} `{Scalar T} {PC K : Type}.
Context (pc_ops : PreconditionerOps T PC) (kkt_ops : KKTOps T K).
Context (verify_settings : Settings T -> bool).
Local Abbreviation SolverT := (Solver T PC K).

Lemma setup_impl_init_state P A G c' b' h' lb ub (sv : SolverT) :
  let sv' := setup_impl pc_ops kkt_ops P A G c' b' h' lb ub sv in
  m_kkt_init_state sv' = true /\ m_setup_done sv' = true.
Proof.
  cbv beta delta [setup_impl]. cbv zeta. break_pair. split; reflexivity.
Qed.

Lemma view_reset_info (sv : SolverT) :
  m_kkt_init_state (reset_info sv) = m_kkt_init_state sv
  /\ m_data (reset_info sv) = m_data sv
  /\ m_kkt (reset_info sv) = m_kkt sv
  /\ m_settings (reset_info sv) = m_settings sv
  /\ iterate_of (m_result (reset_info sv)) = iterate_of (m_result sv).
Proof. split_and!; reflexivity. Qed.

(** The block under [if (!m_kkt_init_state)]: the regularisation is set
    back, the active parts become 1, and these are staged in the KKT
    operator. *)
Lemma reset_scalings_spec (sv : SolverT) :
  let d := m_data sv in
  let r0 := m_result sv in
  let r1 := m_result (reset_scalings kkt_ops sv) in
  let one := setConstant sc_one in
  rho (info r1) = rho_init (m_settings sv)
  /\ delta (info r1) = delta_init (m_settings sv)
  /\ s r1 = one (s r0)
  /\ s_lb r1 = upd_head (n_lb d) one (s_lb r0)
  /\ s_ub r1 = upd_head (n_ub d) one (s_ub r0)
  /\ z r1 = one (z r0)
  /\ z_lb r1 = upd_head (n_lb d) one (z_lb r0)
  /\ z_ub r1 = upd_head (n_ub d) one (z_ub r0)
  /\ m_kkt (reset_scalings kkt_ops sv)
     = kkt_update_scalings kkt_ops d (m_kkt sv)
         (rho_init (m_settings sv)) (delta_init (m_settings sv))
         (one (s r0)) (upd_head (n_lb d) one (s_lb r0)) (upd_head (n_ub d) one (s_ub r0))
         (one (z r0)) (upd_head (n_lb d) one (z_lb r0)) (upd_head (n_ub d) one (z_ub r0)).
Proof. split_and!; reflexivity. Qed.

(** The initial solve: its right-hand side, and where the solution goes. *)
Lemma initial_solve_spec (sv : SolverT) :
  let d := m_data sv in
  let out := kkt_solve kkt_ops d (m_kkt sv)
               (Build_Block8 (vneg (c d)) (b d) (h d) (x_lb_n d) (x_ub d)
                  (setZero (rs sv)) (setZero (rs_lb sv)) (setZero (rs_ub sv))) in
  let r1 := m_result (initial_solve kkt_ops sv) in
  x r1 = b_x out /\ y r1 = b_y out /\ z r1 = b_z out
  /\ z_lb r1 = b_z_lb out /\ z_ub r1 = b_z_ub out
  /\ s r1 = b_s out /\ s_lb r1 = b_s_lb out /\ s_ub r1 = b_s_ub out.
Proof. split_and!; reflexivity. Qed.

(** The block under [if (s_norm <= 1e-4)]. *)
Lemma reset_slacks_spec (sv : SolverT) :
  let d := m_data sv in
  let r0 := m_result sv in
  let r1 := m_result (reset_slacks sv) in
  let tenth := setConstant (sc_dec 1 10) in
  s r1 = tenth (s r0)
  /\ s_lb r1 = upd_head (n_lb d) tenth (s_lb r0)
  /\ s_ub r1 = upd_head (n_ub d) tenth (s_ub r0)
  /\ z r1 = tenth (z r0)
  /\ z_lb r1 = upd_head (n_lb d) tenth (z_lb r0)
  /\ z_ub r1 = upd_head (n_ub d) tenth (z_ub r0).
Proof. split_and!; reflexivity. Qed.

Lemma initial_slacks_unfold (sv : SolverT) :
  initial_slacks sv =
    if (0 <? m (m_data sv) + n_lb (m_data sv) + n_ub (m_data sv))%nat
    then shift_slacks
           (if (sc_max (sc_max (sc_max sc_zero (lpNorm_inf (s (m_result sv))))
                          (lpNorm_inf (vhead (n_lb (m_data sv)) (s_lb (m_result sv)))))
                  (lpNorm_inf (vhead (n_ub (m_data sv)) (s_ub (m_result sv))))
                <=? sc_dec 1 10000)%sc
            then reset_slacks sv else sv)
    else sv.
Proof. reflexivity. Qed.

Lemma solve_prologue_unfold (sv sv' : SolverT) :
  solve_prologue kkt_ops verify_settings sv = Some (Continue sv') ->
  let s0 := reset_info sv in
  let s1 := if m_kkt_init_state sv then s0 else reset_scalings kkt_ops s0 in
  m_setup_done sv = true /\ verify_settings (m_settings sv) = true
  /\ exists sf : SolverT,
       initial_factorize kkt_ops (initial_fuel s1) s1 = Some (Continue sf)
       /\ sv' = set_prox_centres
                  (initial_slacks
                     (initial_solve kkt_ops (upd_info (set_factor_retires 0%Z) sf))).
Proof.
  cbv beta delta [solve_prologue]. cbv zeta.
  destruct (m_setup_done sv); cbn [negb]; [|discriminate].
  destruct (verify_settings (m_settings sv)); cbn [negb]; [|discriminate].
  rewrite (proj1 (view_reset_info sv)).
  destruct (m_kkt_init_state sv); cbn [negb].
  - destruct (initial_factorize _ _ _) as [[st s1|s1]|]; [discriminate| |discriminate].
    intros [= <-]. split_and!; [done..|]. exists s1. split; reflexivity.
  - destruct (initial_factorize _ _ _) as [[st s1|s1]|]; [discriminate| |discriminate].
    intros [= <-]. split_and!; [done..|]. exists s1. split; reflexivity.
Qed.


(** C6 (amended).  [setup] leaves [m_kkt_init_state] true, and a call of
    [solve] that reaches the outer loop does the following.  With
    [m_kkt_init_state] true (the first call after setup) the iterate and
    the KKT operator are left as they are; with it false, rho and delta
    are set back, the active parts of s, s_lb, s_ub, z, z_lb, z_ub become
    1 and are staged by [update_scalings].  After the factorisation the
    initial solve, with right-hand side (-c, b, h, x_lb_n, x_ub, 0, 0, 0),
    overwrites the iterate.  Then, with inequalities, the active parts
    become 0.1 if the largest of the three slack norms is at most 1e-4,
    and the slacks are shifted. *)
Theorem initial_iterate (sv sv' : SolverT) :
  solve_prologue kkt_ops verify_settings sv = Some (Continue sv') ->
  let d := m_data sv in
  let r0 := m_result sv in
  let s0 := reset_info sv in
  let s1 := if m_kkt_init_state sv then s0 else reset_scalings kkt_ops s0 in
  let one := setConstant sc_one in
  let tenth := setConstant (sc_dec 1 10) in
  (forall P A G c' b' h' lb ub (a : SolverT),
     m_kkt_init_state (setup_impl pc_ops kkt_ops P A G c' b' h' lb ub a) = true)
  /\ (m_kkt_init_state sv = true ->
      m_kkt s1 = m_kkt sv /\ iterate_of (m_result s1) = iterate_of r0)
  /\ (m_kkt_init_state sv = false ->
      rho (sv_info s1) = rho_init (m_settings sv)
      /\ delta (sv_info s1) = delta_init (m_settings sv)
      /\ s (m_result s1) = one (s r0)
      /\ s_lb (m_result s1) = upd_head (n_lb d) one (s_lb r0)
      /\ s_ub (m_result s1) = upd_head (n_ub d) one (s_ub r0)
      /\ z (m_result s1) = one (z r0)
      /\ z_lb (m_result s1) = upd_head (n_lb d) one (z_lb r0)
      /\ z_ub (m_result s1) = upd_head (n_ub d) one (z_ub r0)
      /\ m_kkt s1
         = kkt_update_scalings kkt_ops d (m_kkt sv)
             (rho_init (m_settings sv)) (delta_init (m_settings sv))
             (one (s r0)) (upd_head (n_lb d) one (s_lb r0))
             (upd_head (n_ub d) one (s_ub r0))
             (one (z r0)) (upd_head (n_lb d) one (z_lb r0))
             (upd_head (n_ub d) one (z_ub r0)))
  /\ exists sf : SolverT,
       initial_factorize kkt_ops (initial_fuel s1) s1 = Some (Continue sf)
       /\ let s2 := upd_info (set_factor_retires 0%Z) sf in
          let d2 := m_data s2 in
          let out := kkt_solve kkt_ops d2 (m_kkt s2)
                       (Build_Block8 (vneg (c d2)) (b d2) (h d2) (x_lb_n d2) (x_ub d2)
                          (setZero (rs s2)) (setZero (rs_lb s2)) (setZero (rs_ub s2))) in
          let s3 := initial_solve kkt_ops s2 in
          let r3 := m_result s3 in
          let d3 := m_data s3 in
          (x r3 = b_x out /\ y r3 = b_y out /\ z r3 = b_z out
           /\ z_lb r3 = b_z_lb out /\ z_ub r3 = b_z_ub out
           /\ s r3 = b_s out /\ s_lb r3 = b_s_lb out /\ s_ub r3 = b_s_ub out)
          /\ sv' = set_prox_centres
                     (if (0 <? m d3 + n_lb d3 + n_ub d3)%nat
                      then shift_slacks
                             (if (sc_max (sc_max (sc_max sc_zero (lpNorm_inf (s r3)))
                                            (lpNorm_inf (vhead (n_lb d3) (s_lb r3))))
                                    (lpNorm_inf (vhead (n_ub d3) (s_ub r3)))
                                  <=? sc_dec 1 10000)%sc
                              then reset_slacks s3 else s3)
                      else s3)
          /\ (let r4 := m_result (reset_slacks s3) in
              s r4 = tenth (s r3)
              /\ s_lb r4 = upd_head (n_lb d3) tenth (s_lb r3)
              /\ s_ub r4 = upd_head (n_ub d3) tenth (s_ub r3)
              /\ z r4 = tenth (z r3)
              /\ z_lb r4 = upd_head (n_lb d3) tenth (z_lb r3)
              /\ z_ub r4 = upd_head (n_ub d3) tenth (z_ub r3)).
Proof.
  intros Hp. cbv zeta.
  destruct (solve_prologue_unfold Hp) as (_ & _ & sf & Hf & ->). cbv zeta in Hf.
  destruct (view_reset_info sv) as (_ & Ed & Ek & Es & Ei).
  split_and!.
  - intros. apply setup_impl_init_state.
  - intros ->. split; [exact Ek | exact Ei].
  - intros ->.
    destruct (reset_scalings_spec (reset_info sv))
      as (H1 & H2 & H3 & H4 & H5 & H6 & H7 & H8 & H9).
    cbv zeta in H1, H2, H3, H4, H5, H6, H7, H8, H9.
    assert (Er : slack_view (m_result (reset_info sv)) = slack_view (m_result sv))
      by reflexivity.
    apply slack_view_eq in Er as (E1 & E2 & E3 & E4 & E5 & E6).
    rewrite Ed, Ek, Es, E1, E2, E3, E4, E5, E6 in *.
    split_and!; assumption.
  - exists sf. split; [exact Hf|].
    forget (upd_info (set_factor_retires 0%Z) sf) s2.
    split; [|split].
    + exact (initial_solve_spec s2).
    + exact (f_equal set_prox_centres (initial_slacks_unfold (initial_solve kkt_ops s2))).
    + exact (reset_slacks_spec (initial_solve kkt_ops s2)).
Qed.

End InitialIterate.

(** ** The rationals as scalars: the operations of the class *)

Ltac q_ops :=
  cbn [sc_add sc_sub sc_mul sc_div sc_opp sc_abs sc_ltb sc_leb sc_eqb sc_of_Z
       sc_infinity Q_Scalar] in *.

Section QScalar.
Local Open Scope Q_scope.

Lemma Qltb_lt (a b : Q) : Qltb a b = true <-> a < b.
Proof. unfold Qltb, Qlt. apply Z.ltb_lt. Qed.

Lemma Qltb_ge (a b : Q) : Qltb a b = false <-> b <= a.
Proof. unfold Qltb, Qle. rewrite Z.ltb_ge. reflexivity. Qed.

Lemma sc_ltb_Q (a b : Q) : (a <? b)%sc = true <-> a < b.
Proof. apply Qltb_lt. Qed.

Lemma sc_ltb_Q_false (a b : Q) : (a <? b)%sc = false <-> b <= a.
Proof. apply Qltb_ge. Qed.

Lemma sc_leb_Q (a b : Q) : (a <=? b)%sc = true <-> a <= b.
Proof. apply Qle_bool_iff. Qed.

Lemma sc_min_Q (a b : Q) :
  (sc_min a b = a /\ a <= b) \/ (sc_min a b = b /\ b < a).
Proof.
  unfold sc_min. destruct (b <? a)%sc eqn:E.
  - right. split; [done|]. by apply sc_ltb_Q.
  - left. split; [done|]. by apply sc_ltb_Q_false.
Qed.

Lemma sc_max_Q (a b : Q) :
  (sc_max a b = a /\ b <= a) \/ (sc_max a b = b /\ a < b).
Proof.
  unfold sc_max. destruct (a <? b)%sc eqn:E.
  - right. split; [done|]. by apply sc_ltb_Q.
  - left. split; [done|]. by apply sc_ltb_Q_false.
Qed.

Lemma sc_zero_Q : (sc_zero : Q) = 0.
Proof. reflexivity. Qed.

Lemma sc_one_Q : (sc_one : Q) = 1.
Proof. reflexivity. Qed.

End QScalar.

(** ** The formulas of the residuals *)

Section VectorLemmas.
Context {T : Type} `{Scalar T}.

Lemma coeff_zip_with (f : T -> T -> T) (u v : list T) i :
  (i < length u)%nat -> (i < length v)%nat ->
  coeff (zip_with f u v) i = f (coeff u i) (coeff v i).
Proof.
  intros Hu Hv. unfold coeff. rewrite lookup_zip_with.
  destruct (lookup_lt_is_Some_2 u i Hu) as [a ->].
  destruct (lookup_lt_is_Some_2 v i Hv) as [a' ->]. reflexivity.
Qed.

Lemma coeff_map (f : T -> T) (v : list T) i :
  (i < length v)%nat -> coeff (map f v) i = f (coeff v i).
Proof.
  intros Hv. unfold coeff.
  change (map f v) with (f <$> v). rewrite list_lookup_fmap.
  destruct (lookup_lt_is_Some_2 v i Hv) as [a ->]. reflexivity.
Qed.

Lemma length_mat_vec (M : list (list T)) (v : list T) :
  length (mat_vec M v) = length M.
Proof. unfold mat_vec. apply length_map. Qed.

Lemma length_transpose cols (M : list (list T)) : length (transpose cols M) = cols.
Proof. unfold transpose. rewrite length_map. apply length_seq. Qed.

Lemma length_strictly_lower (M : list (list T)) : length (strictly_lower M) = length M.
Proof. unfold strictly_lower. apply length_imap. Qed.

Lemma scatter_loop_length (idx : list nat) (w : list T) k : forall i dx,
  length (scatter_loop idx w i k dx) = length dx.
Proof.
  induction k as [|k IH]; intros i dx; [done|]. cbn [scatter_loop].
  destruct (idx !! i), (w !! i); rewrite IH; [apply length_insert|done..].
Qed.

Lemma scatter_scattered (idx : list nat) (w : list T) k dx :
  scatter idx w k dx = scattered (length dx) idx w k.
Proof. reflexivity. Qed.

Lemma length_scattered len (idx : list nat) (w : list T) k :
  length (scattered len idx w k) = len.
Proof. unfold scattered. rewrite scatter_loop_length. apply length_replicate. Qed.

(** A position that the loop does not write keeps its value. *)
Lemma scatter_loop_other (idx : list nat) (w : list T) q k : forall i dx,
  (forall i', (i <= i')%nat -> (i' < i + k)%nat -> idx !! i' <> Some q) ->
  scatter_loop idx w i k dx !! q = dx !! q.
Proof.
  induction k as [|k IH]; intros i dx Hq; [done|]. cbn [scatter_loop].
  assert (Hi : idx !! i <> Some q) by (apply Hq; lia).
  assert (Hr : forall i', (S i <= i')%nat -> (i' < S i + k)%nat -> idx !! i' <> Some q)
    by (intros i' ? ?; apply Hq; lia).
  destruct (idx !! i) as [j|], (w !! i); rewrite IH by done; try done.
  apply list_lookup_insert_ne. congruence.
Qed.

(** The last write to a position is the value the loop leaves there. *)
Lemma scatter_loop_written (idx : list nat) (w : list T) q a k : forall i i0 dx,
  (i <= i0)%nat -> (i0 < i + k)%nat ->
  idx !! i0 = Some q -> w !! i0 = Some a -> (q < length dx)%nat ->
  (forall i', (i0 < i')%nat -> (i' < i + k)%nat -> idx !! i' <> Some q) ->
  scatter_loop idx w i k dx !! q = Some a.
Proof.
  induction k as [|k IH]; intros i i0 dx H1 H2 Hidx Hw Hlen Hlast; [lia|].
  cbn [scatter_loop].
  destruct (decide (i = i0)) as [->|Hne].
  - rewrite Hidx, Hw. rewrite scatter_loop_other.
    + by apply list_lookup_insert_eq.
    + intros i' ? ?. apply Hlast; lia.
  - destruct (idx !! i) as [j|], (w !! i);
      apply (IH (S i) i0); try done; try lia;
      try (intros i' ? ?; apply Hlast; lia).
    by rewrite length_insert.
Qed.

(** What the scatter leaves: the [i]-th value at the position [idx(i)],
    zero at the positions that no active bound names. *)
Lemma scattered_lookup len (idx : list nat) (w : list T) k :
  box_index_ok len k idx = true -> (k <= length w)%nat ->
  (forall i j, (i < k)%nat -> idx !! i = Some j ->
     coeff (scattered len idx w k) j = coeff w i)
  /\ (forall q, (forall i, (i < k)%nat -> idx !! i <> Some q) ->
     coeff (scattered len idx w k) q = sc_zero).
Proof.
  intros Hok Hw. split.
  - intros i j Hi Hj.
    destruct (box_index_ok_lookup Hok Hi) as (a & Ha & _ & Hlt & Hinc).
    assert (a = j) as -> by congruence.
    destruct (lookup_lt_is_Some_2 w i) as [v Hv]; [lia|].
    unfold coeff, scattered.
    rewrite (@scatter_loop_written idx w j v k 0 i); [by rewrite Hv|lia|lia|done|done| |].
    + by rewrite length_replicate.
    + intros i' H1 H2 Hc. specialize (Hinc i' j H1 H2 Hc). lia.
  - intros q Hq. unfold coeff, scattered.
    rewrite scatter_loop_other by (intros i' _ ?; apply Hq; lia).
    destruct (replicate len sc_zero !! q) as [v|] eqn:E; [|done].
    apply lookup_replicate in E as [-> _]. done.
Qed.

End VectorLemmas.

Section SumsQ.
Local Open Scope Q_scope.

(** [v.sum()] over the rationals is the sum from the right, up to [==]. *)
Lemma fold_left_Qplus (l : list Q) : forall a,
  fold_left sc_add l a == a + fold_right Qplus 0 l.
Proof.
  induction l as [|b l IH]; intros a; cbn [fold_left fold_right].
  - ring.
  - rewrite IH. cbn [sc_add Q_Scalar]. ring.
Qed.

Lemma vsum_fold_right (l : list Q) : vsum l == fold_right Qplus 0 l.
Proof.
  destruct l as [|a l]; [reflexivity|]. unfold vsum.
  rewrite fold_left_Qplus. reflexivity.
Qed.

(** The sum of the products with a column that holds [a] where the index
    list names [j], and zero elsewhere. *)
Lemma unit_column_sum (a : Q) (j : nat) : forall (l : list nat) (w : list Q),
  (length l <= length w)%nat ->
  (forall i i', l !! i = Some j -> l !! i' = Some j -> i = i') ->
  (forall i, l !! i = Some j ->
     fold_right Qplus 0
       (zip_with Qmult (map (fun j' => if decide (j' = j) then a else 0) l) w)
     == a * coeff w i)
  /\ ((forall i, l !! i <> Some j) ->
     fold_right Qplus 0
       (zip_with Qmult (map (fun j' => if decide (j' = j) then a else 0) l) w)
     == 0).
Proof.
  induction l as [|j' l IH]; intros w Hlen Hinj.
  - split; [intros i; rewrite lookup_nil; discriminate|]. intros _. reflexivity.
  - destruct w as [|v w]; [cbn in Hlen; lia|]. cbn in Hlen.
    destruct (IH w) as [IH1 IH2]; [lia| |].
    { intros i i' H1 H2. specialize (Hinj (S i) (S i') H1 H2). lia. }
    cbn [map zip_with fold_right]. split.
    + intros [|i] Hi.
      * cbn in Hi. injection Hi as ->. rewrite decide_True by done.
        rewrite IH2.
        -- change (coeff (v :: w) 0) with v. ring.
        -- intros i Hi. specialize (Hinj 0%nat (S i) eq_refl Hi). lia.
      * cbn in Hi. rewrite decide_False.
        -- rewrite (IH1 i Hi). change (coeff (v :: w) (S i)) with (coeff w i). ring.
        -- intros ->. specialize (Hinj 0%nat (S i) eq_refl Hi). lia.
    + intros Hno. rewrite decide_False.
      * rewrite IH2; [ring|]. intros i Hi. by apply (Hno (S i)).
      * intros ->. by apply (Hno 0%nat).
Qed.

(** The sum of the products with a row that holds [a] at [j]. *)
Lemma unit_row_sum (a : Q) : forall (len j : nat) (w : list Q),
  (j < len)%nat ->
  fold_right Qplus 0 (zip_with Qmult (<[j := a]> (replicate len 0)) w)
  == a * coeff w j.
Proof.
  induction len as [|len IH]; intros j w Hj; [lia|].
  destruct w as [|v w].
  - rewrite zip_with_nil_r. change (coeff [] j) with 0. cbn [fold_right]. ring.
  - destruct j as [|j]; cbn [replicate insert list_insert zip_with fold_right].
    + assert (E : fold_right Qplus 0 (zip_with Qmult (replicate len 0) w) == 0).
      { clear. revert w. induction len as [|len IH]; intros [|v w]; cbn; try reflexivity.
        rewrite IH. ring. }
      rewrite E. change (coeff (v :: w) 0) with v. ring.
    + rewrite IH by lia. change (coeff (v :: w) (S j)) with (coeff w j). ring.
Qed.


Lemma dot_fold_right (u v : list Q) :
  dot u v == fold_right Qplus 0 (zip_with Qmult u v).
Proof. unfold dot. apply vsum_fold_right. Qed.

Lemma box_index_injective len k idx j :
  box_index_ok len k idx = true ->
  forall i i', take k idx !! i = Some j -> take k idx !! i' = Some j -> i = i'.
Proof.
  intros Hok i i' Hi Hi'.
  assert (Hk : (i < k)%nat /\ (i' < k)%nat).
  { apply lookup_lt_Some in Hi, Hi'. rewrite length_take in Hi, Hi'. lia. }
  destruct Hk as [Hk Hk'].
  rewrite lookup_take_lt in Hi, Hi' by done.
  destruct (box_index_ok_lookup Hok Hk) as (a & Ha & _ & _ & Hinc).
  destruct (box_index_ok_lookup Hok Hk') as (a' & Ha' & _ & _ & Hinc').
  assert (a = j) as -> by congruence. assert (a' = j) as -> by congruence.
  destruct (Nat.lt_trichotomy i i') as [Hlt|[->|Hlt]]; [|done|].
  - specialize (Hinc i' j Hlt Hk' Hi'). lia.
  - specialize (Hinc' i j Hlt Hk Hi). lia.
Qed.

(** [E^T w] for the matrix of box rows with entry [a]: [a] times the
    scatter of [w]. *)
Lemma coeff_box_columns (a : Q) len k idx (w : list Q) j :
  (j < len)%nat -> box_index_ok len k idx = true -> (k <= length w)%nat ->
  coeff (mat_vec (transpose len (box_rows a len k idx)) (vhead k w)) j
  == a * coeff (scattered len idx w k) j.
Proof.
  intros Hj Hok Hw.
  pose proof (box_index_ok_le Hok) as Hk.
  assert (Hk' : (k <= length idx)%nat).
  { unfold box_index_ok in Hok. apply andb_true_iff in Hok as [Hok _].
    by apply Nat.leb_le in Hok. }
  destruct (scattered_lookup Hok Hw) as [Hs1 Hs2].
  unfold mat_vec, transpose, box_rows, vhead.
  rewrite ?map_map. unfold coeff at 1.
  rewrite (list_lookup_fmap _ (seq 0 len) j).
  rewrite (proj2 (lookup_seq 0 len j j) (conj eq_refl Hj)).
  cbn [fmap option_fmap option_map default].
  rewrite dot_fold_right, map_map.
  assert (Ecol : map (fun j' : nat =>
                        default sc_zero (<[j' := a]> (replicate len sc_zero) !! j))
                   (take k idx)
                 = map (fun j' => if decide (j' = j) then a else 0) (take k idx)).
  { apply map_ext. intros j'.
    case_decide as E.
    - subst j'. rewrite list_lookup_insert_eq by (by rewrite length_replicate). done.
    - rewrite list_lookup_insert_ne by done.
      rewrite lookup_replicate_2 by done. done. }
  rewrite Ecol.
  destruct (@unit_column_sum a j (take k idx) (take k w)) as [U1 U2].
  { rewrite !length_take. lia. }
  { by apply box_index_injective with len. }
  destruct (decide (j ∈ take k idx)) as [Hin|Hin].
  - apply list_elem_of_lookup in Hin as [i Hi].
    assert (Hik : (i < k)%nat)
      by (apply lookup_lt_Some in Hi; rewrite length_take in Hi; lia).
    rewrite (U1 i Hi). rewrite lookup_take_lt in Hi by done.
    rewrite (Hs1 i j Hik Hi). unfold coeff. rewrite lookup_take_lt by done. reflexivity.
  - rewrite U2.
    + rewrite Hs2.
      { unfold id. rewrite sc_zero_Q. ring. }
      intros i Hi Hc. apply Hin. apply list_elem_of_lookup. exists i.
      by rewrite lookup_take_lt.
    + intros i Hc. apply Hin. apply list_elem_of_lookup. by exists i.
Qed.

(** [E v] for the matrix of box rows with entry [a]: [a] times the
    entries of [v] that the index map names. *)
Lemma coeff_box_rows (a : Q) len k idx (v : list Q) i :
  (i < k)%nat -> box_index_ok len k idx = true ->
  coeff (mat_vec (box_rows a len k idx) v) i == a * coeff v (coeff_idx idx i).
Proof.
  intros Hi Hok.
  destruct (box_index_ok_lookup Hok Hi) as (j & Hj & _ & Hlt & _).
  unfold mat_vec, box_rows. rewrite map_map. unfold coeff at 1.
  change (map ?f ?l) with (f <$> l). rewrite list_lookup_fmap.
  rewrite lookup_take_lt by done. rewrite Hj.
  cbn [fmap option_fmap option_map default].
  rewrite dot_fold_right. unfold coeff_idx. rewrite Hj. cbn [default].
  by apply unit_row_sum.
Qed.

End SumsQ.

Section NRQ.
Context {PC K : Type}.
Context (pc_ops : PreconditionerOps Q PC).
Local Abbreviation SolverQ := (Solver Q PC K).

Lemma scatter_loop_vneg (idx : list nat) (w : list Q) k : forall i dx,
  scatter_loop idx (vneg w) i k (vneg dx) = vneg (scatter_loop idx w i k dx).
Proof.
  induction k as [|k IH]; intros i dx; [done|]. cbn [scatter_loop].
  unfold vneg at 1. change (map sc_opp w) with (sc_opp <$> w).
  rewrite list_lookup_fmap.
  destruct (idx !! i) as [j|], (w !! i) as [a|]; cbn [fmap option_fmap option_map];
    rewrite <- IH; try done.
  f_equal. unfold vneg. change (map sc_opp ?l) with (sc_opp <$> l).
  by rewrite list_fmap_insert.
Qed.

Lemma scattered_vneg len (idx : list nat) (w : list Q) k :
  scattered len idx (vneg w) k = vneg (scattered len idx w k).
Proof.
  unfold scattered. rewrite <- scatter_loop_vneg. f_equal.
  unfold vneg. change (map sc_opp ?l) with (sc_opp <$> l).
  by rewrite fmap_replicate.
Qed.

Lemma coeff_vneg (v : list Q) i : coeff (vneg v) i = (- coeff v i)%Q.
Proof.
  unfold coeff, vneg. change (map sc_opp v) with (sc_opp <$> v).
  rewrite list_lookup_fmap. destruct (v !! i); reflexivity.
Qed.

Lemma rx_arith (a1 a2 a3 a4 a5 a6 a7 : Q) :
  ((((((- a1 - a2) - a3) - a4) - a5) - - a6) - a7)%sc
  == - (a1 + a2)%sc - a3 - a4 - a5 + a6 - a7.
Proof. cbn. ring. Qed.

Lemma ry_arith (a1 a2 : Q) : (- a1 + a2)%sc == a2 - a1.
Proof. cbn. ring. Qed.

Lemma rz_arith (a1 a2 a3 : Q) : (- a1 + (a2 - a3))%sc == a2 - a1 - a3.
Proof. cbn. ring. Qed.


(** The residuals without regularisation, entry by entry. *)
Lemma nr_residuals_pointwise (sv : SolverQ) :
  let d := m_data sv in
  let r0 := m_result sv in
  let sv' := update_nr_residuals pc_ops sv in
  let lb_duals := scattered (n d) (x_lb_idx d) (z_lb r0) (n_lb d) in
  let ub_duals := scattered (n d) (x_ub_idx d) (z_ub r0) (n_ub d) in
  length (P_utri d) = n d -> length (c d) = n d ->
  length (AT d) = n d -> length (GT d) = n d ->
  length (b d) = p d -> length (h d) = m d -> length (s r0) = m d ->
  box_index_ok (n d) (n_lb d) (x_lb_idx d) = true ->
  box_index_ok (n d) (n_ub d) (x_ub_idx d) = true ->
  (n_lb d <= length (z_lb r0))%nat -> (n_ub d <= length (z_ub r0))%nat ->
  (n_lb d <= length (rz_lb_nr sv))%nat -> (n_ub d <= length (rz_ub_nr sv))%nat ->
  (forall j, (j < n d)%nat ->
     coeff (rx_nr sv') j ==
       - coeff (sym_mat_vec d (x r0)) j - coeff (c d) j
       - coeff (mat_vec (AT d) (y r0)) j - coeff (mat_vec (GT d) (z r0)) j
       + coeff lb_duals j - coeff ub_duals j)
  /\ (forall i j, (i < n_lb d)%nat -> x_lb_idx d !! i = Some j ->
        coeff lb_duals j = coeff (z_lb r0) i)
  /\ (forall q, (forall i, (i < n_lb d)%nat -> x_lb_idx d !! i <> Some q) ->
        coeff lb_duals q = 0%Q)
  /\ (forall i j, (i < n_ub d)%nat -> x_ub_idx d !! i = Some j ->
        coeff ub_duals j = coeff (z_ub r0) i)
  /\ (forall q, (forall i, (i < n_ub d)%nat -> x_ub_idx d !! i <> Some q) ->
        coeff ub_duals q = 0%Q)
  /\ (forall i, (i < p d)%nat ->
        coeff (ry_nr sv') i
        == coeff (b d) i - coeff (mat_vec (transpose (p d) (AT d)) (x r0)) i)
  /\ (forall i, (i < m d)%nat ->
        coeff (rz_nr sv') i
        == coeff (h d) i - coeff (mat_vec (transpose (m d) (GT d)) (x r0)) i
           - coeff (s r0) i)
  /\ (forall i, (i < n_lb d)%nat ->
        coeff (rz_lb_nr sv') i
        = (coeff (x r0) (coeff_idx (x_lb_idx d) i) + coeff (x_lb_n d) i
           - coeff (s_lb r0) i)%Q)
  /\ (forall i, (i < n_ub d)%nat ->
        coeff (rz_ub_nr sv') i
        = (- coeff (x r0) (coeff_idx (x_ub_idx d) i) + coeff (x_ub d) i
           - coeff (s_ub r0) i)%Q).
Proof.
  cbv zeta. intros LP Lc LA LG Lb Lh Ls Hlb Hub Lzl Lzu Lrl Lru.
  destruct (update_nr_residuals_spec pc_ops sv)
    as (E1 & E2 & E3 & E4 & E5 & _ & _ & _).
  rewrite E1, E2, E3, E4, E5. clear E1 E2 E3 E4 E5.
  forget (m_data sv) d. forget (m_result sv) r0.
  destruct (scattered_lookup Hlb Lzl) as [Hl1 Hl2].
  destruct (scattered_lookup Hub Lzu) as [Hu1 Hu2].
  split_and!; try assumption.
  - intros j Hj. unfold nr_rx. cbv zeta.
    rewrite !scatter_scattered, !length_scattered, !length_mat_vec, LG.
    rewrite scattered_vneg.
    assert (L1 : length (mat_vec (P_utri d) (x r0)) = n d)
      by (by rewrite length_mat_vec).
    assert (L2 : length (mat_vec (strictly_lower (transpose (n d) (P_utri d))) (x r0))
                 = n d)
      by (by rewrite length_mat_vec, length_strictly_lower, length_transpose).
    assert (L3 : length (mat_vec (AT d) (y r0)) = n d) by (by rewrite length_mat_vec).
    assert (L4 : length (mat_vec (GT d) (z r0)) = n d) by (by rewrite length_mat_vec).
    pose proof (length_scattered (n d) (x_lb_idx d) (z_lb r0) (n_lb d)) as L5.
    pose proof (length_scattered (n d) (x_ub_idx d) (z_ub r0) (n_ub d)) as L6.
    unfold sym_mat_vec, vsub, vadd.
    rewrite !coeff_zip_with, !coeff_vneg;
      rewrite ?length_zip_with, ?length_map; unfold vneg; rewrite ?length_map; try lia.
    apply rx_arith.
  - intros i Hi. unfold nr_ry, vadd.
    rewrite coeff_zip_with, coeff_vneg.
    + apply ry_arith.
    + unfold vneg. rewrite length_map, length_mat_vec, length_transpose. lia.
    + lia.
  - intros i Hi. unfold nr_rz, vadd, vsub.
    rewrite !coeff_zip_with, coeff_vneg.
    + apply rz_arith.
    + lia.
    + lia.
    + unfold vneg. rewrite length_map, length_mat_vec, length_transpose. lia.
    + rewrite length_zip_with. lia.
  - intros i Hi. unfold nr_rz_lb, coeff at 1. rewrite write_loop_lookup.
    rewrite decide_True by lia. reflexivity.
  - intros i Hi. unfold nr_rz_ub, coeff at 1. rewrite write_loop_lookup.
    rewrite decide_True by lia. reflexivity.
Qed.


(** C7 (amended).  Over the rationals and for data of consistent
    dimensions, [update_nr_residuals] leaves
    r_x_nr = -P x - c - A^T y - G^T z - E_lb^T z_lb - E_ub^T z_ub,
    r_y_nr = b - A x, r_z_nr = h - G x - s,
    r_z_lb_nr[i] = x[x_lb_idx[i]] + x_lb_n[i] - s_lb[i] = (x_lb_n - E_lb x - s_lb)[i]
    and r_z_ub_nr[i] = -x[x_ub_idx[i]] + x_ub[i] - s_ub[i] = (x_ub - E_ub x - s_ub)[i],
    with [E_lb] and [E_ub] the matrices of the box rows: z_lb[i] is added
    at the position x_lb_idx[i], z_ub[i] is subtracted at x_ub_idx[i]. *)
Theorem update_nr_residuals_formulas (sv : SolverQ) :
  let d := m_data sv in
  let r0 := m_result sv in
  let sv' := update_nr_residuals pc_ops sv in
  let lb_duals := scattered (n d) (x_lb_idx d) (z_lb r0) (n_lb d) in
  let ub_duals := scattered (n d) (x_ub_idx d) (z_ub r0) (n_ub d) in
  length (P_utri d) = n d -> length (c d) = n d ->
  length (AT d) = n d -> length (GT d) = n d ->
  length (b d) = p d -> length (h d) = m d -> length (s r0) = m d ->
  box_index_ok (n d) (n_lb d) (x_lb_idx d) = true ->
  box_index_ok (n d) (n_ub d) (x_ub_idx d) = true ->
  (n_lb d <= length (z_lb r0))%nat -> (n_ub d <= length (z_ub r0))%nat ->
  (n_lb d <= length (rz_lb_nr sv))%nat -> (n_ub d <= length (rz_ub_nr sv))%nat ->
  (forall j, (j < n d)%nat ->
     coeff (rx_nr sv') j ==
       - coeff (sym_mat_vec d (x r0)) j - coeff (c d) j
       - coeff (mat_vec (AT d) (y r0)) j - coeff (mat_vec (GT d) (z r0)) j
       - coeff (mat_vec (transpose (n d) (E_lb d)) (vhead (n_lb d) (z_lb r0))) j
       - coeff (mat_vec (transpose (n d) (E_ub d)) (vhead (n_ub d) (z_ub r0))) j)
  /\ (forall j, (j < n d)%nat ->
     coeff (rx_nr sv') j ==
       - coeff (sym_mat_vec d (x r0)) j - coeff (c d) j
       - coeff (mat_vec (AT d) (y r0)) j - coeff (mat_vec (GT d) (z r0)) j
       + coeff lb_duals j - coeff ub_duals j)
  /\ (forall i j, (i < n_lb d)%nat -> x_lb_idx d !! i = Some j ->
        coeff lb_duals j = coeff (z_lb r0) i)
  /\ (forall q, (forall i, (i < n_lb d)%nat -> x_lb_idx d !! i <> Some q) ->
        coeff lb_duals q = 0%Q)
  /\ (forall i j, (i < n_ub d)%nat -> x_ub_idx d !! i = Some j ->
        coeff ub_duals j = coeff (z_ub r0) i)
  /\ (forall q, (forall i, (i < n_ub d)%nat -> x_ub_idx d !! i <> Some q) ->
        coeff ub_duals q = 0%Q)
  /\ (forall i, (i < p d)%nat ->
        coeff (ry_nr sv') i
        == coeff (b d) i - coeff (mat_vec (transpose (p d) (AT d)) (x r0)) i)
  /\ (forall i, (i < m d)%nat ->
        coeff (rz_nr sv') i
        == coeff (h d) i - coeff (mat_vec (transpose (m d) (GT d)) (x r0)) i
           - coeff (s r0) i)
  /\ (forall i, (i < n_lb d)%nat ->
        coeff (rz_lb_nr sv') i
        = (coeff (x r0) (coeff_idx (x_lb_idx d) i) + coeff (x_lb_n d) i
           - coeff (s_lb r0) i)%Q
        /\ coeff (rz_lb_nr sv') i
           == coeff (x_lb_n d) i - coeff (mat_vec (E_lb d) (x r0)) i - coeff (s_lb r0) i)
  /\ (forall i, (i < n_ub d)%nat ->
        coeff (rz_ub_nr sv') i
        = (- coeff (x r0) (coeff_idx (x_ub_idx d) i) + coeff (x_ub d) i
           - coeff (s_ub r0) i)%Q
        /\ coeff (rz_ub_nr sv') i
           == coeff (x_ub d) i - coeff (mat_vec (E_ub d) (x r0)) i - coeff (s_ub r0) i).
Proof.
  cbv zeta. intros LP Lc LA LG Lb Lh Ls Hlb Hub Lzl Lzu Lrl Lru.
  destruct (@nr_residuals_pointwise sv LP Lc LA LG Lb Lh Ls Hlb Hub Lzl Lzu Lrl Lru)
    as (R1 & R2 & R3 & R4 & R5 & R6 & R7 & R8 & R9).
  split; [|split_and!; try assumption].
  - intros j Hj. rewrite (R1 j Hj). unfold E_lb, E_ub.
    rewrite (coeff_box_columns (- sc_one)%sc Hj Hlb Lzl).
    rewrite (coeff_box_columns sc_one Hj Hub Lzu).
    rewrite sc_one_Q. cbn [sc_opp Q_Scalar]. ring.
  - intros i Hi. split; [by apply R8|]. rewrite (R8 i Hi). unfold E_lb.
    rewrite (coeff_box_rows (- sc_one)%sc (x (m_result sv)) Hi Hlb).
    rewrite sc_one_Q. cbn [sc_opp Q_Scalar]. ring.
  - intros i Hi. split; [by apply R9|]. rewrite (R9 i Hi). unfold E_ub.
    rewrite (coeff_box_rows sc_one (x (m_result sv)) Hi Hub).
    rewrite sc_one_Q. ring.
Qed.

End NRQ.

(** ** The step to the boundary *)

Section StepQ.
Local Open Scope Q_scope.

Lemma alpha_loop_min (s' ds' z' dz' : list Q) k : forall i a_s a_z,
  let r := alpha_loop s' ds' z' dz' i k (a_s, a_z) in
  (r.1 <= a_s
   /\ (forall j, (i <= j)%nat -> (j < i + k)%nat -> coeff ds' j < 0 ->
         r.1 <= - coeff s' j / coeff ds' j)
   /\ (r.1 = a_s \/ exists j, (i <= j)%nat /\ (j < i + k)%nat /\ coeff ds' j < 0
                              /\ r.1 = - coeff s' j / coeff ds' j))
  /\ (r.2 <= a_z
   /\ (forall j, (i <= j)%nat -> (j < i + k)%nat -> coeff dz' j < 0 ->
         r.2 <= - coeff z' j / coeff dz' j)
   /\ (r.2 = a_z \/ exists j, (i <= j)%nat /\ (j < i + k)%nat /\ coeff dz' j < 0
                              /\ r.2 = - coeff z' j / coeff dz' j)).
Proof.
  induction k as [|k IH]; intros i a_s a_z; cbv zeta.
  - cbn [alpha_loop fst snd]. split; (split; [lra|split; [intros; lia|by left]]).
  - cbn [alpha_loop].
    match goal with |- context [alpha_loop _ _ _ _ _ _ (?a, ?b)] =>
      destruct (IH (S i) a b) as [(S1 & S2 & S3) (Z1 & Z2 & Z3)];
      set (r := alpha_loop s' ds' z' dz' (S i) k (a, b)) in *;
      set (na := a) in *; set (nb := b) in * end.
    split.
    + assert (Hna : na <= a_s
                    /\ (coeff ds' i < 0 -> na <= (- coeff s' i / coeff ds' i))
                    /\ (na = a_s \/ (coeff ds' i < 0 /\ na = (- coeff s' i / coeff ds' i)%sc))).
      { subst na. destruct (coeff ds' i <? sc_zero)%sc eqn:E.
        - apply sc_ltb_Q in E.
          destruct (sc_min_Q a_s (- coeff s' i / coeff ds' i)%sc) as [[-> Hm]|[-> Hm]].
          + split_and!; [lra|done|by left].
          + split_and!; [lra|intros; q_ops; lra|by right].
        - apply sc_ltb_Q_false in E. rewrite sc_zero_Q in E.
          split_and!; [lra|intros; lra|by left]. }
      destruct Hna as (N1 & N2 & N3).
      split_and!.
      * lra.
      * intros j Hj1 Hj2 Hd. destruct (decide (j = i)) as [->|Hne].
        -- specialize (N2 Hd). lra.
        -- apply S2; [lia|lia|done].
      * destruct S3 as [S3|(j & ? & ? & ? & S3)].
        -- destruct N3 as [N3|[Hd N3]].
           ++ left. congruence.
           ++ right. exists i. split_and!; [lia|lia|done|]. rewrite S3, N3. reflexivity.
        -- right. exists j. split_and!; [lia|lia|done|done].
    + assert (Hnb : nb <= a_z
                    /\ (coeff dz' i < 0 -> nb <= (- coeff z' i / coeff dz' i))
                    /\ (nb = a_z \/ (coeff dz' i < 0 /\ nb = (- coeff z' i / coeff dz' i)%sc))).
      { subst nb. destruct (coeff dz' i <? sc_zero)%sc eqn:E.
        - apply sc_ltb_Q in E.
          destruct (sc_min_Q a_z (- coeff z' i / coeff dz' i)%sc) as [[-> Hm]|[-> Hm]].
          + split_and!; [lra|done|by left].
          + split_and!; [lra|intros; q_ops; lra|by right].
        - apply sc_ltb_Q_false in E. rewrite sc_zero_Q in E.
          split_and!; [lra|intros; lra|by left]. }
      destruct Hnb as (N1 & N2 & N3).
      split_and!.
      * lra.
      * intros j Hj1 Hj2 Hd. destruct (decide (j = i)) as [->|Hne].
        -- specialize (N2 Hd). lra.
        -- apply Z2; [lia|lia|done].
      * destruct Z3 as [Z3|(j & ? & ? & ? & Z3)].
        -- destruct N3 as [N3|[Hd N3]].
           ++ left. congruence.
           ++ right. exists i. split_and!; [lia|lia|done|]. rewrite Z3, N3. reflexivity.
        -- right. exists j. split_and!; [lia|lia|done|done].
Qed.

Lemma ratio_positive (v dv : Q) : 0 < v -> dv < 0 -> 0 < - v / dv.
Proof.
  intros Hv Hd. assert (E : (- v / dv) * - dv == v) by (field; lra).
  remember (- v / dv) as q eqn:Eq. clear Eq. nra.
Qed.

(** A step below the ratios, damped by [tau], keeps an entry positive. *)
Lemma damped_step_positive (alpha tau' v dv : Q) :
  0 < tau' -> tau' < 1 -> 0 < alpha -> 0 < v ->
  (dv < 0 -> alpha <= - v / dv) ->
  0 < v + (alpha * tau') * dv.
Proof.
  intros Ht1 Ht2 Ha Hv Hb.
  destruct (Qlt_le_dec dv 0) as [Hd|Hd].
  - specialize (Hb Hd).
    assert (E : (- v / dv) * - dv == v) by (field; lra).
    remember (- v / dv) as q eqn:Eq. clear Eq.
    assert (H0 : 0 < alpha * - dv) by nra.
    assert (H1 : alpha * - dv <= v) by nra.
    assert (H2 : tau' * (alpha * - dv) < alpha * - dv) by nra.
    lra.
  - assert (H0 : 0 <= alpha * tau') by nra.
    assert (H1 : 0 <= (alpha * tau') * dv) by nra.
    lra.
Qed.

Lemma coeff_step (ps : Q) (v dv : list Q) i :
  (i < length v)%nat -> (i < length dv)%nat ->
  coeff (vadd v (vscale ps dv)) i = coeff v i + ps * coeff dv i.
Proof.
  intros Hv Hd. unfold vadd, vscale.
  rewrite coeff_zip_with, coeff_map by (rewrite ?length_map; lia). reflexivity.
Qed.

Lemma coeff_take (k : nat) (v : list Q) i : (i < k)%nat -> coeff (take k v) i = coeff v i.
Proof. intros Hi. unfold coeff. by rewrite lookup_take_lt. Qed.

Lemma coeff_head_step (ps : Q) (k : nat) (v dv : list Q) i :
  (i < k)%nat -> (k <= length v)%nat -> (k <= length dv)%nat ->
  coeff (upd_head k (fun u => vadd u (vscale ps (vhead k dv))) v) i
  = coeff v i + ps * coeff dv i.
Proof.
  intros Hi Hv Hd. unfold upd_head, set_head, vhead.
  assert (L : length (vadd (take k v) (vscale ps (take k dv))) = k).
  { unfold vadd, vscale. rewrite length_zip_with, length_map, !length_take. lia. }
  unfold coeff at 1. rewrite lookup_app_l by (rewrite length_take, L; lia).
  rewrite lookup_take_lt by done.
  change (default sc_zero (vadd (take k v) (vscale ps (take k dv)) !! i))
    with (coeff (vadd (take k v) (vscale ps (take k dv))) i).
  rewrite coeff_step by (rewrite length_take; lia).
  by rewrite !coeff_take.
Qed.

End StepQ.

Section PositivityQ.
Context {PC K : Type}.
Context (pc_ops : PreconditionerOps Q PC) (kkt_ops : KKTOps Q K).
Local Abbreviation SolverQ := (Solver Q PC K).
Local Open Scope Q_scope.

(** The three loops of [step_to_boundary] give the largest step, at most
    1, below every ratio of the three blocks. *)
Lemma step_to_boundary_min (sv : SolverQ) :
  let d := m_data sv in
  let r0 := m_result sv in
  let a := step_to_boundary sv in
  (a.1 <= 1
   /\ below_ratios a.1 (m d) (s r0) (ds sv)
   /\ below_ratios a.1 (n_lb d) (s_lb r0) (ds_lb sv)
   /\ below_ratios a.1 (n_ub d) (s_ub r0) (ds_ub sv)
   /\ (a.1 = 1 \/ is_ratio a.1 (m d) (s r0) (ds sv)
       \/ is_ratio a.1 (n_lb d) (s_lb r0) (ds_lb sv)
       \/ is_ratio a.1 (n_ub d) (s_ub r0) (ds_ub sv)))
  /\ (a.2 <= 1
   /\ below_ratios a.2 (m d) (z r0) (dz sv)
   /\ below_ratios a.2 (n_lb d) (z_lb r0) (dz_lb sv)
   /\ below_ratios a.2 (n_ub d) (z_ub r0) (dz_ub sv)
   /\ (a.2 = 1 \/ is_ratio a.2 (m d) (z r0) (dz sv)
       \/ is_ratio a.2 (n_lb d) (z_lb r0) (dz_lb sv)
       \/ is_ratio a.2 (n_ub d) (z_ub r0) (dz_ub sv))).
Proof.
  cbv zeta. unfold step_to_boundary. cbv zeta.
  forget (m_data sv) d. forget (m_result sv) r0.
  pose proof (alpha_loop_min (s r0) (ds sv) (z r0) (dz sv) (m d) 0 sc_one sc_one) as H1.
  cbv zeta in H1.
  destruct (alpha_loop (s r0) (ds sv) (z r0) (dz sv) 0 (m d) (sc_one, sc_one))
    as [a1 b1].
  pose proof (alpha_loop_min (s_lb r0) (ds_lb sv) (z_lb r0) (dz_lb sv) (n_lb d) 0 a1 b1)
    as H2.
  cbv zeta in H2.
  destruct (alpha_loop (s_lb r0) (ds_lb sv) (z_lb r0) (dz_lb sv) 0 (n_lb d) (a1, b1))
    as [a2 b2].
  pose proof (alpha_loop_min (s_ub r0) (ds_ub sv) (z_ub r0) (dz_ub sv) (n_ub d) 0 a2 b2)
    as H3.
  cbv zeta in H3.
  destruct (alpha_loop (s_ub r0) (ds_ub sv) (z_ub r0) (dz_ub sv) 0 (n_ub d) (a2, b2))
    as [a3 b3].
  cbn [fst snd] in *. rewrite sc_one_Q in H1.
  destruct H1 as [(S11 & S12 & S13) (Z11 & Z12 & Z13)].
  destruct H2 as [(S21 & S22 & S23) (Z21 & Z22 & Z23)].
  destruct H3 as [(S31 & S32 & S33) (Z31 & Z32 & Z33)].
  unfold below_ratios, is_ratio. split.
  - split_and!.
    + lra.
    + intros i Hi Hd. apply Qle_trans with a1; [lra|]. apply S12; [lia|lia|done].
    + intros i Hi Hd. apply Qle_trans with a2; [lra|]. apply S22; [lia|lia|done].
    + intros i Hi Hd. apply S32; [lia|lia|done].
    + destruct S33 as [->|(j & ? & ? & ? & ->)];
        [|right; right; right; exists j; split_and!; [lia|done|done]].
      destruct S23 as [->|(j & ? & ? & ? & ->)];
        [|right; right; left; exists j; split_and!; [lia|done|done]].
      destruct S13 as [->|(j & ? & ? & ? & ->)];
        [by left|right; left; exists j; split_and!; [lia|done|done]].
  - split_and!.
    + lra.
    + intros i Hi Hd. apply Qle_trans with b1; [lra|]. apply Z12; [lia|lia|done].
    + intros i Hi Hd. apply Qle_trans with b2; [lra|]. apply Z22; [lia|lia|done].
    + intros i Hi Hd. apply Z32; [lia|lia|done].
    + destruct Z33 as [->|(j & ? & ? & ? & ->)];
        [|right; right; right; exists j; split_and!; [lia|done|done]].
      destruct Z23 as [->|(j & ? & ? & ? & ->)];
        [|right; right; left; exists j; split_and!; [lia|done|done]].
      destruct Z13 as [->|(j & ? & ? & ? & ->)];
        [by left|right; left; exists j; split_and!; [lia|done|done]].
Qed.

(** Such a step is positive when the blocks are. *)
Lemma boundary_step_positive (a : Q) k1 k2 k3 v1 d1 v2 d2 v3 d3 :
  positive_head k1 v1 -> positive_head k2 v2 -> positive_head k3 v3 ->
  (a = 1 \/ is_ratio a k1 v1 d1 \/ is_ratio a k2 v2 d2 \/ is_ratio a k3 v3 d3) ->
  0 < a.
Proof.
  intros P1 P2 P3 [->|[(i & Hi & Hd & ->)|[(i & Hi & Hd & ->)|(i & Hi & Hd & ->)]]].
  - lra.
  - apply ratio_positive; [by apply P1|done].
  - apply ratio_positive; [by apply P2|done].
  - apply ratio_positive; [by apply P3|done].
Qed.


Lemma predictor_corrector_slacks (sv : SolverQ) :
  slack_view (m_result (predictor_corrector pc_ops kkt_ops sv))
  = slack_view (m_result (update_iterate (corrector kkt_ops (predictor kkt_ops sv)))).
Proof.
  cbv beta delta [predictor_corrector]. cbv zeta.
  etransitivity; [apply update_delta_spec|].
  etransitivity; [apply update_rho_spec|].
  etransitivity; [apply keep_update_nr_residuals|].
  apply keep_set_mu.
Qed.

Lemma positive_step (alpha tau' : Q) (k : nat) (v dv : list Q) :
  0 < tau' -> tau' < 1 -> 0 < alpha ->
  positive_head k v -> below_ratios alpha k v dv ->
  forall i, (i < k)%nat -> 0 < coeff v i + (alpha * tau') * coeff dv i.
Proof.
  intros Ht1 Ht2 Ha Hp Hb i Hi.
  apply damped_step_positive; [done|done|done|by apply Hp|by apply Hb].
Qed.

(** C3 (amended).  In exact arithmetic, the scalars being the rationals:
    in a pass with inequalities, with tau in (0, 1) and the live slacks
    and duals positive at its start, the two step lengths are tau times
    the largest step of at most 1 below every ratio [-s(i) / ds(i)] with
    [ds(i) < 0] (resp. on z), and every live entry of s, s_lb, s_ub, z,
    z_lb, z_ub is positive after the update of the iterate. *)
Theorem step_keeps_interior (sv : SolverQ) :
  let d := m_data sv in
  let r0 := m_result sv in
  let sc := corrector kkt_ops (predictor kkt_ops sv) in
  let r1 := m_result (predictor_corrector pc_ops kkt_ops sv) in
  let alpha := step_to_boundary sc in
  0 < tau (m_settings sv) -> tau (m_settings sv) < 1 ->
  length (s r0) = m d -> length (z r0) = m d ->
  length (ds sc) = m d -> length (dz sc) = m d ->
  (n_lb d <= length (s_lb r0))%nat -> (n_lb d <= length (z_lb r0))%nat ->
  (n_lb d <= length (ds_lb sc))%nat -> (n_lb d <= length (dz_lb sc))%nat ->
  (n_ub d <= length (s_ub r0))%nat -> (n_ub d <= length (z_ub r0))%nat ->
  (n_ub d <= length (ds_ub sc))%nat -> (n_ub d <= length (dz_ub sc))%nat ->
  positive_head (m d) (s r0) -> positive_head (n_lb d) (s_lb r0) ->
  positive_head (n_ub d) (s_ub r0) ->
  positive_head (m d) (z r0) -> positive_head (n_lb d) (z_lb r0) ->
  positive_head (n_ub d) (z_ub r0) ->
  (primal_step (sv_info sc) = alpha.1 * tau (m_settings sv)
   /\ alpha.1 <= 1
   /\ below_ratios alpha.1 (m d) (s r0) (ds sc)
   /\ below_ratios alpha.1 (n_lb d) (s_lb r0) (ds_lb sc)
   /\ below_ratios alpha.1 (n_ub d) (s_ub r0) (ds_ub sc)
   /\ (alpha.1 = 1 \/ is_ratio alpha.1 (m d) (s r0) (ds sc)
       \/ is_ratio alpha.1 (n_lb d) (s_lb r0) (ds_lb sc)
       \/ is_ratio alpha.1 (n_ub d) (s_ub r0) (ds_ub sc)))
  /\ (dual_step (sv_info sc) = alpha.2 * tau (m_settings sv)
   /\ alpha.2 <= 1
   /\ below_ratios alpha.2 (m d) (z r0) (dz sc)
   /\ below_ratios alpha.2 (n_lb d) (z_lb r0) (dz_lb sc)
   /\ below_ratios alpha.2 (n_ub d) (z_ub r0) (dz_ub sc)
   /\ (alpha.2 = 1 \/ is_ratio alpha.2 (m d) (z r0) (dz sc)
       \/ is_ratio alpha.2 (n_lb d) (z_lb r0) (dz_lb sc)
       \/ is_ratio alpha.2 (n_ub d) (z_ub r0) (dz_ub sc)))
  /\ positive_head (m d) (s r1) /\ positive_head (n_lb d) (s_lb r1)
  /\ positive_head (n_ub d) (s_ub r1)
  /\ positive_head (m d) (z r1) /\ positive_head (n_lb d) (z_lb r1)
  /\ positive_head (n_ub d) (z_ub r1).
Proof.
  cbv zeta.
  destruct (slack_view_eq (predictor_corrector_slacks sv)) as (-> & -> & -> & -> & -> & ->).
  destruct (view_predictor kkt_ops sv) as [Fp _].
  destruct (keep_predictor kkt_ops sv) as (_ & _ & Sp).
  forget (predictor kkt_ops sv) sp.
  destruct (view_corrector kkt_ops sp) as [Fc _].
  destruct (keep_corrector kkt_ops sp) as (_ & _ & Sc).
  destruct (corrector_steps kkt_ops sp) as [Ep Ed]. cbv zeta in Ep, Ed.
  pose proof (step_to_boundary_min (corrector kkt_ops sp)) as Hmin. cbv zeta in Hmin.
  destruct (update_iterate_fields (corrector kkt_ops sp))
    as (-> & -> & -> & -> & -> & -> & _). 
  forget (corrector kkt_ops sp) sc.
  assert (Hd : m_data sc = m_data sv) by (unfold frame_of in *; congruence).
  assert (Hs : m_settings sp = m_settings sv) by (unfold frame_of in *; congruence).
  assert (Sv : slack_view (m_result sc) = slack_view (m_result sv)) by congruence.
  apply slack_view_eq in Sv as (S1 & S2 & S3 & S4 & S5 & S6).
  rewrite Hs in Ep, Ed. rewrite Hd, S1, S2, S3, S4, S5, S6 in Hmin. 
  rewrite Hd, S1, S2, S3, S4, S5, S6, Ep, Ed. clear Fp Sp Fc Sc Hd Hs S1 S2 S3 S4 S5 S6 Ep Ed.
  forget (m_data sv) d. forget (m_result sv) r0.
  forget (tau (m_settings sv)) tau'.
  destruct (step_to_boundary sc) as [a_s a_z]. cbn [fst snd] in *.
  destruct Hmin as [(A1 & A2 & A3 & A4 & A5) (B1 & B2 & B3 & B4 & B5)].
  intros Ht1 Ht2 L1 L2 L3 L4 L5 L6 L7 L8 L9 L10 L11 L12 P1 P2 P3 P4 P5 P6.
  assert (Ha : 0 < a_s) by (eapply boundary_step_positive; [| | |exact A5]; done).
  assert (Hb : 0 < a_z) by (eapply boundary_step_positive; [| | |exact B5]; done).
  split; [done|]. split; [done|].
  split_and!; intros i Hi.
  - rewrite coeff_step by lia. by apply positive_step with (m d).
  - rewrite coeff_head_step by lia. by apply positive_step with (n_lb d).
  - rewrite coeff_head_step by lia. by apply positive_step with (n_ub d).
  - rewrite coeff_step by lia. by apply positive_step with (m d).
  - rewrite coeff_head_step by lia. by apply positive_step with (n_lb d).
  - rewrite coeff_head_step by lia. by apply positive_step with (n_ub d).
Qed.

End PositivityQ.

(** ** The regularisation across the passes *)

Section RegViews.
Context {T : Type} `{Scalar T} {PC K : Type}.
Context (pc_ops : PreconditionerOps T PC) (kkt_ops : KKTOps T K).
Local Abbreviation SolverT := (Solver T PC K).

(** The two ways a pass goes on to the next one. *)
Lemma outer_iteration_continue_cases (sv sv' : SolverT) :
  outer_iteration pc_ops kkt_ops sv = Continue sv' ->
  let f := refactorize kkt_ops (update_residuals (begin_iteration pc_ops sv)) in
  let s0 := upd_info (set_factor_retires 0%Z) f.2 in
  (f.1 = true
   /\ sv' = if (0 <? N_ineq (m_data s0))%nat
            then predictor_corrector pc_ops kkt_ops s0
            else newton_step pc_ops kkt_ops s0)
  \/ (f.1 = false /\ sv' = retry_iteration f.2).
Proof.
  rewrite outer_iteration_unfold. cbv zeta.
  destruct (converged _); [discriminate|].
  destruct (primal_infeasible _ _); [discriminate|].
  destruct (dual_infeasible _ _); [discriminate|].
  destruct (refactorize kkt_ops _) as [[|] sf]; cbn [negb fst snd].
  - intros E. left. split; [done|]. break_if; by injection E as <-.
  - break_if; [|discriminate]. intros [= <-]. by right.
Qed.

Lemma keep_begin_iteration_reg (sv : SolverT) :
  reg_view (begin_iteration pc_ops sv) = reg_view sv
  /\ mu (sv_info (begin_iteration pc_ops sv)) = mu (sv_info sv).
Proof.
  cbv beta delta [begin_iteration]. cbv zeta. do 2 break_if; split; reflexivity.
Qed.

Lemma keep_update_residuals_reg (sv : SolverT) :
  reg_view (update_residuals sv) = reg_view sv
  /\ mu (sv_info (update_residuals sv)) = mu (sv_info sv).
Proof. split; reflexivity. Qed.

Lemma refactorize_reg (sv : SolverT) :
  let sf := (refactorize kkt_ops sv).2 in
  rho (sv_info sf) = rho (sv_info sv) /\ delta (sv_info sf) = delta (sv_info sv)
  /\ mu (sv_info sf) = mu (sv_info sv)
  /\ (reg_limit (sv_info sf) = reg_limit (sv_info sv)
      \/ reg_limit (sv_info sf) = sc_dec 1 (10 ^ 13)).
Proof.
  cbv beta delta [refactorize relax_reg_limit factorize]. cbv zeta.
  break_if; break_pair; (split_and!; [reflexivity..|]); [right|left]; reflexivity.
Qed.

Lemma reset_retires_reg (sv : SolverT) :
  reg_view (upd_info (set_factor_retires 0%Z) sv) = reg_view sv
  /\ mu (sv_info (upd_info (set_factor_retires 0%Z) sv)) = mu (sv_info sv)
  /\ m_data (upd_info (set_factor_retires 0%Z) sv) = m_data sv.
Proof. split_and!; reflexivity. Qed.

(** The regularisation at the solve of a pass whose factorisation succeeds. *)
Lemma pass_reg (sv : SolverT) :
  let sf := (refactorize kkt_ops (update_residuals (begin_iteration pc_ops sv))).2 in
  let s0 := upd_info (set_factor_retires 0%Z) sf in
  rho (sv_info s0) = rho (sv_info sv) /\ delta (sv_info s0) = delta (sv_info sv)
  /\ mu (sv_info s0) = mu (sv_info sv)
  /\ (reg_limit (sv_info s0) = reg_limit (sv_info sv)
      \/ reg_limit (sv_info s0) = sc_dec 1 (10 ^ 13))
  /\ m_data s0 = m_data sv.
Proof.
  cbv zeta.
  destruct (view_begin_iteration pc_ops sv) as [Fb _].
  destruct (keep_begin_iteration_reg sv) as [Rb Mb]. apply reg_view_eq in Rb.
  forget (begin_iteration pc_ops sv) sb.
  destruct (view_update_residuals sb) as [Fu _].
  destruct (keep_update_residuals_reg sb) as [Ru Mu]. apply reg_view_eq in Ru.
  forget (update_residuals sb) su.
  destruct (view_refactorize kkt_ops su) as [Ff _].
  destruct (refactorize_reg su) as (R1 & R2 & R3 & R4). cbv zeta in R1, R2, R3, R4.
  forget ((refactorize kkt_ops su).2) sf.
  destruct (reset_retires_reg sf) as (R0 & M0 & D0). apply reg_view_eq in R0.
  forget (upd_info (set_factor_retires 0%Z) sf) s0.
  destruct Rb as (? & ? & ?), Ru as (? & ? & ?), R0 as (? & ? & ?).
  assert (m_data sf = m_data sv) by (unfold frame_of in *; congruence).
  split_and!; [congruence..| |congruence].
  destruct R4; [left|right]; congruence.
Qed.

(** The regularisation after the branch with inequalities. *)
Lemma predictor_corrector_reg (sv : SolverT) :
  let sv' := predictor_corrector pc_ops kkt_ops sv in
  let i0 := sv_info sv in
  exists mu' : T,
    let rate := (sc_abs (mu i0 - mu') / mu i0)%sc in
    let good := (sc_one - rate)%sc in
    let bad := (sc_one - sc_dec 666 1000 * rate)%sc in
    (rho (sv_info sv') = sc_max (reg_limit i0) (good * rho i0)%sc
     \/ rho (sv_info sv') = sc_max (reg_limit i0) (bad * rho i0)%sc)
    /\ (delta (sv_info sv') = sc_max (reg_limit i0) (good * delta i0)%sc
        \/ delta (sv_info sv') = sc_max (reg_limit i0) (bad * delta i0)%sc)
    /\ reg_limit (sv_info sv') = reg_limit i0.
Proof.
  cbv beta delta [predictor_corrector]. cbv zeta.
  destruct (keep_predictor kkt_ops sv) as (Rp & Mp & _). apply reg_view_eq in Rp.
  forget (predictor kkt_ops sv) sp.
  destruct (keep_corrector kkt_ops sp) as (Rc & Mc & _). apply reg_view_eq in Rc.
  forget (corrector kkt_ops sp) sc.
  destruct (update_iterate_fields sc) as (_ & _ & _ & _ & _ & _ & Ri & Mi).
  apply reg_view_eq in Ri.
  forget (update_iterate sc) s3.
  exists (complementarity s3).
  assert (Em : forall v, mu (sv_info (upd_info (set_mu v) s3)) = v) by reflexivity.
  rewrite Em.
  destruct (keep_set_mu (complementarity s3) s3) as [R4 _]. apply reg_view_eq in R4.
  forget (upd_info (set_mu (complementarity s3)) s3) s4.
  destruct (keep_update_nr_residuals pc_ops s4) as [R5 _]. apply reg_view_eq in R5.
  forget (update_nr_residuals pc_ops s4) s5.
  assert (E3 : mu (sv_info s3) = mu (sv_info sv)) by congruence.
  rewrite E3.
  match goal with |- context [update_rho pc_ops ?g0 ?b0 s5] =>
    change (sc_one - sc_abs (mu (sv_info sv) - complementarity s3) / mu (sv_info sv))%sc
      with g0;
    change (sc_one - sc_dec 666 1000 *
              (sc_abs (mu (sv_info sv) - complementarity s3) / mu (sv_info sv)))%sc
      with b0;
    generalize g0 b0; intros g b end.
  destruct (update_rho_spec pc_ops g b s5) as (R6 & D6 & L6 & _). cbv zeta in R6, D6, L6.
  forget (update_rho pc_ops g b s5) s6.
  destruct (update_delta_spec pc_ops g b s6) as (D7 & R7 & L7 & _). cbv zeta in D7, R7, L7.
  forget (update_delta pc_ops g b s6) s7.
  destruct Rp as (? & ? & ?), Rc as (? & ? & ?), Ri as (? & ? & ?),
           R4 as (? & ? & ?), R5 as (? & ? & ?).
  assert (E1 : rho (sv_info s5) = rho (sv_info sv)) by congruence.
  assert (E2 : delta (sv_info s5) = delta (sv_info sv)) by congruence.
  assert (E4 : reg_limit (sv_info s5) = reg_limit (sv_info sv)) by congruence.
  rewrite R7, L7, L6. rewrite L6, D6 in D7. rewrite E1, E4 in R6. rewrite E2, E4 in D7.
  split_and!; [exact R6 | exact D7 | exact E4].
Qed.

(** The regularisation after the branch without inequalities. *)
Lemma newton_step_reg (sv : SolverT) :
  let sv' := newton_step pc_ops kkt_ops sv in
  let i0 := sv_info sv in
  (rho (sv_info sv') = sc_max (reg_limit i0) (sc_dec 1 10 * rho i0)%sc
   \/ rho (sv_info sv') = sc_max (reg_limit i0) (sc_dec 1 2 * rho i0)%sc)
  /\ (delta (sv_info sv') = sc_max (reg_limit i0) (sc_dec 1 10 * delta i0)%sc
      \/ delta (sv_info sv') = sc_max (reg_limit i0) (sc_dec 1 2 * delta i0)%sc)
  /\ reg_limit (sv_info sv') = reg_limit i0.
Proof.
  cbv beta delta [newton_step]. cbv zeta.
  match goal with |- context [update_nr_residuals pc_ops ?a] =>
    assert (R4 : reg_view a = reg_view sv) by reflexivity;
    forget a s4 end.
  apply reg_view_eq in R4.
  destruct (keep_update_nr_residuals pc_ops s4) as [R5 _]. apply reg_view_eq in R5.
  forget (update_nr_residuals pc_ops s4) s5.
  destruct (update_rho_spec pc_ops (sc_dec 1 10) (sc_dec 1 2) s5) as (R6 & D6 & L6 & _).
  cbv zeta in R6, D6, L6.
  forget (update_rho pc_ops (sc_dec 1 10) (sc_dec 1 2) s5) s6.
  destruct (update_delta_eq_spec pc_ops (sc_dec 1 10) (sc_dec 1 2) s6) as (D7 & R7 & L7).
  cbv zeta in D7, R7, L7.
  forget (update_delta_eq pc_ops (sc_dec 1 10) (sc_dec 1 2) s6) s7.
  destruct R4 as (? & ? & ?), R5 as (? & ? & ?).
  assert (E1 : rho (sv_info s5) = rho (sv_info sv)) by congruence.
  assert (E2 : delta (sv_info s5) = delta (sv_info sv)) by congruence.
  assert (E4 : reg_limit (sv_info s5) = reg_limit (sv_info sv)) by congruence.
  rewrite R7, L7, L6. rewrite L6, D6 in D7. rewrite E1, E4 in R6. rewrite E2, E4 in D7.
  split_and!; [exact R6 | exact D7 | exact E4].
Qed.

End RegViews.

Section RegQ.
Context {PC K : Type}.
Context (pc_ops : PreconditionerOps Q PC) (kkt_ops : KKTOps Q K).
Local Abbreviation SolverQ := (Solver Q PC K).
Local Open Scope Q_scope.

(** A factor of at most 1 and a floor below the value: the floored
    product does not exceed the value and stays at or above the floor. *)
Lemma floored_factor (reg g v : Q) :
  0 < reg -> reg <= v -> g <= 1 ->
  sc_max reg (g * v)%sc <= v /\ 0 < sc_max reg (g * v)%sc
  /\ reg <= sc_max reg (g * v)%sc.
Proof.
  intros Hr Hv Hg.
  destruct (sc_max_Q reg (g * v)%sc) as [[-> Hm]|[-> Hm]]; q_ops; split_and!; nra.
Qed.

Lemma mu_rate_nonneg (mu0 mu' : Q) : 0 < mu0 -> 0 <= (sc_abs (mu0 - mu') / mu0)%sc.
Proof.
  intros Hm. q_ops. apply Qle_shift_div_l; [done|].
  rewrite Qmult_0_l. apply Qabs_nonneg.
Qed.

Lemma factors_le_1 (rate : Q) :
  0 <= rate ->
  (sc_one - rate)%sc <= 1 /\ (sc_one - sc_dec 666 1000 * rate)%sc <= 1.
Proof.
  intros Hr.
  assert (Hc : 0 <= (sc_dec 666 1000 : Q)) by (vm_compute; discriminate).
  forget (sc_dec 666 1000 : Q) c6. rewrite sc_one_Q. q_ops. split; nra.
Qed.

Lemma newton_factors_le_1 : (sc_dec 1 10 : Q) <= 1 /\ (sc_dec 1 2 : Q) <= 1.
Proof. split; vm_compute; discriminate. Qed.

Lemma floor_positive : 0 < (sc_dec 1 (10 ^ 13) : Q).
Proof. reflexivity. Qed.


(** One update of the regularisation, from a floor between [1e-13] and the
    value. *)
Lemma floored_update (reg0 reg v v' good bad : Q) :
  sc_dec 1 (10 ^ 13) <= reg -> reg <= v ->
  reg0 = reg \/ reg0 = sc_dec 1 (10 ^ 13) ->
  good <= 1 -> bad <= 1 ->
  v' = sc_max reg0 (good * v)%sc \/ v' = sc_max reg0 (bad * v)%sc ->
  v' <= v /\ 0 < v' /\ reg0 <= v'.
Proof.
  intros Hf Hr H0 Hg Hb Hv. pose proof floor_positive as Hp.
  assert (H1 : 0 < reg0 /\ reg0 <= v) by (destruct H0 as [->| ->]; split; lra).
  destruct H1 as [H1 H2].
  destruct Hv as [->| ->]; by apply floored_factor.
Qed.

(** C4 (amended).  A pass that goes on to the next one, entered with
    [1e-13 <= reg_limit <= min rho delta] and, with inequalities, [mu > 0]:
    if its factorisation succeeds, rho and delta do not increase, stay
    positive and stay at or above the floor; if it fails, both are
    multiplied by 100. *)
Theorem regularisation_steps (sv sv' : SolverQ) :
  outer_iteration pc_ops kkt_ops sv = Continue sv' ->
  let i0 := sv_info sv in
  let i1 := sv_info sv' in
  let floor := sc_dec 1 (10 ^ 13) : Q in
  floor <= reg_limit i0 -> reg_limit i0 <= rho i0 -> reg_limit i0 <= delta i0 ->
  ((0 < N_ineq (m_data sv))%nat -> 0 < mu i0) ->
  if (refactorize kkt_ops (update_residuals (begin_iteration pc_ops sv))).1
  then rho i1 <= rho i0 /\ delta i1 <= delta i0 /\ 0 < rho i1 /\ 0 < delta i1
       /\ floor <= reg_limit i1 /\ reg_limit i1 <= rho i1 /\ reg_limit i1 <= delta i1
  else rho i1 = (rho i0 * sc_of_Z 100)%sc /\ delta i1 = (delta i0 * sc_of_Z 100)%sc.
Proof.
  intros Ho. cbv zeta. intros Hf Hr Hd Hmu.
  apply outer_iteration_continue_cases in Ho. cbv zeta in Ho.
  destruct Ho as [[-> ->]|[-> ->]].
  - destruct (pass_reg pc_ops kkt_ops sv) as (E1 & E2 & E3 & E4 & E5).
    cbv zeta in E1, E2, E3, E4, E5.
    forget (upd_info (set_factor_retires 0%Z)
              (refactorize kkt_ops (update_residuals (begin_iteration pc_ops sv))).2) s0.
    assert (Hfl : sc_dec 1 (10 ^ 13) <= reg_limit (sv_info s0))
      by (destruct E4 as [-> | ->]; lra).
    destruct (0 <? N_ineq (m_data s0))%nat eqn:HN.
    + apply Nat.ltb_lt in HN. rewrite E5 in HN. specialize (Hmu HN).
      destruct (predictor_corrector_reg pc_ops kkt_ops s0) as (mu' & Hpc).
      cbv zeta in Hpc. destruct Hpc as (R & D & L).
      rewrite E1, E3 in R. rewrite E2, E3 in D.
      destruct (factors_le_1 (@mu_rate_nonneg _ mu' Hmu)) as [G B].
      destruct (floored_update Hf Hr E4 G B R) as (? & ? & ?).
      destruct (floored_update Hf Hd E4 G B D) as (? & ? & ?).
      rewrite L. split_and!; done.
    + destruct (newton_step_reg pc_ops kkt_ops s0) as (R & D & L).
      cbv zeta in R, D, L. rewrite E1 in R. rewrite E2 in D.
      destruct newton_factors_le_1 as [G B].
      destruct (floored_update Hf Hr E4 G B R) as (? & ? & ?).
      destruct (floored_update Hf Hd E4 G B D) as (? & ? & ?).
      rewrite L. split_and!; done.
  - destruct (retry_after_refactorize pc_ops kkt_ops sv) as (E1 & E2 & _).
    cbv zeta in E1, E2. split; assumption.
Qed.

End RegQ.

(** ** The properties on the concrete problems *)

(** The first entries of a concrete vector are positive. *)
Ltac head_positive :=
  let i := fresh "i" in
  let Hi := fresh "Hi" in
  intros i Hi; vm_compute in Hi;
  repeat (destruct i as [|i]; [vm_compute; reflexivity|]); lia.

(** C1 on the problem without constraints. *)
Lemma solved_iff_convergence_test_witness :
  solve_prologue diag_ops positive_settings plain_solver = Some (Continue plain_entry)
  /\ exists st sv',
       solve_impl no_scaling diag_ops positive_settings plain_solver = Some (st, sv')
       /\ solve no_scaling diag_ops positive_settings plain_solver
          = Some (st, restore_box_dual (unscale_results no_scaling sv'))
       /\ (st = PIQP_SOLVED <->
           exists svk, visits no_scaling diag_ops plain_entry svk
             /\ (iter (sv_info svk) < max_iter (m_settings svk))%Z
             /\ convergence_test no_scaling (begin_iteration no_scaling svk)).
Proof.
  split; [vm_compute; reflexivity|].
  apply (@solved_iff_convergence_test _ _ _ _ no_scaling diag_ops positive_settings
           plain_solver plain_entry).
  vm_compute. reflexivity.
Defined.

(** C9 on the boxed problem. *)
Lemma solve_restores_box_duals_witness :
  let d := m_data boxed_impl.2 in
  let r1 := m_result (unscale_results no_scaling boxed_impl.2) in
  solve_impl no_scaling script_ops positive_settings boxed_solver
  = Some (boxed_impl.1, boxed_impl.2)
  /\ box_index_ok (n d) (n_lb d) (x_lb_idx d) = true
  /\ box_index_ok (n d) (n_ub d) (x_ub_idx d) = true
  /\ length (z_lb r1) = n d /\ length (s_lb r1) = n d /\ length (nu_lb r1) = n d
  /\ length (z_ub r1) = n d /\ length (s_ub r1) = n d /\ length (nu_ub r1) = n d
  /\ exists sv',
       solve no_scaling script_ops positive_settings boxed_solver
       = Some (boxed_impl.1, sv')
       /\ dense_layout (n d) (n_lb d) (x_lb_idx d) 0%Q (z_lb r1) (z_lb (m_result sv'))
       /\ dense_layout (n d) (n_ub d) (x_ub_idx d) 0%Q (s_ub r1) (s_ub (m_result sv')).
Proof.
  cbv zeta.
  assert (Hs : solve_impl no_scaling script_ops positive_settings boxed_solver
               = Some (boxed_impl.1, boxed_impl.2)) by (vm_compute; reflexivity).
  split_and!; [exact Hs | vm_compute; reflexivity..|].
  destruct (@solve_restores_box_duals _ _ _ _ no_scaling script_ops positive_settings
              boxed_solver boxed_impl.1 boxed_impl.2 Hs
              eq_refl eq_refl eq_refl eq_refl eq_refl eq_refl eq_refl eq_refl)
    as (sv' & E & _ & L1 & _ & _ & _ & L5 & _).
  exists sv'. split_and!; [exact E | exact L1 | exact L5].
Defined.

(** C6 (amended) on the boxed problem. *)
Lemma initial_iterate_witness :
  solve_prologue script_ops positive_settings boxed_solver = Some (Continue boxed_entry)
  /\ m_kkt_init_state boxed_solver = true
  /\ exists sf,
       initial_factorize script_ops (initial_fuel (reset_info boxed_solver))
         (reset_info boxed_solver) = Some (Continue sf)
       /\ x (m_result (initial_solve script_ops (upd_info (set_factor_retires 0%Z) sf)))
          = [1; 1]%Q.
Proof.
  assert (Hp : solve_prologue script_ops positive_settings boxed_solver
               = Some (Continue boxed_entry)) by (vm_compute; reflexivity).
  split; [exact Hp|]. split; [reflexivity|].
  destruct (@initial_iterate _ _ _ _ no_scaling script_ops positive_settings
              boxed_solver boxed_entry Hp) as (_ & _ & _ & sf & Hf & Hx & _).
  exists sf. split; [exact Hf|].
  cbv zeta in Hx. destruct Hx as (Hx & _). rewrite Hx.
  revert Hf. vm_compute. intros [= <-]. reflexivity.
Defined.

Section ConcreteQ.
Local Open Scope Q_scope.

(** C7 (amended) on the boxed problem at the entry of the outer loop. *)
Lemma update_nr_residuals_formulas_witness :
  let sv := boxed_entry in
  let d := m_data sv in
  let r0 := m_result sv in
  let sv' := update_nr_residuals no_scaling sv in
  (length (P_utri d) = n d /\ length (c d) = n d
   /\ length (AT d) = n d /\ length (GT d) = n d
   /\ length (b d) = p d /\ length (h d) = m d /\ length (s r0) = m d
   /\ box_index_ok (n d) (n_lb d) (x_lb_idx d) = true
   /\ box_index_ok (n d) (n_ub d) (x_ub_idx d) = true
   /\ (n_lb d <= length (z_lb r0))%nat /\ (n_ub d <= length (z_ub r0))%nat
   /\ (n_lb d <= length (rz_lb_nr sv))%nat /\ (n_ub d <= length (rz_ub_nr sv))%nat)
  /\ (forall j, (j < n d)%nat ->
        coeff (rx_nr sv') j ==
          - coeff (sym_mat_vec d (x r0)) j - coeff (c d) j
          - coeff (mat_vec (AT d) (y r0)) j - coeff (mat_vec (GT d) (z r0)) j
          - coeff (mat_vec (transpose (n d) (E_lb d)) (vhead (n_lb d) (z_lb r0))) j
          - coeff (mat_vec (transpose (n d) (E_ub d)) (vhead (n_ub d) (z_ub r0))) j)
  /\ coeff (rx_nr sv') 1 == -1 - 1 + (3 # 2) - (3 # 2).
Proof.
  cbv zeta. split; [split_and!; vm_compute; (reflexivity || lia)|].
  pose proof (@update_nr_residuals_formulas unit (ScriptKKT Q) no_scaling boxed_entry
                eq_refl eq_refl eq_refl eq_refl eq_refl eq_refl eq_refl eq_refl eq_refl
                ltac:(vm_compute; lia) ltac:(vm_compute; lia)
                ltac:(vm_compute; lia) ltac:(vm_compute; lia)) as H.
  cbv zeta in H. destruct H as (H & _).
  split; [exact H|]. vm_compute. reflexivity.
Defined.

(** C3 (amended) on the first pass of the boxed problem. *)
Lemma step_keeps_interior_witness :
  let sv := boxed_factorized in
  let d := m_data sv in
  let r0 := m_result sv in
  let sc := corrector script_ops (predictor script_ops sv) in
  let r1 := m_result (predictor_corrector no_scaling script_ops sv) in
  (0 < tau (m_settings sv) /\ tau (m_settings sv) < 1
   /\ length (s r0) = m d /\ length (z r0) = m d
   /\ length (ds sc) = m d /\ length (dz sc) = m d
   /\ (n_lb d <= length (s_lb r0))%nat /\ (n_lb d <= length (z_lb r0))%nat
   /\ (n_lb d <= length (ds_lb sc))%nat /\ (n_lb d <= length (dz_lb sc))%nat
   /\ (n_ub d <= length (s_ub r0))%nat /\ (n_ub d <= length (z_ub r0))%nat
   /\ (n_ub d <= length (ds_ub sc))%nat /\ (n_ub d <= length (dz_ub sc))%nat
   /\ positive_head (m d) (s r0) /\ positive_head (n_lb d) (s_lb r0)
   /\ positive_head (n_ub d) (s_ub r0)
   /\ positive_head (m d) (z r0) /\ positive_head (n_lb d) (z_lb r0)
   /\ positive_head (n_ub d) (z_ub r0))
  /\ (primal_step (sv_info sc) == (1 # 4) * (99 # 100)
      /\ dual_step (sv_info sc) == (3 # 4) * (99 # 100))
  /\ positive_head (n_lb d) (s_lb r1) /\ positive_head (n_ub d) (s_ub r1)
  /\ positive_head (n_lb d) (z_lb r1) /\ positive_head (n_ub d) (z_ub r1).
Proof.
  cbv zeta.
  assert (Ht1 : 0 < tau (m_settings boxed_factorized)) by reflexivity.
  assert (Ht2 : tau (m_settings boxed_factorized) < 1) by reflexivity.
  assert (P1 : positive_head (m (m_data boxed_factorized))
                 (s (m_result boxed_factorized))) by head_positive.
  assert (P2 : positive_head (n_lb (m_data boxed_factorized))
                 (s_lb (m_result boxed_factorized))) by head_positive.
  assert (P3 : positive_head (n_ub (m_data boxed_factorized))
                 (s_ub (m_result boxed_factorized))) by head_positive.
  assert (P4 : positive_head (m (m_data boxed_factorized))
                 (z (m_result boxed_factorized))) by head_positive.
  assert (P5 : positive_head (n_lb (m_data boxed_factorized))
                 (z_lb (m_result boxed_factorized))) by head_positive.
  assert (P6 : positive_head (n_ub (m_data boxed_factorized))
                 (z_ub (m_result boxed_factorized))) by head_positive.
  split; [split_and!; try assumption; vm_compute; (reflexivity || lia)|].
  pose proof (@step_keeps_interior unit (ScriptKKT Q) no_scaling script_ops
                boxed_factorized Ht1 Ht2 eq_refl eq_refl eq_refl eq_refl
                ltac:(vm_compute; lia) ltac:(vm_compute; lia)
                ltac:(vm_compute; lia) ltac:(vm_compute; lia)
                ltac:(vm_compute; lia) ltac:(vm_compute; lia)
                ltac:(vm_compute; lia) ltac:(vm_compute; lia)
                P1 P2 P3 P4 P5 P6) as H.
  cbv zeta in H. destruct H as (_ & _ & _ & H2 & H3 & _ & H5 & H6).
  split; [split; vm_compute; reflexivity|].
  split_and!; assumption.
Defined.

(** C4 (amended) on the first pass of the problem without constraints. *)
Lemma regularisation_steps_witness :
  let i0 := sv_info plain_entry in
  let i1 := sv_info plain_pass in
  outer_iteration no_scaling diag_ops plain_entry = Continue plain_pass
  /\ sc_dec 1 (10 ^ 13) <= reg_limit i0 /\ reg_limit i0 <= rho i0
  /\ reg_limit i0 <= delta i0
  /\ ((0 < N_ineq (m_data plain_entry))%nat -> 0 < mu i0)
  /\ (refactorize diag_ops (update_residuals (begin_iteration no_scaling plain_entry))).1
     = true
  /\ rho i1 <= rho i0 /\ delta i1 <= delta i0 /\ 0 < rho i1 /\ 0 < delta i1.
Proof.
  cbv zeta.
  assert (Ho : outer_iteration no_scaling diag_ops plain_entry = Continue plain_pass)
    by (vm_compute; reflexivity).
  assert (H1 : sc_dec 1 (10 ^ 13) <= reg_limit (sv_info plain_entry))
    by (vm_compute; discriminate).
  assert (H2 : reg_limit (sv_info plain_entry) <= rho (sv_info plain_entry))
    by (vm_compute; discriminate).
  assert (H3 : reg_limit (sv_info plain_entry) <= delta (sv_info plain_entry))
    by (vm_compute; discriminate).
  assert (H4 : (0 < N_ineq (m_data plain_entry))%nat -> 0 < mu (sv_info plain_entry))
    by (vm_compute; lia).
  assert (Hf : (refactorize diag_ops
                  (update_residuals (begin_iteration no_scaling plain_entry))).1 = true)
    by (vm_compute; reflexivity).
  pose proof (@regularisation_steps unit (DiagKKT Q) no_scaling diag_ops
                plain_entry plain_pass Ho H1 H2 H3 H4) as H.
  cbv zeta in H. rewrite Hf in H. destruct H as (R1 & R2 & R3 & R4 & _).
  split_and!; assumption.
Defined.


(** C2 as stated fails: the factorisation fails once in the seventh pass,
    the pass after the retry finds the problem primal infeasible, and the
    solve reports [factor_retires = 1] with a status other than NUMERICS. *)
Lemma factor_retires_after_retry :
  exists sv',
    solve no_scaling script_ops positive_settings retried_solver
    = Some (PIQP_PRIMAL_INFEASIBLE, sv')
    /\ status (sv_info sv') = PIQP_PRIMAL_INFEASIBLE
    /\ factor_retires (sv_info sv') = 1%Z.
Proof. eexists. split; [vm_compute; reflexivity|]. split; reflexivity. Qed.

(** C4 as stated fails: with a floor of the regularisation above
    rho_init, rho rises in a pass whose factorisation succeeds. *)
Lemma rho_rises_from_high_floor :
  solve_prologue diag_ops positive_settings high_floor_solver
  = Some (Continue high_floor_entry)
  /\ outer_iteration no_scaling diag_ops high_floor_entry = Continue high_floor_pass
  /\ (refactorize diag_ops
        (update_residuals (begin_iteration no_scaling high_floor_entry))).1 = true
  /\ rho (sv_info high_floor_entry) == 1 # 1000000
  /\ rho (sv_info high_floor_pass) == 1 # 1000
  /\ rho (sv_info high_floor_entry) < rho (sv_info high_floor_pass).
Proof. split_and!; vm_compute; reflexivity. Qed.

(** C5 as stated fails: in the seventh pass both infeasibility tests
    hold, and the solve returns PRIMAL_INFEASIBLE, not DUAL_INFEASIBLE. *)
Lemma dual_test_holds_without_verdict :
  exists sv',
    solve_impl no_scaling script_ops positive_settings twofold_solver
    = Some (PIQP_PRIMAL_INFEASIBLE, sv')
    /\ (5 < no_primal_update (sv_info sv'))%Z
    /\ 10 ^ 10 < lpNorm_inf (unscale_primal no_scaling (m_preconditioner sv')
                               (vsub (x (m_result sv')) (zeta (m_result sv'))))
    /\ lpNorm_inf (unscale_dual_res no_scaling (m_preconditioner sv') (rx sv'))
       < feas_tol_abs (m_settings sv')
    /\ dual_infeasible no_scaling sv' = true.
Proof. eexists. split; [vm_compute; reflexivity|]. split_and!; vm_compute; reflexivity. Qed.

(** C6 as stated fails: on the first call after setup [update_scalings]
    is not called before the initial solve, and a slack norm of a live
    block at most 1e-4 does not reset the slacks while another norm is
    larger. *)
Lemma first_entry_keeps_scalings :
  let d := m_data boxed_initial in
  let r3 := m_result boxed_initial in
  m_kkt_init_state boxed_solver = true
  /\ solve_prologue script_ops positive_settings boxed_solver
     = Some (Continue boxed_entry)
  /\ k_staged (m_kkt boxed_entry) = []
  /\ (0 < n_ub d)%nat
  /\ lpNorm_inf (vhead (n_ub d) (s_ub r3)) <= 1 # 10000
  /\ boxed_entry = set_prox_centres (shift_slacks boxed_initial)
  /\ s_lb (m_result boxed_entry) = [5 # 4; 0]
  /\ s_lb (m_result (set_prox_centres (shift_slacks (reset_slacks boxed_initial))))
     <> s_lb (m_result boxed_entry).
Proof.
  cbv zeta. split_and!; try (vm_compute; reflexivity); vm_compute; discriminate.
Qed.

(** C7 as stated fails: with [E_lb] and [E_ub] the matrices of the box
    rows, r_x_nr is not [... - E_lb^T z_lb + E_ub^T z_ub]; the duals of the
    upper bounds enter with the other sign. *)
Lemma claimed_rx_nr_differs :
  let d := m_data signs_solver in
  let r0 := m_result signs_solver in
  let sv' := update_nr_residuals no_scaling signs_solver in
  vhead (n_lb d) (rz_lb_nr sv')
  = box_residual (E_lb d) (vhead (n_lb d) (x_lb_n d)) (vhead (n_lb d) (s_lb r0)) (x r0)
  /\ vhead (n_ub d) (rz_ub_nr sv')
     = box_residual (E_ub d) (vhead (n_ub d) (x_ub d)) (vhead (n_ub d) (s_ub r0)) (x r0)
  /\ coeff (rx_nr sv') 0 == -1
  /\ coeff (claimed_rx_nr d r0) 0 == 3
  /\ ~ coeff (rx_nr sv') 0 == coeff (claimed_rx_nr d r0) 0.
Proof.
  cbv zeta. split_and!; try (vm_compute; reflexivity).
  vm_compute. discriminate.
Qed.

End ConcreteQ.


(** C3 as stated fails at binary64.  One inequality, with [s = 2^-1074] and
    [z = 1] positive, tau = 0.99 and the direction [ds = -1]: the step to
    the boundary is [2^-1074], its product with tau rounds to [2^-1074]
    again, and the update of the iterate leaves [s = 0]. *)
Lemma step_reaches_zero_binary64 :
  let sv := b64_pass in
  let d := m_data sv in
  let r0 := m_result sv in
  let sc := corrector b64_script (predictor b64_script sv) in
  let r1 := m_result (predictor_corrector b64_no_scaling b64_script sv) in
  (0 < m d + n_lb d + n_ub d)%nat
  /\ (sc_zero <? tau (m_settings sv))%sc = true
  /\ (tau (m_settings sv) <? sc_one)%sc = true
  /\ positive_headb (m d) (s r0) = true /\ positive_headb (n_lb d) (s_lb r0) = true
  /\ positive_headb (n_ub d) (s_ub r0) = true
  /\ positive_headb (m d) (z r0) = true /\ positive_headb (n_lb d) (z_lb r0) = true
  /\ positive_headb (n_ub d) (z_ub r0) = true
  /\ primal_step (sv_info sc)
     = (sc_min sc_one (- coeff (s r0) 0 / coeff (ds sc) 0) * tau (m_settings sv))%sc
  /\ s r1 = [sc_zero]
  /\ positive_headb (m d) (s r1) = false.
Proof.
  cbv zeta. split; [vm_compute; lia|].
  split_and!; vm_compute; reflexivity.
Qed.

(** ** [solve] as a whole: status, counters and what is kept *)

Section SolveFlow.
Context {T : Type} `{Scalar T} {PC K : Type}.
Context (pc_ops : PreconditionerOps T PC) (kkt_ops : KKTOps T K).
Context (verify_settings : Settings T -> bool).
Local Abbreviation SolverT := (Solver T PC K).

(** The four ways a pass returns from [solve_impl]. *)
Lemma outer_iteration_return_cases (sv : SolverT) st (sv' : SolverT) :
  outer_iteration pc_ops kkt_ops sv = Return st sv' ->
  let sb := begin_iteration pc_ops sv in
  let su := update_residuals sb in
  let f := refactorize kkt_ops su in
  (st = PIQP_SOLVED /\ sv' = upd_info (set_status PIQP_SOLVED) sb)
  \/ (st = PIQP_PRIMAL_INFEASIBLE /\ sv' = upd_info (set_status PIQP_PRIMAL_INFEASIBLE) su)
  \/ (st = PIQP_DUAL_INFEASIBLE /\ sv' = upd_info (set_status PIQP_DUAL_INFEASIBLE) su)
  \/ (st = PIQP_NUMERICS /\ sv' = upd_info (set_status PIQP_NUMERICS) f.2
      /\ f.1 = false
      /\ (max_factor_retires (m_settings f.2) <= factor_retires (sv_info f.2))%Z).
Proof.
  rewrite outer_iteration_unfold. cbv zeta. unfold return_status.
  destruct (converged _); [intros [= <- <-]; by left|].
  destruct (primal_infeasible _ _); [intros [= <- <-]; right; by left|].
  destruct (dual_infeasible _ _); [intros [= <- <-]; right; right; by left|].
  destruct (refactorize kkt_ops _) as [[|] sf]; cbn [negb fst snd].
  - break_if; discriminate.
  - destruct (factor_retires (sv_info sf) <? max_factor_retires (m_settings sf))%Z eqn:E;
      [discriminate|].
    apply Z.ltb_ge in E. intros [= <- <-]. right; right; right. done.
Qed.

(** What a state that a pass returns keeps of the state at its top. *)
Lemma view_set_status st (sv : SolverT) :
  frame_of (upd_info (set_status st) sv) = frame_of sv
  /\ counters_of (upd_info (set_status st) sv) = counters_of sv
  /\ status (sv_info (upd_info (set_status st) sv)) = st
  /\ m_kkt_init_state (upd_info (set_status st) sv) = m_kkt_init_state sv.
Proof. split_and!; reflexivity. Qed.

Lemma outer_iteration_return_view (sv : SolverT) st (sv' : SolverT) :
  outer_iteration pc_ops kkt_ops sv = Return st sv' ->
  frame_of sv' = frame_of sv
  /\ status (sv_info sv') = st
  /\ (st = PIQP_SOLVED \/ st = PIQP_PRIMAL_INFEASIBLE \/ st = PIQP_DUAL_INFEASIBLE
      \/ st = PIQP_NUMERICS)
  /\ (st <> PIQP_NUMERICS ->
      iter (sv_info sv') = iter (sv_info sv)
      /\ factor_retires (sv_info sv') = factor_retires (sv_info sv))
  /\ (st = PIQP_NUMERICS ->
      iter (sv_info sv') = (iter (sv_info sv) + 1)%Z
      /\ factor_retires (sv_info sv') = factor_retires (sv_info sv)
      /\ (max_factor_retires (m_settings sv) <= factor_retires (sv_info sv))%Z).
Proof.
  intros Ho. apply outer_iteration_return_cases in Ho. cbv zeta in Ho.
  destruct (view_begin_iteration pc_ops sv) as [Fb Cb].
  apply counters_of_eq in Cb as [Ib Rb].
  forget (begin_iteration pc_ops sv) sb.
  destruct (view_update_residuals sb) as [Fu Cu]. apply counters_of_eq in Cu as [Iu Ru].
  forget (update_residuals sb) su.
  destruct (view_refactorize kkt_ops su) as (Ff & If & Rf).
  forget (refactorize kkt_ops su) f.
  destruct f as [ok sf]. cbn [fst snd] in *.
  assert (Hs : m_settings sf = m_settings sv) by (unfold frame_of in *; congruence).
  destruct Ho as [[-> ->]|[[-> ->]|[[-> ->]|(-> & -> & -> & Hr)]]].
  - destruct (view_set_status PIQP_SOLVED sb) as (F & C & S & _).
    apply counters_of_eq in C as [I R].
    split_and!; [congruence|done|by left| |discriminate]. intros _. split; congruence.
  - destruct (view_set_status PIQP_PRIMAL_INFEASIBLE su) as (F & C & S & _).
    apply counters_of_eq in C as [I R].
    split_and!; [congruence|done|right; by left| |discriminate].
    intros _. split; congruence.
  - destruct (view_set_status PIQP_DUAL_INFEASIBLE su) as (F & C & S & _).
    apply counters_of_eq in C as [I R].
    split_and!; [congruence|done|right; right; by left| |discriminate].
    intros _. split; congruence.
  - destruct (view_set_status PIQP_NUMERICS sf) as (F & C & S & _).
    apply counters_of_eq in C as [I R].
    split_and!; [congruence|done|right; right; by right|done|].
    intros _. rewrite Hs in Hr. split_and!; [lia|congruence|lia].
Qed.

(** Induction over the passes of the outer loop. *)
Lemma outer_loop_invariant (Inv : SolverT -> Prop) (Post : Status -> SolverT -> Prop) :
  (forall sv sv' : SolverT, Inv sv ->
     (iter (sv_info sv) < max_iter (m_settings sv))%Z ->
     outer_iteration pc_ops kkt_ops sv = Continue sv' -> Inv sv') ->
  (forall (sv : SolverT) st sv', Inv sv ->
     (iter (sv_info sv) < max_iter (m_settings sv))%Z ->
     outer_iteration pc_ops kkt_ops sv = Return st sv' -> Post st sv') ->
  (forall sv : SolverT, Inv sv ->
     (max_iter (m_settings sv) <= iter (sv_info sv))%Z ->
     Post PIQP_MAX_ITER_REACHED (upd_info (set_status PIQP_MAX_ITER_REACHED) sv)) ->
  forall fuel (sv : SolverT) st sv',
    Inv sv -> outer_loop pc_ops kkt_ops fuel sv = Some (st, sv') -> Post st sv'.
Proof.
  intros Hc Hr He. induction fuel as [|fuel IH]; intros sv st sv' Hi; [discriminate|].
  cbn [outer_loop].
  destruct (iter (sv_info sv) <? max_iter (m_settings sv))%Z eqn:Hlt.
  - apply Z.ltb_lt in Hlt.
    destruct (outer_iteration pc_ops kkt_ops sv) as [st0 sv0|sv1] eqn:Ho.
    + intros [= <- <-]. by eapply Hr.
    + apply IH. by eapply Hc.
  - apply Z.ltb_ge in Hlt. intros [= <- <-]. by apply He.
Qed.


(** *** The prologue *)

Lemma initial_factorize_view fuel : forall (sv : SolverT) o,
  initial_factorize kkt_ops fuel sv = Some o ->
  match o with
  | Return st sv' =>
      st = PIQP_NUMERICS
      /\ frame_of sv' = frame_of sv
      /\ status (sv_info sv') = PIQP_NUMERICS
      /\ iter (sv_info sv') = iter (sv_info sv)
      /\ (factor_retires (sv_info sv) <= factor_retires (sv_info sv'))%Z
      /\ (max_factor_retires (m_settings sv) <= factor_retires (sv_info sv'))%Z
      /\ (factor_retires (sv_info sv')
          <= Z.max (factor_retires (sv_info sv)) (max_factor_retires (m_settings sv)))%Z
      /\ m_kkt_init_state sv' = m_kkt_init_state sv
  | Continue sv' =>
      frame_of sv' = frame_of sv
      /\ status (sv_info sv') = status (sv_info sv)
      /\ iter (sv_info sv') = iter (sv_info sv)
      /\ no_primal_update (sv_info sv') = no_primal_update (sv_info sv)
      /\ no_dual_update (sv_info sv') = no_dual_update (sv_info sv)
      /\ m_kkt_init_state sv' = m_kkt_init_state sv
  end.
Proof.
  induction fuel as [|fuel IH]; intros sv o; [discriminate|].
  cbn [initial_factorize].
  destruct (view_factorize kkt_ops sv) as [Ff If].
  assert (Kf : m_kkt_init_state (factorize kkt_ops sv).2 = m_kkt_init_state sv)
    by (cbv beta delta [factorize]; break_pair; reflexivity).
  destruct (factorize kkt_ops sv) as [ok sf]. cbn [snd] in *.
  assert (Hs : m_settings sf = m_settings sv) by (unfold frame_of in *; congruence).
  destruct ok.
  - intros [= <-]. rewrite If. done.
  - destruct (factor_retires (sv_info sf) <? max_factor_retires (m_settings sf))%Z eqn:Hlt.
    + apply Z.ltb_lt in Hlt. intros Hi. apply IH in Hi.
      destruct (view_inflate_regularisation sf) as [Fi Ri].
      assert (Ei : status (sv_info (inflate_regularisation sf)) = status (sv_info sf)
                   /\ iter (sv_info (inflate_regularisation sf)) = iter (sv_info sf)
                   /\ no_primal_update (sv_info (inflate_regularisation sf))
                      = no_primal_update (sv_info sf)
                   /\ no_dual_update (sv_info (inflate_regularisation sf))
                      = no_dual_update (sv_info sf)
                   /\ m_kkt_init_state (inflate_regularisation sf) = m_kkt_init_state sf)
        by (split_and!; reflexivity).
      destruct Ei as (E1 & E2 & E3 & E4 & E5).
      assert (Hsi : m_settings (inflate_regularisation sf) = m_settings sv)
        by (unfold frame_of in *; congruence).
      forget (inflate_regularisation sf) si.
      rewrite Hs, If in Hlt. rewrite If in *.
      destruct o as [st sv'|sv'].
      * destruct Hi as (-> & F & S & I & R1 & R2 & R3 & Kr).
        rewrite Hsi, Ri in *.
        split_and!; [done|congruence|done|congruence|lia|lia|lia|congruence].
      * destruct Hi as (F & S & I & P & D & Ki).
        split_and!; congruence.
    + apply Z.ltb_ge in Hlt. intros [= <-].
      destruct (view_set_status PIQP_NUMERICS sf) as (F & C & S & Kn).
      apply counters_of_eq in C as [I R]. rewrite Hs, If in Hlt.
      rewrite I, R, If.
      split_and!; [done|congruence|done|done|lia|lia|lia|congruence].
Qed.

(** The state in which [solve_impl] enters the outer loop, and the three
    ways in which it returns before. *)
Lemma solve_prologue_view (sv : SolverT) o :
  solve_prologue kkt_ops verify_settings sv = Some o ->
  match o with
  | Return st sv' =>
      frame_of sv' = frame_of sv
      /\ status (sv_info sv') = st
      /\ ((st = PIQP_UNSOLVED /\ m_setup_done sv = false)
          \/ (st = PIQP_INVALID_SETTINGS /\ m_setup_done sv = true
              /\ verify_settings (m_settings sv) = false)
          \/ (st = PIQP_NUMERICS /\ m_setup_done sv = true
              /\ verify_settings (m_settings sv) = true
              /\ iter (sv_info sv') = 0%Z
              /\ (0 <= factor_retires (sv_info sv'))%Z
              /\ (max_factor_retires (m_settings sv) <= factor_retires (sv_info sv'))%Z
              /\ (factor_retires (sv_info sv')
                  <= Z.max 0 (max_factor_retires (m_settings sv)))%Z
              /\ m_kkt_init_state sv' = m_kkt_init_state sv))
  | Continue sv' =>
      frame_of sv' = frame_of sv
      /\ m_setup_done sv = true /\ verify_settings (m_settings sv) = true
      /\ status (sv_info sv') = PIQP_UNSOLVED
      /\ iter (sv_info sv') = 0%Z
      /\ factor_retires (sv_info sv') = 0%Z
      /\ no_primal_update (sv_info sv') = 0%Z
      /\ no_dual_update (sv_info sv') = 0%Z
      /\ m_kkt_init_state sv' = m_kkt_init_state sv
  end.
Proof.
  cbv beta delta [solve_prologue]. cbv zeta. unfold return_status.
  destruct (m_setup_done sv) eqn:Hd; cbn [negb];
    [|intros [= <-]; split_and!; [done|done|by left]].
  destruct (verify_settings (m_settings sv)) eqn:Hv; cbn [negb];
    [|intros [= <-]; split_and!; [done|done|right; by left]].
  assert (E0 : frame_of (reset_info sv) = frame_of sv
               /\ status (sv_info (reset_info sv)) = PIQP_UNSOLVED
               /\ iter (sv_info (reset_info sv)) = 0%Z
               /\ factor_retires (sv_info (reset_info sv)) = 0%Z
               /\ no_primal_update (sv_info (reset_info sv)) = 0%Z
               /\ no_dual_update (sv_info (reset_info sv)) = 0%Z
               /\ m_kkt_init_state (reset_info sv) = m_kkt_init_state sv)
    by (split_and!; reflexivity).
  destruct E0 as (F0 & S0 & I0 & R0 & P0 & D0 & K0).
  forget (reset_info sv) s0.
  assert (E1 : forall s : SolverT,
             frame_of (reset_scalings kkt_ops s) = frame_of s
             /\ status (sv_info (reset_scalings kkt_ops s)) = status (sv_info s)
             /\ iter (sv_info (reset_scalings kkt_ops s)) = iter (sv_info s)
             /\ factor_retires (sv_info (reset_scalings kkt_ops s))
                = factor_retires (sv_info s)
             /\ no_primal_update (sv_info (reset_scalings kkt_ops s))
                = no_primal_update (sv_info s)
             /\ no_dual_update (sv_info (reset_scalings kkt_ops s))
                = no_dual_update (sv_info s)
             /\ m_kkt_init_state (reset_scalings kkt_ops s) = m_kkt_init_state s)
    by (intros s; split_and!; reflexivity).
  assert (E1' : let s1 := if negb (m_kkt_init_state s0)
                          then reset_scalings kkt_ops s0 else s0 in
                frame_of s1 = frame_of sv
                /\ status (sv_info s1) = PIQP_UNSOLVED
                /\ iter (sv_info s1) = 0%Z
                /\ factor_retires (sv_info s1) = 0%Z
                /\ no_primal_update (sv_info s1) = 0%Z
                /\ no_dual_update (sv_info s1) = 0%Z
                /\ m_kkt_init_state s1 = m_kkt_init_state sv).
  { cbv zeta. destruct (negb (m_kkt_init_state s0)); [|done].
    destruct (E1 s0) as (-> & -> & -> & -> & -> & -> & ->). done. }
  cbv zeta in E1'. clear E1.
  destruct E1' as (F1 & S1 & I1 & R1 & P1 & D1 & K1).
  forget (if negb (m_kkt_init_state s0) then reset_scalings kkt_ops s0 else s0) s1.
  assert (Hs1 : m_settings s1 = m_settings sv) by (unfold frame_of in *; congruence).
  destruct (initial_factorize kkt_ops (initial_fuel s1) s1) as [o1|] eqn:Hi; [|discriminate].
  apply initial_factorize_view in Hi.
  destruct o1 as [st sf|sf].
  - intros [= <-]. destruct Hi as (-> & F & S & I & Ra & Rb & Rc & Kr).
    rewrite Hs1, R1 in *.
    split_and!; [congruence|done|]. right; right.
    split_and!; [done|done|done|congruence|lia|lia|lia|congruence].
  - intros [= <-]. destruct Hi as (F & S & I & P & D & Ki).
    assert (E2 : forall s : SolverT,
              let s2 := initial_solve kkt_ops (upd_info (set_factor_retires 0%Z) s) in
              frame_of s2 = frame_of s
              /\ status (sv_info s2) = status (sv_info s)
              /\ iter (sv_info s2) = iter (sv_info s)
              /\ factor_retires (sv_info s2) = 0%Z
              /\ no_primal_update (sv_info s2) = no_primal_update (sv_info s)
              /\ no_dual_update (sv_info s2) = no_dual_update (sv_info s)
              /\ m_kkt_init_state s2 = m_kkt_init_state s)
      by (intros s; split_and!; reflexivity).
    destruct (E2 sf) as (F2 & S2 & I2 & R2 & P2 & D2 & K2). clear E2.
    forget (initial_solve kkt_ops (upd_info (set_factor_retires 0%Z) sf)) s2.
    assert (E3 : frame_of (initial_slacks s2) = frame_of s2
                 /\ status (sv_info (initial_slacks s2)) = status (sv_info s2)
                 /\ iter (sv_info (initial_slacks s2)) = iter (sv_info s2)
                 /\ factor_retires (sv_info (initial_slacks s2))
                    = factor_retires (sv_info s2)
                 /\ no_primal_update (sv_info (initial_slacks s2))
                    = no_primal_update (sv_info s2)
                 /\ no_dual_update (sv_info (initial_slacks s2))
                    = no_dual_update (sv_info s2)
                 /\ m_kkt_init_state (initial_slacks s2) = m_kkt_init_state s2).
    { cbv beta delta [initial_slacks]. cbv zeta.
      destruct (0 <? N_ineq (m_data s2))%nat; [|done].
      destruct (slack_norm s2 <=? sc_dec 1 10000)%sc; split_and!; reflexivity. }
    destruct E3 as (F3 & S3 & I3 & R3 & P3 & D3 & K3).
    forget (initial_slacks s2) s3.
    assert (E4 : frame_of (set_prox_centres s3) = frame_of s3
                 /\ sv_info (set_prox_centres s3) = sv_info s3
                 /\ m_kkt_init_state (set_prox_centres s3) = m_kkt_init_state s3)
      by (split_and!; reflexivity).
    destruct E4 as (F4 & I4 & K4).
    forget (set_prox_centres s3) s4.
    rewrite I4.
    split_and!; congruence.
Qed.


(** *** The flag [m_kkt_init_state] through a pass *)

Lemma kis_begin_iteration (sv : SolverT) :
  m_kkt_init_state (begin_iteration pc_ops sv) = m_kkt_init_state sv.
Proof. cbv beta delta [begin_iteration]. cbv zeta. do 2 break_if; reflexivity. Qed.

Lemma kis_refactorize (sv : SolverT) :
  m_kkt_init_state (refactorize kkt_ops sv).2 = false.
Proof.
  cbv beta delta [refactorize relax_reg_limit factorize].
  cbv zeta. break_if; break_pair; reflexivity.
Qed.

Lemma kis_update_rho g b (sv : SolverT) :
  m_kkt_init_state (update_rho pc_ops g b sv) = m_kkt_init_state sv.
Proof. cbv beta delta [update_rho]. break_if; reflexivity. Qed.

Lemma kis_update_delta g b (sv : SolverT) :
  m_kkt_init_state (update_delta pc_ops g b sv) = m_kkt_init_state sv.
Proof. cbv beta delta [update_delta]. cbv zeta. break_if; reflexivity. Qed.

Lemma kis_update_delta_eq g b (sv : SolverT) :
  m_kkt_init_state (update_delta_eq pc_ops g b sv) = m_kkt_init_state sv.
Proof. cbv beta delta [update_delta_eq]. break_if; reflexivity. Qed.

Lemma kis_predictor (sv : SolverT) :
  m_kkt_init_state (predictor kkt_ops sv) = m_kkt_init_state sv.
Proof. cbv beta delta [predictor]. cbv zeta. break_pair. reflexivity. Qed.

Lemma kis_corrector (sv : SolverT) :
  m_kkt_init_state (corrector kkt_ops sv) = m_kkt_init_state sv.
Proof. cbv beta delta [corrector]. cbv zeta. break_pair. reflexivity. Qed.

Lemma kis_predictor_corrector (sv : SolverT) :
  m_kkt_init_state (predictor_corrector pc_ops kkt_ops sv) = m_kkt_init_state sv.
Proof.
  cbv beta delta [predictor_corrector]. cbv zeta.
  rewrite kis_update_delta, kis_update_rho.
  pose proof (kis_predictor sv) as K1.
  forget (predictor kkt_ops sv) s1.
  pose proof (kis_corrector s1) as K2.
  forget (corrector kkt_ops s1) s2.
  rewrite <- K1, <- K2. reflexivity.
Qed.

Lemma kis_newton_step (sv : SolverT) :
  m_kkt_init_state (newton_step pc_ops kkt_ops sv) = m_kkt_init_state sv.
Proof.
  cbv beta delta [newton_step]. cbv zeta.
  rewrite kis_update_delta_eq, kis_update_rho.
  assert (K1 : m_kkt_init_state (solve_direction kkt_ops sv) = m_kkt_init_state sv)
    by reflexivity.
  forget (solve_direction kkt_ops sv) s1.
  rewrite <- K1. reflexivity.
Qed.

Lemma outer_iteration_continue_kis (sv sv' : SolverT) :
  outer_iteration pc_ops kkt_ops sv = Continue sv' -> m_kkt_init_state sv' = false.
Proof.
  rewrite outer_iteration_unfold. cbv zeta. unfold return_status.
  forget (begin_iteration pc_ops sv) sb.
  destruct (converged sb); [discriminate|].
  forget (update_residuals sb) su.
  destruct (primal_infeasible pc_ops su); [discriminate|].
  destruct (dual_infeasible pc_ops su); [discriminate|].
  pose proof (kis_refactorize su) as Kf.
  destruct (refactorize kkt_ops su) as [ok sf]. cbn [fst snd] in *.
  destruct ok; cbn [negb].
  - assert (K0 : m_kkt_init_state (upd_info (set_factor_retires 0%Z) sf) = false)
      by exact Kf.
    forget (upd_info (set_factor_retires 0%Z) sf) s0.
    destruct (0 <? N_ineq (m_data s0))%nat; intros [= <-].
    + rewrite kis_predictor_corrector. exact K0.
    + rewrite kis_newton_step. exact K0.
  - break_if; [|discriminate]. intros [= <-]. exact Kf.
Qed.

Lemma outer_iteration_return_kis (sv : SolverT) st (sv' : SolverT) :
  outer_iteration pc_ops kkt_ops sv = Return st sv' ->
  (st <> PIQP_NUMERICS -> m_kkt_init_state sv' = m_kkt_init_state sv)
  /\ (st = PIQP_NUMERICS -> m_kkt_init_state sv' = false).
Proof.
  intros Ho. apply outer_iteration_return_cases in Ho. cbv zeta in Ho.
  pose proof (kis_begin_iteration sv) as Kb.
  forget (begin_iteration pc_ops sv) sb.
  assert (Ku : m_kkt_init_state (update_residuals sb) = m_kkt_init_state sb) by reflexivity.
  forget (update_residuals sb) su.
  pose proof (kis_refactorize su) as Kf.
  forget (refactorize kkt_ops su) f. destruct f as [ok sf]. cbn [fst snd] in *.
  destruct Ho as [[-> ->]|[[-> ->]|[[-> ->]|(-> & -> & -> & Hr)]]].
  - split; [intros _|discriminate].
    rewrite (proj2 (proj2 (proj2 (view_set_status PIQP_SOLVED sb)))). exact Kb.
  - split; [intros _|discriminate].
    rewrite (proj2 (proj2 (proj2 (view_set_status PIQP_PRIMAL_INFEASIBLE su)))). congruence.
  - split; [intros _|discriminate].
    rewrite (proj2 (proj2 (proj2 (view_set_status PIQP_DUAL_INFEASIBLE su)))). congruence.
  - split; [done|intros _].
    rewrite (proj2 (proj2 (proj2 (view_set_status PIQP_NUMERICS sf)))). exact Kf.
Qed.

(** *** The outer loop, from its entry to the return *)

Lemma outer_loop_view fuel (sv : SolverT) st (sv' : SolverT) :
  iter (sv_info sv) = 0%Z -> factor_retires (sv_info sv) = 0%Z ->
  outer_loop pc_ops kkt_ops fuel sv = Some (st, sv') ->
  let M := max_iter (m_settings sv) in
  let R := max_factor_retires (m_settings sv) in
  frame_of sv' = frame_of sv
  /\ status (sv_info sv') = st
  /\ (st = PIQP_SOLVED \/ st = PIQP_MAX_ITER_REACHED \/ st = PIQP_PRIMAL_INFEASIBLE
      \/ st = PIQP_DUAL_INFEASIBLE \/ st = PIQP_NUMERICS)
  /\ (0 <= iter (sv_info sv') <= Z.max 0 M)%Z
  /\ (0 <= factor_retires (sv_info sv') <= Z.max 0 R)%Z
  /\ (st = PIQP_MAX_ITER_REACHED -> iter (sv_info sv') = Z.max 0 M)
  /\ (st = PIQP_SOLVED \/ st = PIQP_PRIMAL_INFEASIBLE \/ st = PIQP_DUAL_INFEASIBLE ->
      (iter (sv_info sv') < M)%Z)
  /\ (st = PIQP_NUMERICS ->
      (1 <= iter (sv_info sv'))%Z /\ (R <= factor_retires (sv_info sv'))%Z)
  /\ ((1 <= iter (sv_info sv'))%Z -> m_kkt_init_state sv' = false)
  /\ (iter (sv_info sv') = 0%Z -> factor_retires (sv_info sv') = 0%Z ->
      m_kkt_init_state sv' = m_kkt_init_state sv).
Proof.
  intros I0 R0 Hl M R.
  pose (Inv := fun s : SolverT =>
    frame_of s = frame_of sv
    /\ (0 <= iter (sv_info s) <= Z.max 0 M)%Z
    /\ (0 <= factor_retires (sv_info s) <= Z.max 0 R)%Z
    /\ ((1 <= iter (sv_info s))%Z \/ (1 <= factor_retires (sv_info s))%Z ->
        m_kkt_init_state s = false)
    /\ (iter (sv_info s) = 0%Z -> factor_retires (sv_info s) = 0%Z ->
        m_kkt_init_state s = m_kkt_init_state sv)).
  assert (Hset : forall s : SolverT, frame_of s = frame_of sv ->
             max_iter (m_settings s) = M /\ max_factor_retires (m_settings s) = R).
  { intros s Fs. unfold frame_of in Fs. subst M R. split; congruence. }
  revert Hl.
  apply (@outer_loop_invariant Inv (fun st sv' =>
    frame_of sv' = frame_of sv
    /\ status (sv_info sv') = st
    /\ (st = PIQP_SOLVED \/ st = PIQP_MAX_ITER_REACHED \/ st = PIQP_PRIMAL_INFEASIBLE
        \/ st = PIQP_DUAL_INFEASIBLE \/ st = PIQP_NUMERICS)
    /\ (0 <= iter (sv_info sv') <= Z.max 0 M)%Z
    /\ (0 <= factor_retires (sv_info sv') <= Z.max 0 R)%Z
    /\ (st = PIQP_MAX_ITER_REACHED -> iter (sv_info sv') = Z.max 0 M)
    /\ (st = PIQP_SOLVED \/ st = PIQP_PRIMAL_INFEASIBLE \/ st = PIQP_DUAL_INFEASIBLE ->
        (iter (sv_info sv') < M)%Z)
    /\ (st = PIQP_NUMERICS ->
        (1 <= iter (sv_info sv'))%Z /\ (R <= factor_retires (sv_info sv'))%Z)
    /\ ((1 <= iter (sv_info sv'))%Z -> m_kkt_init_state sv' = false)
    /\ (iter (sv_info sv') = 0%Z -> factor_retires (sv_info sv') = 0%Z ->
        m_kkt_init_state sv' = m_kkt_init_state sv))).
  - intros s s' (Fs & Is & Rs & K1 & K2) Hlt Hc.
    destruct (Hset s Fs) as [HM HR]. rewrite HM in Hlt.
    pose proof (outer_iteration_continue_kis Hc) as Kc.
    apply outer_iteration_continue in Hc as (Fc & _ & Hcases).
    rewrite HR in Hcases.
    split; [congruence|].
    destruct Hcases as [[Ic Rc]|[(Ic & Rc & Hr) _]]; rewrite Ic, Rc;
      split_and!; try lia; try (intros _; exact Kc).
  - intros s st0 s' (Fs & Is & Rs & K1 & K2) Hlt Hr.
    destruct (Hset s Fs) as [HM HR]. rewrite HM in Hlt.
    destruct (outer_iteration_return_kis Hr) as [Ka Kb].
    apply outer_iteration_return_view in Hr as (Fr & Sr & Hst & Ha & Hb).
    rewrite HR in Hb.
    split; [congruence|]. split; [done|].
    destruct (decide (st0 = PIQP_NUMERICS)) as [-> | Hne].
    + destruct (Hb eq_refl) as (Ib & Rb & Hge).
      specialize (Kb eq_refl). rewrite Ib, Rb.
      split_and!; try lia; try done.
      * by repeat right.
      * intros [|[|]]; discriminate.
    + destruct (Ha Hne) as [Ia Ra]. specialize (Ka Hne). rewrite Ia, Ra, Ka.
      split_and!; try lia; try done.
      * destruct Hst as [-> | [-> | [-> | ->]]];
          [by left|right; right; by left|right; right; right; by left|done].
      * intros ->. destruct Hst as [|[|[|]]]; discriminate.
      * intros Hi. apply K1. by left.
  - intros s (Fs & Is & Rs & K1 & K2) Hge.
    destruct (Hset s Fs) as [HM HR]. rewrite HM in Hge.
    destruct (view_set_status PIQP_MAX_ITER_REACHED s) as (F & C & S & Km).
    apply counters_of_eq in C as [I R']. rewrite I, R', Km.
    split_and!; try lia; try done.
    + right; by left.
    + intros [|[|]]; discriminate.
    + intros Hi. apply K1. by left.
  - unfold Inv. rewrite I0, R0. split_and!; try lia; done.
Qed.


(** *** [solve_impl] and [solve] as a whole *)

Lemma restore_lb_loop_info (idx : list nat) k : forall r0 : Result T,
  info (restore_lb_loop idx k r0) = info r0.
Proof.
  induction k as [|k IH]; intros r0; [done|].
  cbn [restore_lb_loop]. cbv zeta. rewrite IH. reflexivity.
Qed.

Lemma restore_ub_loop_info (idx : list nat) k : forall r0 : Result T,
  info (restore_ub_loop idx k r0) = info r0.
Proof.
  induction k as [|k IH]; intros r0; [done|].
  cbn [restore_ub_loop]. cbv zeta. rewrite IH. reflexivity.
Qed.

(** The two steps after [solve_impl] change the result vectors only. *)
Lemma view_finish (sv : SolverT) :
  let sv' := restore_box_dual (unscale_results pc_ops sv) in
  frame_of sv' = frame_of sv
  /\ sv_info sv' = sv_info sv
  /\ m_kkt_init_state sv' = m_kkt_init_state sv
  /\ m_kkt sv' = m_kkt sv.
Proof.
  cbv zeta. split_and!; try reflexivity.
  unfold sv_info, restore_box_dual.
  assert (E : info (m_result (unscale_results pc_ops sv)) = info (m_result sv))
    by reflexivity.
  forget (unscale_results pc_ops sv) su.
  rewrite <- E.
  change (info (restore_box_dual_result (m_data su) (m_result su)) = info (m_result su)).
  unfold restore_box_dual_result. cbv zeta.
  rewrite restore_ub_loop_info, restore_lb_loop_info. reflexivity.
Qed.

Lemma solve_impl_view (sv : SolverT) st (sv' : SolverT) :
  solve_impl pc_ops kkt_ops verify_settings sv = Some (st, sv') ->
  let M := max_iter (m_settings sv) in
  let R := max_factor_retires (m_settings sv) in
  frame_of sv' = frame_of sv
  /\ status (sv_info sv') = st
  /\ ((st = PIQP_UNSOLVED /\ m_setup_done sv = false)
      \/ (st = PIQP_INVALID_SETTINGS /\ m_setup_done sv = true
          /\ verify_settings (m_settings sv) = false)
      \/ (m_setup_done sv = true /\ verify_settings (m_settings sv) = true
          /\ (st = PIQP_SOLVED \/ st = PIQP_MAX_ITER_REACHED
              \/ st = PIQP_PRIMAL_INFEASIBLE \/ st = PIQP_DUAL_INFEASIBLE
              \/ st = PIQP_NUMERICS)
          /\ (0 <= iter (sv_info sv') <= Z.max 0 M)%Z
          /\ (0 <= factor_retires (sv_info sv') <= Z.max 0 R)%Z
          /\ (st = PIQP_MAX_ITER_REACHED -> iter (sv_info sv') = Z.max 0 M)
          /\ (st = PIQP_SOLVED \/ st = PIQP_PRIMAL_INFEASIBLE
              \/ st = PIQP_DUAL_INFEASIBLE -> (iter (sv_info sv') < M)%Z)
          /\ (st = PIQP_NUMERICS -> (R <= factor_retires (sv_info sv'))%Z)
          /\ ((1 <= iter (sv_info sv'))%Z -> m_kkt_init_state sv' = false)
          /\ (iter (sv_info sv') = 0%Z -> factor_retires (sv_info sv') = 0%Z ->
              m_kkt_init_state sv' = m_kkt_init_state sv))).
Proof.
  unfold solve_impl.
  destruct (solve_prologue kkt_ops verify_settings sv) as [o|] eqn:Hp; [|discriminate].
  apply solve_prologue_view in Hp.
  destruct o as [st0 s0|s0].
  - intros [= <- <-]. cbv zeta. destruct Hp as (F & S & Hc).
    split; [done|]. split; [done|].
    destruct Hc as [[-> Hd]|[(-> & Hd & Hv)|(-> & Hd & Hv & I & R0 & R1 & R2 & Kr)]].
    + by left.
    + right; by left.
    + right; right. rewrite I.
      split_and!; try lia; try done.
      * by repeat right.
      * intros [|[|]]; discriminate.
  - intros Hl. destruct Hp as (F & Hd & Hv & S & I & R0 & P & D & K0).
    apply outer_loop_view in Hl; [|done..]. cbv zeta in Hl |- *.
    assert (Hs : m_settings s0 = m_settings sv) by (unfold frame_of in F; congruence).
    rewrite Hs in Hl.
    destruct Hl as (Fl & Sl & Hst & Il & Rl & Hm & Hlt & Hn & Ka & Kb).
    split; [congruence|]. split; [done|]. right; right.
    split_and!; try lia; try done.
    + intros Hn'. apply Hn in Hn'. lia.
    + intros Hi Hr. rewrite Kb by done. done.
Qed.

(** X1.  Every call of [solve] ends, the status it returns is the one it
    stores in [info.status], and the two guards decide it: UNSOLVED
    exactly when the solver was not set up, INVALID_SETTINGS exactly when
    it was set up and the settings are refused, and one of SOLVED,
    MAX_ITER_REACHED, PRIMAL_INFEASIBLE, DUAL_INFEASIBLE and NUMERICS
    exactly when it was set up with valid settings. *)
Theorem solve_status_guards (sv : SolverT) :
  exists st (sv' : SolverT),
    solve pc_ops kkt_ops verify_settings sv = Some (st, sv')
    /\ status (info (m_result sv')) = st
    /\ (st = PIQP_UNSOLVED <-> m_setup_done sv = false)
    /\ (st = PIQP_INVALID_SETTINGS
        <-> m_setup_done sv = true /\ verify_settings (m_settings sv) = false)
    /\ (st = PIQP_SOLVED \/ st = PIQP_MAX_ITER_REACHED \/ st = PIQP_PRIMAL_INFEASIBLE
        \/ st = PIQP_DUAL_INFEASIBLE \/ st = PIQP_NUMERICS
        <-> m_setup_done sv = true /\ verify_settings (m_settings sv) = true).
Proof.
  destruct (solve_total pc_ops kkt_ops verify_settings sv) as (st & sv1 & Hi & Hs).
  exists st, (restore_box_dual (unscale_results pc_ops sv1)).
  split; [exact Hs|].
  pose proof (view_finish sv1) as Vf. cbv zeta in Vf. destruct Vf as (_ & If & _).
  pose proof (solve_impl_view Hi) as Hw. cbv zeta in Hw. destruct Hw as (_ & S & Hc).
  split; [unfold sv_info in *; congruence|].
  destruct Hc as [[Hst Hd]|[(Hst & Hd & Hv)|(Hd & Hv & Hst & _)]];
    (split; [|split]); split; intros Hx;
    intuition (subst; try congruence; try discriminate).
Qed.

(** X2.  [solve] changes neither the settings, nor the stored (scaled)
    problem data, nor the preconditioner, nor the flag [m_setup_done]:
    whatever the status, the solver can be called again on the same
    problem. *)
Theorem solve_keeps_problem (sv : SolverT) :
  exists st (sv' : SolverT),
    solve pc_ops kkt_ops verify_settings sv = Some (st, sv')
    /\ m_settings sv' = m_settings sv
    /\ m_data sv' = m_data sv
    /\ m_preconditioner sv' = m_preconditioner sv
    /\ m_setup_done sv' = m_setup_done sv.
Proof.
  destruct (solve_total pc_ops kkt_ops verify_settings sv) as (st & sv1 & Hi & Hs).
  exists st, (restore_box_dual (unscale_results pc_ops sv1)).
  split; [exact Hs|].
  pose proof (view_finish sv1) as Vf. cbv zeta in Vf. destruct Vf as (Ff & _).
  pose proof (solve_impl_view Hi) as Hw. cbv zeta in Hw. destruct Hw as (F & _).
  rewrite F in Ff. unfold frame_of in Ff.
  forget (restore_box_dual (unscale_results pc_ops sv1)) sv'.
  injection Ff as -> -> -> ->. done.
Qed.

(** X3.  The iteration count that a call of [solve] with valid settings
    on a solver that was set up leaves in [info.iter] lies between 0 and
    max(0, max_iter).  It is max(0, max_iter) when the status is
    MAX_ITER_REACHED, and below max_iter when the status is SOLVED,
    PRIMAL_INFEASIBLE or DUAL_INFEASIBLE. *)
Theorem solve_iteration_count (sv : SolverT) :
  m_setup_done sv = true -> verify_settings (m_settings sv) = true ->
  exists st (sv' : SolverT),
    solve pc_ops kkt_ops verify_settings sv = Some (st, sv')
    /\ (0 <= iter (info (m_result sv')) <= Z.max 0 (max_iter (m_settings sv)))%Z
    /\ (st = PIQP_MAX_ITER_REACHED ->
        iter (info (m_result sv')) = Z.max 0 (max_iter (m_settings sv)))
    /\ (st = PIQP_SOLVED \/ st = PIQP_PRIMAL_INFEASIBLE \/ st = PIQP_DUAL_INFEASIBLE ->
        (iter (info (m_result sv')) < max_iter (m_settings sv))%Z).
Proof.
  intros Hd Hv.
  destruct (solve_total pc_ops kkt_ops verify_settings sv) as (st & sv1 & Hi & Hs).
  exists st, (restore_box_dual (unscale_results pc_ops sv1)).
  split; [exact Hs|].
  pose proof (view_finish sv1) as Vf. cbv zeta in Vf. destruct Vf as (_ & If & _).
  unfold sv_info in If. rewrite If.
  pose proof (solve_impl_view Hi) as Hw. cbv zeta in Hw. destruct Hw as (_ & _ & Hc).
  unfold sv_info in Hc.
  destruct Hc as [[_ Hd']|[(_ & _ & Hv')|(_ & _ & _ & I & _ & Hm & Hlt & _)]];
    [congruence|congruence|].
  split_and!; [lia|lia|exact Hm|exact Hlt].
Qed.

(** X4.  The retry count that such a call leaves in [info.factor_retires]
    lies between 0 and max(0, max_factor_retires), and a call that
    returns NUMERICS has used all the retries. *)
Theorem solve_retry_count (sv : SolverT) :
  m_setup_done sv = true -> verify_settings (m_settings sv) = true ->
  exists st (sv' : SolverT),
    solve pc_ops kkt_ops verify_settings sv = Some (st, sv')
    /\ (0 <= factor_retires (info (m_result sv'))
        <= Z.max 0 (max_factor_retires (m_settings sv)))%Z
    /\ (st = PIQP_NUMERICS ->
        factor_retires (info (m_result sv'))
        = Z.max 0 (max_factor_retires (m_settings sv))).
Proof.
  intros Hd Hv.
  destruct (solve_total pc_ops kkt_ops verify_settings sv) as (st & sv1 & Hi & Hs).
  exists st, (restore_box_dual (unscale_results pc_ops sv1)).
  split; [exact Hs|].
  pose proof (view_finish sv1) as Vf. cbv zeta in Vf. destruct Vf as (_ & If & _).
  unfold sv_info in If. rewrite If.
  pose proof (solve_impl_view Hi) as Hw. cbv zeta in Hw. destruct Hw as (_ & _ & Hc).
  unfold sv_info in Hc.
  destruct Hc as [[_ Hd']|[(_ & _ & Hv')|(_ & _ & _ & _ & R & _ & _ & Hn & _)]];
    [congruence|congruence|].
  split; [lia|]. intros Hst. apply Hn in Hst. lia.
Qed.

(** X5.  The flag [m_kkt_init_state] after [solve]: a call that counts at
    least one iteration leaves it false, so that the next call sets the
    scalings back before it factorises; a call that returns with both
    counters at 0 leaves the flag as it was. *)
Theorem solve_kkt_init_state (sv : SolverT) :
  exists st (sv' : SolverT),
    solve pc_ops kkt_ops verify_settings sv = Some (st, sv')
    /\ ((1 <= iter (info (m_result sv')))%Z -> st <> PIQP_UNSOLVED ->
        st <> PIQP_INVALID_SETTINGS -> m_kkt_init_state sv' = false)
    /\ (st = PIQP_UNSOLVED \/ st = PIQP_INVALID_SETTINGS
        \/ (iter (info (m_result sv')) = 0%Z
            /\ factor_retires (info (m_result sv')) = 0%Z) ->
        m_kkt_init_state sv' = m_kkt_init_state sv).
Proof.
  destruct (solve_total pc_ops kkt_ops verify_settings sv) as (st & sv1 & Hi & Hs).
  exists st, (restore_box_dual (unscale_results pc_ops sv1)).
  split; [exact Hs|].
  pose proof (view_finish sv1) as Vf. cbv zeta in Vf. destruct Vf as (_ & If & Kf & _).
  unfold sv_info in If. rewrite If, Kf.
  pose proof (solve_impl_view Hi) as Hw. cbv zeta in Hw. destruct Hw as (_ & _ & Hc).
  unfold sv_info in Hc.
  destruct Hc as [[-> Hd]|[(-> & Hd & Hv)|(Hd & Hv & Hst & _ & _ & _ & _ & _ & Ka & Kb)]].
  - rewrite solve_impl_not_setup in Hi by done. injection Hi as <-.
    split; [done|]. intros _. reflexivity.
  - rewrite solve_impl_invalid_settings in Hi by done. injection Hi as <-.
    split; [done|]. intros _. reflexivity.
  - split; [intros Hge _ _; by apply Ka|].
    intros [-> | [-> | [Hz Hr]]]; [destruct Hst as [|[|[|[|]]]]; discriminate..|].
    by apply Kb.
Qed.

End SolveFlow.

(** ** Setup and update of the stored problem *)

Section BoxLoops.
Context {T : Type} `{Scalar T}.

(** The loop of [setup_lb_data] writes the two compressed arrays only,
    and there only the places of the bounds it keeps. *)
Lemma setup_lb_loop_frame (lb : list T) k : forall i nl il (d : Data T),
  let res := setup_lb_loop lb i k nl il d in
  problem_of res.2 = problem_of d
  /\ ub_of res.2 = ub_of d
  /\ n_lb res.2 = n_lb d
  /\ length (x_lb_n res.2) = length (x_lb_n d)
  /\ length (x_lb_idx res.2) = length (x_lb_idx d)
  /\ (nl <= res.1 <= nl + k)%nat
  /\ (forall j, (j < il \/ il + (res.1 - nl) <= j)%nat ->
        x_lb_n res.2 !! j = x_lb_n d !! j /\ x_lb_idx res.2 !! j = x_lb_idx d !! j).
Proof.
  induction k as [|k IH]; intros i nl il d; cbn [setup_lb_loop].
  - cbv zeta. cbn [fst snd]. split_and!; try done; lia.
  - destruct (sc_gtb (coeff lb i) (- PIQP_INF)%sc).
    + cbv zeta.
      match goal with |- context [setup_lb_loop lb (S i) k ?a ?b ?dd] =>
        specialize (IH (S i) a b dd) end.
      cbv zeta in IH.
      destruct IH as (H1 & H2 & H3 & H4 & H5 & H6 & H7).
      split_and!; [by rewrite H1 | by rewrite H2 | by rewrite H3
                  | rewrite H4; cbn; by rewrite length_insert
                  | rewrite H5; cbn; by rewrite length_insert | lia | lia |].
      intros j Hj. destruct (H7 j) as [-> ->]; [lia|].
      cbn. rewrite !list_lookup_insert_ne by lia. done.
    + specialize (IH (S i) nl il d). cbv zeta in IH |- *.
      destruct IH as (H1 & H2 & H3 & H4 & H5 & H6 & H7).
      split_and!; try done; lia.
Qed.

Lemma setup_ub_loop_frame (ub : list T) k : forall i nl il (d : Data T),
  let res := setup_ub_loop ub i k nl il d in
  problem_of res.2 = problem_of d
  /\ lb_of res.2 = lb_of d
  /\ n_ub res.2 = n_ub d
  /\ length (x_ub res.2) = length (x_ub d)
  /\ length (x_ub_idx res.2) = length (x_ub_idx d)
  /\ (nl <= res.1 <= nl + k)%nat
  /\ (forall j, (j < il \/ il + (res.1 - nl) <= j)%nat ->
        x_ub res.2 !! j = x_ub d !! j /\ x_ub_idx res.2 !! j = x_ub_idx d !! j).
Proof.
  induction k as [|k IH]; intros i nl il d; cbn [setup_ub_loop].
  - cbv zeta. cbn [fst snd]. split_and!; try done; lia.
  - destruct (coeff ub i <? PIQP_INF)%sc.
    + cbv zeta.
      match goal with |- context [setup_ub_loop ub (S i) k ?a ?b ?dd] =>
        specialize (IH (S i) a b dd) end.
      cbv zeta in IH.
      destruct IH as (H1 & H2 & H3 & H4 & H5 & H6 & H7).
      split_and!; [by rewrite H1 | by rewrite H2 | by rewrite H3
                  | rewrite H4; cbn; by rewrite length_insert
                  | rewrite H5; cbn; by rewrite length_insert | lia | lia |].
      intros j Hj. destruct (H7 j) as [-> ->]; [lia|].
      cbn. rewrite !list_lookup_insert_ne by lia. done.
    + specialize (IH (S i) nl il d). cbv zeta in IH |- *.
      destruct IH as (H1 & H2 & H3 & H4 & H5 & H6 & H7).
      split_and!; try done; lia.
Qed.

(** [setup_lb_data] and [setup_ub_data], whatever the bounds. *)
Lemma setup_lb_data_frame (x_lb : option (list T)) (d : Data T) :
  let d' := setup_lb_data x_lb d in
  problem_of d' = problem_of d
  /\ ub_of d' = ub_of d
  /\ length (x_lb_n d') = length (x_lb_n d)
  /\ length (x_lb_idx d') = length (x_lb_idx d)
  /\ (n_lb d' <= n d)%nat
  /\ (x_lb = None -> n_lb d' = 0%nat)
  /\ (forall j, (n_lb d' <= j)%nat ->
        x_lb_n d' !! j = x_lb_n d !! j /\ x_lb_idx d' !! j = x_lb_idx d !! j).
Proof.
  cbv zeta. destruct x_lb as [lb|]; cbn [setup_lb_data].
  - pose proof (@setup_lb_loop_frame lb (n d) 0 0 0 d) as HL. cbv zeta in HL.
    destruct (setup_lb_loop lb 0 (n d) 0 0 d) as [nl d2]. cbn [fst snd] in HL.
    destruct HL as (H1 & H2 & H3 & H4 & H5 & H6 & H7).
    split_and!; try done.
    + cbn. lia.
    + intros j Hj. cbn in Hj |- *. apply H7. lia.
  - split_and!; try done. cbn. lia.
Qed.

Lemma setup_ub_data_frame (x_ub' : option (list T)) (d : Data T) :
  let d' := setup_ub_data x_ub' d in
  problem_of d' = problem_of d
  /\ lb_of d' = lb_of d
  /\ length (x_ub d') = length (x_ub d)
  /\ length (x_ub_idx d') = length (x_ub_idx d)
  /\ (n_ub d' <= n d)%nat
  /\ (x_ub' = None -> n_ub d' = 0%nat)
  /\ (forall j, (n_ub d' <= j)%nat ->
        x_ub d' !! j = x_ub d !! j /\ x_ub_idx d' !! j = x_ub_idx d !! j).
Proof.
  cbv zeta. destruct x_ub' as [ub|]; cbn [setup_ub_data].
  - pose proof (@setup_ub_loop_frame ub (n d) 0 0 0 d) as HL. cbv zeta in HL.
    destruct (setup_ub_loop ub 0 (n d) 0 0 d) as [nl d2]. cbn [fst snd] in HL.
    destruct HL as (H1 & H2 & H3 & H4 & H5 & H6 & H7).
    split_and!; try done.
    + cbn. lia.
    + intros j Hj. cbn in Hj |- *. apply H7. lia.
  - split_and!; try done. cbn. lia.
Qed.

End BoxLoops.

Section SetupWorkspace.
Context {T : Type} `{Scalar T} {PC K : Type}.
Context (pc_ops : PreconditionerOps T PC) (kkt_ops : KKTOps T K).
Local Abbreviation SolverT := (Solver T PC K).

(** A vector that [init_workspace] has resized has the length asked for. *)
Ltac resized :=
  match goal with
  | |- length (?f (m_result (init_workspace ?s))) = ?k =>
      transitivity (length (resize k (f (m_result s))));
      [apply (f_equal length); reflexivity | apply resize_length]
  | |- length (?f (init_workspace ?s)) = ?k =>
      transitivity (length (resize k (f s)));
      [apply (f_equal length); reflexivity | apply resize_length]
  end.

(** [init_workspace] sizes every vector by the dimensions of the stored
    problem, and sets rho and delta to their initial values. *)
Lemma init_workspace_sizes (sv : SolverT) :
  let sv' := init_workspace sv in
  let r := m_result sv' in
  let d := m_data sv in
  (length (x r) = n d /\ length (zeta r) = n d
   /\ length (z_lb r) = n d /\ length (z_ub r) = n d
   /\ length (s_lb r) = n d /\ length (s_ub r) = n d
   /\ length (nu_lb r) = n d /\ length (nu_ub r) = n d)
  /\ (length (y r) = p d /\ length (lambda r) = p d)
  /\ (length (z r) = m d /\ length (s r) = m d /\ length (nu r) = m d)
  /\ (length (rx sv') = n d /\ length (rx_nr sv') = n d /\ length (dx sv') = n d
      /\ length (rz_lb sv') = n d /\ length (rz_ub sv') = n d
      /\ length (rs_lb sv') = n d /\ length (rs_ub sv') = n d
      /\ length (rz_lb_nr sv') = n d /\ length (rz_ub_nr sv') = n d
      /\ length (dz_lb sv') = n d /\ length (dz_ub sv') = n d
      /\ length (ds_lb sv') = n d /\ length (ds_ub sv') = n d)
  /\ (length (ry sv') = p d /\ length (ry_nr sv') = p d /\ length (dy sv') = p d)
  /\ (length (rz sv') = m d /\ length (rz_nr sv') = m d /\ length (rs sv') = m d
      /\ length (dz sv') = m d /\ length (ds sv') = m d).
Proof.
  cbv zeta. split_and!; resized.
Qed.


(** What the rest of [setup_impl] keeps of the state after
    [init_workspace]. *)
Lemma setup_impl_after_workspace P A G c' b' h' lb ub (sv : SolverT) :
  let sw := init_workspace (upd_data (setup_data P A G c' b' h' lb ub) sv) in
  let sv' := setup_impl pc_ops kkt_ops P A G c' b' h' lb ub sv in
  m_result sv' = m_result sw
  /\ m_settings sv' = m_settings sw
  /\ m_kkt_init_state sv' = true /\ m_setup_done sv' = true
  /\ (rx sv' = rx sw /\ ry sv' = ry sw /\ rz sv' = rz sw
      /\ rz_lb sv' = rz_lb sw /\ rz_ub sv' = rz_ub sw
      /\ rs sv' = rs sw /\ rs_lb sv' = rs_lb sw /\ rs_ub sv' = rs_ub sw)
  /\ (rx_nr sv' = rx_nr sw /\ ry_nr sv' = ry_nr sw /\ rz_nr sv' = rz_nr sw
      /\ rz_lb_nr sv' = rz_lb_nr sw /\ rz_ub_nr sv' = rz_ub_nr sw)
  /\ (dx sv' = dx sw /\ dy sv' = dy sw /\ dz sv' = dz sw
      /\ dz_lb sv' = dz_lb sw /\ dz_ub sv' = dz_ub sw
      /\ ds sv' = ds sw /\ ds_lb sv' = ds_lb sw /\ ds_ub sv' = ds_ub sw).
Proof.
  cbv beta delta [setup_impl]. cbv zeta.
  forget (init_workspace (upd_data (setup_data P A G c' b' h' lb ub) sv)) sw.
  break_pair. split_and!; reflexivity.
Qed.


(** The stored problem after setup, whatever the bounds. *)
Lemma setup_data_counts (P A G : list (list T)) (c' b' h' : list T)
    (x_lb x_ub' : option (list T)) (d : Data T) :
  let d' := setup_data P A G c' b' h' x_lb x_ub' d in
  n d' = length P /\ p d' = length A /\ m d' = length G
  /\ length (x_lb_n d') = n d' /\ length (x_lb_idx d') = n d'
  /\ length (x_ub d') = n d' /\ length (x_ub_idx d') = n d'
  /\ (n_lb d' <= n d')%nat /\ (n_ub d' <= n d')%nat
  /\ (x_lb = None -> n_lb d' = 0%nat)
  /\ (x_ub' = None -> n_ub d' = 0%nat).
Proof.
  cbv zeta. unfold setup_data. cbv zeta.
  match goal with |- context [setup_lb_data _ ?dd] => remember dd as d1 eqn:Ed1 end.
  assert (E1 : n d1 = length P /\ p d1 = length A /\ m d1 = length G
               /\ length (x_lb_n d1) = length P /\ length (x_lb_idx d1) = length P
               /\ length (x_ub d1) = length P /\ length (x_ub_idx d1) = length P).
  { rewrite Ed1. split_and!; simpl; rewrite ?resize_length, ?resize_idx_length; done. }
  clear Ed1. destruct E1 as (N1 & P1 & M1 & L1 & L2 & L3 & L4).
  pose proof (setup_lb_data_frame x_lb d1) as HL. cbv zeta in HL.
  destruct HL as (F1 & U1 & A1 & A2 & A3 & A4 & _).
  forget (setup_lb_data x_lb d1) d2.
  pose proof (setup_ub_data_frame x_ub' d2) as HU. cbv zeta in HU.
  destruct HU as (F2 & U2 & B1 & B2 & B3 & B4 & _).
  forget (setup_ub_data x_ub' d2) d3.
  unfold problem_of, lb_of, ub_of in *.
  injection F1 as ? ? ? ? ? ? ? ? ?. injection F2 as ? ? ? ? ? ? ? ? ?.
  injection U1 as ? ? ?. injection U2 as ? ? ?.
  split_and!; try congruence; try lia.
  all: intros Hn; try specialize (A4 Hn); try specialize (B4 Hn); congruence.
Qed.

(** C8 (amended).  After setup with bound vectors of length n, when [scale_data]
    keeps the dimensions and the layout of the box arrays: the stored
    problem is the one that [setup_lb_data] and [setup_ub_data] built, as
    [scale_data] leaves it; its [n_lb] is the number of entries of x_lb
    above [-PIQP_INF]; for [i < n_lb] the stored index [x_lb_idx(i)] is
    below n and names the i-th of these entries, and x_lb_idx is strictly
    increasing over the active bounds; the value [x_lb_n(i)] that is
    handed to [scale_data] is the negation of that entry.  The same holds
    for x_ub with the entries below [PIQP_INF], handed over as they are. *)
Theorem setup_box_bounds (P A G : list (list T)) (c' b' h' lb ub : list T)
    (sv : SolverT) :
  length lb = length P -> length ub = length P ->
  scale_keeps_dims pc_ops -> scale_keeps_box_layout pc_ops ->
  let d0 := setup_data P A G c' b' h' (Some lb) (Some ub) (m_data sv) in
  let d' := m_data (setup_impl pc_ops kkt_ops P A G c' b' h' (Some lb) (Some ub) sv) in
  let finite_lb := List.filter (fun v => sc_gtb v (- PIQP_INF)%sc) lb in
  let finite_ub := List.filter (fun v => (v <? PIQP_INF)%sc) ub in
  d' = (pc_scale_data pc_ops (pc_init pc_ops (m_preconditioner sv) d0) d0 false
          (preconditioner_iter (m_settings sv))).2
  /\ n d' = length P
  /\ n_lb d' = length finite_lb
  /\ (forall i, (i < n_lb d')%nat ->
        exists k v, x_lb_idx d' !! i = Some k /\ (k < n d')%nat
                    /\ lb !! k = Some v /\ finite_lb !! i = Some v
                    /\ x_lb_n d0 !! i = Some (- v)%sc)
  /\ (forall i j ki kj, (i < j)%nat -> (j < n_lb d')%nat ->
        x_lb_idx d' !! i = Some ki -> x_lb_idx d' !! j = Some kj -> (ki < kj)%nat)
  /\ n_ub d' = length finite_ub
  /\ (forall i, (i < n_ub d')%nat ->
        exists k v, x_ub_idx d' !! i = Some k /\ (k < n d')%nat
                    /\ ub !! k = Some v /\ finite_ub !! i = Some v
                    /\ x_ub d0 !! i = Some v)
  /\ (forall i j ki kj, (i < j)%nat -> (j < n_ub d')%nat ->
        x_ub_idx d' !! i = Some ki -> x_ub_idx d' !! j = Some kj -> (ki < kj)%nat).
Proof.
  intros Hlb Hub Hdims Hlay. cbv zeta.
  pose proof (setup_impl_data pc_ops kkt_ops P A G c' b' h' (Some lb) (Some ub) sv) as Ed.
  cbv zeta in Ed.
  pose proof (@setup_data_bounds _ _ P A G c' b' h' lb ub (m_data sv) Hlb Hub) as Hb.
  cbv zeta in Hb.
  forget (setup_data P A G c' b' h' (Some lb) (Some ub) (m_data sv)) d0.
  forget (m_data (setup_impl pc_ops kkt_ops P A G c' b' h' (Some lb) (Some ub) sv)) d1.
  pose proof (Hdims (pc_init pc_ops (m_preconditioner sv) d0) d0 false
                (preconditioner_iter (m_settings sv))) as Hd.
  pose proof (Hlay (pc_init pc_ops (m_preconditioner sv) d0) d0 false
                (preconditioner_iter (m_settings sv))) as Hl.
  cbv zeta in Hd, Hl. rewrite <- Ed in Hd, Hl.
  destruct Hd as (N1 & _ & _ & N4 & N5). destruct Hl as (I1 & I2 & _).
  split; [exact Ed|].
  rewrite N1, N4, N5, I1, I2. exact Hb.
Qed.

(** X6.  The problem stored after setup, whether bounds are given or
    not, when [scale_data] keeps the dimensions and the layout of the box
    arrays: the dimensions are the numbers of rows of P, A and G, the four
    arrays of the box bounds have length n, at most n lower and at most n
    upper bounds are active, and a bound that is not given leaves none
    active. *)
Theorem setup_box_counts (P A G : list (list T)) (c' b' h' : list T)
    (x_lb x_ub' : option (list T)) (sv : SolverT) :
  scale_keeps_dims pc_ops -> scale_keeps_box_layout pc_ops ->
  let d' := m_data (setup_impl pc_ops kkt_ops P A G c' b' h' x_lb x_ub' sv) in
  n d' = length P /\ p d' = length A /\ m d' = length G
  /\ length (x_lb_n d') = n d' /\ length (x_lb_idx d') = n d'
  /\ length (x_ub d') = n d' /\ length (x_ub_idx d') = n d'
  /\ (n_lb d' <= n d')%nat /\ (n_ub d' <= n d')%nat
  /\ (x_lb = None -> n_lb d' = 0%nat)
  /\ (x_ub' = None -> n_ub d' = 0%nat).
Proof.
  intros Hdims Hlay. cbv zeta.
  pose proof (setup_impl_data pc_ops kkt_ops P A G c' b' h' x_lb x_ub' sv) as Ed.
  cbv zeta in Ed.
  pose proof (setup_data_counts P A G c' b' h' x_lb x_ub' (m_data sv)) as Hc.
  cbv zeta in Hc.
  forget (setup_data P A G c' b' h' x_lb x_ub' (m_data sv)) d0.
  forget (m_data (setup_impl pc_ops kkt_ops P A G c' b' h' x_lb x_ub' sv)) d1.
  pose proof (Hdims (pc_init pc_ops (m_preconditioner sv) d0) d0 false
                (preconditioner_iter (m_settings sv))) as Hd.
  pose proof (Hlay (pc_init pc_ops (m_preconditioner sv) d0) d0 false
                (preconditioner_iter (m_settings sv))) as Hl.
  cbv zeta in Hd, Hl. rewrite <- Ed in Hd, Hl.
  destruct Hd as (N1 & N2 & N3 & N4 & N5). destruct Hl as (I1 & I2 & I3 & I4).
  rewrite N1, N2, N3, N4, N5, I1, I2, I3, I4. exact Hc.
Qed.

(** The result and the workspace after [setup_impl]. *)
Lemma setup_impl_sizes P A G c' b' h' lb ub (sv : SolverT) :
  let sv' := setup_impl pc_ops kkt_ops P A G c' b' h' lb ub sv in
  let r := m_result sv' in
  let nn := length P in
  let pp := length A in
  let mm := length G in
  (length (x r) = nn /\ length (zeta r) = nn
   /\ length (z_lb r) = nn /\ length (z_ub r) = nn
   /\ length (s_lb r) = nn /\ length (s_ub r) = nn
   /\ length (nu_lb r) = nn /\ length (nu_ub r) = nn)
  /\ (length (y r) = pp /\ length (lambda r) = pp)
  /\ (length (z r) = mm /\ length (s r) = mm /\ length (nu r) = mm)
  /\ (length (rx sv') = nn /\ length (rx_nr sv') = nn /\ length (dx sv') = nn
      /\ length (rz_lb sv') = nn /\ length (rz_ub sv') = nn
      /\ length (rs_lb sv') = nn /\ length (rs_ub sv') = nn
      /\ length (rz_lb_nr sv') = nn /\ length (rz_ub_nr sv') = nn
      /\ length (dz_lb sv') = nn /\ length (dz_ub sv') = nn
      /\ length (ds_lb sv') = nn /\ length (ds_ub sv') = nn)
  /\ (length (ry sv') = pp /\ length (ry_nr sv') = pp /\ length (dy sv') = pp)
  /\ (length (rz sv') = mm /\ length (rz_nr sv') = mm /\ length (rs sv') = mm
      /\ length (dz sv') = mm /\ length (ds sv') = mm)
  /\ (rho (info r) = rho_init (m_settings sv)
      /\ delta (info r) = delta_init (m_settings sv)
      /\ status (info r) = status (info (m_result sv))
      /\ iter (info r) = iter (info (m_result sv)))
  /\ m_settings sv' = m_settings sv
  /\ m_kkt_init_state sv' = true /\ m_setup_done sv' = true.
Proof.
  cbv zeta.
  pose proof (setup_impl_after_workspace P A G c' b' h' lb ub sv) as Ha.
  cbv zeta in Ha.
  destruct Ha as (-> & -> & -> & -> & (-> & -> & -> & -> & -> & -> & -> & ->)
                  & (-> & -> & -> & -> & ->) & (-> & -> & -> & -> & -> & -> & -> & ->)).
  pose proof (setup_data_counts P A G c' b' h' lb ub (m_data sv)) as Hd.
  cbv zeta in Hd. destruct Hd as (Hn & Hp & Hm & _).
  assert (Hi : let s1 := upd_data (setup_data P A G c' b' h' lb ub) sv in
               m_data s1 = setup_data P A G c' b' h' lb ub (m_data sv)
               /\ m_settings s1 = m_settings sv /\ m_result s1 = m_result sv)
    by (split_and!; reflexivity).
  cbv zeta in Hi. destruct Hi as (Hd1 & Hs1 & Hr1).
  forget (upd_data (setup_data P A G c' b' h' lb ub) sv) s1.
  pose proof (init_workspace_sizes s1) as Hw. cbv zeta in Hw.
  rewrite Hd1, Hn, Hp, Hm in Hw.
  assert (Hi : rho (info (m_result (init_workspace s1))) = rho_init (m_settings s1)
               /\ delta (info (m_result (init_workspace s1))) = delta_init (m_settings s1)
               /\ status (info (m_result (init_workspace s1)))
                  = status (info (m_result s1))
               /\ iter (info (m_result (init_workspace s1))) = iter (info (m_result s1))
               /\ m_settings (init_workspace s1) = m_settings s1)
    by (split_and!; reflexivity).
  destruct Hi as (I1 & I2 & I3 & I4 & I5).
  forget (init_workspace s1) sw.
  rewrite I1, I2, I3, I4, I5, Hs1, Hr1.
  destruct Hw as (W1 & W2 & W3 & W4 & W5 & W6).
  split_and!; try done; try tauto.
Qed.

(** X7.  After [setup] every vector of the result and of the workspace
    has the length of its block: n (rows of P) for x, zeta and all the
    vectors of the box constraints, which are sized by the number of
    variables and not by the number of active bounds; p (rows of A) for y
    and lambda; m (rows of G) for z, s and nu; and likewise the
    residuals and the steps.  rho and delta are the initial values of the
    settings, the settings are kept, the status and the iteration count
    are not set back, and the two flags are true. *)
Theorem setup_workspace_sizes P A G c' b' h' lb ub (sv : SolverT) :
  let sv' := setup_impl pc_ops kkt_ops P A G c' b' h' lb ub sv in
  let r := m_result sv' in
  let nn := length P in
  let pp := length A in
  let mm := length G in
  (length (x r) = nn /\ length (zeta r) = nn
   /\ length (z_lb r) = nn /\ length (z_ub r) = nn
   /\ length (s_lb r) = nn /\ length (s_ub r) = nn
   /\ length (nu_lb r) = nn /\ length (nu_ub r) = nn)
  /\ (length (y r) = pp /\ length (lambda r) = pp)
  /\ (length (z r) = mm /\ length (s r) = mm /\ length (nu r) = mm)
  /\ (length (rx sv') = nn /\ length (rx_nr sv') = nn /\ length (dx sv') = nn
      /\ length (rz_lb sv') = nn /\ length (rz_ub sv') = nn
      /\ length (rs_lb sv') = nn /\ length (rs_ub sv') = nn
      /\ length (rz_lb_nr sv') = nn /\ length (rz_ub_nr sv') = nn
      /\ length (dz_lb sv') = nn /\ length (dz_ub sv') = nn
      /\ length (ds_lb sv') = nn /\ length (ds_ub sv') = nn)
  /\ (length (ry sv') = pp /\ length (ry_nr sv') = pp /\ length (dy sv') = pp)
  /\ (length (rz sv') = mm /\ length (rz_nr sv') = mm /\ length (rs sv') = mm
      /\ length (dz sv') = mm /\ length (ds sv') = mm)
  /\ (rho (info r) = rho_init (m_settings sv)
      /\ delta (info r) = delta_init (m_settings sv)
      /\ status (info r) = status (info (m_result sv))
      /\ iter (info r) = iter (info (m_result sv)))
  /\ m_settings sv' = m_settings sv
  /\ m_kkt_init_state sv' = true /\ m_setup_done sv' = true.
Proof. apply setup_impl_sizes. Qed.


End SetupWorkspace.

Section UpdateTheory.
Context {T : Type} `{Scalar T} {PC K : Type}.
Context (pc_ops : PreconditionerOps T PC) (kkt_ops : KKTOps T K).
Context (upd_ops : UpdateOps T PC K).
Local Abbreviation SolverT := (Solver T PC K).

(** The compressed lower bounds after [setup_lb_data] on arrays of
    length n. *)
Lemma setup_lb_data_bounds (lb : list T) (d : Data T) :
  length lb = n d -> length (x_lb_n d) = n d -> length (x_lb_idx d) = n d ->
  let d' := setup_lb_data (Some lb) d in
  let finite_lb := List.filter lb_finite lb in
  n_lb d' = length finite_lb
  /\ (forall i, (i < n_lb d')%nat ->
        exists k v, x_lb_idx d' !! i = Some k /\ (k < n d)%nat
                    /\ lb !! k = Some v /\ finite_lb !! i = Some v
                    /\ x_lb_n d' !! i = Some (- v)%sc)
  /\ (forall i j ki kj, (i < j)%nat -> (j < n_lb d')%nat ->
        x_lb_idx d' !! i = Some ki -> x_lb_idx d' !! j = Some kj -> (ki < kj)%nat).
Proof.
  intros Hlb Hl1 Hl2. cbv zeta. cbn [setup_lb_data].
  pose proof (@setup_lb_loop_spec _ _ lb (n d) 0 0 0 d) as HL.
  destruct (setup_lb_loop lb 0 (n d) 0 0 d) as [nl d2] eqn:E2.
  simpl in HL. rewrite drop_0 in HL.
  destruct HL as (L1 & L2 & L3 & L4 & _); [lia | lia | congruence | congruence |].
  cbn [n_lb x_lb_n x_lb_idx set_n_lb].
  assert (Hnl : nl = length (List.filter lb_finite lb))
    by (rewrite L1, kept_entries_length; done).
  split; [done|]. split.
  - intros i Hi. rewrite Hnl in Hi.
    destruct (kept_entry_at Hi) as (k & v & He & Hk & Hv & Hf).
    destruct (L4 i (k, v) He) as [Hx Hidx]. cbn in Hx, Hidx.
    exists k, v. split_and!; try done. lia.
  - intros i j ki kj Hij Hj Hi' Hj'. rewrite Hnl in Hj.
    destruct (kept_entry_at Hj) as (k2 & v2 & He2 & _).
    assert (Hi : (i < length (List.filter lb_finite lb))%nat) by lia.
    destruct (kept_entry_at Hi) as (k1 & v1 & He1 & _).
    destruct (L4 i (k1, v1) He1) as [_ Hidx1]. destruct (L4 j (k2, v2) He2) as [_ Hidx2].
    cbn in Hidx1, Hidx2.
    pose proof (kept_entries_increasing Hij He1 He2) as Hlt. cbn in Hlt.
    congruence.
Qed.

Lemma setup_ub_data_bounds (ub : list T) (d : Data T) :
  length ub = n d -> length (x_ub d) = n d -> length (x_ub_idx d) = n d ->
  let d' := setup_ub_data (Some ub) d in
  let finite_ub := List.filter ub_finite ub in
  n_ub d' = length finite_ub
  /\ (forall i, (i < n_ub d')%nat ->
        exists k v, x_ub_idx d' !! i = Some k /\ (k < n d)%nat
                    /\ ub !! k = Some v /\ finite_ub !! i = Some v
                    /\ x_ub d' !! i = Some v)
  /\ (forall i j ki kj, (i < j)%nat -> (j < n_ub d')%nat ->
        x_ub_idx d' !! i = Some ki -> x_ub_idx d' !! j = Some kj -> (ki < kj)%nat).
Proof.
  intros Hub Hl1 Hl2. cbv zeta. cbn [setup_ub_data].
  pose proof (@setup_ub_loop_spec _ _ ub (n d) 0 0 0 d) as HL.
  destruct (setup_ub_loop ub 0 (n d) 0 0 d) as [nl d2] eqn:E2.
  simpl in HL. rewrite drop_0 in HL.
  destruct HL as (L1 & L2 & L3 & L4 & _); [lia | lia | congruence | congruence |].
  cbn [n_ub x_ub x_ub_idx set_n_ub].
  assert (Hnl : nl = length (List.filter ub_finite ub))
    by (rewrite L1, kept_entries_length; done).
  split; [done|]. split.
  - intros i Hi. rewrite Hnl in Hi.
    destruct (kept_entry_at Hi) as (k & v & He & Hk & Hv & Hf).
    destruct (L4 i (k, v) He) as [Hx Hidx]. cbn in Hx, Hidx.
    exists k, v. split_and!; try done. lia.
  - intros i j ki kj Hij Hj Hi' Hj'. rewrite Hnl in Hj.
    destruct (kept_entry_at Hj) as (k2 & v2 & He2 & _).
    assert (Hi : (i < length (List.filter ub_finite ub))%nat) by lia.
    destruct (kept_entry_at Hi) as (k1 & v1 & He1 & _).
    destruct (L4 i (k1, v1) He1) as [_ Hidx1]. destruct (L4 j (k2, v2) He2) as [_ Hidx2].
    cbn in Hidx1, Hidx2.
    pose proof (kept_entries_increasing Hij He1 He2) as Hlt. cbn in Hlt.
    congruence.
Qed.

(** The problem between [unscale_data] and [scale_data], before its
    bounds are looked at. *)
Lemma update_data_unfold P A G c' b' h' x_lb x_ub' (d : Data T) :
  exists d1 : Data T,
    (update_data upd_ops P A G c' b' h' x_lb x_ub' d).1
    = (let d2 := match x_lb with Some v => setup_lb_data (Some v) d1 | None => d1 end in
       match x_ub' with Some v => setup_ub_data (Some v) d2 | None => d2 end)
    /\ n d1 = n d /\ p d1 = p d /\ m d1 = m d
    /\ P_utri d1 = match P with Some P' => upper P' | None => P_utri d end
    /\ AT d1 = match A with Some A' => transpose (n d) A' | None => AT d end
    /\ GT d1 = match G with Some G' => transpose (n d) G' | None => GT d end
    /\ c d1 = default (c d) c' /\ b d1 = default (b d) b' /\ h d1 = default (h d) h'
    /\ lb_of d1 = lb_of d /\ ub_of d1 = ub_of d.
Proof.
  unfold update_data. cbv zeta.
  destruct P as [P'|], A as [A'|], G as [G'|], c' as [cv|], b' as [bv|], h' as [hv|];
    (eexists; split; [reflexivity|split_and!; reflexivity]).
Qed.



(** The compressed bounds that [update_data] builds from bound vectors
    of length n, on a problem whose arrays have the length that the setup
    gave them. *)
Lemma update_data_bounds P A G c' b' h' (lb ub : list T) (d : Data T) :
  length lb = n d -> length ub = n d ->
  length (x_lb_n d) = n d -> length (x_lb_idx d) = n d ->
  length (x_ub d) = n d -> length (x_ub_idx d) = n d ->
  let d' := (update_data upd_ops P A G c' b' h' (Some lb) (Some ub) d).1 in
  let finite_lb := List.filter lb_finite lb in
  let finite_ub := List.filter ub_finite ub in
  n_lb d' = length finite_lb
  /\ (forall i, (i < n_lb d')%nat ->
        exists k v, x_lb_idx d' !! i = Some k /\ (k < n d)%nat
                    /\ lb !! k = Some v /\ finite_lb !! i = Some v
                    /\ x_lb_n d' !! i = Some (- v)%sc)
  /\ (forall i j ki kj, (i < j)%nat -> (j < n_lb d')%nat ->
        x_lb_idx d' !! i = Some ki -> x_lb_idx d' !! j = Some kj -> (ki < kj)%nat)
  /\ n_ub d' = length finite_ub
  /\ (forall i, (i < n_ub d')%nat ->
        exists k v, x_ub_idx d' !! i = Some k /\ (k < n d)%nat
                    /\ ub !! k = Some v /\ finite_ub !! i = Some v
                    /\ x_ub d' !! i = Some v)
  /\ (forall i j ki kj, (i < j)%nat -> (j < n_ub d')%nat ->
        x_ub_idx d' !! i = Some ki -> x_ub_idx d' !! j = Some kj -> (ki < kj)%nat).
Proof.
  intros Hlb Hub L1 L2 L3 L4. cbv zeta.
  destruct (update_data_unfold P A G c' b' h' (Some lb) (Some ub) d)
    as (d1 & -> & N1 & _ & _ & _ & _ & _ & _ & _ & _ & El & Eu).
  cbv zeta.
  unfold lb_of in El. unfold ub_of in Eu.
  injection El as _ El1 El2. injection Eu as _ Eu1 Eu2.
  rewrite <- N1, <- ?El1, <- ?El2, <- ?Eu1, <- ?Eu2 in *. clear dependent d.
  pose proof (setup_lb_data_bounds Hlb L1 L2) as HL. cbv zeta in HL.
  pose proof (setup_lb_data_frame (Some lb) d1) as HF. cbv zeta in HF.
  destruct HF as (F1 & F2 & _).
  forget (setup_lb_data (Some lb) d1) d2.
  unfold problem_of in F1. injection F1 as N2 _ _ _ _ _ _ _ _.
  unfold ub_of in F2. injection F2 as _ U1 U2.
  rewrite <- N2, <- U1, <- U2 in *.
  pose proof (setup_ub_data_bounds Hub L3 L4) as HU. cbv zeta in HU.
  pose proof (setup_ub_data_frame (Some ub) d2) as HF. cbv zeta in HF.
  destruct HF as (_ & F2 & _).
  forget (setup_ub_data (Some ub) d2) d3.
  unfold lb_of in F2. injection F2 as -> -> ->.
  destruct HL as (A1 & A2 & A3), HU as (B1 & B2 & B3).
  split_and!; done.
Qed.

(** [update_data] keeps the number of variables. *)
Lemma update_data_n P A G c' b' h' x_lb x_ub' (d : Data T) :
  n (update_data upd_ops P A G c' b' h' x_lb x_ub' d).1 = n d.
Proof.
  destruct (update_data_unfold P A G c' b' h' x_lb x_ub' d) as (d1 & -> & N1 & _).
  cbv zeta. rewrite <- N1.
  assert (Hl : forall o (e : Data T), n (setup_lb_data o e) = n e).
  { intros o e. pose proof (setup_lb_data_frame o e) as HF. cbv zeta in HF.
    destruct HF as (F1 & _). unfold problem_of in F1.
    injection F1 as N2 _ _ _ _ _ _ _ _. congruence. }
  assert (Hu : forall o (e : Data T), n (setup_ub_data o e) = n e).
  { intros o e. pose proof (setup_ub_data_frame o e) as HF. cbv zeta in HF.
    destruct HF as (F1 & _). unfold problem_of in F1.
    injection F1 as N2 _ _ _ _ _ _ _ _. congruence. }
  destruct x_lb, x_ub'; rewrite ?Hu, ?Hl; done.
Qed.

(** The problem that [update] stores: unscaled, updated, scaled again. *)
Lemma update_stored_data P A G c' b' h' x_lb x_ub' reuse (sv : SolverT) pc1 u :
  m_setup_done sv = true ->
  pc_unscale_data upd_ops (m_preconditioner sv) (m_data sv) = (pc1, u) ->
  m_data (update pc_ops upd_ops P A G c' b' h' x_lb x_ub' reuse sv)
  = (pc_scale_data pc_ops pc1 (update_data upd_ops P A G c' b' h' x_lb x_ub' u).1
       reuse (preconditioner_iter (m_settings sv))).2.
Proof.
  intros Hd Hu. unfold update. rewrite Hd, Hu. cbn [negb].
  cbv zeta. cbn [fst snd].
  change (m_data (set_m_data u (set_m_preconditioner pc1 sv))) with u.
  destruct (update_data upd_ops P A G c' b' h' x_lb x_ub' u) as [d2 o].
  cbn [fst snd].
  change (m_preconditioner (set_m_data d2 (set_m_data u (set_m_preconditioner pc1 sv))))
    with pc1.
  change (m_data (set_m_data d2 (set_m_data u (set_m_preconditioner pc1 sv)))) with d2.
  change (m_settings (set_m_data d2 (set_m_data u (set_m_preconditioner pc1 sv))))
    with (m_settings sv).
  destruct (pc_scale_data pc_ops pc1 d2 reuse (preconditioner_iter (m_settings sv)))
    as [pc3 d3].
  reflexivity.
Qed.

(** X9.  The box bounds after [update] with bound vectors of length n,
    on a solver that was set up, when [scale_data] keeps the dimensions
    and the layout of the box arrays, and the unscaled problem [u] has
    arrays of length n: in the stored problem, as in the setup, the
    active lower (upper) bounds are the entries above -PIQP_INF (below
    PIQP_INF), in their order, with their positions in the index map; the
    values handed to [scale_data] are the lower bounds negated and the
    upper bounds as they are. *)
Theorem update_box_bounds P A G c' b' h' (lb ub : list T) reuse (sv : SolverT) pc1 u :
  m_setup_done sv = true ->
  pc_unscale_data upd_ops (m_preconditioner sv) (m_data sv) = (pc1, u) ->
  scale_keeps_dims pc_ops -> scale_keeps_box_layout pc_ops ->
  length lb = n u -> length ub = n u ->
  length (x_lb_n u) = n u -> length (x_lb_idx u) = n u ->
  length (x_ub u) = n u -> length (x_ub_idx u) = n u ->
  let w := (update_data upd_ops P A G c' b' h' (Some lb) (Some ub) u).1 in
  let d' := m_data (update pc_ops upd_ops P A G c' b' h' (Some lb) (Some ub) reuse sv) in
  let finite_lb := List.filter lb_finite lb in
  let finite_ub := List.filter ub_finite ub in
  d' = (pc_scale_data pc_ops pc1 w reuse (preconditioner_iter (m_settings sv))).2
  /\ n d' = n u
  /\ n_lb d' = length finite_lb
  /\ (forall i, (i < n_lb d')%nat ->
        exists k v, x_lb_idx d' !! i = Some k /\ (k < n d')%nat
                    /\ lb !! k = Some v /\ finite_lb !! i = Some v
                    /\ x_lb_n w !! i = Some (- v)%sc)
  /\ (forall i j ki kj, (i < j)%nat -> (j < n_lb d')%nat ->
        x_lb_idx d' !! i = Some ki -> x_lb_idx d' !! j = Some kj -> (ki < kj)%nat)
  /\ n_ub d' = length finite_ub
  /\ (forall i, (i < n_ub d')%nat ->
        exists k v, x_ub_idx d' !! i = Some k /\ (k < n d')%nat
                    /\ ub !! k = Some v /\ finite_ub !! i = Some v
                    /\ x_ub w !! i = Some v)
  /\ (forall i j ki kj, (i < j)%nat -> (j < n_ub d')%nat ->
        x_ub_idx d' !! i = Some ki -> x_ub_idx d' !! j = Some kj -> (ki < kj)%nat).
Proof.
  intros Hdone Hu Hdims Hlay Hlb Hub L1 L2 L3 L4. cbv zeta.
  pose proof (update_stored_data P A G c' b' h' (Some lb) (Some ub) reuse Hdone Hu) as Ed.
  pose proof (@update_data_bounds P A G c' b' h' lb ub u Hlb Hub L1 L2 L3 L4) as Hb.
  cbv zeta in Hb.
  pose proof (update_data_n P A G c' b' h' (Some lb) (Some ub) u) as Hw.
  forget (update_data upd_ops P A G c' b' h' (Some lb) (Some ub) u).1 w.
  forget (m_data (update pc_ops upd_ops P A G c' b' h' (Some lb) (Some ub) reuse sv)) d1.
  pose proof (Hdims pc1 w reuse (preconditioner_iter (m_settings sv))) as Hd.
  pose proof (Hlay pc1 w reuse (preconditioner_iter (m_settings sv))) as Hl.
  cbv zeta in Hd, Hl. rewrite <- Ed in Hd, Hl.
  destruct Hd as (N1 & _ & _ & N4 & N5). destruct Hl as (I1 & I2 & _).
  split; [exact Ed|]. split; [congruence|].
  rewrite N1, N4, N5, I1, I2, Hw. exact Hb.
Qed.


End UpdateTheory.

(** ** The proximal centres and their counters *)

Section Centres.
Context {T : Type} `{Scalar T} {PC K : Type}.
Context (pc_ops : PreconditionerOps T PC) (kkt_ops : KKTOps T K).
Context (verify_settings : Settings T -> bool).
Local Abbreviation SolverT := (Solver T PC K).

Lemma centres_of_eq (r0 r1 : Result T) :
  centres_of r1 = centres_of r0 ->
  zeta r1 = zeta r0 /\ lambda r1 = lambda r0 /\ nu r1 = nu r0
  /\ nu_lb r1 = nu_lb r0 /\ nu_ub r1 = nu_ub r0.
Proof. unfold centres_of. intros [= -> -> -> -> ->]. done. Qed.

Lemma stalls_of_eq (i0 i1 : Info T) :
  stalls_of i1 = stalls_of i0 ->
  no_primal_update i1 = no_primal_update i0 /\ no_dual_update i1 = no_dual_update i0.
Proof. unfold stalls_of. intros [= -> ->]. done. Qed.

Lemma centres_predictor (sv : SolverT) :
  centres_of (m_result (predictor kkt_ops sv)) = centres_of (m_result sv)
  /\ stalls_of (sv_info (predictor kkt_ops sv)) = stalls_of (sv_info sv).
Proof. cbv beta delta [predictor]. cbv zeta. break_pair. split; reflexivity. Qed.

Lemma centres_corrector (sv : SolverT) :
  centres_of (m_result (corrector kkt_ops sv)) = centres_of (m_result sv)
  /\ stalls_of (sv_info (corrector kkt_ops sv)) = stalls_of (sv_info sv).
Proof. cbv beta delta [corrector]. cbv zeta. break_pair. split; reflexivity. Qed.

(** The update of rho: the centre zeta follows x, or stays and is counted. *)
Lemma centres_update_rho g b (sv : SolverT) :
  let sv' := update_rho pc_ops g b sv in
  let r0 := m_result sv in
  let r1 := m_result sv' in
  ((zeta r1 = x r0 /\ no_primal_update (sv_info sv') = no_primal_update (sv_info sv))
   \/ (zeta r1 = zeta r0
       /\ no_primal_update (sv_info sv') = (no_primal_update (sv_info sv) + 1)%Z))
  /\ no_dual_update (sv_info sv') = no_dual_update (sv_info sv)
  /\ (lambda r1 = lambda r0 /\ nu r1 = nu r0 /\ nu_lb r1 = nu_lb r0 /\ nu_ub r1 = nu_ub r0)
  /\ (x r1 = x r0 /\ y r1 = y r0 /\ slack_view r1 = slack_view r0)
  /\ m_data sv' = m_data sv.
Proof.
  cbv beta delta [update_rho]. cbv zeta.
  break_if; (split_and!; [|reflexivity..]); [left|right]; split; reflexivity.
Qed.

(** The update of delta with inequalities: the dual centres follow the
    duals, or stay and are counted. *)
Lemma centres_update_delta g b (sv : SolverT) :
  let sv' := update_delta pc_ops g b sv in
  let d := m_data sv in
  let r0 := m_result sv in
  let r1 := m_result sv' in
  ((lambda r1 = y r0 /\ nu r1 = z r0
    /\ nu_lb r1 = set_head (n_lb d) (vhead (n_lb d) (z_lb r0)) (nu_lb r0)
    /\ nu_ub r1 = set_head (n_ub d) (vhead (n_ub d) (z_ub r0)) (nu_ub r0)
    /\ no_dual_update (sv_info sv') = no_dual_update (sv_info sv))
   \/ (lambda r1 = lambda r0 /\ nu r1 = nu r0
       /\ nu_lb r1 = nu_lb r0 /\ nu_ub r1 = nu_ub r0
       /\ no_dual_update (sv_info sv') = (no_dual_update (sv_info sv) + 1)%Z))
  /\ no_primal_update (sv_info sv') = no_primal_update (sv_info sv)
  /\ zeta r1 = zeta r0
  /\ (x r1 = x r0 /\ y r1 = y r0 /\ slack_view r1 = slack_view r0)
  /\ m_data sv' = m_data sv.
Proof.
  cbv beta delta [update_delta]. cbv zeta.
  break_if; (split_and!; [|reflexivity..]); [left|right]; split_and!; reflexivity.
Qed.

(** The update of delta without inequalities. *)
Lemma centres_update_delta_eq g b (sv : SolverT) :
  let sv' := update_delta_eq pc_ops g b sv in
  let r0 := m_result sv in
  let r1 := m_result sv' in
  ((lambda r1 = y r0 /\ no_dual_update (sv_info sv') = no_dual_update (sv_info sv))
   \/ (lambda r1 = lambda r0
       /\ no_dual_update (sv_info sv') = (no_dual_update (sv_info sv) + 1)%Z))
  /\ no_primal_update (sv_info sv') = no_primal_update (sv_info sv)
  /\ (zeta r1 = zeta r0 /\ nu r1 = nu r0 /\ nu_lb r1 = nu_lb r0 /\ nu_ub r1 = nu_ub r0)
  /\ (x r1 = x r0 /\ y r1 = y r0 /\ slack_view r1 = slack_view r0)
  /\ m_data sv' = m_data sv.
Proof.
  cbv beta delta [update_delta_eq]. cbv zeta.
  break_if; (split_and!; [|reflexivity..]); [left|right]; split; reflexivity.
Qed.


(** What the pass keeps up to the updates of rho and delta. *)
Lemma centres_before_updates (sv : SolverT) :
  let su := update_iterate (corrector kkt_ops (predictor kkt_ops sv)) in
  forall c,
  let s3 := update_nr_residuals pc_ops (upd_info (set_mu c) su) in
  centres_of (m_result s3) = centres_of (m_result sv)
  /\ stalls_of (sv_info s3) = stalls_of (sv_info sv)
  /\ m_data s3 = m_data sv.
Proof.
  cbv zeta. intros c.
  destruct (centres_predictor sv) as [C1 S1].
  pose proof (proj1 (view_predictor kkt_ops sv)) as F1.
  forget (predictor kkt_ops sv) sp.
  destruct (centres_corrector sp) as [C2 S2].
  pose proof (proj1 (view_corrector kkt_ops sp)) as F2.
  forget (corrector kkt_ops sp) sc.
  assert (E : centres_of (m_result (update_nr_residuals pc_ops
                 (upd_info (set_mu c) (update_iterate sc)))) = centres_of (m_result sc)
              /\ stalls_of (sv_info (update_nr_residuals pc_ops
                   (upd_info (set_mu c) (update_iterate sc)))) = stalls_of (sv_info sc)
              /\ m_data (update_nr_residuals pc_ops
                   (upd_info (set_mu c) (update_iterate sc))) = m_data sc)
    by (split_and!; reflexivity).
  destruct E as (-> & -> & ->).
  unfold frame_of in *. split_and!; congruence.
Qed.

(** The proximal centres and their counters after a pass. *)
Lemma pass_centres (sv : SolverT) :
  let d := m_data sv in
  let r0 := m_result sv in
  let i0 := sv_info sv in
  (let sv' := predictor_corrector pc_ops kkt_ops sv in
   let r1 := m_result sv' in
   let i1 := sv_info sv' in
   ((zeta r1 = x r1 /\ no_primal_update i1 = no_primal_update i0)
    \/ (zeta r1 = zeta r0 /\ no_primal_update i1 = (no_primal_update i0 + 1)%Z))
   /\ ((lambda r1 = y r1 /\ nu r1 = z r1
        /\ nu_lb r1 = set_head (n_lb d) (vhead (n_lb d) (z_lb r1)) (nu_lb r0)
        /\ nu_ub r1 = set_head (n_ub d) (vhead (n_ub d) (z_ub r1)) (nu_ub r0)
        /\ no_dual_update i1 = no_dual_update i0)
       \/ (lambda r1 = lambda r0 /\ nu r1 = nu r0
           /\ nu_lb r1 = nu_lb r0 /\ nu_ub r1 = nu_ub r0
           /\ no_dual_update i1 = (no_dual_update i0 + 1)%Z)))
  /\ (let sv' := newton_step pc_ops kkt_ops sv in
      let r1 := m_result sv' in
      let i1 := sv_info sv' in
      ((zeta r1 = x r1 /\ no_primal_update i1 = no_primal_update i0)
       \/ (zeta r1 = zeta r0 /\ no_primal_update i1 = (no_primal_update i0 + 1)%Z))
      /\ ((lambda r1 = y r1 /\ no_dual_update i1 = no_dual_update i0)
          \/ (lambda r1 = lambda r0
              /\ no_dual_update i1 = (no_dual_update i0 + 1)%Z))
      /\ nu r1 = nu r0 /\ nu_lb r1 = nu_lb r0 /\ nu_ub r1 = nu_ub r0).
Proof.
  cbv zeta. split.
  - cbv beta delta [predictor_corrector]. cbv zeta.
    match goal with |- context [update_nr_residuals _ (upd_info (set_mu ?c) _)] =>
      pose proof (centres_before_updates sv c) as Hb end.
    cbv zeta in Hb. destruct Hb as (Cb & Sb & Db).
    apply centres_of_eq in Cb as (B1 & B2 & B3 & B4 & B5).
    apply stalls_of_eq in Sb as (B6 & B7).
    match goal with |- context [update_rho _ ?g ?b ?a] =>
      pose proof (centres_update_rho g b a) as Hr; forget a s3 end.
    cbv zeta in Hr. destruct Hr as (R1 & R2 & (R3 & R4 & R5 & R6) & (R7 & R8 & R9) & R10).
    apply slack_view_eq in R9 as (_ & _ & _ & Rz & Rzl & Rzu).
    match goal with |- context [update_delta _ ?g ?b ?a] =>
      pose proof (centres_update_delta g b a) as Hd; forget a s4;
      forget (update_delta pc_ops g b s4) s5 end.
    cbv zeta in Hd. destruct Hd as (D1 & D2 & D3 & (D4 & D5 & D6) & D7).
    apply slack_view_eq in D6 as (_ & _ & _ & Dz & Dzl & Dzu).
    rewrite D3, D4, D5, Dz, Dzl, Dzu, D2.
    split.
    + destruct R1 as [[E1 E2]|[E1 E2]]; [left|right]; split; congruence.
    + destruct D1 as [(E1 & E2 & E3 & E4 & E5)|(E1 & E2 & E3 & E4 & E5)]; [left|right];
        split_and!; congruence.
  - cbv beta delta [newton_step]. cbv zeta.
    match goal with |- context [update_rho _ ?g ?b ?a] =>
      assert (Hb : centres_of (m_result a) = centres_of (m_result sv)
                   /\ stalls_of (sv_info a) = stalls_of (sv_info sv))
        by (split; reflexivity);
      pose proof (centres_update_rho g b a) as Hr; forget a s3 end.
    destruct Hb as (Cb & Sb).
    apply centres_of_eq in Cb as (B1 & B2 & B3 & B4 & B5).
    apply stalls_of_eq in Sb as (B6 & B7).
    cbv zeta in Hr. destruct Hr as (R1 & R2 & (R3 & R4 & R5 & R6) & (R7 & R8 & R9) & R10).
    match goal with |- context [update_delta_eq _ ?g ?b ?a] =>
      pose proof (centres_update_delta_eq g b a) as Hd; forget a s4;
      forget (update_delta_eq pc_ops g b s4) s5 end.
    cbv zeta in Hd. destruct Hd as (D1 & D2 & (D3 & D4 & D5 & D6) & (D7 & D8 & D9) & D10).
    rewrite D3, D4, D5, D6, D7, D2.
    split; [|split; [|split_and!; congruence]].
    + destruct R1 as [[E1 E2]|[E1 E2]]; [left|right]; split; congruence.
    + destruct D1 as [[E1 E2]|[E1 E2]]; [left|right]; split; congruence.
Qed.

(** X13.  The proximal centres after a pass.  With inequalities: zeta
    is the new x, or it is the zeta from before and [no_primal_update] is
    one more; lambda, nu and the live parts of nu_lb, nu_ub are the new
    y, z, z_lb, z_ub, or all four are as before and [no_dual_update] is
    one more.  Without inequalities the same holds for zeta and for
    lambda, and nu, nu_lb, nu_ub are not touched. *)
Theorem pass_proximal_centres (sv : SolverT) :
  let d := m_data sv in
  let r0 := m_result sv in
  let i0 := sv_info sv in
  (let sv' := predictor_corrector pc_ops kkt_ops sv in
   let r1 := m_result sv' in
   let i1 := sv_info sv' in
   ((zeta r1 = x r1 /\ no_primal_update i1 = no_primal_update i0)
    \/ (zeta r1 = zeta r0 /\ no_primal_update i1 = (no_primal_update i0 + 1)%Z))
   /\ ((lambda r1 = y r1 /\ nu r1 = z r1
        /\ nu_lb r1 = set_head (n_lb d) (vhead (n_lb d) (z_lb r1)) (nu_lb r0)
        /\ nu_ub r1 = set_head (n_ub d) (vhead (n_ub d) (z_ub r1)) (nu_ub r0)
        /\ no_dual_update i1 = no_dual_update i0)
       \/ (lambda r1 = lambda r0 /\ nu r1 = nu r0
           /\ nu_lb r1 = nu_lb r0 /\ nu_ub r1 = nu_ub r0
           /\ no_dual_update i1 = (no_dual_update i0 + 1)%Z)))
  /\ (let sv' := newton_step pc_ops kkt_ops sv in
      let r1 := m_result sv' in
      let i1 := sv_info sv' in
      ((zeta r1 = x r1 /\ no_primal_update i1 = no_primal_update i0)
       \/ (zeta r1 = zeta r0 /\ no_primal_update i1 = (no_primal_update i0 + 1)%Z))
      /\ ((lambda r1 = y r1 /\ no_dual_update i1 = no_dual_update i0)
          \/ (lambda r1 = lambda r0
              /\ no_dual_update i1 = (no_dual_update i0 + 1)%Z))
      /\ nu r1 = nu r0 /\ nu_lb r1 = nu_lb r0 /\ nu_ub r1 = nu_ub r0).
Proof. apply pass_centres. Qed.



(** *** The counters across the passes *)

Lemma stalls_begin_iteration (sv : SolverT) :
  stalls_of (sv_info (begin_iteration pc_ops sv)) = stalls_of (sv_info sv).
Proof. cbv beta delta [begin_iteration]. cbv zeta. do 2 break_if; reflexivity. Qed.

Lemma stalls_refactorize (sv : SolverT) :
  let sf := (refactorize kkt_ops sv).2 in
  (no_primal_update (sv_info sf) = no_primal_update (sv_info sv)
   /\ no_dual_update (sv_info sf) = no_dual_update (sv_info sv))
  \/ (no_primal_update (sv_info sf) = 0%Z /\ no_dual_update (sv_info sf) = 0%Z).
Proof.
  cbv beta delta [refactorize relax_reg_limit factorize]. cbv zeta.
  break_if; break_pair; [right|left]; split; reflexivity.
Qed.

(** Neither counter grows faster than the iteration count. *)
Lemma stalls_continue (sv sv' : SolverT) :
  outer_iteration pc_ops kkt_ops sv = Continue sv' ->
  (0 <= no_primal_update (sv_info sv))%Z -> (0 <= no_dual_update (sv_info sv))%Z ->
  (0 <= no_primal_update (sv_info sv'))%Z /\ (0 <= no_dual_update (sv_info sv'))%Z
  /\ (no_primal_update (sv_info sv') - iter (sv_info sv')
      <= no_primal_update (sv_info sv) - iter (sv_info sv))%Z
  /\ (no_dual_update (sv_info sv') - iter (sv_info sv')
      <= no_dual_update (sv_info sv) - iter (sv_info sv))%Z.
Proof.
  intros Ho Hp Hd.
  pose proof (outer_iteration_continue Ho) as (_ & _ & Hcnt).
  apply outer_iteration_continue_cases in Ho. cbv zeta in Ho.
  pose proof (stalls_begin_iteration sv) as Sb.
  destruct (view_begin_iteration pc_ops sv) as [_ Cb].
  apply counters_of_eq in Cb as [Ib _].
  forget (begin_iteration pc_ops sv) sb.
  assert (Su : stalls_of (sv_info (update_residuals sb)) = stalls_of (sv_info sb)
               /\ iter (sv_info (update_residuals sb)) = iter (sv_info sb))
    by (split; reflexivity).
  destruct Su as [Su Iu].
  forget (update_residuals sb) su.
  pose proof (stalls_refactorize su) as Sf. cbv zeta in Sf.
  destruct (view_refactorize kkt_ops su) as (_ & If & _).
  forget (refactorize kkt_ops su) f. destruct f as [ok sf]. cbn [fst snd] in *.
  assert (Hsf : (0 <= no_primal_update (sv_info sf) <= no_primal_update (sv_info sv))%Z
                /\ (0 <= no_dual_update (sv_info sf) <= no_dual_update (sv_info sv))%Z).
  { apply stalls_of_eq in Su as [E3 E4]. apply stalls_of_eq in Sb as [E5 E6].
    destruct Sf as [[E1 E2]|[E1 E2]]; lia. }
  destruct Hsf as [Hsp Hsd].
  destruct Ho as [[_ ->]|[_ ->]].
  - assert (S0 : stalls_of (sv_info (upd_info (set_factor_retires 0%Z) sf))
                 = stalls_of (sv_info sf)
                 /\ iter (sv_info (upd_info (set_factor_retires 0%Z) sf))
                    = iter (sv_info sf)) by (split; reflexivity).
    destruct S0 as [S0 I0]. apply stalls_of_eq in S0 as [E1 E2].
    forget (upd_info (set_factor_retires 0%Z) sf) s0.
    pose proof (pass_centres s0) as Hc. cbv zeta in Hc.
    destruct Hc as [(Hz & Hl) (Hz' & Hl' & _)].
    destruct (0 <? N_ineq (m_data s0))%nat.
    + destruct (counters_of_eq (proj2 (view_predictor_corrector pc_ops kkt_ops s0)))
        as [Ip _].
      forget (predictor_corrector pc_ops kkt_ops s0) s1.
      assert (Hn : (no_primal_update (sv_info s1) <= no_primal_update (sv_info s0) + 1)%Z
                   /\ (no_primal_update (sv_info s0) <= no_primal_update (sv_info s1))%Z
                   /\ (no_dual_update (sv_info s1) <= no_dual_update (sv_info s0) + 1)%Z
                   /\ (no_dual_update (sv_info s0) <= no_dual_update (sv_info s1))%Z).
      { destruct Hz as [[_ ->]|[_ ->]], Hl as [(_ & _ & _ & _ & ->)|(_ & _ & _ & _ & ->)];
          lia. }
      lia.
    + destruct (counters_of_eq (proj2 (view_newton_step pc_ops kkt_ops s0))) as [Ip _].
      forget (newton_step pc_ops kkt_ops s0) s1.
      assert (Hn : (no_primal_update (sv_info s1) <= no_primal_update (sv_info s0) + 1)%Z
                   /\ (no_primal_update (sv_info s0) <= no_primal_update (sv_info s1))%Z
                   /\ (no_dual_update (sv_info s1) <= no_dual_update (sv_info s0) + 1)%Z
                   /\ (no_dual_update (sv_info s0) <= no_dual_update (sv_info s1))%Z).
      { destruct Hz' as [[_ ->]|[_ ->]], Hl' as [[_ ->]|[_ ->]]; lia. }
      lia.
  - assert (Sr : stalls_of (sv_info (retry_iteration sf)) = stalls_of (sv_info sf))
      by reflexivity.
    apply stalls_of_eq in Sr as [E1 E2].
    destruct (view_retry_iteration sf) as (_ & Ir & _).
    forget (retry_iteration sf) s1. lia.
Qed.

Lemma stalls_return (sv : SolverT) st (sv' : SolverT) :
  outer_iteration pc_ops kkt_ops sv = Return st sv' ->
  (0 <= no_primal_update (sv_info sv))%Z -> (0 <= no_dual_update (sv_info sv))%Z ->
  (0 <= no_primal_update (sv_info sv'))%Z /\ (0 <= no_dual_update (sv_info sv'))%Z
  /\ (no_primal_update (sv_info sv') - iter (sv_info sv')
      <= no_primal_update (sv_info sv) - iter (sv_info sv))%Z
  /\ (no_dual_update (sv_info sv') - iter (sv_info sv')
      <= no_dual_update (sv_info sv) - iter (sv_info sv))%Z.
Proof.
  intros Ho Hp Hd.
  apply outer_iteration_return_cases in Ho. cbv zeta in Ho.
  pose proof (stalls_begin_iteration sv) as Sb.
  destruct (view_begin_iteration pc_ops sv) as [_ Cb].
  apply counters_of_eq in Cb as [Ib _].
  forget (begin_iteration pc_ops sv) sb.
  assert (Su : stalls_of (sv_info (update_residuals sb)) = stalls_of (sv_info sb)
               /\ iter (sv_info (update_residuals sb)) = iter (sv_info sb))
    by (split; reflexivity).
  destruct Su as [Su Iu].
  forget (update_residuals sb) su.
  pose proof (stalls_refactorize su) as Sf. cbv zeta in Sf.
  destruct (view_refactorize kkt_ops su) as (_ & If & _).
  forget (refactorize kkt_ops su) f. destruct f as [ok sf]. cbn [fst snd] in *.
  apply stalls_of_eq in Sb as [E5 E6]. apply stalls_of_eq in Su as [E3 E4].
  assert (Hst : forall st' (a : SolverT),
             stalls_of (sv_info (upd_info (set_status st') a)) = stalls_of (sv_info a)
             /\ iter (sv_info (upd_info (set_status st') a)) = iter (sv_info a))
    by (intros; split; reflexivity).
  destruct Ho as [[_ ->]|[[_ ->]|[[_ ->]|(_ & -> & _)]]];
    match goal with |- context [upd_info (set_status ?st') ?a] =>
      destruct (Hst st' a) as [Hs Hi]; apply stalls_of_eq in Hs as [E1 E2];
      forget (upd_info (set_status st') a) s1 end;
    lia.
Qed.

Lemma outer_loop_stalls fuel (sv : SolverT) st (sv' : SolverT) :
  (0 <= no_primal_update (sv_info sv) <= iter (sv_info sv))%Z ->
  (0 <= no_dual_update (sv_info sv) <= iter (sv_info sv))%Z ->
  outer_loop pc_ops kkt_ops fuel sv = Some (st, sv') ->
  (0 <= no_primal_update (sv_info sv') <= iter (sv_info sv'))%Z
  /\ (0 <= no_dual_update (sv_info sv') <= iter (sv_info sv'))%Z.
Proof.
  intros Hp Hd.
  apply (@outer_loop_invariant _ _ _ _ pc_ops kkt_ops
    (fun s : SolverT =>
       (0 <= no_primal_update (sv_info s) <= iter (sv_info s))%Z
       /\ (0 <= no_dual_update (sv_info s) <= iter (sv_info s))%Z)
    (fun _ (s : SolverT) =>
       (0 <= no_primal_update (sv_info s) <= iter (sv_info s))%Z
       /\ (0 <= no_dual_update (sv_info s) <= iter (sv_info s))%Z)).
  - intros s s' [Ip Id] _ Hc.
    destruct (stalls_continue Hc) as (A & B & C & D); lia.
  - intros s st0 s' [Ip Id] _ Hr.
    destruct (stalls_return Hr) as (A & B & C & D); lia.
  - intros s [Ip Id] _. done.
  - done.
Qed.


Lemma initial_factorize_stalls fuel : forall (sv : SolverT) o,
  initial_factorize kkt_ops fuel sv = Some o ->
  let s' := match o with Return _ a => a | Continue a => a end in
  stalls_of (sv_info s') = stalls_of (sv_info sv)
  /\ iter (sv_info s') = iter (sv_info sv).
Proof.
  induction fuel as [|fuel IH]; intros sv o; [discriminate|].
  cbn [initial_factorize].
  destruct (view_factorize kkt_ops sv) as [_ If].
  destruct (factorize kkt_ops sv) as [ok sf]. cbn [snd] in *.
  destruct ok; [intros [= <-]; cbv zeta; by rewrite If|].
  break_if.
  - intros Hi. apply IH in Hi. cbv zeta in Hi |- *.
    assert (E : stalls_of (sv_info (inflate_regularisation sf)) = stalls_of (sv_info sf)
                /\ iter (sv_info (inflate_regularisation sf)) = iter (sv_info sf))
      by (split; reflexivity).
    destruct E as [E1 E2]. rewrite E1, E2, If in Hi. exact Hi.
  - intros [= <-]. cbv zeta. rewrite <- If. split; reflexivity.
Qed.

Lemma solve_prologue_stalls (sv : SolverT) o :
  solve_prologue kkt_ops verify_settings sv = Some o ->
  m_setup_done sv = true -> verify_settings (m_settings sv) = true ->
  let s' := match o with Return _ a => a | Continue a => a end in
  no_primal_update (sv_info s') = 0%Z /\ no_dual_update (sv_info s') = 0%Z
  /\ iter (sv_info s') = 0%Z.
Proof.
  intros Hp Hd Hv.
  destruct o as [st s1|s1].
  - revert Hp. cbv beta delta [solve_prologue]. cbv zeta.
    rewrite Hd, Hv. cbn [negb].
    assert (E0 : stalls_of (sv_info (reset_info sv)) = (0%Z, 0%Z)
                 /\ iter (sv_info (reset_info sv)) = 0%Z) by (split; reflexivity).
    destruct E0 as [S0 I0].
    forget (reset_info sv) s0.
    assert (E1 : let s := if negb (m_kkt_init_state s0)
                          then reset_scalings kkt_ops s0 else s0 in
                 stalls_of (sv_info s) = (0%Z, 0%Z) /\ iter (sv_info s) = 0%Z).
    { cbv zeta. destruct (negb (m_kkt_init_state s0)); [|done].
      rewrite <- S0, <- I0. split; reflexivity. }
    cbv zeta in E1. destruct E1 as [S1 I1].
    forget (if negb (m_kkt_init_state s0) then reset_scalings kkt_ops s0 else s0) s2.
    destruct (initial_factorize kkt_ops (initial_fuel s2) s2) as [o|] eqn:Hi;
      [|discriminate].
    apply initial_factorize_stalls in Hi. cbv zeta in Hi.
    destruct o as [st' s3|s3]; [|discriminate].
    intros [= _ <-]. destruct Hi as [Hs Hi]. rewrite S1 in Hs. rewrite I1 in Hi.
    cbv zeta. unfold stalls_of in Hs. injection Hs as -> ->. done.
  - apply solve_prologue_view in Hp.
    destruct Hp as (_ & _ & _ & _ & I & _ & P & D & _). done.
Qed.

(** X14.  The two counters [no_primal_update] and [no_dual_update]
    after [solve] on a solver that was set up, with valid settings: each
    lies between 0 and the iteration count [info.iter]. *)
Theorem solve_stall_counters (sv : SolverT) :
  m_setup_done sv = true -> verify_settings (m_settings sv) = true ->
  exists st (sv' : SolverT),
    solve pc_ops kkt_ops verify_settings sv = Some (st, sv')
    /\ (0 <= no_primal_update (info (m_result sv')) <= iter (info (m_result sv')))%Z
    /\ (0 <= no_dual_update (info (m_result sv')) <= iter (info (m_result sv')))%Z.
Proof.
  intros Hd Hv.
  destruct (solve_total pc_ops kkt_ops verify_settings sv) as (st & sv1 & Hi & Hs).
  exists st, (restore_box_dual (unscale_results pc_ops sv1)).
  split; [exact Hs|].
  pose proof (view_finish pc_ops sv1) as Vf. cbv zeta in Vf. destruct Vf as (_ & If & _).
  unfold sv_info in If. rewrite If. clear If Hs.
  unfold solve_impl in Hi.
  destruct (solve_prologue kkt_ops verify_settings sv) as [o|] eqn:Hp; [|discriminate].
  pose proof (solve_prologue_stalls Hp Hd Hv) as Hz. cbv zeta in Hz.
  destruct o as [st0 s0|s0].
  - injection Hi as <- <-. unfold sv_info in Hz. lia.
  - destruct Hz as (P & D & I).
    apply outer_loop_stalls in Hi; [exact Hi|lia|lia].
Qed.

End Centres.

(** ** [restore_box_dual] at the two ends: no bound active, all active *)

Section RestoreEdges.
Context {T : Type} `{Scalar T} {PC K : Type}.
Local Abbreviation SolverT := (Solver T PC K).

Lemma swap_same {A : Type} i (v : list A) : swap i i v = v.
Proof.
  unfold swap. destruct (v !! i) as [a|] eqn:E; [|done].
  by rewrite list_insert_insert_eq, list_insert_id.
Qed.

(** An index map of all [len] variables is the identity. *)
Lemma full_index_identity len idx :
  box_index_ok len len idx = true ->
  forall i, (i < len)%nat -> idx !! i = Some i.
Proof.
  intros Hok.
  assert (Hup : forall g i, (i + g < len)%nat ->
            exists a a', idx !! i = Some a /\ idx !! (i + g)%nat = Some a'
                         /\ (a + g <= a')%nat).
  { induction g as [|g IH]; intros i Hi.
    - destruct (box_index_ok_lookup Hok (i := i)) as (a & Ha & _); [lia|].
      exists a, a. rewrite Nat.add_0_r. split_and!; [done|done|lia].
    - destruct (IH i) as (a & a' & Ha & Ha' & Hle); [lia|].
      destruct (box_index_ok_lookup Hok (i := (i + g)%nat)) as (b & Hb & _ & _ & Hinc);
        [lia|].
      destruct (box_index_ok_lookup Hok (i := (i + S g)%nat)) as (c & Hc & _); [lia|].
      specialize (Hinc (i + S g)%nat c ltac:(lia) ltac:(lia) Hc).
      exists a, c. split_and!; [done|done|]. assert (a' = b) by congruence. lia. }
  intros i Hi.
  destruct (Hup (len - 1 - i)%nat i) as (a & a' & Ha & Ha' & Hle); [lia|].
  destruct (box_index_ok_lookup Hok (i := i)) as (b & Hb & Hib & _); [lia|].
  destruct (box_index_ok_lookup Hok (i := (i + (len - 1 - i))%nat))
    as (c & Hc & _ & Hlt & _); [lia|].
  assert (a = b) by congruence. assert (a' = c) by congruence.
  rewrite Ha. f_equal. lia.
Qed.

Lemma restore_vec_identity {A : Type} idx k : forall v : list A,
  (forall i, (i < k)%nat -> idx !! i = Some i) -> restore_vec idx k v = v.
Proof.
  induction k as [|k IH]; intros v Hid; [done|].
  cbn [restore_vec]. rewrite (Hid k) by lia. cbn [default].
  rewrite swap_same. apply IH. intros i Hi. apply Hid. lia.
Qed.

Lemma fill_tail_all {A : Type} (c : A) (v : list A) len :
  length v = len -> fill_tail len c v = replicate len c.
Proof. intros <-. unfold fill_tail. by rewrite Nat.sub_diag, take_0. Qed.

Lemma fill_tail_none {A : Type} (c : A) (v : list A) : fill_tail 0 c v = v.
Proof. unfold fill_tail. rewrite Nat.sub_0_r, take_ge by lia. apply app_nil_r. Qed.

Lemma restore_lb_loop_unboxed (idx : list nat) k : forall r0 : Result T,
  unboxed_of (restore_lb_loop idx k r0) = unboxed_of r0.
Proof.
  induction k as [|k IH]; intros r0; [done|].
  cbn [restore_lb_loop]. cbv zeta. rewrite IH. reflexivity.
Qed.

Lemma restore_ub_loop_unboxed (idx : list nat) k : forall r0 : Result T,
  unboxed_of (restore_ub_loop idx k r0) = unboxed_of r0.
Proof.
  induction k as [|k IH]; intros r0; [done|].
  cbn [restore_ub_loop]. cbv zeta. rewrite IH. reflexivity.
Qed.

(** X15.  [restore_box_dual] at its two ends, on box vectors of length
    n.  It changes nothing but the six box vectors.  With no lower bound
    active, z_lb and nu_lb become zero and s_lb infinity in every place;
    with all n lower bounds active (and the index map of the setup) the
    three vectors are left as they are.  The same holds for the upper
    bounds. *)
Theorem restore_box_dual_edges (sv : SolverT) :
  let d := m_data sv in
  let r0 := m_result sv in
  let r1 := m_result (restore_box_dual sv) in
  unboxed_of r1 = unboxed_of r0
  /\ (length (z_lb r0) = n d -> length (s_lb r0) = n d -> length (nu_lb r0) = n d ->
      (n_lb d = 0%nat ->
       z_lb r1 = replicate (n d) sc_zero /\ s_lb r1 = replicate (n d) sc_infinity
       /\ nu_lb r1 = replicate (n d) sc_zero)
      /\ (n_lb d = n d -> box_index_ok (n d) (n_lb d) (x_lb_idx d) = true ->
          z_lb r1 = z_lb r0 /\ s_lb r1 = s_lb r0 /\ nu_lb r1 = nu_lb r0))
  /\ (length (z_ub r0) = n d -> length (s_ub r0) = n d -> length (nu_ub r0) = n d ->
      (n_ub d = 0%nat ->
       z_ub r1 = replicate (n d) sc_zero /\ s_ub r1 = replicate (n d) sc_infinity
       /\ nu_ub r1 = replicate (n d) sc_zero)
      /\ (n_ub d = n d -> box_index_ok (n d) (n_ub d) (x_ub_idx d) = true ->
          z_ub r1 = z_ub r0 /\ s_ub r1 = s_ub r0 /\ nu_ub r1 = nu_ub r0)).
Proof.
  cbv zeta.
  change (m_result (restore_box_dual sv))
    with (restore_box_dual_result (m_data sv) (m_result sv)).
  forget (m_data sv) d. forget (m_result sv) r0.
  pose proof (restore_box_dual_result_fields d r0) as Hf. cbv zeta in Hf.
  destruct Hf as (-> & -> & -> & -> & -> & ->).
  split.
  { unfold restore_box_dual_result. cbv zeta.
    rewrite restore_ub_loop_unboxed, restore_lb_loop_unboxed. reflexivity. }
  split.
  - intros L1 L2 L3. split.
    + intros ->. rewrite Nat.sub_0_r. cbn [restore_vec].
      rewrite !fill_tail_all by done. done.
    + intros E Hok. rewrite E in *. rewrite Nat.sub_diag, !fill_tail_none.
      pose proof (full_index_identity Hok) as Hid.
      rewrite !restore_vec_identity by done. done.
  - intros L1 L2 L3. split.
    + intros ->. rewrite Nat.sub_0_r. cbn [restore_vec].
      rewrite !fill_tail_all by done. done.
    + intros E Hok. rewrite E in *. rewrite Nat.sub_diag, !fill_tail_none.
      pose proof (full_index_identity Hok) as Hid.
      rewrite !restore_vec_identity by done. done.
Qed.

End RestoreEdges.

(** ** [setup] followed by [solve] *)

Section SetupSolve.
Context {T : Type} `{Scalar T} {PC K : Type}.
Context (pc_ops : PreconditionerOps T PC) (kkt_ops : KKTOps T K).
Context (verify_settings : Settings T -> bool).
Local Abbreviation SolverT := (Solver T PC K).

(** X16.  [solve] right after [setup], whatever the problem and the
    state of the solver before: the status is never UNSOLVED, it is
    INVALID_SETTINGS exactly when the settings are refused, and the
    problem that [setup] stored is still there afterwards. *)
Theorem setup_then_solve P A G c' b' h' lb ub (sv : SolverT) :
  let s1 := setup_impl pc_ops kkt_ops P A G c' b' h' lb ub sv in
  exists st (sv' : SolverT),
    solve pc_ops kkt_ops verify_settings s1 = Some (st, sv')
    /\ st <> PIQP_UNSOLVED
    /\ (st = PIQP_INVALID_SETTINGS <-> verify_settings (m_settings sv) = false)
    /\ status (info (m_result sv')) = st
    /\ m_data sv' = m_data s1 /\ m_settings sv' = m_settings sv
    /\ m_setup_done sv' = true.
Proof.
  cbv zeta.
  pose proof (setup_impl_after_workspace pc_ops kkt_ops P A G c' b' h' lb ub sv) as Ha.
  cbv zeta in Ha. destruct Ha as (_ & Hs & _ & Hd & _).
  assert (Hs' : m_settings (init_workspace (upd_data (setup_data P A G c' b' h' lb ub) sv))
                = m_settings sv) by reflexivity.
  rewrite Hs' in Hs. clear Hs'.
  forget (setup_impl pc_ops kkt_ops P A G c' b' h' lb ub sv) s1.
  destruct (solve_total pc_ops kkt_ops verify_settings s1) as (st & sv1 & Hi & Hsol).
  exists st, (restore_box_dual (unscale_results pc_ops sv1)).
  split; [exact Hsol|].
  pose proof (view_finish pc_ops sv1) as Vf. cbv zeta in Vf.
  destruct Vf as (Ff & If & _).
  pose proof (solve_impl_view Hi) as Hw. cbv zeta in Hw. destruct Hw as (F & S & Hc).
  rewrite F in Ff. unfold frame_of in Ff. unfold sv_info in If, S. rewrite If.
  forget (restore_box_dual (unscale_results pc_ops sv1)) sv'.
  injection Ff as E1 E2 E3 E4. rewrite E1, E2, E4, Hs, Hd.
  destruct Hc as [[_ Hd']|[(-> & _ & Hv)|(_ & Hv & Hst & _)]]; [congruence| |].
  - rewrite Hs in Hv. split_and!; done.
  - rewrite Hs in Hv. split_and!; try done.
    + intros ->. destruct Hst as [|[|[|[|]]]]; discriminate.
    + split; [|congruence]. intros ->. destruct Hst as [|[|[|[|]]]]; discriminate.
Qed.

End SetupSolve.

(** ** The dimensions of the result through [solve] *)

Section VectorSizes.
Context {T : Type} `{Scalar T}.

Lemma length_vadd (u v : list T) : length (vadd u v) = (length u `min` length v)%nat.
Proof. unfold vadd. apply length_zip_with. Qed.

Lemma length_vscale (a : T) (v : list T) : length (vscale a v) = length v.
Proof. unfold vscale. apply length_map. Qed.

Lemma length_vshift (v : list T) (a : T) : length (vshift v a) = length v.
Proof. unfold vshift. apply length_map. Qed.

Lemma length_setConstant (c : T) (v : list T) : length (setConstant c v) = length v.
Proof. unfold setConstant. apply length_replicate. Qed.

Lemma length_vhead (k : nat) (v : list T) : length (vhead k v) = (k `min` length v)%nat.
Proof. unfold vhead. apply length_take. Qed.

Lemma length_set_head (k : nat) (w v : list T) :
  length (set_head k w v) = ((k `min` length w) + (length v - k))%nat.
Proof. unfold set_head. by rewrite length_app, length_take, length_drop. Qed.

Lemma length_fill_tail {A : Type} (k : nat) (c : A) (v : list A) :
  (k <= length v)%nat -> length (fill_tail k c v) = length v.
Proof.
  intros Hk. unfold fill_tail. rewrite length_app, length_take, length_replicate. lia.
Qed.

Lemma sizes_of_ext (r0 r1 : Result T) :
  iterate_of r1 = iterate_of r0 -> sizes_of r1 = sizes_of r0.
Proof.
  unfold iterate_of, sizes_of. intros [= -> -> -> -> -> -> -> -> -> -> -> -> ->]. done.
Qed.

Lemma result_sized_ext (d : Data T) (r0 r1 : Result T) :
  iterate_of r1 = iterate_of r0 -> result_sized d r0 -> result_sized d r1.
Proof.
  intros Hi (H1 & H2 & H3). split_and!; [done|done|].
  by rewrite (sizes_of_ext Hi).
Qed.

End VectorSizes.

Create Rewrite HintDb sizes.
#[local] Hint Rewrite @length_vadd @length_vscale @length_vshift @length_setConstant
  @length_vhead @length_set_head : sizes.

(** From the vectors after a step, given by the equation [E] in terms
    of those before, to their lengths. *)
Ltac sized_step E :=
  let Hlb := fresh "Hlb" in
  let Hub := fresh "Hub" in
  let Hsz := fresh "Hsz" in
  let Ef1 := fresh "Ef1" in
  let Ef2 := fresh "Ef2" in
  let Ef3 := fresh "Ef3" in
  let Ef4 := fresh "Ef4" in
  let Ef5 := fresh "Ef5" in
  let Ef6 := fresh "Ef6" in
  let Ef7 := fresh "Ef7" in
  let Ef8 := fresh "Ef8" in
  let Ef9 := fresh "Ef9" in
  let Ef10 := fresh "Ef10" in
  let Ef11 := fresh "Ef11" in
  let Ef12 := fresh "Ef12" in
  let Ef13 := fresh "Ef13" in
  let Lf1 := fresh "Lf1" in
  let Lf2 := fresh "Lf2" in
  let Lf3 := fresh "Lf3" in
  let Lf4 := fresh "Lf4" in
  let Lf5 := fresh "Lf5" in
  let Lf6 := fresh "Lf6" in
  let Lf7 := fresh "Lf7" in
  let Lf8 := fresh "Lf8" in
  let Lf9 := fresh "Lf9" in
  let Lf10 := fresh "Lf10" in
  let Lf11 := fresh "Lf11" in
  let Lf12 := fresh "Lf12" in
  let Lf13 := fresh "Lf13" in
  unfold iterate_of in E;
  injection E as Ef1 Ef2 Ef3 Ef4 Ef5 Ef6 Ef7 Ef8 Ef9 Ef10 Ef11 Ef12 Ef13;
  intros (Hlb & Hub & Hsz); unfold sizes_of in Hsz;
  injection Hsz as Lf1 Lf2 Lf3 Lf4 Lf5 Lf6 Lf7 Lf8 Lf9 Lf10 Lf11 Lf12 Lf13;
  split_and!; [assumption|assumption|];
  unfold sizes_of;
  rewrite Ef1, Ef2, Ef3, Ef4, Ef5, Ef6, Ef7, Ef8, Ef9, Ef10, Ef11, Ef12, Ef13;
  unfold upd_head; cbn beta;
  autorewrite with sizes;
  rewrite ?Lf1, ?Lf2, ?Lf3, ?Lf4, ?Lf5, ?Lf6, ?Lf7, ?Lf8, ?Lf9, ?Lf10, ?Lf11, ?Lf12, ?Lf13;
  repeat f_equal; lia.

Section SolveSizes.
Context {T : Type} `{Scalar T} {PC K : Type}.
Context (pc_ops : PreconditionerOps T PC) (kkt_ops : KKTOps T K).
Context (verify_settings : Settings T -> bool).
Local Abbreviation SolverT := (Solver T PC K).

Lemma sized_reset_scalings (sv : SolverT) :
  result_sized (m_data sv) (m_result sv) ->
  result_sized (m_data sv) (m_result (reset_scalings kkt_ops sv)).
Proof.
  assert (E : iterate_of (m_result (reset_scalings kkt_ops sv))
    = (let d := m_data sv in
       let r0 := m_result sv in
       let one := setConstant sc_one in
       (x r0, y r0, one (z r0), upd_head (n_lb d) one (z_lb r0),
        upd_head (n_ub d) one (z_ub r0), one (s r0), upd_head (n_lb d) one (s_lb r0),
        upd_head (n_ub d) one (s_ub r0),
        zeta r0, lambda r0, nu r0, nu_lb r0, nu_ub r0))) by reflexivity.
  cbv zeta in E.
  forget (m_result (reset_scalings kkt_ops sv)) r1.
  forget (m_data sv) d. forget (m_result sv) r0.
  sized_step E.
Qed.


Lemma sized_initial_solve (sv : SolverT) :
  kkt_sized kkt_ops ->
  result_sized (m_data sv) (m_result sv) ->
  result_sized (m_data sv) (m_result (initial_solve kkt_ops sv)).
Proof.
  intros Hk.
  assert (E : exists out, block_sized (m_data sv) out
    /\ iterate_of (m_result (initial_solve kkt_ops sv))
       = (let r0 := m_result sv in
          (b_x out, b_y out, b_z out, b_z_lb out, b_z_ub out,
           b_s out, b_s_lb out, b_s_ub out,
           zeta r0, lambda r0, nu r0, nu_lb r0, nu_ub r0))).
  { exists (kkt_solve kkt_ops (m_data sv) (m_kkt sv)
              (Build_Block8 (vneg (c (m_data sv))) (b (m_data sv)) (h (m_data sv))
                 (x_lb_n (m_data sv)) (x_ub (m_data sv))
                 (setZero (rs sv)) (setZero (rs_lb sv)) (setZero (rs_ub sv)))).
    split; [apply Hk|]. reflexivity. }
  destruct E as (out & (B1 & B2 & B3 & B4 & B5 & B6 & B7 & B8) & E). cbv zeta in E.
  forget (m_result (initial_solve kkt_ops sv)) r1.
  forget (m_data sv) d. forget (m_result sv) r0.
  sized_step E.
Qed.

Lemma sized_reset_slacks (sv : SolverT) :
  result_sized (m_data sv) (m_result sv) ->
  result_sized (m_data sv) (m_result (reset_slacks sv)).
Proof.
  assert (E : iterate_of (m_result (reset_slacks sv))
    = (let d := m_data sv in
       let r0 := m_result sv in
       let tenth := setConstant (sc_dec 1 10) in
       (x r0, y r0, tenth (z r0), upd_head (n_lb d) tenth (z_lb r0),
        upd_head (n_ub d) tenth (z_ub r0), tenth (s r0), upd_head (n_lb d) tenth (s_lb r0),
        upd_head (n_ub d) tenth (s_ub r0),
        zeta r0, lambda r0, nu r0, nu_lb r0, nu_ub r0))) by reflexivity.
  cbv zeta in E.
  forget (m_result (reset_slacks sv)) r1.
  forget (m_data sv) d. forget (m_result sv) r0.
  sized_step E.
Qed.

Lemma sized_shift_slacks (sv : SolverT) :
  result_sized (m_data sv) (m_result sv) ->
  result_sized (m_data sv) (m_result (shift_slacks sv)).
Proof.
  assert (E : iterate_of (m_result (shift_slacks sv))
    = (let d := m_data sv in
       let r0 := m_result sv in
       let by_s := fun v => vshift v (shift_s d r0) in
       let by_z := fun v => vshift v (shift_z d r0) in
       (x r0, y r0, by_z (z r0), upd_head (n_lb d) by_z (z_lb r0),
        upd_head (n_ub d) by_z (z_ub r0), by_s (s r0), upd_head (n_lb d) by_s (s_lb r0),
        upd_head (n_ub d) by_s (s_ub r0),
        zeta r0, lambda r0, nu r0, nu_lb r0, nu_ub r0))) by reflexivity.
  cbv zeta in E.
  forget (m_result (shift_slacks sv)) r1.
  forget (shift_s (m_data sv) (m_result sv)) bs.
  forget (shift_z (m_data sv) (m_result sv)) bz.
  forget (m_data sv) d. forget (m_result sv) r0.
  sized_step E.
Qed.

Lemma sized_set_prox_centres (sv : SolverT) :
  result_sized (m_data sv) (m_result sv) ->
  result_sized (m_data sv) (m_result (set_prox_centres sv)).
Proof.
  assert (E : iterate_of (m_result (set_prox_centres sv))
    = (let d := m_data sv in
       let r0 := m_result sv in
       (x r0, y r0, z r0, z_lb r0, z_ub r0, s r0, s_lb r0, s_ub r0,
        x r0, y r0, z r0,
        set_head (n_lb d) (vhead (n_lb d) (z_lb r0)) (nu_lb r0),
        set_head (n_ub d) (vhead (n_ub d) (z_ub r0)) (nu_ub r0)))) by reflexivity.
  cbv zeta in E.
  forget (m_result (set_prox_centres sv)) r1.
  forget (m_data sv) d. forget (m_result sv) r0.
  sized_step E.
Qed.

Lemma sized_update_iterate (sv : SolverT) :
  steps_sized (m_data sv) sv ->
  result_sized (m_data sv) (m_result sv) ->
  result_sized (m_data sv) (m_result (update_iterate sv)).
Proof.
  intros (B1 & B2 & B3 & B4 & B5 & B6 & B7 & B8).
  assert (E : iterate_of (m_result (update_iterate sv))
    = (let d := m_data sv in
       let r0 := m_result sv in
       let ps := primal_step (sv_info sv) in
       let dl := dual_step (sv_info sv) in
       (vadd (x r0) (vscale ps (dx sv)), vadd (y r0) (vscale dl (dy sv)),
        vadd (z r0) (vscale dl (dz sv)),
        upd_head (n_lb d) (fun v => vadd v (vscale dl (vhead (n_lb d) (dz_lb sv))))
          (z_lb r0),
        upd_head (n_ub d) (fun v => vadd v (vscale dl (vhead (n_ub d) (dz_ub sv))))
          (z_ub r0),
        vadd (s r0) (vscale ps (ds sv)),
        upd_head (n_lb d) (fun v => vadd v (vscale ps (vhead (n_lb d) (ds_lb sv))))
          (s_lb r0),
        upd_head (n_ub d) (fun v => vadd v (vscale ps (vhead (n_ub d) (ds_ub sv))))
          (s_ub r0),
        zeta r0, lambda r0, nu r0, nu_lb r0, nu_ub r0))) by reflexivity.
  cbv zeta in E.
  forget (m_result (update_iterate sv)) r1.
  forget (primal_step (sv_info sv)) ps. forget (dual_step (sv_info sv)) dl.
  forget (dx sv) vx. forget (dy sv) vy. forget (dz sv) vz. forget (dz_lb sv) vzl.
  forget (dz_ub sv) vzu. forget (ds sv) vs. forget (ds_lb sv) vsl. forget (ds_ub sv) vsu.
  forget (m_data sv) d. forget (m_result sv) r0.
  sized_step E.
Qed.


Lemma sized_update_rho g b (sv : SolverT) :
  result_sized (m_data sv) (m_result sv) ->
  result_sized (m_data sv) (m_result (update_rho pc_ops g b sv)).
Proof.
  cbv beta delta [update_rho]. cbv zeta. break_if.
  - assert (E : forall f, iterate_of (m_result (upd_info f
                 (upd_result (fun r0 => set_zeta (x r0) r0) sv)))
      = (let r0 := m_result sv in
         (x r0, y r0, z r0, z_lb r0, z_ub r0, s r0, s_lb r0, s_ub r0,
          x r0, lambda r0, nu r0, nu_lb r0, nu_ub r0))) by reflexivity.
    match goal with |- context [upd_info ?f _] => specialize (E f);
      forget (m_result (upd_info f (upd_result (fun r0 => set_zeta (x r0) r0) sv))) r1 end.
    cbv zeta in E. forget (m_data sv) d. forget (m_result sv) r0.
    sized_step E.
  - apply result_sized_ext. reflexivity.
Qed.

Lemma sized_update_delta g b (sv : SolverT) :
  result_sized (m_data sv) (m_result sv) ->
  result_sized (m_data sv) (m_result (update_delta pc_ops g b sv)).
Proof.
  destruct (centres_update_delta pc_ops g b sv)
    as (Hc & _ & Hz & (Hx & Hy & Hs) & _).
  apply slack_view_eq in Hs as (S1 & S2 & S3 & S4 & S5 & S6).
  forget (m_result (update_delta pc_ops g b sv)) r1.
  forget (m_data sv) d. forget (m_result sv) r0.
  intros (Hlb & Hub & Hsz). unfold sizes_of in Hsz.
  injection Hsz as L1 L2 L3 L4 L5 L6 L7 L8 L9 L10 L11 L12 L13.
  split_and!; [done|done|]. unfold sizes_of.
  rewrite Hx, Hy, S1, S2, S3, S4, S5, S6, Hz.
  destruct Hc as [(-> & -> & -> & -> & _)|(-> & -> & -> & -> & _)];
    autorewrite with sizes; repeat f_equal; lia.
Qed.

Lemma sized_update_delta_eq g b (sv : SolverT) :
  result_sized (m_data sv) (m_result sv) ->
  result_sized (m_data sv) (m_result (update_delta_eq pc_ops g b sv)).
Proof.
  destruct (centres_update_delta_eq pc_ops g b sv)
    as (Hc & _ & (Hz & Hn & Hnl & Hnu) & (Hx & Hy & Hs) & _).
  apply slack_view_eq in Hs as (S1 & S2 & S3 & S4 & S5 & S6).
  forget (m_result (update_delta_eq pc_ops g b sv)) r1.
  forget (m_data sv) d. forget (m_result sv) r0.
  intros (Hlb & Hub & Hsz). unfold sizes_of in Hsz.
  injection Hsz as L1 L2 L3 L4 L5 L6 L7 L8 L9 L10 L11 L12 L13.
  split_and!; [done|done|]. unfold sizes_of.
  rewrite Hx, Hy, S1, S2, S3, S4, S5, S6, Hz, Hn, Hnl, Hnu.
  destruct Hc as [[-> _]|[-> _]]; repeat f_equal; lia.
Qed.

(** The steps that [m_kkt.solve] leaves. *)
Lemma sized_solve_direction (sv : SolverT) :
  kkt_sized kkt_ops ->
  steps_sized (m_data sv) (solve_direction kkt_ops sv)
  /\ iterate_of (m_result (solve_direction kkt_ops sv)) = iterate_of (m_result sv)
  /\ m_data (solve_direction kkt_ops sv) = m_data sv.
Proof.
  intros Hk. split; [|split; reflexivity].
  exact (Hk (m_data sv) (m_kkt sv)
           (Build_Block8 (rx sv) (ry sv) (rz sv) (rz_lb sv) (rz_ub sv)
              (rs sv) (rs_lb sv) (rs_ub sv))).
Qed.

Lemma steps_sized_ext (d : Data T) (a a' : SolverT) :
  (dx a', dy a', dz a', dz_lb a', dz_ub a', ds a', ds_lb a', ds_ub a')
  = (dx a, dy a, dz a, dz_lb a, dz_ub a, ds a, ds_lb a, ds_ub a) ->
  steps_sized d a -> steps_sized d a'.
Proof. unfold steps_sized. intros [= -> -> -> -> -> -> -> ->]. done. Qed.

Lemma sized_corrector (sv : SolverT) :
  kkt_sized kkt_ops ->
  let sc := corrector kkt_ops (predictor kkt_ops sv) in
  steps_sized (m_data sv) sc
  /\ iterate_of (m_result sc) = iterate_of (m_result sv)
  /\ m_data sc = m_data sv.
Proof.
  intros Hk. cbv zeta.
  assert (Ep : iterate_of (m_result (predictor kkt_ops sv)) = iterate_of (m_result sv)
               /\ m_data (predictor kkt_ops sv) = m_data sv).
  { cbv beta delta [predictor]. cbv zeta. break_pair. split; reflexivity. }
  destruct Ep as [<- <-].
  forget (predictor kkt_ops sv) sp.
  cbv beta delta [corrector]. cbv zeta.
  match goal with |- context [step_to_boundary (solve_direction _ ?a)] =>
    assert (Ea : iterate_of (m_result a) = iterate_of (m_result sp)
                 /\ m_data a = m_data sp) by (split; reflexivity);
    destruct (sized_solve_direction a Hk) as (B & Ei & Ed);
    destruct Ea as [Ea1 Ea2]; rewrite Ea1 in Ei; rewrite Ea2 in B, Ed;
    forget (solve_direction kkt_ops a) sd end.
  break_pair.
  split_and!; [|rewrite <- Ei; reflexivity|rewrite <- Ed; reflexivity].
  revert B. apply steps_sized_ext. reflexivity.
Qed.

Lemma sized_predictor_corrector (sv : SolverT) :
  kkt_sized kkt_ops ->
  result_sized (m_data sv) (m_result sv) ->
  result_sized (m_data sv) (m_result (predictor_corrector pc_ops kkt_ops sv)).
Proof.
  intros Hk Hs. cbv beta delta [predictor_corrector]. cbv zeta.
  destruct (sized_corrector sv Hk) as (B & Ei & Ed). cbv zeta in B, Ei, Ed.
  forget (corrector kkt_ops (predictor kkt_ops sv)) sc.
  rewrite <- Ed in *.
  apply (result_sized_ext Ei) in Hs.
  apply (sized_update_iterate B) in Hs.
  assert (Eu : m_data (update_iterate sc) = m_data sc) by reflexivity.
  rewrite <- Eu in Hs.
  forget (update_iterate sc) su.
  match goal with |- context [update_nr_residuals _ (upd_info ?f su)] =>
    assert (En : iterate_of (m_result (update_nr_residuals pc_ops (upd_info f su)))
                 = iterate_of (m_result su)
                 /\ m_data (update_nr_residuals pc_ops (upd_info f su)) = m_data su)
      by (split; reflexivity);
    forget (update_nr_residuals pc_ops (upd_info f su)) s3 end.
  destruct En as [En Dn]. apply (result_sized_ext En) in Hs. rewrite <- Dn in *.
  match goal with |- context [update_rho _ ?g ?b s3] =>
    apply (sized_update_rho g b) in Hs;
    pose proof (proj1 (view_update_rho pc_ops g b s3)) as Fr;
    forget (update_rho pc_ops g b s3) s4 end.
  assert (Dr : m_data s4 = m_data s3) by (unfold frame_of in Fr; congruence).
  rewrite <- Dr in *.
  match goal with |- context [update_delta _ ?g ?b s4] =>
    apply (sized_update_delta g b) in Hs end.
  match goal with |- result_sized ?d _ => replace d with (m_data s4) by congruence end.
  exact Hs.
Qed.

Lemma sized_newton_step (sv : SolverT) :
  kkt_sized kkt_ops ->
  result_sized (m_data sv) (m_result sv) ->
  result_sized (m_data sv) (m_result (newton_step pc_ops kkt_ops sv)).
Proof.
  intros Hk Hs. cbv beta delta [newton_step]. cbv zeta.
  destruct (sized_solve_direction sv Hk) as ((B1 & B2 & _) & Ei & Ed).
  apply (result_sized_ext Ei) in Hs. rewrite <- Ed in *.
  forget (solve_direction kkt_ops sv) sd.
  match goal with |- context [update_nr_residuals _ ?a] =>
    assert (En : iterate_of (m_result (update_nr_residuals pc_ops a))
                 = (let r0 := m_result sd in
                    (vadd (x r0) (vscale sc_one (dx sd)), vadd (y r0) (vscale sc_one (dy sd)),
                     z r0, z_lb r0, z_ub r0, s r0, s_lb r0, s_ub r0,
                     zeta r0, lambda r0, nu r0, nu_lb r0, nu_ub r0))
                 /\ m_data (update_nr_residuals pc_ops a) = m_data sd)
      by (split; reflexivity);
    forget (update_nr_residuals pc_ops a) s3 end.
  destruct En as [En Dn]. cbv zeta in En.
  assert (H3 : result_sized (m_data s3) (m_result s3)).
  { rewrite Dn. revert Hs.
    forget (m_result s3) r1. forget (dx sd) vx. forget (dy sd) vy.
    forget (m_data sd) d. forget (m_result sd) r0.
    sized_step En. }
  rewrite <- Dn. clear Hs En.
  match goal with |- context [update_rho _ ?g ?b s3] =>
    apply (sized_update_rho g b) in H3;
    pose proof (proj1 (view_update_rho pc_ops g b s3)) as Fr;
    forget (update_rho pc_ops g b s3) s4 end.
  assert (Dr : m_data s4 = m_data s3) by (unfold frame_of in Fr; congruence).
  rewrite <- Dr in *.
  match goal with |- context [update_delta_eq _ ?g ?b s4] =>
    apply (sized_update_delta_eq g b) in H3 end.
  match goal with |- result_sized ?d _ => replace d with (m_data s4) by congruence end.
  exact H3.
Qed.


(** *** The passes and the prologue *)

Lemma sized_shape (a a' : SolverT) :
  shape_of a' = shape_of a ->
  result_sized (m_data a) (m_result a) -> result_sized (m_data a') (m_result a').
Proof.
  unfold shape_of. intros E Hs.
  assert (Hd : m_data a' = m_data a) by congruence.
  assert (Hi : iterate_of (m_result a') = iterate_of (m_result a)) by congruence.
  rewrite Hd. by apply (result_sized_ext Hi).
Qed.

Lemma shape_begin_iteration (sv : SolverT) :
  shape_of (begin_iteration pc_ops sv) = shape_of sv.
Proof. cbv beta delta [begin_iteration]. cbv zeta. do 2 break_if; reflexivity. Qed.

Lemma shape_refactorize (sv : SolverT) :
  shape_of (refactorize kkt_ops sv).2 = shape_of sv.
Proof.
  cbv beta delta [refactorize relax_reg_limit factorize]. cbv zeta.
  break_if; break_pair; reflexivity.
Qed.

Lemma shape_to_refactorize (sv : SolverT) :
  shape_of (begin_iteration pc_ops sv) = shape_of sv
  /\ shape_of (update_residuals (begin_iteration pc_ops sv)) = shape_of sv
  /\ shape_of (refactorize kkt_ops (update_residuals (begin_iteration pc_ops sv))).2
     = shape_of sv.
Proof.
  pose proof (shape_begin_iteration sv) as Sb.
  forget (begin_iteration pc_ops sv) sb.
  assert (Su : shape_of (update_residuals sb) = shape_of sb) by reflexivity.
  forget (update_residuals sb) su.
  pose proof (shape_refactorize su) as Sf.
  forget ((refactorize kkt_ops su).2) sf.
  split_and!; congruence.
Qed.

Lemma sized_continue (sv sv' : SolverT) :
  kkt_sized kkt_ops ->
  outer_iteration pc_ops kkt_ops sv = Continue sv' ->
  result_sized (m_data sv) (m_result sv) -> result_sized (m_data sv') (m_result sv').
Proof.
  intros Hk Ho Hs.
  pose proof (proj1 (outer_iteration_continue Ho)) as Hf.
  assert (Hd : m_data sv' = m_data sv) by (unfold frame_of in Hf; congruence).
  rewrite Hd. clear Hf Hd.
  apply outer_iteration_continue_cases in Ho. cbv zeta in Ho.
  destruct (shape_to_refactorize sv) as (_ & _ & Sf).
  forget (refactorize kkt_ops (update_residuals (begin_iteration pc_ops sv))) f.
  destruct f as [ok sf]. cbn [fst snd] in *.
  assert (S0 : shape_of (upd_info (set_factor_retires 0%Z) sf) = shape_of sv)
    by (rewrite <- Sf; reflexivity).
  assert (Sr : shape_of (retry_iteration sf) = shape_of sv)
    by (rewrite <- Sf; reflexivity).
  destruct Ho as [[_ ->]|[_ ->]].
  - forget (upd_info (set_factor_retires 0%Z) sf) s0.
    pose proof (sized_shape S0 Hs) as H0.
    assert (Hd : m_data s0 = m_data sv) by (unfold shape_of in S0; congruence).
    rewrite <- Hd.
    destruct (0 <? N_ineq (m_data s0))%nat.
    + by apply sized_predictor_corrector.
    + by apply sized_newton_step.
  - pose proof (sized_shape Sr Hs) as H0.
    assert (Hd : m_data (retry_iteration sf) = m_data sv)
      by (unfold shape_of in Sr; congruence).
    rewrite <- Hd. exact H0.
Qed.

Lemma sized_return (sv : SolverT) st (sv' : SolverT) :
  outer_iteration pc_ops kkt_ops sv = Return st sv' ->
  result_sized (m_data sv) (m_result sv) -> result_sized (m_data sv') (m_result sv').
Proof.
  intros Ho Hs.
  apply outer_iteration_return_cases in Ho. cbv zeta in Ho.
  destruct (shape_to_refactorize sv) as (Sb & Su & Sf).
  forget (begin_iteration pc_ops sv) sb.
  forget (update_residuals sb) su.
  forget (refactorize kkt_ops su) f. destruct f as [ok sf]. cbn [fst snd] in *.
  assert (Hst : forall st' (a : SolverT),
             shape_of (upd_info (set_status st') a) = shape_of a) by reflexivity.
  destruct Ho as [[_ ->]|[[_ ->]|[[_ ->]|(_ & -> & _)]]];
    (eapply sized_shape; [|exact Hs]); rewrite Hst; done.
Qed.

Lemma sized_outer_loop fuel (sv : SolverT) st (sv' : SolverT) :
  kkt_sized kkt_ops ->
  result_sized (m_data sv) (m_result sv) ->
  outer_loop pc_ops kkt_ops fuel sv = Some (st, sv') ->
  result_sized (m_data sv') (m_result sv').
Proof.
  intros Hk Hs.
  apply (@outer_loop_invariant _ _ _ _ pc_ops kkt_ops
    (fun s : SolverT => result_sized (m_data s) (m_result s))
    (fun _ (s : SolverT) => result_sized (m_data s) (m_result s))).
  - intros s s' Hi _ Hc. by eapply sized_continue.
  - intros s st0 s' Hi _ Hr. by eapply sized_return.
  - intros s Hi _. revert Hi. apply sized_shape. reflexivity.
  - exact Hs.
Qed.

Lemma shape_initial_factorize fuel : forall (sv : SolverT) o,
  initial_factorize kkt_ops fuel sv = Some o ->
  shape_of (match o with Return _ a => a | Continue a => a end) = shape_of sv.
Proof.
  induction fuel as [|fuel IH]; intros sv o; [discriminate|].
  cbn [initial_factorize].
  assert (Ef : shape_of (factorize kkt_ops sv).2 = shape_of sv)
    by (cbv beta delta [factorize]; break_pair; reflexivity).
  destruct (factorize kkt_ops sv) as [ok sf]. cbn [snd] in Ef.
  destruct ok; [intros [= <-]; exact Ef|].
  break_if.
  - intros Hi. apply IH in Hi. rewrite Hi, <- Ef. reflexivity.
  - intros [= <-]. rewrite <- Ef. reflexivity.
Qed.

Lemma sized_initial_slacks (sv : SolverT) :
  result_sized (m_data sv) (m_result sv) ->
  result_sized (m_data (initial_slacks sv)) (m_result (initial_slacks sv)).
Proof.
  intros Hs.
  assert (Hd : m_data (initial_slacks sv) = m_data sv)
    by (pose proof (proj1 (view_initial_slacks sv)) as F; unfold frame_of in F;
        congruence).
  rewrite Hd. clear Hd.
  cbv beta delta [initial_slacks]. cbv zeta.
  destruct (0 <? N_ineq (m_data sv))%nat; [|done].
  destruct (slack_norm sv <=? sc_dec 1 10000)%sc.
  - apply sized_reset_slacks in Hs.
    assert (Hd : m_data (reset_slacks sv) = m_data sv) by reflexivity.
    rewrite <- Hd in *. forget (reset_slacks sv) s1. by apply sized_shift_slacks.
  - by apply sized_shift_slacks.
Qed.

Lemma sized_solve_prologue (sv : SolverT) o :
  kkt_sized kkt_ops ->
  solve_prologue kkt_ops verify_settings sv = Some o ->
  result_sized (m_data sv) (m_result sv) ->
  let s' := match o with Return _ a => a | Continue a => a end in
  result_sized (m_data s') (m_result s').
Proof.
  intros Hk. cbv beta delta [solve_prologue]. cbv zeta. unfold return_status.
  destruct (negb (m_setup_done sv));
    [intros [= <-]; apply sized_shape; reflexivity|].
  destruct (negb (verify_settings (m_settings sv)));
    [intros [= <-]; apply sized_shape; reflexivity|].
  intros Hp Hs.
  assert (H0 : result_sized (m_data (reset_info sv)) (m_result (reset_info sv)))
    by (revert Hs; apply sized_shape; reflexivity).
  forget (reset_info sv) s0.
  assert (H1 : let s := if negb (m_kkt_init_state s0)
                        then reset_scalings kkt_ops s0 else s0 in
               result_sized (m_data s) (m_result s)).
  { cbv zeta. destruct (negb (m_kkt_init_state s0)); [|done].
    apply sized_reset_scalings in H0. exact H0. }
  cbv zeta in H1.
  forget (if negb (m_kkt_init_state s0) then reset_scalings kkt_ops s0 else s0) s1.
  destruct (initial_factorize kkt_ops (initial_fuel s1) s1) as [o1|] eqn:Hi;
    [|discriminate].
  apply shape_initial_factorize in Hi.
  destruct o1 as [st sf|sf]; [injection Hp as <-; by apply (sized_shape Hi)|].
  apply (sized_shape Hi) in H1.
  assert (H2 : result_sized (m_data (upd_info (set_factor_retires 0%Z) sf))
                 (m_result (upd_info (set_factor_retires 0%Z) sf)))
    by (revert H1; apply sized_shape; reflexivity).
  revert Hp.
  forget (upd_info (set_factor_retires 0%Z) sf) s2.
  apply (sized_initial_solve Hk) in H2.
  assert (Hd : m_data (initial_solve kkt_ops s2) = m_data s2) by reflexivity.
  rewrite <- Hd in H2.
  forget (initial_solve kkt_ops s2) s3.
  apply sized_initial_slacks in H2.
  forget (initial_slacks s3) s4.
  apply sized_set_prox_centres in H2.
  assert (Hd4 : m_data (set_prox_centres s4) = m_data s4) by reflexivity.
  rewrite <- Hd4 in H2.
  forget (set_prox_centres s4) s5.
  intros [= <-]. exact H2.
Qed.

Lemma sized_solve_impl (sv : SolverT) st (sv' : SolverT) :
  kkt_sized kkt_ops ->
  solve_impl pc_ops kkt_ops verify_settings sv = Some (st, sv') ->
  result_sized (m_data sv) (m_result sv) ->
  result_sized (m_data sv') (m_result sv').
Proof.
  intros Hk. unfold solve_impl.
  destruct (solve_prologue kkt_ops verify_settings sv) as [o|] eqn:Hp; [|discriminate].
  intros Hl Hs.
  pose proof (sized_solve_prologue Hk Hp Hs) as H0. cbv zeta in H0.
  destruct o as [st0 s0|s0].
  - by injection Hl as <- <-.
  - by eapply sized_outer_loop.
Qed.


(** *** The two steps after [solve_impl] *)

Lemma sized_unscale_results (sv : SolverT) :
  pc_sized pc_ops ->
  result_sized (m_data sv) (m_result sv) ->
  result_sized (m_data sv) (m_result (unscale_results pc_ops sv)).
Proof.
  intros Hp.
  assert (E : iterate_of (m_result (unscale_results pc_ops sv))
    = (let d := m_data sv in
       let r0 := m_result sv in
       let pc := m_preconditioner sv in
       (unscale_primal pc_ops pc (x r0), unscale_dual_eq pc_ops pc (y r0),
        unscale_dual_ineq pc_ops pc (z r0),
        upd_head (n_lb d) (unscale_dual_lb pc_ops pc) (z_lb r0),
        upd_head (n_ub d) (unscale_dual_ub pc_ops pc) (z_ub r0),
        unscale_slack_ineq pc_ops pc (s r0),
        upd_head (n_lb d) (unscale_slack_lb pc_ops pc) (s_lb r0),
        upd_head (n_ub d) (unscale_slack_ub pc_ops pc) (s_ub r0),
        unscale_primal pc_ops pc (zeta r0), unscale_dual_eq pc_ops pc (lambda r0),
        unscale_dual_ineq pc_ops pc (nu r0),
        upd_head (n_lb d) (unscale_dual_lb pc_ops pc) (nu_lb r0),
        upd_head (n_ub d) (unscale_dual_ub pc_ops pc) (nu_ub r0)))) by reflexivity.
  cbv zeta in E.
  forget (m_result (unscale_results pc_ops sv)) r1.
  forget (m_preconditioner sv) pc.
  forget (m_data sv) d. forget (m_result sv) r0.
  unfold iterate_of in E.
  injection E as E1 E2 E3 E4 E5 E6 E7 E8 E9 E10 E11 E12 E13.
  intros (Hlb & Hub & Hsz). unfold sizes_of in Hsz.
  injection Hsz as L1 L2 L3 L4 L5 L6 L7 L8 L9 L10 L11 L12 L13.
  split_and!; [done|done|]. unfold sizes_of.
  rewrite E1, E2, E3, E4, E5, E6, E7, E8, E9, E10, E11, E12, E13.
  unfold upd_head.
  assert (Q1 : forall v, length (unscale_primal pc_ops pc v) = length v)
    by (intros v; apply (Hp pc v)).
  assert (Q2 : forall v, length (unscale_dual_eq pc_ops pc v) = length v)
    by (intros v; apply (Hp pc v)).
  assert (Q3 : forall v, length (unscale_dual_ineq pc_ops pc v) = length v)
    by (intros v; apply (Hp pc v)).
  assert (Q4 : forall v, length (unscale_dual_lb pc_ops pc v) = length v)
    by (intros v; apply (Hp pc v)).
  assert (Q5 : forall v, length (unscale_dual_ub pc_ops pc v) = length v)
    by (intros v; apply (Hp pc v)).
  assert (Q6 : forall v, length (unscale_slack_ineq pc_ops pc v) = length v)
    by (intros v; apply (Hp pc v)).
  assert (Q7 : forall v, length (unscale_slack_lb pc_ops pc v) = length v)
    by (intros v; apply (Hp pc v)).
  assert (Q8 : forall v, length (unscale_slack_ub pc_ops pc v) = length v)
    by (intros v; apply (Hp pc v)).
  rewrite !length_set_head, ?Q1, ?Q2, ?Q3, ?Q4, ?Q5, ?Q6, ?Q7, ?Q8, !length_vhead.
  repeat f_equal; lia.
Qed.

Lemma sized_restore_box_dual (sv : SolverT) :
  result_sized (m_data sv) (m_result sv) ->
  result_sized (m_data sv) (m_result (restore_box_dual sv)).
Proof.
  change (m_result (restore_box_dual sv))
    with (restore_box_dual_result (m_data sv) (m_result sv)).
  forget (m_data sv) d. forget (m_result sv) r0.
  pose proof (restore_box_dual_result_fields d r0) as Hf. cbv zeta in Hf.
  destruct Hf as (F1 & F2 & F3 & F4 & F5 & F6).
  assert (Hu : unboxed_of (restore_box_dual_result d r0) = unboxed_of r0).
  { unfold restore_box_dual_result. cbv zeta.
    rewrite restore_ub_loop_unboxed, restore_lb_loop_unboxed. reflexivity. }
  forget (restore_box_dual_result d r0) r1.
  unfold unboxed_of in Hu. injection Hu as U1 U2 U3 U4 U5 U6 U7 U8.
  intros (Hlb & Hub & Hsz). unfold sizes_of in Hsz.
  injection Hsz as L1 L2 L3 L4 L5 L6 L7 L8 L9 L10 L11 L12 L13.
  split_and!; [done|done|]. unfold sizes_of.
  rewrite U1, U2, U3, U4, U5, U6, U7, F1, F2, F3, F4, F5, F6.
  rewrite !restore_vec_length, !length_fill_tail by lia.
  repeat f_equal; lia.
Qed.

(** The dimensions of the result through [solve]. *)
Lemma sized_solve (sv : SolverT) :
  kkt_sized kkt_ops -> pc_sized pc_ops ->
  result_sized (m_data sv) (m_result sv) ->
  exists st (sv' : SolverT),
    solve pc_ops kkt_ops verify_settings sv = Some (st, sv')
    /\ m_data sv' = m_data sv
    /\ result_sized (m_data sv') (m_result sv').
Proof.
  intros Hk Hp Hs.
  destruct (solve_total pc_ops kkt_ops verify_settings sv) as (st & sv1 & Hi & Hsol).
  exists st, (restore_box_dual (unscale_results pc_ops sv1)).
  split; [exact Hsol|].
  pose proof (view_finish pc_ops sv1) as Vf. cbv zeta in Vf. destruct Vf as (Ff & _).
  pose proof (solve_impl_view Hi) as Hw. cbv zeta in Hw. destruct Hw as (F & _).
  assert (Hd : m_data (restore_box_dual (unscale_results pc_ops sv1)) = m_data sv)
    by (rewrite F in Ff; unfold frame_of in Ff; congruence).
  split; [exact Hd|]. rewrite Hd.
  assert (Hd1 : m_data sv1 = m_data sv) by (unfold frame_of in F; congruence).
  apply (sized_solve_impl Hk Hi) in Hs.
  apply (sized_unscale_results Hp) in Hs.
  assert (Hdu : m_data (unscale_results pc_ops sv1) = m_data sv1) by reflexivity.
  rewrite <- Hdu in Hs.
  forget (unscale_results pc_ops sv1) su.
  apply sized_restore_box_dual in Hs.
  replace (m_data sv) with (m_data su) by congruence. exact Hs.
Qed.

(** X17.  With a KKT operator that writes steps of the dimensions of
    the problem, and a preconditioner that unscales entry by entry:
    if the vectors of the result have the dimensions of the stored
    problem before [solve] (as they have after the setup), they have them
    afterwards, whatever the status; the stored problem is the same. *)
Theorem solve_keeps_sizes (sv : SolverT) :
  kkt_sized kkt_ops -> pc_sized pc_ops ->
  result_sized (m_data sv) (m_result sv) ->
  exists st (sv' : SolverT),
    solve pc_ops kkt_ops verify_settings sv = Some (st, sv')
    /\ m_data sv' = m_data sv
    /\ result_sized (m_data sv') (m_result sv').
Proof. apply sized_solve. Qed.



(** X18.  [setup] and then [solve], with such a KKT operator and
    preconditioner, and a [scale_data] that keeps the dimensions: the
    vectors that [solve] returns have the dimensions of the problem that
    was set up: x, zeta and the box vectors as many entries as P has
    rows, y and lambda as many as A, and z, s and nu as many as G. *)
Theorem setup_solve_sizes P A G c' b' h' lb ub (sv : SolverT) :
  kkt_sized kkt_ops -> pc_sized pc_ops -> scale_keeps_dims pc_ops ->
  let s1 := setup_impl pc_ops kkt_ops P A G c' b' h' lb ub sv in
  exists st (sv' : SolverT),
    solve pc_ops kkt_ops verify_settings s1 = Some (st, sv')
    /\ sizes_of (m_result sv')
       = (length P, length A, length G, length P, length P,
          length G, length P, length P,
          length P, length A, length G, length P, length P).
Proof.
  intros Hk Hp Hq. cbv zeta.
  pose proof (setup_impl_sizes pc_ops kkt_ops P A G c' b' h' lb ub sv) as Hw.
  cbv zeta in Hw.
  destruct Hw as ((X1 & X2 & X3 & X4 & X5 & X6 & X7 & X8) & (Y1 & Y2)
                  & (Z1 & Z2 & Z3) & _).
  pose proof (setup_impl_data pc_ops kkt_ops P A G c' b' h' lb ub sv) as Hd.
  cbv zeta in Hd.
  pose proof (setup_data_counts P A G c' b' h' lb ub (m_data sv)) as Hc.
  cbv zeta in Hc. destruct Hc as (N1 & N2 & N3 & _ & _ & _ & _ & Nl & Nu & _).
  match type of Hd with _ = (pc_scale_data _ ?pc ?d ?r ?i).2 =>
    pose proof (Hq pc d r i) as Hs end.
  cbv zeta in Hs. rewrite <- Hd in Hs. destruct Hs as (S1 & S2 & S3 & S4 & S5).
  clear Hd.
  forget (setup_data P A G c' b' h' lb ub (m_data sv)) d0.
  forget (setup_impl pc_ops kkt_ops P A G c' b' h' lb ub sv) s1.
  assert (Hs1 : result_sized (m_data s1) (m_result s1)).
  { split_and!; [lia|lia|]. unfold sizes_of.
    rewrite X1, X2, X3, X4, X5, X6, X7, X8, Y1, Y2, Z1, Z2, Z3.
    repeat f_equal; lia. }
  destruct (sized_solve Hk Hp Hs1) as (st & sv' & Hsol & Hd' & (_ & _ & Hsz)).
  exists st, sv'. split; [exact Hsol|].
  rewrite Hsz, Hd'. repeat f_equal; lia.
Qed.

End SolveSizes.
(** The example back-ends keep the sizes. *)
Lemma fitted_ops_sized : kkt_sized fitted_ops.
Proof.
  intros d k rhs. unfold block_sized. cbn.
  rewrite !resize_length. done.
Qed.

Lemma no_scaling_sized : pc_sized no_scaling.
Proof. intros pc v. cbn. done. Qed.

Lemma no_scaling_keeps_dims : scale_keeps_dims no_scaling.
Proof. intros pc d reuse it. cbn. done. Qed.

Lemma no_scaling_keeps_layout : scale_keeps_box_layout no_scaling.
Proof. intros pc d reuse it. cbn. done. Qed.

Lemma uniform_scaling_keeps_dims k : scale_keeps_dims (uniform_scaling k).
Proof. intros pc d reuse it. cbn. done. Qed.

Lemma uniform_scaling_keeps_layout k : scale_keeps_box_layout (uniform_scaling k).
Proof. intros pc d reuse it. cbn. rewrite !length_map. done. Qed.

(** C8 (amended) on the bounds of the boxed problem, without scaling:
    the stored values are the bounds themselves. *)
Lemma setup_box_bounds_witness :
  length boxed_lb = length identity2 /\ length boxed_ub = length identity2
  /\ let d' := m_data (setup_impl no_scaling script_ops identity2 [] [] [0; 1]%Q [] []
                         (Some boxed_lb) (Some boxed_ub) boxed_blank) in
     n_lb d' = 1%nat /\ x_lb_idx d' !! 0%nat = Some 1%nat
     /\ n_ub d' = 1%nat /\ x_ub d' !! 0%nat = Some 10%Q.
Proof.
  split; [reflexivity|]. split; [reflexivity|].
  pose proof (@setup_box_bounds _ _ _ _ no_scaling script_ops identity2 [] [] [0; 1]%Q
                [] [] boxed_lb boxed_ub boxed_blank eq_refl eq_refl
                no_scaling_keeps_dims no_scaling_keeps_layout) as H.
  cbv zeta in H. destruct H as (_ & _ & H1 & _ & _ & H2 & _).
  cbv zeta. split_and!; [exact H1| |exact H2|]; vm_compute; reflexivity.
Defined.

(** C8 as stated fails with a preconditioner that scales the variables by 2:
    the lower bound -4 and the upper bound 10 are the finite ones,
    [setup_lb_data] and [setup_ub_data] store 4 and 10, and after the
    setup [x_lb_n(0)] is 8 and [x_ub(0)] is 20. *)
Lemma setup_stores_scaled_bounds :
  let d' := m_data (setup_impl (uniform_scaling 2) script_ops identity2 [] [] [0; 1]%Q
                      [] [] (Some scaled_lb) (Some scaled_ub) boxed_blank) in
  length scaled_lb = length identity2 /\ length scaled_ub = length identity2
  /\ List.filter (fun v => sc_gtb v (- PIQP_INF)%sc) scaled_lb = [- (4)]%Q
  /\ List.filter (fun v => (v <? PIQP_INF)%sc) scaled_ub = [10]%Q
  /\ n_lb d' = 1%nat /\ n_ub d' = 1%nat
  /\ x_lb_n d' !! 0%nat = Some 8%Q /\ x_ub d' !! 0%nat = Some 20%Q
  /\ ~ (8 == - (- (4)))%Q /\ ~ (20 == 10)%Q.
Proof.
  cbv zeta. split_and!; try (vm_compute; reflexivity); intros E; vm_compute in E; lia.
Qed.

(** X6 on the boxed problem, with that preconditioner. *)
Lemma setup_box_counts_witness :
  let d' := m_data (setup_impl (uniform_scaling 2) script_ops identity2 [] [] [0; 1]%Q
                      [] [] (Some scaled_lb) None boxed_blank) in
  n d' = 2%nat /\ (n_lb d' <= n d')%nat /\ n_ub d' = 0%nat.
Proof.
  pose proof (@setup_box_counts _ _ _ _ (uniform_scaling 2) script_ops identity2 [] []
                [0; 1]%Q [] [] (Some scaled_lb) None boxed_blank
                (uniform_scaling_keeps_dims 2) (uniform_scaling_keeps_layout 2)) as H.
  cbv zeta in H. destruct H as (H1 & _ & _ & _ & _ & _ & _ & H2 & _ & _ & H3).
  cbv zeta. split_and!; [exact H1 | exact H2 | exact (H3 eq_refl)].
Defined.

(** X3 on the boxed problem. *)
Lemma solve_iteration_count_witness :
  exists st sv',
    solve no_scaling script_ops positive_settings boxed_solver = Some (st, sv')
    /\ (0 <= iter (info (m_result sv')) <= Z.max 0 (max_iter (m_settings boxed_solver)))%Z
    /\ (st = PIQP_MAX_ITER_REACHED ->
        iter (info (m_result sv')) = Z.max 0 (max_iter (m_settings boxed_solver)))
    /\ (st = PIQP_SOLVED \/ st = PIQP_PRIMAL_INFEASIBLE \/ st = PIQP_DUAL_INFEASIBLE ->
        (iter (info (m_result sv')) < max_iter (m_settings boxed_solver))%Z).
Proof.
  apply (@solve_iteration_count _ _ _ _ no_scaling script_ops positive_settings boxed_solver);
    vm_compute; reflexivity.
Defined.

(** X4 on the problem whose factorisation fails twice. *)
Lemma solve_retry_count_witness :
  exists st sv',
    solve no_scaling script_ops positive_settings twofold_solver = Some (st, sv')
    /\ (0 <= factor_retires (info (m_result sv'))
        <= Z.max 0 (max_factor_retires (m_settings twofold_solver)))%Z
    /\ (st = PIQP_NUMERICS ->
        factor_retires (info (m_result sv'))
        = Z.max 0 (max_factor_retires (m_settings twofold_solver))).
Proof.
  apply (@solve_retry_count _ _ _ _ no_scaling script_ops positive_settings twofold_solver);
    vm_compute; reflexivity.
Defined.

(** X9 on the boxed problem: the bounds are exchanged, so that the first
    variable gets the active lower bound. *)
Lemma update_box_bounds_witness :
  let lb := [0; - (10 ^ 30)]%Q in
  let ub := [5; 10 ^ 30]%Q in
  let d' := m_data (update no_scaling plain_update None None None None None None
                      (Some lb) (Some ub) true boxed_solver) in
  n_lb d' = 1%nat /\ x_lb_idx d' !! 0%nat = Some 0%nat
  /\ n_ub d' = 1%nat /\ x_ub d' !! 0%nat = Some 5%Q.
Proof.
  pose proof (@update_box_bounds _ _ _ _ no_scaling plain_update None None None None None
                None [0; - (10 ^ 30)]%Q [5; 10 ^ 30]%Q true boxed_solver
                tt (m_data boxed_solver) eq_refl eq_refl
                no_scaling_keeps_dims no_scaling_keeps_layout
                eq_refl eq_refl eq_refl eq_refl eq_refl eq_refl) as H.
  cbv zeta in H. destruct H as (_ & _ & H1 & _ & _ & H2 & _).
  cbv zeta. split_and!; [exact H1| |exact H2|]; vm_compute; reflexivity.
Defined.

(** X14 on the boxed problem. *)
Lemma solve_stall_counters_witness :
  exists st sv',
    solve no_scaling script_ops positive_settings boxed_solver = Some (st, sv')
    /\ (0 <= no_primal_update (info (m_result sv')) <= iter (info (m_result sv')))%Z
    /\ (0 <= no_dual_update (info (m_result sv')) <= iter (info (m_result sv')))%Z.
Proof.
  apply (@solve_stall_counters _ _ _ _ no_scaling script_ops positive_settings boxed_solver);
    vm_compute; reflexivity.
Defined.


(** X17 on the boxed problem. *)
Lemma solve_keeps_sizes_witness :
  exists st sv',
    solve no_scaling fitted_ops positive_settings boxed_solver = Some (st, sv')
    /\ m_data sv' = m_data boxed_solver
    /\ result_sized (m_data sv') (m_result sv').
Proof.
  apply (@solve_keeps_sizes _ _ _ _ no_scaling fitted_ops positive_settings boxed_solver
           fitted_ops_sized no_scaling_sized).
  split; [vm_compute; lia|]. split; [vm_compute; lia|]. vm_compute. reflexivity.
Defined.

(** X18 on the boxed problem. *)
Lemma setup_solve_sizes_witness :
  exists st sv',
    solve no_scaling fitted_ops positive_settings
      (setup_impl no_scaling fitted_ops identity2 [] [] [0; 1]%Q [] []
         (Some boxed_lb) (Some boxed_ub) boxed_blank) = Some (st, sv')
    /\ sizes_of (m_result sv')
       = (2, 0, 0, 2, 2, 0, 2, 2, 2, 0, 0, 2, 2)%nat.
Proof.
  exact (@setup_solve_sizes _ _ _ _ no_scaling fitted_ops positive_settings
           identity2 [] [] [0; 1]%Q [] [] (Some boxed_lb) (Some boxed_ub) boxed_blank
           fitted_ops_sized no_scaling_sized no_scaling_keeps_dims).
Defined.

